(* ===== verification/_CoqProject ===== *)
-Q . S2P
Prelude.v
Ownership.v
OwnershipTheorems.v
Ieee.v
CppStd.v
RosMsgs.v
MapProjector.v
RouteMap.v
Geometry.v
GeometryTheorems.v
LaneletMap.v
MapDebug.v
LaneletMapFacts.v
MapComponents.v
MapDebugTheorems.v
TripTypes.v
TripController.v
TripRules.v
TripInvariant.v
Providers.v
StreamClient.v
AutowareController.v
Frames.v
Bridge.v
BridgeFacts.v
LocationBridge.v
ClusterBridge.v
PlanningBridge.v
TripBridge.v
PerceptionBridge.v
App.v
Agent.v
SharedState.v
SharedTheorems.v
Main.v
Zenoh.v
NodeFacts.v
TripProtocol.v
TripQueries.v
TripPacing.v
TripLiveness.v
TripJourney.v
TripEta.v
NodeTheorems.v
StreamTheorems.v
AppTheorems.v
AppReports.v
BridgeTheorems.v
ClusterFrames.v
FrameTheorems.v
AgentTheorems.v
Adapters.v
AgentParts.v
ZenohTheorems.v
AgentKeeps.v
MainTheorems.v
Fixture.v
TripTheorems.v
TripWitnesses.v
MapTheorems.v
BridgeWitnesses.v
AgentWitnesses.v
BridgedWitnesses.v
MainWitnesses.v
