(* ===== verification/Prelude.v ===== *)
(** * Verification of the vehicle agent

    The agent (src/src) sits between a fleet gateway and Autoware: it takes trip requests over a
    gRPC stream, turns them into routes on a lane map, drives Autoware through them, reports the
    progress back, and publishes what the vehicle sees and does on Zenoh topics.  This library
    models its C++ as executable definitions over explicit state and proves what each part
    promises.  This file holds what all others share: record update, the exception and effect
    monad, its weakest preconditions, machine integers, transition sequences and tactics.

    ** Parts of the program, and where they are modelled

    - Language and libraries.  [Ieee]: double and float as the Standard Library's executable IEEE
      754 numbers, round to nearest even and no contraction.  [CppStd]: std::stoll,
      std::to_string, paths, clocks.  [RosMsgs]: the ROS messages, with the constants of their
      packages as a class.  [Frames]: src/proto/vehicle_frame.proto.
    - Lane map (src/map_routes).  [MapProjector]: map_config.yaml.  [LaneletMap]: loading,
      searches, the lane cache and projection; a pointer into the cache is an index.
      [Geometry]: the arithmetic of the projection, over a class of number operations; the map
      uses it with doubles.
      [RouteMap] is the interface the trip logic uses; [LaneletMapFacts] proves that the map
      implements it and [MapComponents] treats the flood fill of debugConnectedComponents.
      [MapDebug]: the three debug functions, as the lines they log.
    - Trip logic (src/gateway_bridge).  [TripTypes]: TripStates.h, TripStatus.h, TripTimings.h
      and the members of TripController.  [TripController]: every method of TripController.cc, as
      a computation over the controller and the map.
    - Node.  [AutowareController]: the strand as a queue of posted handlers; every public method
      posts one and [run_next] runs the first.
    - Gateway stream.  [Providers]: the provider interfaces as classes and the adapters as
      instances.  [StreamClient]: the queue, the reconnect loop and the reader, writer and
      watchdog threads of VehicleGatewayStreamClient.h as steps that may interleave in any order.
    - Bridges.  [Bridge]: strand, timer, counter and shutdown, written once over the class
      [BridgeOps]; [ClusterBridge], [PlanningBridge], [TripBridge], [PerceptionBridge] and
      [LocationBridge] are its instances, with the handlers, conversions and frames of their
      source files.
    - Application (src/AutowareApp.cpp).  [App]: the node, the stream client and the location
      bridge, joined by the closures of startAutowareApp.  [Agent]: [App] with the four frame
      bridges, the sharing of their state, and stopAutowareApp.  [Zenoh]: the session, the
      publishers and the broadcasts (zenoh_publisher.h).
    - Process.  [Main]: main.cc, the signal, the ROS thread and its join, with every other thread
      interleaved.  [Ownership]: the shared pointers among the agent's objects, and what the
      return of startAutowareApp and the reset of the handles destroy.
      [SharedState]: the handlers of threads that share members, with every access a step.

    A component's state is a record with the members of the class; a method is a computation
    [M State Output A] that may throw, and what it publishes, calls back or sends is its output.
    Some objects are shared between threads.  The cluster bridge's state is read by the adapters
    under its mutex, and between its handlers otherwise.  The controller's status is copied without
    a lock by the trip bridge and the location bridge at their ticks: what the copy holds is an
    argument of the tick, and theorems say in so many words when they take it to be the status of
    that moment.  The stream client's pointers
    to the eta and location adapters are options: startAutowareApp returns with both destroyed, and
    following one of them then throws [UndefinedBehaviour].

    ** What the theorems show

    - The trip controller ([TripTheorems], from [TripRules], [TripInvariant], [TripProtocol],
      [TripQueries], [TripLiveness], [TripEta], [TripJourney]): no exception escapes a handler in
      any reachable state; the controller refines an abstract state machine; what it holds in each
      phase; a query is answered once, with the measured distances and durations, and ends; a trip
      is driven to its completion; which commands are refused and what a refusal changes.
      [TripPacing]: how often it repeats itself while it waits in a state.
    - The lane map ([MapTheorems]): without a local offset the searches return the nearest
      admissible lane (with one they need not), pointers handed out stay valid.
      [GeometryTheorems]: but for rounding, projection returns the nearest point of the line; it is
      proved with the arithmetic of [Geometry] instantiated by the real numbers of the Standard
      Library.  [MapDebugTheorems]: the diagnoses end, the connected components partition the
      roads, the tables list the lanelets that reach most and least.
    - The node ([NodeTheorems], from [NodeFacts]): commands are answered in order and no call twice,
      queries when the trip controller is done with them, and the trip controller inside the node
      is the controller run on its inputs.
    - The stream ([StreamTheorems]): events leave in the order they were reported, a connection
      loses at most one and two seconds separate connections, a dead connection is replaced, when
      the watchdog cancels.
    - The bridges ([BridgeFacts], [BridgeTheorems], [ClusterFrames], [FrameTheorems]): a frame
      shows the newest message of every topic under consecutive numbers, the next frame shows all
      that has arrived, when shutdown returns; then what each kind of frame shows.
    - The whole ([AppTheorems], [AppReports], [AgentTheorems], [Adapters], [ZenohTheorems]): how
      the events of the node are reported to the gateway, up to the first undefined reaction; trip
      frames show the copy of the status their tick made; a subscriber receives the frames of its
      bridge in order; however the threads interleave, an action has undefined behaviour just when
      it answers a query successfully, through the dangling eta adapter, and so a defined execution
      begins no trip; stopAutowareApp can hang.
    - The process ([MainTheorems], from [AgentParts] and [AgentKeeps]; [OwnershipTheorems]): main
      returns only with the threads ended, and can return from every state it polls in; the
      adapters die with startAutowareApp, while some objects keep each other alive for ever.
      [SharedTheorems]: what is read under the cluster bridge's mutex is whole; the request id of
      an estimate, written without it, can belong to another request, and the copy of the status,
      read without a lock, can be torn.

    [Fixture], [TripWitnesses], [AgentWitnesses], [BridgeWitnesses], [BridgedWitnesses] and
    [MainWitnesses] evaluate the theorems on a small map, one clock, the documented message
    constants and a merge sort.

    ** Parameters, bounds and assumptions

    - Parameters, as classes with their documented laws where any are used: Lanelet2 and libm
      ([Lanelet2], [Lanelet2Laws]: distinct 64-bit ids, reachable sets inside the layer), yaml-cpp
      ([YamlCpp], [YamlLaws]), the message constants ([AutowareMsgs]: the labels of one switch are
      distinct), the clocks ([Clocks]: the steady clock does not go back), the point cloud library
      ([Pcl]), the serializers ([Serializers]), and the order std::sort gives equal elements
      ([StdSort]: it permutes and sorts).  The answers of ROS, gRPC and the transform tree are
      arguments of the steps.
    - An asio strand runs its handlers one at a time in the order they were posted, and cancelling
      a timer whose wait has expired has no effect on the handler already queued.
    - initialize is called once, by startAutowareApp.  The closures an event triggers run with the
      step that emits it.
    - Loops over lists are structural.  The flood fill gets one unit of fuel more than the layer
      has lanelets and is proved to end within it; std::to_string gets twenty digits, enough for
      64 bits, and to be read back by std::stoll unchanged.
    - Counters have the width of their type: frame numbers are modulo 2^64, object counts modulo
      2^32.  The integers of messages are those of their fields.

    ** Not modelled

    - Logging, except the lines of the node's state changes and of the application's errors.
    - The network behind the Zenoh session, the protobuf encoding and gRPC itself: input and
      output of libraries.
    - The destructors of the bridges, which only call shutdown again; the names and queue sizes of
      the ROS topics.
    - What happens after undefined behaviour: an execution goes on as if the rest of the handler
      had been skipped, and the theorems about it say no more than that.
    - Memory-model effects.  Outside [SharedState] a handler is one step and what threads share is
      read between handlers, the unlocked copies of the status excepted; in [SharedState] a member
      is read or written at once, although a data race is undefined behaviour in C++. *)

From stdpp Require Export prelude strings list.

(** ** Functional record update

    The C++ code assigns single members of large objects.  [r <| f := v |>] is the record [r]
    with member [f] replaced; [Eta] says how a record is rebuilt from its members and the setter
    of a member is computed from it (and checked to set that member). *)

Class Eta (R : Type) := eta : R → R.

Class Setter {R T : Type} (proj : R → T) := set : (T → T) → R → R.
Arguments set {R T} proj {_} _ _ /.

Ltac solve_setter :=
  lazymatch goal with
  | |- @Setter ?R ?T ?proj =>
    let e := constr:(_ : Eta R) in
    let h := eval hnf in (@eta R e) in
    let p := eval pattern proj in h in
    lazymatch p with
    | ?F _ =>
      let t := eval cbv beta in (λ (f : T → T) (r : R), F (λ r' : R, f (proj r')) r) in
      let law := constr:(λ (f : T → T) (r : R), eq_refl : proj (t f r) = f (proj r)) in
      exact t
    end
  end.

#[export] Hint Extern 0 (Setter _) => solve_setter : typeclass_instances.

Declare Scope agent_scope.
Delimit Scope agent_scope with agent.
Open Scope agent_scope.

Notation "r <| f := v |>" := (set f (λ _, v) r)
  (at level 1, f at level 0, left associativity,
   format "r <| f := v |>") : agent_scope.
Notation "r <| f ::= g |>" := (set f g r)
  (at level 1, f at level 0, left associativity,
   format "r <| f ::= g |>") : agent_scope.

(** ** Exceptions and the effect monad

    A handler of the agent runs on one thread: it reads and writes its object, calls into ROS,
    gRPC and registered callbacks (the outputs), and may leave by an exception.  [M S E A] is such
    a computation over the state [S] with outputs [E]: the state changes and the outputs made
    before a throw stay, as they do in C++. *)

Inductive exn : Type :=
  | InvalidArgument          (* std::invalid_argument, from std::stoll *)
  | OutOfRange               (* std::out_of_range, from std::stoll *)
  | NoSuchPrimitive (id : Z) (* lanelet::NoSuchPrimitiveError, from laneletLayer.get *)
  | RuntimeError (what : string)
  | LibraryError (what : string) (* an exception of a library the agent calls *)
  | UndefinedBehaviour.      (* an access C++ leaves undefined *)

#[export] Instance exn_eq_dec : EqDecision exn.
Proof. solve_decision. Defined.

Inductive outcome (A : Type) : Type :=
  | Ret (a : A)
  | Throw (e : exn).
Arguments Ret {A} _.
Arguments Throw {A} _.

#[export] Instance outcome_eq_dec `{EqDecision A} : EqDecision (outcome A).
Proof. solve_decision. Defined.

#[export] Instance outcome_ret : MRet outcome := @Ret.
#[export] Instance outcome_bind : MBind outcome := λ A B f m,
  match m with Ret a => f a | Throw e => Throw e end.

Definition M (S E A : Type) : Type := S → outcome A * S * list E.

#[export] Instance M_ret {S E} : MRet (M S E) := λ A a s, (Ret a, s, []).
#[export] Instance M_bind {S E} : MBind (M S E) := λ A B f m s,
  match m s with
  | (Ret a, s', t) => match f a s' with (o, s'', t') => (o, s'', t ++ t') end
  | (Throw e, s', t) => (Throw e, s', t)
  end.

Section Primitives.
Context {S E : Type}.

Definition gets {A} (f : S → A) : M S E A := λ s, (Ret (f s), s, []).
Definition modify (f : S → S) : M S E unit := λ s, (Ret (), f s, []).
Definition emit (e : E) : M S E unit := λ s, (Ret (), s, [e]).
Definition throw {A} (e : exn) : M S E A := λ s, (Throw e, s, []).
Definition lift {A} (o : outcome A) : M S E A := λ s, (o, s, []).
Definition when (b : bool) (m : M S E unit) : M S E unit := if b then m else mret ().

(** The three components of a run. *)
Definition result {A} (m : M S E A) (s : S) : outcome A := (m s).1.1.
Definition final {A} (m : M S E A) (s : S) : S := (m s).1.2.
Definition outputs {A} (m : M S E A) (s : S) : list E := (m s).2.

Lemma run_split {A} (m : M S E A) (s : S) : m s = (result m s, final m s, outputs m s).
Proof. unfold result, final, outputs. by destruct (m s) as [[? ?] ?]. Qed.

Lemma final_bind {A B} (m : M S E A) (f : A → M S E B) (s : S) (a : A) :
  result m s = Ret a → final (m ≫= f) s = final (f a) (final m s).
Proof.
  unfold result, final, mbind, M_bind. destruct (m s) as [[o s'] t]. cbn. intros ->.
  by destruct (f a s') as [[? ?] ?].
Qed.

Lemma result_bind {A B} (m : M S E A) (f : A → M S E B) (s : S) (a : A) :
  result m s = Ret a → result (m ≫= f) s = result (f a) (final m s).
Proof.
  unfold result, final, mbind, M_bind. destruct (m s) as [[o s'] t]. cbn. intros ->.
  by destruct (f a s') as [[? ?] ?].
Qed.

Lemma outputs_bind {A B} (m : M S E A) (f : A → M S E B) (s : S) (a : A) :
  result m s = Ret a → outputs (m ≫= f) s = outputs m s ++ outputs (f a) (final m s).
Proof.
  unfold result, final, outputs, mbind, M_bind. destruct (m s) as [[o s'] t]. cbn. intros ->.
  by destruct (f a s') as [[? ?] ?].
Qed.

Lemma result_bind_throw {A B} (m : M S E A) (f : A → M S E B) (s : S) (e : exn) :
  result m s = Throw e → result (m ≫= f) s = Throw e.
Proof.
  unfold result, mbind, M_bind. destruct (m s) as [[o s'] t]. cbn. by intros ->.
Qed.

(** The monad laws, pointwise. *)
Lemma bind_ret_l {A B} (a : A) (f : A → M S E B) (s : S) : (mret a ≫= f) s = f a s.
Proof. unfold mbind, M_bind, mret, M_ret. by destruct (f a s) as [[? ?] ?]. Qed.

Lemma bind_ret_r {A} (m : M S E A) (s : S) : (m ≫= mret) s = m s.
Proof.
  unfold mbind, M_bind, mret, M_ret.
  destruct (m s) as [[[a|e] s'] t]; [by rewrite app_nil_r | done].
Qed.

Lemma bind_assoc {A B C} (m : M S E A) (f : A → M S E B) (g : B → M S E C) (s : S) :
  ((m ≫= f) ≫= g) s = (m ≫= λ a, f a ≫= g) s.
Proof.
  unfold mbind, M_bind.
  destruct (m s) as [[[a|e] s'] t]; [|done].
  destruct (f a s') as [[[b|e] s''] t']; [|done].
  destruct (g b s'') as [[? ?] ?]. by rewrite app_assoc.
Qed.
End Primitives.

(** A computation on a part [T] of the state [S], as a computation on [S]. *)
Definition zoom {S T E A} (get : S → T) (put : T → S → S) (m : M T E A) : M S E A := λ s,
  match m (get s) with (o, t', out) => (o, put t' s, out) end.

(** ** Weakest preconditions

    [wp m s Q]: the run of [m] from [s] ends with an outcome, state and outputs in [Q]. *)
Definition wp {S E A} (m : M S E A) (s : S) (Q : outcome A → S → list E → Prop) : Prop :=
  Q (result m s) (final m s) (outputs m s).

Section Wp.
Context {S E : Type}.
Implicit Types s : S.

Lemma wp_mono {A} (m : M S E A) s (P Q : outcome A → S → list E → Prop) :
  wp m s P → (∀ o s' t, P o s' t → Q o s' t) → wp m s Q.
Proof. unfold wp. eauto. Qed.

Lemma wp_ret {A} (a : A) s Q : Q (Ret a) s [] → wp (E := E) (mret a) s Q.
Proof. done. Qed.

Lemma wp_bind {A B} (m : M S E A) (f : A → M S E B) s Q :
  wp m s (λ o s' t, match o with
                    | Ret a => wp (f a) s' (λ o' s'' t', Q o' s'' (t ++ t'))
                    | Throw e => Q (Throw e) s' t
                    end) →
  wp (m ≫= f) s Q.
Proof.
  unfold wp, result, final, outputs, mbind, M_bind.
  destruct (m s) as [[[a|e] s'] t]; cbn; [|done].
  by destruct (f a s') as [[? ?] ?].
Qed.

(** The value read is given by an equation, so that it can be simplified without touching the
    state. *)
Lemma wp_gets {A} (f : S → A) s v Q : f s = v → Q (Ret v) s [] → wp (E := E) (gets f) s Q.
Proof. by intros <-. Qed.
Lemma wp_modify (f : S → S) s Q : Q (Ret ()) (f s) [] → wp (E := E) (modify f) s Q.
Proof. done. Qed.
Lemma wp_emit (e : E) s Q : Q (Ret ()) s [e] → wp (emit e) s Q.
Proof. done. Qed.
Lemma wp_lift {A} (o : outcome A) s Q : Q o s [] → wp (E := E) (lift o) s Q.
Proof. done. Qed.
Lemma wp_throw {A} (e : exn) s Q : Q (Throw e) s [] → wp (E := E) (throw (A := A) e) s Q.
Proof. done. Qed.
End Wp.

(** [m] keeps [P], however it ends. *)
Definition keeps {S E A} (P : S → Prop) (m : M S E A) : Prop :=
  ∀ s, P s → wp m s (λ _ s' _, P s').

Section Keeps.
Context {S E : Type} (P : S → Prop).

Lemma keeps_bind {A B} (m : M S E A) (f : A → M S E B) :
  keeps P m → (∀ a, keeps P (f a)) → keeps P (m ≫= f).
Proof.
  intros Hm Hf s Hs. apply wp_bind. eapply wp_mono; [by apply Hm|].
  intros [a|e] s' t Hs'; [by apply Hf|done].
Qed.
Lemma keeps_ret {A} (a : A) : keeps (E := E) P (mret a).
Proof. by intros s Hs. Qed.
Lemma keeps_gets {A} (f : S → A) : keeps (E := E) P (gets f).
Proof. by intros s Hs. Qed.
Lemma keeps_emit (e : E) : keeps P (emit e).
Proof. by intros s Hs. Qed.
End Keeps.

(** ** Machine integers

    The wrap-around of the unsigned counters the bridges keep. *)
Definition wrap (w : Z) (n : Z) : Z := n `mod` 2 ^ w.
Definition u32_succ (n : Z) : Z := wrap 32 (n + 1).
Definition u64_succ (n : Z) : Z := wrap 64 (n + 1).

Lemma wrap_bounds (w n : Z) : (0 ≤ w)%Z → (0 ≤ wrap w n < 2 ^ w)%Z.
Proof. intros Hw. unfold wrap. apply Z.mod_pos_bound. by apply Z.pow_pos_nonneg. Qed.

Lemma wrap_small (w n : Z) : (0 ≤ n < 2 ^ w)%Z → wrap w n = n.
Proof. intros Hn. unfold wrap. by apply Z.mod_small. Qed.

(** ** Transition sequences *)
Section Runs.
Context {S I : Type} (step : I → S → S).

(** The state after a list of inputs, in order. *)
Fixpoint run_inputs (l : list I) (s : S) : S :=
  match l with
  | [] => s
  | i :: l' => run_inputs l' (step i s)
  end.

Lemma run_inputs_app (l l' : list I) (s : S) :
  run_inputs (l ++ l') s = run_inputs l' (run_inputs l s).
Proof. revert s. induction l as [|i l IH]; intros s; cbn; auto. Qed.

(** An invariant of every step holds after every list of inputs. *)
Lemma run_inputs_inv (P : S → Prop) (l : list I) (s : S) :
  (∀ i s', P s' → P (step i s')) → P s → P (run_inputs l s).
Proof. intros Hstep. revert s. induction l as [|i l IH]; intros s Hs; cbn; auto. Qed.
End Runs.

(** ** Automation *)
Create HintDb agent discriminated.

(** One step of symbolic execution of a [wp] goal; [wp_hook] is extended by the components. *)
Ltac wp_hook := fail.
Ltac wp_read := eapply wp_gets; [cbn; reflexivity|].
Ltac absurd_case :=
  try (exfalso; first [contradiction | congruence
                      | match goal with
                        | Hn : ¬ (_ ≠ _) |- _ => apply Hn; congruence
                        | Hb : ?b = true, Hn : negb ?b = true |- _ => by rewrite Hb in Hn
                        end]).
Ltac wp_step :=
  first
    [ wp_hook
    | lazymatch goal with
      | |- wp (_ ≫= _) _ _ => apply wp_bind
      | |- wp (mret _) _ _ => apply wp_ret
      | |- wp (gets _) _ _ => wp_read
      | |- wp (modify _) _ _ => apply wp_modify
      | |- wp (emit _) _ _ => apply wp_emit
      | |- wp (lift _) _ _ => apply wp_lift
      | |- wp (throw _) _ _ => apply wp_throw
      | |- wp (when _ _) _ _ => unfold when
      | |- wp (if decide ?P then _ else _) _ _ => destruct (decide P); absurd_case
      | |- wp (match ?x with _ => _ end) _ _ => destruct x eqn:?; absurd_case
      end ];
  cbv beta iota.
Ltac wp_steps := repeat wp_step.

(** A goal about the result, final state or outputs of a run, as a [wp]. *)
Ltac to_wp m s :=
  pattern (result m s), (final m s), (outputs m s);
  lazymatch goal with |- ?Q _ _ _ => change (wp m s Q) end;
  cbv beta.

(** Split the run of a bind wherever a computation is stuck on a case. *)
Ltac destruct_matches :=
  repeat match goal with
         | |- context [match ?x with _ => _ end] => destruct x eqn:?
         end.

(** Case analysis on the scrutinees of hypotheses and goal, closing contradictions. *)
Ltac split_cases := repeat (case_match; simplify_eq/=); try done.

(** ** Selecting from a list *)
Lemma omap_tagged {A B} (tag : A → B) (f : B → option A) (t : list A) :
  (∀ x, f (tag x) = Some x) → omap f (tag <$> t) = t.
Proof. intros He. induction t as [|x t IH]; [done|]. cbn. by rewrite He, IH. Qed.
Lemma omap_untagged {A B C} (tag : A → B) (f : B → option C) (t : list A) :
  (∀ x, f (tag x) = None) → omap f (tag <$> t) = [].
Proof. intros He. induction t as [|x t IH]; [done|]. cbn. by rewrite He. Qed.
Lemma omap_split {A B} (f : A → option B) (l : list A) k y :
  omap f l !! k = Some y → ∃ l1 x l2, l = l1 ++ x :: l2 ∧ f x = Some y ∧ length (omap f l1) = k.
Proof.
  revert k. induction l as [|a l IH]; intros k Hk; [done|]. cbn in Hk.
  destruct (f a) as [b|] eqn:Ha; [destruct k as [|k]|].
  - injection Hk as ->. by exists [], a, l.
  - destruct (IH k Hk) as (l1 & x & l2 & -> & Hx & Hl). exists (a :: l1), x, l2.
    split_and!; [done..|]. cbn. rewrite Ha. cbn. by rewrite Hl.
  - destruct (IH k Hk) as (l1 & x & l2 & -> & Hx & Hl). exists (a :: l1), x, l2.
    split_and!; [done..|]. cbn. by rewrite Ha.
Qed.
