(* ===== verification/OwnershipTheorems.v ===== *)
(** * OwnershipTheorems: no dangling owner, and no end for some objects *)

From S2P Require Export Ownership.
Import Ownership.

Implicit Types (s : Store) (o : Object) (l : list Object).

(** ** Letting go terminates *)

Lemma length_filter_concat o (h : list (Object * list Object)) :
  (length (concat (filter (λ x, x.1 ≠ o) h).*2) +
   length (concat ((λ x, if decide (x.1 = o) then x.2 else []) <$> h)) =
   length (concat h.*2))%nat.
Proof.
  induction h as [|[x refs] h IH]; [done|]. rewrite filter_cons. cbn.
  destruct (decide (x = o)) as [->|Hne].
  - rewrite decide_False by auto. rewrite !length_app. lia.
  - rewrite decide_True by done. cbn. rewrite !length_app. cbn. lia.
Qed.

Lemma length_erase o s :
  (length (references (erase o s)) + length (members o s) = length (references s))%nat.
Proof.
  unfold references, members, erase. cbn. rewrite !length_app.
  pose proof (length_filter_concat o (held s)). lia.
Qed.

(** Every step lets go of a pending reference or takes one from the store. *)
Lemma release_ends fuel l s :
  (length l + length (references s) < fuel)%nat → is_Some (release fuel l s).
Proof.
  revert l s. induction fuel as [|k IH]; intros l s Hf; [lia|]. cbn [release].
  destruct l as [|o l]; [done|]. cbn in Hf. case_match.
  - destruct (IH (reverse (members o s) ++ l) (erase o s)) as [[s' d] ->]; [|done].
    rewrite length_app, length_reverse. pose proof (length_erase o s). lia.
  - apply IH. lia.
Qed.

Lemma length_remove_one o l : (length (remove_one o l) ≤ length l)%nat.
Proof. induction l as [|x l IH]; cbn; [lia|]. case_decide; cbn; lia. Qed.
Lemma length_forget_in n h o s :
  (length (references (forget_in n h o s)) ≤ length (references s))%nat.
Proof.
  unfold references, forget_in. cbn. rewrite !length_app. apply Nat.add_le_mono_l.
  induction (held s) as [|[x refs] l IH]; [done|]. cbn. rewrite !length_app.
  apply Nat.add_le_mono; [|exact IH]. case_decide; [|done]. cbn.
  pose proof (length_remove_one o (skipn n refs)) as Hr. rewrite length_drop in Hr.
  rewrite length_app, length_take. lia.
Qed.
Lemma forget_ends n h o s : is_Some (forget n h o s).
Proof.
  unfold forget. case_decide; [|done]. apply release_ends. cbn [length].
  pose proof (length_forget_in n h o s). lia.
Qed.

Lemma drop_ends o s : is_Some (drop o s).
Proof.
  unfold drop. case_decide; [|done]. apply release_ends. unfold references. cbn.
  rewrite !length_app. pose proof (length_remove_one o (roots s)). lia.
Qed.
Lemma drop_all_ends l s : is_Some (drop_all l s).
Proof.
  revert s. induction l as [|o l IH]; intros s; [done|]. cbn [drop_all].
  destruct (drop_ends o s) as [[s1 d1] ->]. cbn. by destruct (IH s1) as [[s2 d2] ->].
Qed.

(** ** No owner dangles *)

(** Every reference is to a live object. *)
Definition closed s : Prop := Forall (λ o, alive o s = true) (references s).

Lemma members_references o x s : x ∈ members o s → x ∈ references s.
Proof.
  unfold members, references. rewrite elem_of_app. intros Hin. right.
  induction (held s) as [|[h refs] l IH]; [done|]. cbn in *. apply elem_of_app in Hin as [Hin|Hin];
    apply elem_of_app; [left|by right; apply IH]. by case_decide; [|apply elem_of_nil in Hin].
Qed.
Lemma erase_references o x s : x ∈ references (erase o s) → x ∈ references s.
Proof.
  unfold references, erase. cbn. rewrite !elem_of_app. intros [Hin|Hin]; [by left|right].
  induction (held s) as [|[h refs] l IH]; [done|]. rewrite filter_cons in Hin. cbn in *.
  case_decide; cbn in Hin; [apply elem_of_app in Hin as [Hin|Hin]|]; apply elem_of_app; auto.
Qed.
Lemma erase_alive o x s : alive x s = true → x ≠ o → alive x (erase o s) = true.
Proof.
  unfold alive, erase. rewrite !bool_decide_eq_true. cbn. intros Hin Hne.
  apply list_elem_of_fmap in Hin as ([h refs] & -> & Hin). apply list_elem_of_fmap.
  exists (h, refs). split; [done|]. by apply list_elem_of_filter.
Qed.

Lemma release_closed fuel l s s' d :
  (∀ o, o ∈ references s ++ l → alive o s = true) → release fuel l s = Some (s', d) → closed s'.
Proof.
  revert l s s' d. induction fuel as [|k IH]; intros l s s' d Hc Hr; [done|]. cbn [release] in Hr.
  destruct l as [|o l].
  { injection Hr as <- _. apply Forall_forall. intros o Ho. apply Hc. by rewrite app_nil_r. }
  destruct (alive o s && _) eqn:Hdead; [|eapply IH; [|exact Hr]; intros x Hx; apply Hc; set_solver].
  apply andb_true_iff in Hdead as [_ Hno%bool_decide_eq_true].
  destruct (release k _ _) as [[s1 d1]|] eqn:Hr1; [|done]. injection Hr as <- _.
  eapply IH; [|exact Hr1]. intros x. rewrite !elem_of_app, elem_of_reverse. intros Hx.
  assert (x ∈ references s ++ l) as Hx'.
  { apply elem_of_app. destruct Hx as [Hx|[Hx|Hx]]; [left; by eapply erase_references| |by right].
    left. by eapply members_references. }
  apply erase_alive; [apply Hc; set_solver|]. by intros ->.
Qed.

Lemma remove_one_elem o x l : x ∈ remove_one o l → x ∈ l.
Proof.
  induction l as [|y l IH]; [done|]. cbn. case_decide; [by right|]. rewrite !elem_of_cons. tauto.
Qed.

Lemma drop_closed o s s' d : closed s → drop o s = Some (s', d) → closed s'.
Proof.
  intros Hc. unfold drop. case_decide as Ho; [|by intros [= <- _]].
  unfold closed in Hc. rewrite Forall_forall in Hc.
  apply release_closed. intros x Hx. assert (x ∈ references s) as Hx'.
  { unfold references in *. cbn in Hx. rewrite !elem_of_app, list_elem_of_singleton in *.
    destruct Hx as [[Hx| ]| ->]; [left; by eapply remove_one_elem|by right|by left]. }
  apply (Hc x Hx').
Qed.

(** ** Objects that keep each other alive *)

Section Kept.
Context (base : Object → nat).

(** Each of [C] is alive and referenced by another or itself, by one of the first [base]. *)
Definition kept (C : list Object) s : Prop :=
  ∀ o, o ∈ C → alive o s = true ∧
               ∃ h refs, h ∈ C ∧ (h, refs) ∈ held s ∧ o ∈ take (base h) refs.

Lemma kept_references C s o : kept C s → o ∈ C → o ∈ references s.
Proof.
  intros Hk Ho. destruct (Hk o Ho) as (_ & h & refs & _ & Hh & Hin).
  unfold references. apply elem_of_app. right. apply list_elem_of_In, in_concat.
  exists refs. split; [|apply list_elem_of_In; by eapply subseteq_take].
  apply list_elem_of_In, list_elem_of_fmap. by exists (h, refs).
Qed.

Lemma release_kept C fuel l s s' d :
  kept C s → release fuel l s = Some (s', d) → kept C s' ∧ ∀ o, o ∈ C → o ∉ d.
Proof.
  revert l s s' d. induction fuel as [|k IH]; intros l s s' d Hk Hr; [done|]. cbn [release] in Hr.
  destruct l as [|o l]; [injection Hr as <- <-; split; [done|]; intros; apply not_elem_of_nil|].
  destruct (alive o s && _) eqn:Hdead; [|by eapply IH].
  apply andb_true_iff in Hdead as [_ Hno%bool_decide_eq_true].
  destruct (release k _ _) as [[s1 d1]|] eqn:Hr1; [|done]. injection Hr as <- <-.
  assert (HoC : o ∉ C).
  { intros Ho. apply Hno, elem_of_app. left. by eapply kept_references. }
  apply IH in Hr1 as [Hk1 Hd1]; [split; [exact Hk1|]|].
  - intros x Hx. apply not_elem_of_cons. split; [intros ->; done|by apply Hd1].
  - intros x Hx. destruct (Hk x Hx) as (Ha & h & refs & HhC & Hh & Hin).
    assert (x ≠ o ∧ h ≠ o) as [Hxo Hho] by (split; intros ->; done).
    split; [by apply erase_alive|]. exists h, refs. split; [done|]. split; [|done].
    unfold erase. cbn. by apply list_elem_of_filter.
Qed.

Lemma drop_kept C o s s' d :
  kept C s → drop o s = Some (s', d) → kept C s' ∧ ∀ x, x ∈ C → x ∉ d.
Proof.
  intros Hk. unfold drop. case_decide.
  - by apply release_kept.
  - intros [= <- <-]. split; [done|]. intros. apply not_elem_of_nil.
Qed.
Lemma drop_all_kept C l s s' d :
  kept C s → drop_all l s = Some (s', d) → kept C s' ∧ ∀ x, x ∈ C → x ∉ d.
Proof.
  revert s s' d. induction l as [|o l IH]; intros s s' d Hk Hr; cbn in Hr.
  { injection Hr as <- <-. split; [done|]. intros. apply not_elem_of_nil. }
  destruct (drop o s) as [[s1 d1]|] eqn:H1; [|done].
  destruct (drop_kept C o s s1 d1 Hk H1) as [Hk1 Hd1]. cbn in Hr.
  destruct (drop_all l s1) as [[s2 d2]|] eqn:H2; [|done]. injection Hr as <- <-.
  destruct (IH s1 s2 d2 Hk1 H2) as [Hk2 Hd2]. split; [done|].
  intros x Hx. rewrite elem_of_app. intros [?|?]; [by eapply Hd1|by eapply Hd2].
Qed.

(** Holders whose lists change after their first [base] references. *)
Lemma map_kept C f s :
  (∀ x, (f x).1 = x.1) → (∀ h refs, take (base h) refs ⊆ take (base h) (f (h, refs)).2) →
  kept C s → kept C (s <| held ::= fmap f |>).
Proof.
  intros Hf Hsub Hk o Ho. destruct (Hk o Ho) as (Ha & h & refs & HhC & Hh & Hin). split.
  - unfold alive in *. rewrite bool_decide_eq_true in *. cbn.
    by rewrite <- list_fmap_compose, (list_fmap_ext (fst ∘ f) fst _ (λ _ x _, Hf x)).
  - exists h, (f (h, refs)).2. split; [done|]. split; [|by apply Hsub].
    cbn. apply list_elem_of_fmap. exists (h, refs). split; [|done].
    specialize (Hf (h, refs)). destruct (f (h, refs)). by simplify_eq/=.
Qed.
Lemma store_in_kept C h refs s : kept C s → kept C (store_in h refs s).
Proof.
  apply map_kept; [intros [x rs]; cbn; by case_decide|]. intros x rs o Ho. cbn.
  case_decide; [|done]. cbn [snd]. rewrite take_app. apply elem_of_app. by left.
Qed.
Lemma forget_in_kept C h o s : kept C s → kept C (forget_in (base h) h o s).
Proof.
  apply map_kept; [intros [x rs]; cbn; by case_decide|]. intros x rs y Hy. cbn.
  case_decide as Heq; [|done]. cbn in *. subst.
  rewrite take_app, take_take, Nat.min_id. apply elem_of_app. by left.
Qed.
Lemma forget_kept C h o s s' d :
  kept C s → forget (base h) h o s = Some (s', d) → kept C s' ∧ ∀ x, x ∈ C → x ∉ d.
Proof.
  intros Hk. unfold forget. case_decide.
  - by apply release_kept, forget_in_kept.
  - intros [= <- <-]. split; [done|]. intros. apply not_elem_of_nil.
Qed.

(** What can happen to the references of the agent once it runs: a pointer is copied into a
    variable, variables end, closures are stored, and those that were not among the first [base]
    references are destroyed. *)
Inductive Move : Type :=
  | Copies (o : Object)
  | Stores (holder : Object) (refs : list Object)
  | Forgets (holder o : Object)
  | Drops (l : list Object).
Definition move (m : Move) s : option (Store * list Object) :=
  match m with
  | Copies o => Some (copy o s, [])
  | Stores h refs => Some (store_in h refs s, [])
  | Forgets h o => forget (base h) h o s
  | Drops l => drop_all l s
  end.
Fixpoint moves (ms : list Move) s : option (Store * list Object) :=
  match ms with
  | [] => Some (s, [])
  | m :: ms' =>
    '(s1, d1) ← move m s;
    '(s2, d2) ← moves ms' s1;
    Some (s2, d1 ++ d2)
  end.

Lemma moves_kept C ms s :
  kept C s → ∃ s' d, moves ms s = Some (s', d) ∧ kept C s' ∧ ∀ x, x ∈ C → x ∉ d.
Proof.
  revert s. induction ms as [|m ms IH]; intros s Hk.
  { exists s, []. split_and!; [done..|]. intros. apply not_elem_of_nil. }
  assert (∃ s1 d1, move m s = Some (s1, d1) ∧ kept C s1 ∧ ∀ x, x ∈ C → x ∉ d1)
    as (s1 & d1 & Hm & Hk1 & Hd1).
  { destruct m as [o|h refs|h o|l]; cbn [move].
    - exists (copy o s), []. split_and!; [done|exact Hk|]. intros. apply not_elem_of_nil.
    - exists (store_in h refs s), []. split_and!; [done|by apply store_in_kept|].
      intros. apply not_elem_of_nil.
    - destruct (forget_ends (base h) h o s) as [[s1 d1] Hr]. exists s1, d1.
      destruct (forget_kept C h o s s1 d1 Hk Hr). by split_and!.
    - destruct (drop_all_ends l s) as [[s1 d1] Hr]. exists s1, d1.
      destruct (drop_all_kept C l s s1 d1 Hk Hr). by split_and!. }
  destruct (IH s1 Hk1) as (s2 & d2 & Hms & Hk2 & Hd2).
  exists s2, (d1 ++ d2). cbn [moves]. rewrite Hm. cbn. rewrite Hms. split_and!; [done..|].
  intros x Hx. rewrite elem_of_app. intros [?|?]; [by eapply Hd1|by eapply Hd2].
Qed.

End Kept.

(** ** The agent's objects *)

(** The objects that reference each other in a ring once the agent is wired. *)
Definition ring : list Object := [Controller; StreamClient; LocationBridge; TripAdapter; Session].

(** How many references each object holds in [s]. *)
Definition held_in s : Object → nat := λ h, length (members h s).

Lemma ring_kept :
  ∃ s, startAutowareApp_returns = Some (s, [LocAdapter; EtaAdapter]) ∧ kept (held_in s) ring s.
Proof.
  eexists. split; [vm_compute; reflexivity|].
  intros o Ho. unfold ring in Ho. rewrite !elem_of_cons, elem_of_nil in Ho.
  destruct_or? Ho; subst; (split; [reflexivity|]);
    [exists StreamClient|exists Controller|exists Controller|exists LocationBridge
    |exists LocationBridge];
    eexists; (split; [unfold ring; set_solver|]);
    (split; [cbn; rewrite !elem_of_cons; eauto 14|set_solver]).
Qed.

(** C16: how long the agent's objects live.  The return of startAutowareApp destroys the eta and the
    location adapter, which the stream client goes on pointing to, and nothing else; all that is
    still referenced is alive.  Whatever variables, and whatever closures stored
    afterwards, come and go, the controller, the stream client, the location bridge, the trip adapter and the
    Zenoh session are alive: they keep each other, and their destructors never run.  The end of
    stopAutowareApp and of main destroys just the four frame bridges, in this order. *)
Theorem object_lifetimes :
  ∃ s0, startAutowareApp_returns = Some (s0, [LocAdapter; EtaAdapter]) ∧ closed s0 ∧
    alive EtaAdapter s0 = false ∧ alive LocAdapter s0 = false ∧
    (∀ ms, ∃ s d, moves (held_in s0) ms s0 = Some (s, d) ∧ ∀ o, o ∈ ring → alive o s = true ∧ o ∉ d) ∧
    ∃ s, drop_all stop_drops (initialize_owners s0) =
           Some (s, [TripBridge; PerceptionBridge; PlanningBridge; ClusterBridge]) ∧ closed s.
Proof.
  destruct ring_kept as (s0 & Hs & Hk). exists s0. split; [done|].
  vm_compute in Hs. injection Hs as <-.
  split_and!; [by repeat constructor|done|done| |].
  - intros ms. destruct (moves_kept _ ring ms _ Hk) as (s & d & Hm & Hks & Hd).
    exists s, d. split; [exact Hm|]. intros o Ho. split; [by apply Hks|by apply Hd].
  - eexists. split; [vm_compute; reflexivity|]. by repeat constructor.
Qed.
