(* ===== verification/Ieee.v ===== *)
(** * Ieee: the C++ floating-point types

    [double] and [float] are IEEE 754 binary64 and binary32 with round-to-nearest-even, as on the
    targets of the agent: values are [spec_float] (no NaN payload) and the arithmetic is the
    executable specification of the Standard Library.  Comparisons involving a NaN are false.
    The second half shows that the comparison is a total preorder away from NaN, which is what the
    minimum searches of the agent rely on. *)

From Stdlib Require Export Floats.SpecFloat.
From S2P Require Export Prelude.

Abbreviation double := spec_float.
Abbreviation float32 := spec_float.

#[export] Instance spec_float_eq_dec : EqDecision spec_float.
Proof. solve_decision. Defined.

(** ** binary64 *)
Definition dadd : double → double → double := SFadd 53 1024.
Definition dsub : double → double → double := SFsub 53 1024.
Definition dmul : double → double → double := SFmul 53 1024.
Definition ddiv : double → double → double := SFdiv 53 1024.
Definition dsqrt : double → double := SFsqrt 53 1024.
Definition dltb : double → double → bool := SFltb.
Definition dleb : double → double → bool := SFleb.
Definition deqb : double → double → bool := SFeqb.

(** The double nearest to an integer, and the literal [num/den] (exact operands, so the quotient
    is the correctly rounded literal). *)
Definition d_of_Z (n : Z) : double := binary_normalize 53 1024 n 0 false.
Definition dlit (num den : Z) : double := ddiv (d_of_Z num) (d_of_Z den).

Definition d0 : double := S754_zero false.
Definition d1 : double := d_of_Z 1.
(** std::numeric_limits<double>::max() *)
Definition dmax : double := SFmax_float 53 1024.

(** ** binary32 *)
Definition fadd : float32 → float32 → float32 := SFadd 24 128.
Definition fmul : float32 → float32 → float32 := SFmul 24 128.
Definition fdiv : float32 → float32 → float32 := SFdiv 24 128.
Definition fltb : float32 → float32 → bool := SFltb.
Definition f_of_Z (n : Z) : float32 := binary_normalize 24 128 n 0 false.
Definition flit (num den : Z) : float32 := fdiv (f_of_Z num) (f_of_Z den).
Definition f0 : float32 := S754_zero false.

(** static_cast<float>(d): round to binary32.  The conversion the other way is exact. *)
Definition d_to_f (d : double) : float32 :=
  match d with
  | S754_finite s m e => binary_round 24 128 s m e
  | _ => d
  end.
Definition f_to_d (f : float32) : double :=
  match f with
  | S754_finite s m e => binary_round 53 1024 s m e
  | _ => f
  end.

Definition is_nan (d : spec_float) : bool :=
  match d with S754_nan => true | _ => false end.

(** std::isfinite *)
Definition is_finite (d : spec_float) : bool :=
  match d with S754_nan | S754_infinity _ => false | _ => true end.

(** The integer part of a finite number (truncation toward zero). *)
Definition d_trunc (d : spec_float) : option Z :=
  match d with
  | S754_zero _ => Some 0%Z
  | S754_finite s m e =>
    let n := match e with
             | Z.neg k => Z.quot (Zpos m) (2 ^ Zpos k)
             | _ => (Zpos m * 2 ^ e)%Z
             end in
    Some (if s then (- n)%Z else n)
  | _ => None
  end.

(** static_cast<int>(d): undefined unless the integer part is an int. *)
Definition d_to_int (d : double) : outcome Z :=
  match d_trunc d with
  | Some n => if decide (- 2 ^ 31 ≤ n < 2 ^ 31)%Z then Ret n else Throw UndefinedBehaviour
  | None => Throw UndefinedBehaviour
  end.

(** ** The order *)

(** Where a number lies on the line: sign class, then exponent, then mantissa. *)
Definition key (x : spec_float) : Z * Z * Z :=
  match x with
  | S754_infinity true => (-2, 0, 0)
  | S754_finite true m e => (-1, -e, Z.neg m)
  | S754_zero _ | S754_nan => (0, 0, 0)
  | S754_finite false m e => (1, e, Z.pos m)
  | S754_infinity false => (2, 0, 0)
  end%Z.

Definition lex (a b : Z * Z * Z) : comparison :=
  match Z.compare a.1.1 b.1.1 with
  | Eq => match Z.compare a.1.2 b.1.2 with Eq => Z.compare a.2 b.2 | c => c end
  | c => c
  end.

Lemma lex_Lt a b :
  lex a b = Lt ↔
  (a.1.1 < b.1.1 ∨ (a.1.1 = b.1.1 ∧ (a.1.2 < b.1.2 ∨ (a.1.2 = b.1.2 ∧ a.2 < b.2))))%Z.
Proof.
  unfold lex.
  destruct (Z.compare_spec a.1.1 b.1.1); [|split; (done || lia)..].
  destruct (Z.compare_spec a.1.2 b.1.2); [|split; (done || lia)..].
  destruct (Z.compare_spec a.2 b.2); split; (done || lia).
Qed.

Lemma lex_Gt a b : lex a b = Gt ↔ lex b a = Lt.
Proof.
  unfold lex. rewrite (Z.compare_antisym a.1.1), (Z.compare_antisym a.1.2), (Z.compare_antisym a.2).
  destruct (Z.compare a.1.1 b.1.1); cbn; [|done..].
  destruct (Z.compare a.1.2 b.1.2); cbn; [|done..].
  by destruct (Z.compare a.2 b.2).
Qed.

Lemma SFcompare_lex x y :
  is_nan x = false → is_nan y = false → SFcompare x y = Some (lex (key x) (key y)).
Proof.
  intros Hx Hy.
  destruct x as [[]|[]| |[] m e], y as [[]|[]| |[] m' e']; try done; cbn; unfold lex; cbn.
  f_equal. rewrite Z.compare_opp. cbn. rewrite (Z.compare_antisym e e').
  by destruct (Z.compare e e').
Qed.

Lemma SFcompare_nan_l y : SFcompare S754_nan y = None.
Proof. done. Qed.
Lemma SFcompare_nan_r x : SFcompare x S754_nan = None.
Proof. by destruct x as [[]|[]| |[]]. Qed.

Lemma dltb_key x y :
  dltb x y = true ↔ is_nan x = false ∧ is_nan y = false ∧ lex (key x) (key y) = Lt.
Proof.
  unfold dltb, SFltb. destruct (is_nan x) eqn:Hx.
  { destruct x; try done. rewrite SFcompare_nan_l. intuition congruence. }
  destruct (is_nan y) eqn:Hy.
  { destruct y; try done. rewrite SFcompare_nan_r. intuition congruence. }
  rewrite SFcompare_lex by done. destruct (lex _ _); intuition congruence.
Qed.

Lemma dleb_key x y :
  dleb x y = true ↔ is_nan x = false ∧ is_nan y = false ∧ lex (key x) (key y) ≠ Gt.
Proof.
  unfold dleb, SFleb. destruct (is_nan x) eqn:Hx.
  { destruct x; try done. rewrite SFcompare_nan_l. intuition congruence. }
  destruct (is_nan y) eqn:Hy.
  { destruct y; try done. rewrite SFcompare_nan_r. intuition congruence. }
  rewrite SFcompare_lex by done. destruct (lex _ _); intuition congruence.
Qed.

Lemma dltb_irrefl x : dltb x x = false.
Proof.
  apply not_true_is_false. rewrite dltb_key, lex_Lt. lia.
Qed.

Lemma dleb_refl x : is_nan x = false → dleb x x = true.
Proof. intros Hx. rewrite dleb_key, lex_Gt, lex_Lt. repeat split; [done..|lia]. Qed.

Lemma dltb_leb x y : dltb x y = true → dleb x y = true.
Proof. rewrite dltb_key, dleb_key. intros (?&?&->). done. Qed.

Lemma dltb_false_leb x y :
  is_nan x = false → is_nan y = false → dltb x y = false → dleb y x = true.
Proof.
  intros Hx Hy Hlt. rewrite dleb_key. repeat split; [done..|].
  rewrite lex_Gt. intros HL. apply not_true_iff_false in Hlt. apply Hlt.
  by rewrite dltb_key.
Qed.

Lemma dleb_trans x y z : dleb x y = true → dleb y z = true → dleb x z = true.
Proof.
  rewrite !dleb_key, !lex_Gt, !lex_Lt. intros (?&?&?) (?&?&?). repeat split; [done..|lia].
Qed.

Lemma dltb_leb_trans x y z : dltb x y = true → dleb y z = true → dltb x z = true.
Proof.
  rewrite !dleb_key, !dltb_key, !lex_Gt, !lex_Lt. intros (?&?&?) (?&?&?).
  repeat split; [done..|lia].
Qed.

Lemma dleb_ltb_false x y : dleb x y = true → dltb y x = false.
Proof.
  intros Hle. apply not_true_is_false. intros Hlt.
  pose proof (dltb_leb_trans _ _ _ Hlt Hle) as H. by rewrite dltb_irrefl in H.
Qed.

Lemma dltb_not_nan x y : dltb x y = true → is_nan x = false ∧ is_nan y = false.
Proof. rewrite dltb_key. tauto. Qed.

Lemma dltb_not_nan_l x y : dltb x y = true → is_nan x = false.
Proof. intros Hlt. apply (dltb_not_nan _ _ Hlt). Qed.
Lemma dltb_not_nan_r x y : dltb x y = true → is_nan y = false.
Proof. intros Hlt. apply (dltb_not_nan _ _ Hlt). Qed.

#[export] Hint Resolve dleb_refl dltb_leb dleb_trans dltb_not_nan_l dltb_not_nan_r : agent.
