(* ===== verification/CppStd.v ===== *)
(** * CppStd: the C++ standard library the agent's logic goes through

    [std::to_string] and [std::stoll] on 64-bit integers (lanelet ids travel through
    [TripStatus] as strings), the clocks, and path strings.  Each is executable; the lemmas show
    that an id survives the trip through its string form. *)

From Stdlib Require Export Strings.Ascii Sorting.Sorted.
From S2P Require Export Prelude.
Open Scope Z_scope.

(** ** Decimal conversions *)

Definition int64_min : Z := - 2 ^ 63.
Definition int64_max : Z := 2 ^ 63 - 1.
Definition is_int64 (n : Z) : Prop := int64_min ≤ n ≤ int64_max.

#[export] Instance is_int64_dec n : Decision (is_int64 n).
Proof. unfold is_int64. apply _. Defined.

Definition digit (n : Z) : ascii := ascii_of_N (Z.to_N (48 + n)).
Definition digit_value (a : ascii) : Z := Z.of_N (N_of_ascii a) - 48.
Definition is_digit (a : ascii) : bool := (0 <=? digit_value a) && (digit_value a <=? 9).
(** std::isspace in the C locale *)
Definition is_space (a : ascii) : bool :=
  let c := Z.of_N (N_of_ascii a) in (c =? 32) || ((9 <=? c) && (c <=? 13)).

Fixpoint digits_go (fuel : nat) (n : Z) (acc : string) : string :=
  match fuel with
  | O => acc
  | S k => let acc' := String (digit (n `mod` 10)) acc in
           if n / 10 =? 0 then acc' else digits_go k (n / 10) acc'
  end.

(** std::to_string(int64_t): twenty digits hold every 64-bit magnitude. *)
Definition to_string (n : Z) : string :=
  if n <? 0 then String "-" (digits_go 20 (- n) "") else digits_go 20 n "".

(** The value of the longest prefix of digits. *)
Fixpoint digits_value (acc : Z) (s : string) : Z :=
  match s with
  | String a s' => if is_digit a then digits_value (10 * acc + digit_value a) s' else acc
  | EmptyString => acc
  end.

Fixpoint skip_space (s : string) : string :=
  match s with
  | String a s' => if is_space a then skip_space s' else s
  | EmptyString => EmptyString
  end.

Definition split_sign (s : string) : bool * string :=
  match s with
  | String a s' => if decide (a = "-"%char) then (true, s')
                   else if decide (a = "+"%char) then (false, s') else (false, s)
  | EmptyString => (false, s)
  end.

(** std::stoll(s): leading white space, an optional sign, then the longest run of digits. *)
Definition stoll (s : string) : outcome Z :=
  let '(neg, ds) := split_sign (skip_space s) in
  match ds with
  | String a _ =>
    if is_digit a then
      let v := if neg then - digits_value 0 ds else digits_value 0 ds in
      if decide (is_int64 v) then Ret v else Throw OutOfRange
    else Throw InvalidArgument
  | EmptyString => Throw InvalidArgument
  end.

(** ** Clocks

    The n-th reading of [std::chrono::steady_clock] (nanoseconds, never going back) and of the ROS
    clock; a handler that reads twice sees two readings. *)
Class Clocks : Type := {
  steady_at : nat → Z;
  ros_at : nat → Z;
  steady_mono : ∀ n, steady_at n ≤ steady_at (S n)
}.

Lemma steady_le `{Clocks} (n m : nat) : (n ≤ m)%nat → steady_at n ≤ steady_at m.
Proof.
  induction 1 as [|m _ IH]; [done|]. etrans; [exact IH|]. apply steady_mono.
Qed.

(** duration_cast<milliseconds> of a nanosecond count: truncation toward zero. *)
Definition to_ms (ns : Z) : Z := Z.quot ns 1000000.

Lemma to_ms_le (a b : Z) : a ≤ b → to_ms a ≤ to_ms b.
Proof. intros Hab. unfold to_ms. apply Z.quot_le_mono; lia. Qed.

(** ** std::sort

    Elements that the comparison does not separate may end in any order: the algorithm is a
    parameter, with what the standard says of its result. *)
Class StdSort : Type := {
  std_sort {A} : (A → A → bool) → list A → list A;
  std_sort_permutes {A} (lt : A → A → bool) (l : list A) : std_sort lt l ≡ₚ l;
  (* for a comparison by a key *)
  std_sort_sorts {A} (key : A → nat) (l : list A) :
    StronglySorted (λ a b, key b ≤ key a)%nat (std_sort (λ a b, Nat.ltb (key b) (key a)) l)
}.

(** ** Strings as paths *)

(** std::string::substr(pos, n) for pos within the string. *)
Definition substr (pos n : nat) (s : string) : string := String.substring pos n s.

(** std::string::find_last_of(c): the last index, [None] for npos. *)
Fixpoint find_last_of (c : ascii) (s : string) : option nat :=
  match s with
  | EmptyString => None
  | String a s' =>
    match find_last_of c s' with
    | Some i => Some (S i)
    | None => if decide (a = c) then Some O else None
    end
  end.

(** ** Lemmas *)

Lemma digit_digit_value n : 0 ≤ n ≤ 9 → digit_value (digit n) = n.
Proof.
  intros Hn. unfold digit_value, digit. rewrite N_ascii_embedding by lia. lia.
Qed.

Lemma digit_is_digit n : 0 ≤ n ≤ 9 → is_digit (digit n) = true.
Proof.
  intros Hn. unfold is_digit. rewrite digit_digit_value by done.
  apply andb_true_iff; split; lia.
Qed.

Lemma digits_go_value k n acc :
  (0 < k)%nat → 0 ≤ n < 10 ^ Z.of_nat k →
  digits_value 0 (digits_go k n acc) = digits_value n acc.
Proof.
  revert n acc. induction k as [|k IH]; intros n acc Hk Hn; [lia|].
  cbn [digits_go].
  assert (0 ≤ n `mod` 10 < 10) as Hm by (apply Z.mod_pos_bound; lia).
  pose proof (Z.div_mod n 10 ltac:(lia)) as Hdm.
  destruct (n / 10 =? 0) eqn:Hz.
  - cbn [digits_value]. rewrite digit_is_digit, digit_digit_value by lia.
    apply Z.eqb_eq in Hz. f_equal. lia.
  - apply Z.eqb_neq in Hz.
    rewrite Nat2Z.inj_succ, Z.pow_succ_r in Hn by lia.
    assert (0 ≤ n / 10 < 10 ^ Z.of_nat k) as Hd.
    { split; [apply Z.div_pos; lia|]. apply Z.div_lt_upper_bound; lia. }
    assert (0 < k)%nat.
    { destruct k; [|lia]. cbn in Hd. lia. }
    rewrite IH by done. cbn [digits_value].
    rewrite digit_is_digit, digit_digit_value by lia. f_equal. lia.
Qed.

Definition starts_with_digit (s : string) : Prop :=
  match s with String a _ => is_digit a = true | EmptyString => False end.

Lemma digits_go_head k n acc :
  0 ≤ n → ((0 < k)%nat ∨ starts_with_digit acc) → starts_with_digit (digits_go k n acc).
Proof.
  revert n acc. induction k as [|k IH]; intros n acc Hn [Hk|Ha]; try done; cbn [digits_go]; [lia|..].
  all: assert (0 ≤ n `mod` 10 < 10) by (apply Z.mod_pos_bound; lia).
  all: assert (starts_with_digit (String (digit (n `mod` 10)) acc))
    by (apply digit_is_digit; lia).
  all: destruct (n / 10 =? 0); [done|]; apply IH; [apply Z.div_pos; lia|by right].
Qed.

Lemma digit_not_special a :
  is_digit a = true → is_space a = false ∧ a ≠ "-"%char ∧ a ≠ "+"%char.
Proof.
  unfold is_digit, is_space, digit_value. intros Hd.
  apply andb_true_iff in Hd as [H1 H2]. repeat split.
  - apply orb_false_iff; split; [lia|]. apply andb_false_iff. right. lia.
  - intros ->. vm_compute in H1. done.
  - intros ->. vm_compute in H1. done.
Qed.

Lemma stoll_digits (neg : bool) (s : string) :
  starts_with_digit s →
  split_sign (skip_space (if neg then String "-" s else s)) = (neg, s).
Proof.
  destruct s as [|a s]; [done|]. cbn [starts_with_digit]. intros Ha.
  pose proof (digit_not_special a Ha) as (Hs & Hm & Hp).
  destruct neg; [done|]. cbn [skip_space]. rewrite Hs. unfold split_sign.
  by rewrite decide_False, decide_False.
Qed.

(** A 64-bit integer is recovered from its decimal form. *)
Lemma stoll_to_string n : is_int64 n → stoll (to_string n) = Ret n.
Proof.
  intros Hn. unfold is_int64, int64_min, int64_max in Hn.
  assert (Hval : ∀ m, 0 ≤ m ≤ 2 ^ 63 → digits_value 0 (digits_go 20 m "") = m).
  { intros m Hm. rewrite digits_go_value; [done|lia|]. cbn. lia. }
  assert (Hhd : ∀ m, 0 ≤ m → starts_with_digit (digits_go 20 m "")).
  { intros m Hm. apply digits_go_head; [done|left; lia]. }
  unfold stoll, to_string.
  assert (Hgen : ∀ (neg : bool) m, 0 ≤ m ≤ 2 ^ 63 →
    n = (if neg then - m else m) →
    (let '(neg', ds) := split_sign (skip_space
       (if neg then String "-" (digits_go 20 m "") else digits_go 20 m "")) in
     match ds with
     | String a _ =>
       if is_digit a then
         let v := if neg' then - digits_value 0 ds else digits_value 0 ds in
         if decide (is_int64 v) then Ret v else Throw OutOfRange
       else Throw InvalidArgument
     | EmptyString => Throw InvalidArgument
     end) = Ret n).
  { intros neg m Hm Hnm. rewrite stoll_digits by (apply Hhd; lia).
    pose proof (Hhd m ltac:(lia)) as Hd. pose proof (Hval m Hm) as Hv.
    destruct (digits_go 20 m "") as [|a s]; [done|]. cbn [starts_with_digit] in Hd.
    rewrite Hd, Hv. cbn zeta. rewrite <- Hnm.
    apply decide_True. unfold is_int64, int64_min, int64_max. lia. }
  destruct (n <? 0) eqn:Hneg.
  - apply (Hgen true (- n)); lia.
  - apply (Hgen false n); lia.
Qed.

Lemma to_string_inj n m : is_int64 n → is_int64 m → to_string n = to_string m → n = m.
Proof.
  intros Hn Hm Heq. pose proof (stoll_to_string n Hn) as H.
  rewrite Heq, stoll_to_string in H by done. by simplify_eq.
Qed.

(** The empty string, which [TripStatus{}] holds, is no id. *)
Lemma stoll_empty : stoll "" = Throw InvalidArgument.
Proof. done. Qed.

(** Paths: the last separator, and the parts around it. *)
#[local] Arguments String.append !s1 s2 / : simpl nomatch.

Lemma find_last_of_app c s t :
  find_last_of c t = None → find_last_of c (s +:+ String c t) = Some (String.length s).
Proof.
  intros Ht. induction s as [|a s IH]; cbn; [by rewrite Ht, decide_True|].
  rewrite IH. done.
Qed.

Lemma find_last_of_none_app c s t :
  find_last_of c s = None → find_last_of c t = None → find_last_of c (s +:+ t) = None.
Proof.
  intros Hs Ht. induction s as [|a s IH]; cbn in *; [done|].
  destruct (find_last_of c s); [done|]. rewrite IH by done. done.
Qed.

Lemma substr_prefix s t : substr 0 (String.length s) (s +:+ t) = s.
Proof. unfold substr. induction s as [|a s IH]; cbn; [by destruct t|]. by rewrite IH. Qed.

Lemma substr_all t : substr 0 (String.length t) t = t.
Proof. unfold substr. induction t as [|a t IH]; cbn; [done|]. by rewrite IH. Qed.

Lemma substr_suffix s t : substr (String.length s) (String.length t) (s +:+ t) = t.
Proof. induction s as [|a s IH]; [apply substr_all|done]. Qed.

Lemma substr_split k s :
  (k ≤ String.length s)%nat → substr 0 k s +:+ substr k (String.length s - k) s = s.
Proof.
  revert k. induction s as [|a s IH]; intros [|k] Hk; cbn in *; [done|lia|..].
  - by rewrite substr_all.
  - f_equal. apply IH. lia.
Qed.

Lemma string_length_app s t : String.length (s +:+ t) = (String.length s + String.length t)%nat.
Proof. induction s as [|a s IH]; cbn; [done|]. by rewrite IH. Qed.

#[export] Hint Resolve stoll_to_string steady_mono : agent.
