(* ===== verification/RosMsgs.v ===== *)
(** * RosMsgs: the ROS messages the agent exchanges with Autoware

    The message packages are not part of the repository.  Their named constants are a class of
    parameters; the laws are the ones the source needs to compile at all, since a [switch] over
    the constants has pairwise distinct labels.  The message types are records of the members the
    source reads or writes.  [documented_msgs] holds the values of the public definitions. *)

From S2P Require Export Ieee CppStd.

Class AutowareMsgs : Type := {
  (* autoware_adapi_v1_msgs/LocalizationInitializationState *)
  LIS_UNINITIALIZED : Z; LIS_INITIALIZING : Z; LIS_INITIALIZED : Z;
  (* autoware_adapi_v1_msgs/RouteState *)
  RS_UNSET : Z; RS_SET : Z; RS_ARRIVED : Z; RS_CHANGING : Z;
  (* autoware_adapi_v1_msgs/OperationModeState *)
  OM_STOP : Z; OM_AUTONOMOUS : Z; OM_LOCAL : Z; OM_REMOTE : Z;
  (* autoware_adapi_v1_msgs/MrmState: states, behaviours *)
  MRM_UNKNOWN : Z; MRM_NORMAL : Z; MRM_MRM_OPERATING : Z; MRM_MRM_SUCCEEDED : Z;
  MRM_MRM_FAILED : Z; MRM_EMERGENCY_STOP : Z; MRM_PULL_OVER : Z;
  (* autoware_adapi_v1_msgs/MotionState *)
  MS_STOPPED : Z; MS_STARTING : Z; MS_MOVING : Z;
  (* autoware_vehicle_msgs/GearReport *)
  GR_PARK : Z; GR_REVERSE : Z; GR_NEUTRAL : Z; GR_DRIVE : Z;
  (* autoware_vehicle_msgs/TurnIndicatorsReport, ControlModeReport *)
  TIR_ENABLE_LEFT : Z; TIR_ENABLE_RIGHT : Z;
  CMR_AUTONOMOUS : Z;
  (* autoware_perception_msgs/ObjectClassification *)
  OC_CAR : Z; OC_TRUCK : Z; OC_BUS : Z; OC_TRAILER : Z; OC_MOTORCYCLE : Z; OC_BICYCLE : Z;
  OC_PEDESTRIAN : Z; OC_ANIMAL : Z;
  (* autoware_perception_msgs/TrafficLightElement *)
  TLE_RED : Z; TLE_AMBER : Z; TLE_GREEN : Z;
  (* autoware_adapi_v1_msgs/VelocityFactor, SteeringFactor *)
  VF_APPROACHING : Z; VF_STOPPED : Z;
  SF_LEFT : Z; SF_RIGHT : Z; SF_STRAIGHT : Z; SF_APPROACHING : Z; SF_TURNING : Z;
  (* the labels of one switch are distinct *)
  LIS_distinct : NoDup [LIS_UNINITIALIZED; LIS_INITIALIZING; LIS_INITIALIZED];
  RS_distinct : NoDup [RS_UNSET; RS_SET; RS_ARRIVED; RS_CHANGING];
  OM_distinct : NoDup [OM_STOP; OM_AUTONOMOUS; OM_LOCAL; OM_REMOTE];
  MRM_state_distinct : NoDup [MRM_NORMAL; MRM_MRM_OPERATING; MRM_MRM_SUCCEEDED; MRM_MRM_FAILED];
  MRM_behavior_distinct : NoDup [MRM_EMERGENCY_STOP; MRM_PULL_OVER];
  MS_distinct : NoDup [MS_STOPPED; MS_STARTING; MS_MOVING];
  GR_distinct : NoDup [GR_PARK; GR_REVERSE; GR_NEUTRAL; GR_DRIVE];
  TIR_distinct : NoDup [TIR_ENABLE_LEFT; TIR_ENABLE_RIGHT];
  OC_distinct : NoDup [OC_CAR; OC_TRUCK; OC_BUS; OC_TRAILER; OC_MOTORCYCLE; OC_BICYCLE;
                       OC_PEDESTRIAN; OC_ANIMAL];
  TLE_distinct : NoDup [TLE_RED; TLE_AMBER; TLE_GREEN];
  VF_distinct : NoDup [VF_APPROACHING; VF_STOPPED];
  SF_direction_distinct : NoDup [SF_LEFT; SF_RIGHT; SF_STRAIGHT];
  SF_status_distinct : NoDup [SF_APPROACHING; SF_TURNING]
}.

Ltac solve_nodup := repeat constructor; rewrite ?list_elem_of_In; cbn; lia.

(** The values of the public message definitions (used by the witnesses only). *)
#[refine] Definition documented_msgs : AutowareMsgs := {|
  LIS_UNINITIALIZED := 1; LIS_INITIALIZING := 2; LIS_INITIALIZED := 3;
  RS_UNSET := 1; RS_SET := 2; RS_ARRIVED := 3; RS_CHANGING := 4;
  OM_STOP := 1; OM_AUTONOMOUS := 2; OM_LOCAL := 3; OM_REMOTE := 4;
  MRM_UNKNOWN := 0; MRM_NORMAL := 1; MRM_MRM_OPERATING := 2; MRM_MRM_SUCCEEDED := 3;
  MRM_MRM_FAILED := 4; MRM_EMERGENCY_STOP := 2; MRM_PULL_OVER := 4;
  MS_STOPPED := 1; MS_STARTING := 2; MS_MOVING := 3;
  GR_PARK := 22; GR_REVERSE := 20; GR_NEUTRAL := 1; GR_DRIVE := 2;
  TIR_ENABLE_LEFT := 2; TIR_ENABLE_RIGHT := 3;
  CMR_AUTONOMOUS := 1;
  OC_CAR := 1; OC_TRUCK := 2; OC_BUS := 3; OC_TRAILER := 4; OC_MOTORCYCLE := 5; OC_BICYCLE := 6;
  OC_PEDESTRIAN := 7; OC_ANIMAL := 8;
  TLE_RED := 1; TLE_AMBER := 2; TLE_GREEN := 3;
  VF_APPROACHING := 1; VF_STOPPED := 2;
  SF_LEFT := 1; SF_RIGHT := 2; SF_STRAIGHT := 3; SF_APPROACHING := 1; SF_TURNING := 3
|}.
Proof. all: solve_nodup. Defined.

(** ** Messages *)

(** geometry_msgs/Point and the position part of geometry_msgs/Pose *)
Record Point := mkPoint { pt_x : double; pt_y : double; pt_z : double }.
Record Quaternion := mkQuaternion { q_x : double; q_y : double; q_z : double; q_w : double }.
Record Pose := mkPose { position : Point; orientation : Quaternion }.

(** std_msgs/Header *)
Record Header := mkHeader { frame_id : string; stamp : Z }.

Record PoseStamped := mkPoseStamped { ps_header : Header; ps_pose : Pose }.
Record PoseWithCovarianceStamped := mkPoseWithCovarianceStamped {
  pwc_header : Header;
  pwc_pose : Pose;
  pwc_covariance : list double   (* std::array<double, 36> *)
}.

(** autoware_planning_msgs/LaneletRoute *)
Record LaneletPrimitive := mkLaneletPrimitive { prim_id : Z; primitive_type : string }.
Record LaneletSegment := mkLaneletSegment {
  preferred_primitive : LaneletPrimitive;
  primitives : list LaneletPrimitive
}.
Record LaneletRoute := mkLaneletRoute {
  start_pose : Pose;
  goal_pose : Pose;
  segments : list LaneletSegment
}.

Definition origin : Point := mkPoint d0 d0 d0.
(** geometry_msgs/Quaternion{} is the identity rotation. *)
Definition pose_default : Pose := mkPose origin (mkQuaternion d0 d0 d0 d1).
Definition LaneletRoute_default : LaneletRoute := mkLaneletRoute pose_default pose_default [].

(** ** Messages of the frame bridges *)

(** autoware_perception_msgs: PredictedObjects *)
Record ObjectClassification := mkObjectClassification { label : Z }.
Record PredictedObject := mkPredictedObject {
  existence_probability : float32;
  classification : list ObjectClassification;
  initial_pose : Pose;              (* kinematics.initial_pose_with_covariance.pose *)
  initial_twist_x : double;         (* kinematics.initial_twist_with_covariance.twist.linear *)
  initial_twist_y : double;
  dimensions : Point                (* shape.dimensions *)
}.

(** autoware_perception_msgs: TrafficLightGroupArray *)
Record TrafficLightElement := mkTrafficLightElement { color : Z; confidence : float32 }.
Record TrafficLightGroup := mkTrafficLightGroup {
  traffic_light_group_id : Z; tl_elements : list TrafficLightElement }.

(** autoware_adapi_v1_msgs: MrmState *)
Record MrmState := mkMrmStateMsg { mrm_state_of : Z; mrm_behavior_of : Z }.

(** autoware_planning_msgs: TrajectoryPoint *)
Record TrajectoryPoint := mkTrajectoryPointMsg {
  tp_pose : Pose; longitudinal_velocity_mps : float32 }.

(** autoware_adapi_v1_msgs: VelocityFactor; SteeringFactor has an array of two poses. *)
Record VelocityFactor := mkVelocityFactorMsg {
  vfm_behavior : string; vfm_pose : Pose; vfm_status : Z }.
Record SteeringFactor := mkSteeringFactorMsg {
  sfm_behavior : string; sfm_pose : Pose * Pose; sfm_status : Z; sfm_direction : Z }.

(** nav_msgs: OccupancyGrid *)
Record OccupancyGrid := mkOccupancyGridMsg {
  resolution : float32; width : Z; height : Z; origin_position : Point; data : list Z }.

(** tier4_system_msgs: DiagGraphStatus *)
Record DiagNode := mkDiagNode { hardware_id : string; level : Z; message : string }.
