(* ===== verification/MapProjector.v ===== *)
(** * MapProjector: the map's configuration file

    [src/map_routes/MapProjectorInfo.{h,cc}].  The YAML reader is yaml-cpp, a parameter: a file
    loads to a node, fails to open (YAML::BadFile, which [load] translates) or fails otherwise
    (which escapes).  A child is looked up by its key and may be absent; indexing a scalar throws. *)

From S2P Require Export Ieee CppStd.

Inductive LoadFile (N : Type) : Type :=
  | Loaded (n : N)
  | BadFile (what : string)
  | LoadError (e : exn).
Arguments Loaded {N} _.
Arguments BadFile {N} _.
Arguments LoadError {N} _.

Class YamlCpp : Type := {
  YamlNode : Type;
  LoadFile_ : string → LoadFile YamlNode;
  child : YamlNode → string → outcome YamlNode;      (* node[key] *)
  defined : YamlNode → bool;                     (* operator bool *)
  as_string : YamlNode → string → string;        (* as<std::string>(fallback) *)
  as_double : YamlNode → double → double         (* as<double>(fallback) *)
}.

(** What yaml-cpp documents of a missing entry: [as] gives the fallback. *)
Class YamlLaws `{YamlCpp} : Prop := {
  as_string_missing : ∀ n d, defined n = false → as_string n d = d;
  as_double_missing : ∀ n d, defined n = false → as_double n d = d
}.

Record MapProjectorInfo := mkMapProjectorInfo {
  projector_type : string;
  origin_lat : double; origin_lon : double;
  elevation : double;
  local_offset_x : double; local_offset_y : double;
  has_start : bool;
  info_start_name : string;
  start_lat : double; start_lon : double
}.

#[export] Instance MapProjectorInfo_eta : Eta MapProjectorInfo := λ i,
  mkMapProjectorInfo (projector_type i) (origin_lat i) (origin_lon i) (elevation i)
    (local_offset_x i) (local_offset_y i) (has_start i) (info_start_name i) (start_lat i)
    (start_lon i).

Definition MapProjectorInfo_default : MapProjectorInfo :=
  mkMapProjectorInfo "" d0 d0 d0 d0 d0 false "" d0 d0.

Section Load.
Context `{YamlCpp}.

(** node[key].as<double>(fallback) *)
Definition double_at (n : YamlNode) (key : string) (fallback : double) : outcome double :=
  c ← child n key; mret (as_double c fallback).

Definition read_projector (cfg : YamlNode) (info : MapProjectorInfo) : outcome MapProjectorInfo :=
  c ← child cfg "projector_type";
  mret (if defined c then info <| projector_type := as_string c "MGRS" |> else info).

Definition read_origin (cfg : YamlNode) (info : MapProjectorInfo) : outcome MapProjectorInfo :=
  origin ← child cfg "map_config";
  if negb (defined origin) then
    Throw (RuntimeError "map_config.yaml: missing 'map_config' section")
  else
    lat ← double_at origin "latitude" d0;
    lon ← double_at origin "longitude" d0;
    elev ← double_at origin "elevation" d0;
    mret (info <| origin_lat := lat |> <| origin_lon := lon |> <| elevation := elev |>).

Definition read_offset (cfg : YamlNode) (info : MapProjectorInfo) : outcome MapProjectorInfo :=
  c ← child cfg "local_offset";
  if defined c then
    x ← double_at c "x" d0;
    y ← double_at c "y" d0;
    mret (info <| local_offset_x := x |> <| local_offset_y := y |>)
  else mret info.

Definition read_start (cfg : YamlNode) (info : MapProjectorInfo) : outcome MapProjectorInfo :=
  sp ← child cfg "start_position";
  if defined sp then
    name ← child sp "name";
    lat ← double_at sp "latitude" (origin_lat info);
    lon ← double_at sp "longitude" (origin_lon info);
    mret (info <| has_start := true |> <| info_start_name := as_string name "default" |>
               <| start_lat := lat |> <| start_lon := lon |>)
  else mret info.

Definition MapProjectorInfo_load (map_path : string) : outcome MapProjectorInfo :=
  let info := MapProjectorInfo_default <| projector_type := "MGRS" |> in
  match LoadFile_ (map_path +:+ "/map_config.yaml") with
  | Loaded cfg =>
    info ← read_projector cfg info;
    info ← read_origin cfg info;
    info ← read_offset cfg info;
    read_start cfg info
  | BadFile what => Throw (RuntimeError ("Failed to load map_config.yaml: " +:+ what))
  | LoadError e => Throw e
  end.
End Load.

(** ** What a loaded configuration holds *)
Section Facts.
Context `{YamlLaws}.

Lemma outcome_bind_Ret {A B} (m : outcome A) (f : A → outcome B) b :
  m ≫= f = Ret b ↔ ∃ a, m = Ret a ∧ f a = Ret b.
Proof.
  destruct m as [a|e]; cbn; split.
  - by exists a.
  - intros (a' & [= <-] & Hf). exact Hf.
  - done.
  - by intros (a' & ? & _).
Qed.

(** A child that is absent, on a node that can be indexed. *)
Definition absent (n : YamlNode) (key : string) : Prop :=
  ∃ c, child n key = Ret c ∧ defined c = false.

Lemma double_at_absent n key d : absent n key → double_at n key d = Ret d.
Proof. intros (c & Hc & Hd). unfold double_at. rewrite Hc. cbn. by rewrite as_double_missing. Qed.

(** The section is there: the child exists and is defined. *)
Definition section_of (cfg : YamlNode) (key : string) (n : YamlNode) : Prop :=
  child cfg key = Ret n ∧ defined n = true.

(** What [load] read of the map's origin, and of the start position. *)
Definition origin_of (cfg : YamlNode) (i : MapProjectorInfo) : Prop :=
  ∃ o, section_of cfg "map_config" o ∧
       double_at o "latitude" d0 = Ret (origin_lat i) ∧
       double_at o "longitude" d0 = Ret (origin_lon i) ∧
       double_at o "elevation" d0 = Ret (elevation i).
Definition start_of (cfg : YamlNode) (i : MapProjectorInfo) : Prop :=
  if has_start i then
    ∃ sp, section_of cfg "start_position" sp ∧
          double_at sp "latitude" (origin_lat i) = Ret (start_lat i) ∧
          double_at sp "longitude" (origin_lon i) = Ret (start_lon i)
  else absent cfg "start_position".

Lemma read_projector_spec cfg info info' :
  read_projector cfg info = Ret info' → has_start info' = has_start info.
Proof.
  unfold read_projector. rewrite outcome_bind_Ret. intros (c & _ & Hr).
  destruct (defined c); by injection Hr as <-.
Qed.

Lemma read_origin_spec cfg info info' :
  read_origin cfg info = Ret info' → origin_of cfg info' ∧ has_start info' = has_start info.
Proof.
  unfold read_origin. rewrite outcome_bind_Ret. intros (o & Ho & Hr).
  destruct (defined o) eqn:Hd; [cbn in Hr|done].
  apply outcome_bind_Ret in Hr as (lat & Hlat & Hr).
  apply outcome_bind_Ret in Hr as (lon & Hlon & Hr).
  apply outcome_bind_Ret in Hr as (el & Hel & Hr). injection Hr as <-. split; [by exists o|done].
Qed.

(** The optional sections do not touch what was read before them. *)
Lemma read_offset_keeps cfg info info' :
  read_offset cfg info = Ret info' → origin_of cfg info →
  origin_of cfg info' ∧ has_start info' = has_start info.
Proof.
  unfold read_offset. rewrite outcome_bind_Ret. intros (c & _ & Hr) Ho.
  destruct (defined c); [|by injection Hr as <-].
  apply outcome_bind_Ret in Hr as (x & _ & Hr). apply outcome_bind_Ret in Hr as (y & _ & Hr).
  by injection Hr as <-.
Qed.

Lemma read_start_spec cfg info info' :
  read_start cfg info = Ret info' → origin_of cfg info → has_start info = false →
  origin_of cfg info' ∧ start_of cfg info'.
Proof.
  unfold read_start. rewrite outcome_bind_Ret. intros (sp & Hsp & Hr) Ho Hs.
  destruct (defined sp) eqn:Hd.
  - apply outcome_bind_Ret in Hr as (n & _ & Hr). apply outcome_bind_Ret in Hr as (x & Hx & Hr).
    apply outcome_bind_Ret in Hr as (y & Hy & Hr). injection Hr as <-. split; [done|]. by exists sp.
  - injection Hr as <-. split; [done|]. unfold start_of. rewrite Hs. by exists sp.
Qed.

(** Loading the map configuration.  A configuration that loads has a 'map_config' section,
    whose coordinates it holds (0 where an entry is missing); it has a start position exactly when
    the file has the section, with the origin as the fallback for a missing coordinate.  A file
    that cannot be opened, or has no 'map_config' section, is a runtime error. *)
Theorem map_config_loads path :
  match MapProjectorInfo_load path with
  | Ret info => ∃ cfg, LoadFile_ (path +:+ "/map_config.yaml") = Loaded cfg ∧
                       origin_of cfg info ∧ start_of cfg info
  | Throw _ => True
  end ∧
  (∀ what, LoadFile_ (path +:+ "/map_config.yaml") = BadFile what →
           ∃ msg, MapProjectorInfo_load path = Throw (RuntimeError msg)) ∧
  (∀ cfg c, LoadFile_ (path +:+ "/map_config.yaml") = Loaded cfg →
            child cfg "projector_type" = Ret c → absent cfg "map_config" →
            ∃ msg, MapProjectorInfo_load path = Throw (RuntimeError msg)) ∧
  (∀ cfg o sp, LoadFile_ (path +:+ "/map_config.yaml") = Loaded cfg →
     section_of cfg "map_config" o → section_of cfg "start_position" sp →
     absent sp "latitude" → absent sp "longitude" →
     ∀ info, MapProjectorInfo_load path = Ret info →
       start_lat info = origin_lat info ∧ start_lon info = origin_lon info).
Proof.
  assert (Hload : ∀ info, MapProjectorInfo_load path = Ret info →
    ∃ cfg, LoadFile_ (path +:+ "/map_config.yaml") = Loaded cfg ∧
           origin_of cfg info ∧ start_of cfg info).
  { intros info. unfold MapProjectorInfo_load.
    destruct (LoadFile_ _) as [cfg|what|e] eqn:Hf; [|done..].
    rewrite outcome_bind_Ret. intros (i1 & H1 & Hr). apply read_projector_spec in H1.
    apply outcome_bind_Ret in Hr as (i2 & H2 & Hr). apply read_origin_spec in H2 as [Ho Hs2].
    apply outcome_bind_Ret in Hr as (i3 & H3 & Hr).
    destruct (read_offset_keeps _ _ _ H3 Ho) as [Ho3 Hs3]. exists cfg. split; [done|].
    apply (read_start_spec _ _ _ Hr Ho3). by rewrite Hs3, Hs2, H1. }
  split; [|split; [|split]].
  - destruct (MapProjectorInfo_load path) eqn:Hl; [by apply Hload|done].
  - intros what Hf. unfold MapProjectorInfo_load. rewrite Hf. by eexists.
  - intros cfg c Hf Hc (o & Ho & Hd). unfold MapProjectorInfo_load, read_projector, read_origin.
    rewrite Hf, Hc. cbn. rewrite Ho. cbn. rewrite Hd. by eexists.
  - intros cfg o sp Hf Ho [Hsp Hd] Hlat Hlon info Hi.
    destruct (Hload info Hi) as (cfg' & Hf' & _ & Hst). assert (cfg' = cfg) as -> by congruence.
    unfold start_of in Hst. destruct (has_start info).
    + destruct Hst as (sp' & [Hsp' _] & Hx & Hy). assert (sp' = sp) as -> by congruence.
      rewrite double_at_absent in Hx by done. rewrite double_at_absent in Hy by done.
      split; congruence.
    + destruct Hst as (sp' & Hsp' & Hd'). congruence.
Qed.
End Facts.

(** ** A concrete reader *)

(** A node is undefined, a scalar or a mapping. *)
Inductive YamlTree : Type :=
  | Undefined
  | Text (s : string)
  | Number (d : double)
  | Mapping (l : list (string * YamlTree)).

Fixpoint entry (l : list (string * YamlTree)) (key : string) : YamlTree :=
  match l with
  | [] => Undefined
  | (k, t) :: l' => if decide (k = key) then t else entry l' key
  end.

Definition tree_child (t : YamlTree) (key : string) : outcome YamlTree :=
  match t with
  | Mapping l => Ret (entry l key)
  | Undefined => Ret Undefined
  | _ => Throw (LibraryError "operator[] call on a scalar")
  end.

Definition example_config : YamlTree :=
  Mapping [("map_config", Mapping [("latitude", Number (d_of_Z 35))]);
           ("start_position", Mapping [("name", Text "depot")])].

Definition tree_yaml : YamlCpp := {|
  YamlNode := YamlTree;
  LoadFile_ path := if decide (path = "/maps/map_config.yaml") then Loaded example_config
                    else BadFile path;
  child := tree_child;
  defined t := match t with Undefined => false | _ => true end;
  as_string t d := match t with Text s => s | _ => d end;
  as_double t d := match t with Number x => x | _ => d end
|}.

Lemma tree_yaml_laws : YamlLaws (H := tree_yaml).
Proof. split; by intros []. Qed.

Lemma map_config_loads_witness :
  ∃ info, MapProjectorInfo_load (H := tree_yaml) "/maps" = Ret info ∧
          start_lat info = d_of_Z 35 ∧ start_lon info = origin_lon info ∧
          origin_of (H := tree_yaml) example_config info.
Proof.
  destruct (map_config_loads (H0 := tree_yaml_laws) "/maps") as (Hload & _ & _ & Hfall).
  eexists. split; [vm_compute; reflexivity|]. split; [reflexivity|].
  split; [|destruct Hload as (cfg & [= <-] & Ho & _); exact Ho].
  eapply Hfall; [vm_compute; reflexivity|split; reflexivity|split; reflexivity|..].
  1,2: by exists Undefined.
  vm_compute. reflexivity.
Defined.
