(* ===== verification/RouteMap.v ===== *)
(** * RouteMap: what the trip logic needs from the lane map

    The coordinate and lane types of [src/map_routes/LaneletMap.h], and the interface between
    [TripController] (client) and [LaneletMap] (implementation).  [RouteMap] has the operations
    the client calls; [RouteMapLaws] is the contract.  A map grows as lanes are resolved (they are
    cached), so operations return the new map; the contract says that an answer once given is
    given again, and that no exception escapes on a lane that has been resolved before. *)

From S2P Require Export RosMsgs.

Record GPSCoordinate := mkGPS { latitude : double; longitude : double }.
Record LocalCoordinate := mkLocal { local_x : double; local_y : double; local_z : double }.
Record Orientation := mkOrientation {
  ori_x : double; ori_y : double; ori_z : double; ori_w : double; yaw_degrees : double }.

Record LaneInfo := mkLaneInfo {
  lane_id : Z;
  gps : GPSCoordinate;
  local : LocalCoordinate;
  lane_orientation : Orientation
}.

Record FixedStartPosition := mkFixedStart {
  start_name : string;
  start_gps : GPSCoordinate;
  start_local : LocalCoordinate;
  start_orientation : Orientation
}.

#[export] Instance GPSCoordinate_eq_dec : EqDecision GPSCoordinate.
Proof. solve_decision. Defined.
#[export] Instance LocalCoordinate_eq_dec : EqDecision LocalCoordinate.
Proof. solve_decision. Defined.
#[export] Instance Orientation_eq_dec : EqDecision Orientation.
Proof. solve_decision. Defined.
#[export] Instance LaneInfo_eq_dec : EqDecision LaneInfo.
Proof. solve_decision. Defined.

Definition GPS_default : GPSCoordinate := mkGPS d0 d0.

(** ** The operations *)
Class RouteMap (Mp : Type) : Type := {
  rm_getDefaultStart : Mp → option FixedStartPosition;
  rm_gpsToLocal : Mp → GPSCoordinate → LocalCoordinate;
  rm_localToGps : Mp → LocalCoordinate → GPSCoordinate;
  rm_findNearestLane : GPSCoordinate → Mp → outcome (option LaneInfo) * Mp;
  rm_getLaneById : Z → Mp → outcome (option LaneInfo) * Mp;
  rm_findNearestConnectedLane : GPSCoordinate → Z → bool → Mp → outcome (option LaneInfo) * Mp
}.

(** ** The contract *)
Section Settled.
Context {Mp : Type} `{RouteMap Mp}.

(** The lane is resolved: looking its id up returns it and changes nothing. *)
Definition lane_settled (m : Mp) (l : LaneInfo) : Prop :=
  rm_getLaneById (lane_id l) m = (Ret (Some l), m).

(** The reachable lane nearest to [g] from [ref] is resolved as [l]. *)
Definition route_settled (m : Mp) (g : GPSCoordinate) (ref : Z) (l : LaneInfo) : Prop :=
  rm_findNearestConnectedLane g ref true m = (Ret (Some l), m).
End Settled.

Class RouteMapLaws (Mp : Type) `{RouteMap Mp} : Type := {
  rm_inv : Mp → Prop;
  rm_le : Mp → Mp → Prop;
  rm_le_po :: PreOrder rm_le;
  rm_le_lane : ∀ m m' l, rm_le m m' → lane_settled m l → lane_settled m' l;
  rm_le_route : ∀ m m' g ref l, rm_le m m' → route_settled m g ref l → route_settled m' g ref l;
  rm_nearest_spec : ∀ m g, rm_inv m →
    ∃ o m', rm_findNearestLane g m = (Ret o, m') ∧ rm_inv m' ∧ rm_le m m' ∧
            ∀ l, o = Some l → lane_settled m' l ∧ is_int64 (lane_id l);
  rm_connected_spec : ∀ m g lr, rm_inv m → lane_settled m lr →
    ∃ o m', rm_findNearestConnectedLane g (lane_id lr) true m = (Ret o, m') ∧
            rm_inv m' ∧ rm_le m m' ∧
            ∀ l, o = Some l →
              lane_settled m' l ∧ is_int64 (lane_id l) ∧ route_settled m' g (lane_id lr) l
}.

#[export] Hint Resolve rm_le_lane rm_le_route : agent.
