(* ===== verification/Geometry.v ===== *)
(** * Geometry: the planar geometry of the lane map

    The arithmetic of projectOntoLaneCenterline ([src/map_routes/LaneletMap.cc]), written once over
    the class [Arith] of the operations it uses.  The agent computes with doubles
    ([double_arith]); the same text over the real numbers says what it computes but for rounding
    ([GeometryTheorems]). *)

From S2P Require Export Ieee.

Class Arith (A : Type) : Type := {
  a0 : A;
  a1 : A;
  a_add : A → A → A;
  a_sub : A → A → A;
  a_mul : A → A → A;
  a_div : A → A → A;
  a_sqrt : A → A;
  a_ltb : A → A → bool
}.
#[export] Instance double_arith : Arith double := {|
  a0 := d0; a1 := d1; a_add := dadd; a_sub := dsub; a_mul := dmul; a_div := ddiv;
  a_sqrt := dsqrt; a_ltb := dltb
|}.

Declare Scope arith_scope.
Delimit Scope arith_scope with arith.
Infix "+" := a_add : arith_scope.
Infix "-" := a_sub : arith_scope.
Infix "*" := a_mul : arith_scope.
Infix "/" := a_div : arith_scope.
Infix "<?" := a_ltb : arith_scope.

Record Point3 (A : Type) := mkPoint3d { px : A; py : A; pz : A }.
Arguments mkPoint3d {A} _ _ _.
Arguments px {A} _.
Arguments py {A} _.
Arguments pz {A} _.

Section Projection.
Context {A : Type} `{Arith A}.
Local Open Scope arith_scope.

(** std::clamp(v, lo, hi) *)
Definition clamp (v lo hi : A) : A := if v <? lo then lo else if hi <? v then hi else v.

(** The closest point to the target on one segment, and its distance. *)
Definition project_segment (target_x target_y : A) (p0 p1 : Point3 A) : A * Point3 A :=
  let dx := px p1 - px p0 in
  let dy := py p1 - py p0 in
  let seg_len2 := dx * dx + dy * dy in
  let t :=
    if a0 <? seg_len2
    then clamp (((target_x - px p0) * dx + (target_y - py p0) * dy) / seg_len2) a0 a1
    else a0 in
  let qx := px p0 + t * dx in
  let qy := py p0 + t * dy in
  (a_sqrt ((target_x - qx) * (target_x - qx) + (target_y - qy) * (target_y - qy)),
   mkPoint3d qx qy (pz p0)).

(** The loop over the segments; [best] starts uninitialised. *)
Fixpoint project_segments (target_x target_y : A) (cl : list (Point3 A)) (min_dist : A)
    (best : Point3 A) : A * Point3 A :=
  match cl with
  | p0 :: ((p1 :: _) as rest) =>
    let '(dist, p) := project_segment target_x target_y p0 p1 in
    if dist <? min_dist then project_segments target_x target_y rest dist p
    else project_segments target_x target_y rest min_dist best
  | _ => (min_dist, best)
  end.
End Projection.
