(* ===== verification/GeometryTheorems.v ===== *)
(** * GeometryTheorems: the projection onto a centre line, but for rounding

    Over the real numbers the routine of [Geometry] returns the point of the line nearest to the
    target. *)

From Stdlib Require Import Reals Lra Psatz.
From S2P Require Export Geometry.
Local Open Scope R_scope.

#[export] Instance real_arith : Arith R := {|
  a0 := 0; a1 := 1; a_add := Rplus; a_sub := Rminus; a_mul := Rmult; a_div := Rdiv;
  a_sqrt := sqrt; a_ltb := λ x y, if Rlt_dec x y then true else false
|}.

Definition square_distance (x y : R) (p : Point3 R) : R :=
  (x - px p) * (x - px p) + (y - py p) * (y - py p).
(** The distance in the plane. *)
Definition distance (x y : R) (p : Point3 R) : R := sqrt (square_distance x y p).

(** [q] lies on the segment from [p0] to [p1], seen from above. *)
Definition on_segment (p0 p1 q : Point3 R) : Prop :=
  ∃ t, 0 <= t <= 1 ∧ px q = px p0 + t * (px p1 - px p0) ∧ py q = py p0 + t * (py p1 - py p0).
(** [q] lies on the line through the points [cl]. *)
Definition on_line (cl : list (Point3 R)) (q : Point3 R) : Prop :=
  ∃ i p0 p1, cl !! i = Some p0 ∧ cl !! S i = Some p1 ∧ on_segment p0 p1 q.

(** Moving along a segment from its parameter [s] to [t] does not come closer to the target when
    [s] is the clamped foot of the perpendicular. *)
Lemma foot_minimal a b dx dy s t :
  let l2 := dx * dx + dy * dy in
  let n := a * dx + b * dy in
  0 < l2 → 0 <= t <= 1 →
  (s = n / l2 ∧ 0 <= s <= 1) ∨ (s = 0 ∧ n < 0) ∨ (s = 1 ∧ l2 < n) →
  (a - s * dx) * (a - s * dx) + (b - s * dy) * (b - s * dy) <=
  (a - t * dx) * (a - t * dx) + (b - t * dy) * (b - t * dy).
Proof.
  intros l2 n Hl Ht Hs.
  assert (Hdiff : (a - t * dx) * (a - t * dx) + (b - t * dy) * (b - t * dy) -
    ((a - s * dx) * (a - s * dx) + (b - s * dy) * (b - s * dy)) =
    (t - s) * ((t + s) * l2 - 2 * n)) by (unfold l2, n; ring).
  assert (0 <= (t - s) * ((t + s) * l2 - 2 * n)); [|lra]. clear Hdiff.
  destruct Hs as [[Hs _]|[[-> Hn]|[-> Hn]]].
  - assert (Hn : n = s * l2) by (rewrite Hs; field; lra). rewrite Hn.
    replace ((t - s) * ((t + s) * l2 - 2 * (s * l2))) with ((t - s) * (t - s) * l2) by ring.
    apply Rmult_le_pos; [apply Rle_0_sqr|lra].
  - apply Rmult_le_pos; nra.
  - replace ((t - 1) * ((t + 1) * l2 - 2 * n)) with ((1 - t) * (2 * n - (t + 1) * l2)) by ring.
    apply Rmult_le_pos; nra.
Qed.

Lemma project_segment_nearest x y p0 p1 :
  let '(d, q) := project_segment x y p0 p1 in
  d = distance x y q ∧ on_segment p0 p1 q ∧ ∀ q', on_segment p0 p1 q' → d <= distance x y q'.
Proof.
  unfold project_segment, clamp. cbn [a_add a_sub a_mul a_div a_sqrt a_ltb a0 a1 real_arith].
  set (dx := px p1 - px p0). set (dy := py p1 - py p0). set (l2 := dx * dx + dy * dy).
  set (n := (x - px p0) * dx + (y - py p0) * dy).
  set (s := if _ : bool then _ else _).
  split; [done|].
  assert (Hs : 0 <= s <= 1 ∧ (0 < l2 →
    (s = n / l2 ∧ 0 <= s <= 1) ∨ (s = 0 ∧ n < 0) ∨ (s = 1 ∧ l2 < n))).
  { subst s. destruct (Rlt_dec 0 l2) as [Hl|Hl]; [|split; lra].
    assert (Hn : n = n / l2 * l2) by (field; lra).
    destruct (Rlt_dec (n / l2) 0) as [Hneg|Hneg].
    { split; [lra|]. intros _. right; left. split; [done|]. nra. }
    destruct (Rlt_dec 1 (n / l2)) as [Hbig|Hbig].
    { split; [lra|]. intros _. right; right. split; [done|]. nra. }
    split; [lra|]. intros _. left. split; [done|lra]. }
  destruct Hs as [Hs01 Hs]. split; [by exists s|].
  intros q' (t & Ht & Hx & Hy). apply sqrt_le_1_alt. unfold square_distance. rewrite Hx, Hy.
  fold dx dy.
  replace (x - (px p0 + s * dx)) with ((x - px p0) - s * dx) by ring.
  replace (y - (py p0 + s * dy)) with ((y - py p0) - s * dy) by ring.
  replace (x - (px p0 + t * dx)) with ((x - px p0) - t * dx) by ring.
  replace (y - (py p0 + t * dy)) with ((y - py p0) - t * dy) by ring.
  destruct (Rlt_dec 0 l2) as [Hl|Hl].
  - apply foot_minimal; [exact Hl|exact Ht|exact (Hs Hl)].
  - assert (dx = 0 ∧ dy = 0) as [-> ->] by (unfold l2 in Hl; split; nra).
    rewrite !Rmult_0_r. lra.
Qed.

Lemma on_line_cons p0 cl q : on_line cl q → on_line (p0 :: cl) q.
Proof. intros (i & q0 & q1 & ? & ? & ?). by exists (S i), q0, q1. Qed.
Lemma on_line_inv p0 p1 cl q :
  on_line (p0 :: p1 :: cl) q → on_segment p0 p1 q ∨ on_line (p1 :: cl) q.
Proof.
  intros ([|i] & q0 & q1 & Hq0 & Hq1 & Hq); cbn in Hq0, Hq1.
  - left. by simplify_eq.
  - right. by exists i, q0, q1.
Qed.

(** The loop keeps the bound it was given, or finds a nearest point of the line below it. *)
Lemma project_segments_nearest x y cl bound best :
  let '(d, q) := project_segments x y cl bound best in
  (d = bound ∧ q = best ∧ ∀ q', on_line cl q' → bound <= distance x y q') ∨
  (d = distance x y q ∧ d < bound ∧ on_line cl q ∧ ∀ q', on_line cl q' → d <= distance x y q').
Proof.
  revert bound best. induction cl as [|p0 [|p1 cl] IH]; intros bound best.
  1,2: left; split_and!; [done..|]; intros q ([|i] & ? & ? & ? & ? & ?); done.
  change (project_segments x y (p0 :: p1 :: cl) bound best) with
    (let '(dist, p) := project_segment x y p0 p1 in
     if a_ltb dist bound then project_segments x y (p1 :: cl) dist p
     else project_segments x y (p1 :: cl) bound best).
  pose proof (project_segment_nearest x y p0 p1) as Hseg.
  destruct (project_segment x y p0 p1) as [dist p]. destruct Hseg as (Hd & Hon & Hmin).
  assert (Hhd : on_line (p0 :: p1 :: cl) p) by (exists 0%nat, p0, p1; done).
  cbn [a_ltb real_arith]. destruct (Rlt_dec dist bound) as [Hlt|Hge].
  - specialize (IH dist p). destruct (project_segments x y (p1 :: cl) dist p) as [d q].
    right. destruct IH as [(-> & -> & Hno)|(-> & Hlt' & Hq & Hall)].
    + split_and!; [done..|]. intros q' [Hq'|Hq']%on_line_inv; auto.
    + split_and!; [done|lra|by apply on_line_cons|].
      intros q' [Hq'|Hq']%on_line_inv; [|auto]. specialize (Hmin q' Hq'). lra.
  - specialize (IH bound best). destruct (project_segments x y (p1 :: cl) bound best) as [d q].
    destruct IH as [(-> & -> & Hno)|(-> & Hlt' & Hq & Hall)].
    + left. split_and!; [done..|]. intros q' [Hq'|Hq']%on_line_inv; [|auto].
      specialize (Hmin q' Hq'). lra.
    + right. split_and!; [done..|by apply on_line_cons|].
      intros q' [Hq'|Hq']%on_line_inv; [|auto]. specialize (Hmin q' Hq'). lra.
Qed.

(** C29: the projection onto a centre line is the nearest point of the line.  Computed without
    rounding, for a line of at least two points of which one is within the bound that the loop
    starts from, the routine returns a point of the line, and no point of the line is nearer to the
    target (seen from above). *)
Theorem projection_is_nearest_point x y cl bound best p :
  (2 <= length cl)%nat → p ∈ cl → distance x y p < bound →
  let q := (project_segments x y cl bound best).2 in
  on_line cl q ∧ ∀ q', on_line cl q' → distance x y q <= distance x y q'.
Proof.
  intros Hlen Hp Hb q. pose proof (project_segments_nearest x y cl bound best) as Hspec.
  subst q. destruct (project_segments x y cl bound best) as [d q]. cbn [snd].
  destruct Hspec as [(_ & _ & Hno)|(-> & _ & Hq & Hall)]; [exfalso|done].
  assert (Hon : on_line cl p).
  { apply list_elem_of_lookup in Hp as [i Hi]. destruct (decide (S i < length cl)%nat) as [Hlt|Hge].
    - destruct (lookup_lt_is_Some_2 cl (S i) Hlt) as [p1 Hp1]. exists i, p, p1.
      split_and!; [done..|]. exists 0. split; [lra|]. split; ring.
    - pose proof (lookup_lt_Some _ _ _ Hi). destruct i as [|i]; [lia|].
      destruct (lookup_lt_is_Some_2 cl i) as [p0 Hp0]; [lia|]. exists i, p0, p.
      split_and!; [done..|]. exists 1. split; [lra|]. split; ring. }
  specialize (Hno p Hon). lra.
Qed.

(** The target (3, 1) over the line (0, 0), (2, 0), (2, 5): the nearest point is inside the second
    segment. *)
Lemma projection_is_nearest_point_witness :
  let cl := [mkPoint3d 0 0 0; mkPoint3d 2 0 0; mkPoint3d 2 5 0] in
  let q := (project_segments 3 1 cl 100 (mkPoint3d 0 0 0)).2 in
  on_line cl q ∧ distance 3 1 q <= 1.
Proof.
  intros cl q.
  assert (H20 : distance 3 1 (mkPoint3d 2 0 0) < 100).
  { unfold distance, square_distance. cbn [px py].
    rewrite <- (sqrt_Rsqr 100) by lra. apply sqrt_lt_1_alt. unfold Rsqr. lra. }
  destruct (projection_is_nearest_point 3 1 cl 100 (mkPoint3d 0 0 0) (mkPoint3d 2 0 0))
    as [Hon Hmin]; [cbn; lia|right; left|exact H20|].
  split; [exact Hon|]. apply (Rle_trans _ (distance 3 1 (mkPoint3d 2 1 0))).
  - apply Hmin. exists 1%nat, (mkPoint3d 2 0 0), (mkPoint3d 2 5 0). split; [reflexivity|].
    split; [reflexivity|]. exists (1/5). cbn [px py]. split; [lra|]. split; lra.
  - unfold distance, square_distance. cbn [px py].
    replace ((3 - 2) * (3 - 2) + (1 - 1) * (1 - 1)) with 1 by ring. rewrite sqrt_1. lra.
Defined.
