(* ===== verification/LaneletMap.v ===== *)
(** * LaneletMap: the lane map and its cache

    [src/map_routes/LaneletMap.cc]; the arithmetic of the projection is in [Geometry].  The Lanelet2 library (loading, projection, routing graph) is
    the class [Lanelet2]; [Lanelet2Laws] is what its documentation says of ids and of reachable
    sets.  A [const LaneInfo*] the map hands out points into the vector [cache_]; it is modelled
    as the index of the element, so that the lifetime of these pointers can be stated.  The file
    ends with the proof that the map implements the interface of [RouteMap]. *)

From S2P Require Export Geometry RouteMap.

(** ** Lanelet2 and libm *)

Abbreviation BasicPoint3d := (Point3 double).

(** What the code reads of a lanelet: its id, its attribute "subtype" if present, the points of
    its centre line. *)
Record ConstLanelet := mkLanelet {
  ll_id : Z;
  ll_subtype : option string;
  centerline : list BasicPoint3d
}.

Class Lanelet2 : Type := {
  InvalId : Z;
  MGRSProjector : Type;
  setMGRSCode : GPSCoordinate → MGRSProjector;
  proj_forward : MGRSProjector → GPSCoordinate → double → BasicPoint3d;
  proj_reverse : MGRSProjector → BasicPoint3d → GPSCoordinate;
  load : string → MGRSProjector → list ConstLanelet;     (* the lanelet layer, in its order *)
  RoutingGraph : Type;
  build : list ConstLanelet → RoutingGraph;
  reachableSet : RoutingGraph → ConstLanelet → double → list ConstLanelet;
  following : RoutingGraph → ConstLanelet → list ConstLanelet;
  previous : RoutingGraph → ConstLanelet → list ConstLanelet;
  left_of : RoutingGraph → ConstLanelet → option ConstLanelet;
  right_of : RoutingGraph → ConstLanelet → option ConstLanelet;
  getRoute : RoutingGraph → ConstLanelet → ConstLanelet → option (list ConstLanelet);
  (* what an uninitialised BasicPoint3d holds *)
  uninitialised_point : BasicPoint3d;
  (* std::sin, std::cos, std::atan2 and M_PI *)
  d_sin : double → double;
  d_cos : double → double;
  d_atan2 : double → double → double;
  d_pi : double
}.

Section Layer.
Context `{Lanelet2}.

(** [laneletLayer.find], [.exists] and [.get]. *)
Definition layer_find (layer : list ConstLanelet) (id : Z) : option ConstLanelet :=
  snd <$> list_find (λ ll, ll_id ll = id) layer.
Definition layer_exists (layer : list ConstLanelet) (id : Z) : bool :=
  bool_decide (is_Some (layer_find layer id)).
Definition layer_get (layer : list ConstLanelet) (id : Z) : outcome ConstLanelet :=
  match layer_find layer id with
  | Some ll => Ret ll
  | None => Throw (NoSuchPrimitive id)
  end.

(** A layer holds each id once; ids are valid 64-bit integers.  The graph of a layer leads to
    lanelets of the layer. *)
Definition layer_ok (layer : list ConstLanelet) : Prop :=
  NoDup (ll_id <$> layer) ∧ ∀ ll, ll ∈ layer → is_int64 (ll_id ll) ∧ ll_id ll ≠ InvalId.
Definition graph_ok (layer : list ConstLanelet) (g : RoutingGraph) : Prop :=
  ∀ ll r radius, ll ∈ layer → r ∈ reachableSet g ll radius → r ∈ layer.
End Layer.

Class Lanelet2Laws `{Lanelet2} : Prop := {
  load_ok : ∀ path p, layer_ok (load path p);
  build_ok : ∀ layer, graph_ok layer (build layer)
}.

(** ** The object *)
Section Definitions.
Context `{Lanelet2}.

Record LaneletMap := mkLaneletMap {
  origin_lat_ : double;
  origin_lon_ : double;
  offset_x_ : double;
  offset_y_ : double;
  projector_ : MGRSProjector;
  map_ : option (list ConstLanelet);
  routing_graph_ : option RoutingGraph;
  cache_ : list LaneInfo;
  cache_capacity_ : nat;      (* cache_.capacity() as reserved *)
  default_start_ : option FixedStartPosition
}.

#[export] Instance LaneletMap_eta : Eta LaneletMap := λ m,
  mkLaneletMap (origin_lat_ m) (origin_lon_ m) (offset_x_ m) (offset_y_ m) (projector_ m) (map_ m)
    (routing_graph_ m) (cache_ m) (cache_capacity_ m) (default_start_ m).

(** Lookups throw or return, and may extend the cache. *)
Definition Lookup (A : Type) : Type := LaneletMap → outcome A * LaneletMap.

Definition isLoaded (m : LaneletMap) : bool :=
  match map_ m with Some (_ :: _) => true | _ => false end.

Definition getLaneletCount (m : LaneletMap) : nat :=
  match map_ m with Some layer => length layer | None => 0 end.

Definition gpsToLocal (m : LaneletMap) (g : GPSCoordinate) : LocalCoordinate :=
  let pt := proj_forward (projector_ m) g d0 in
  {| local_x := px pt; local_y := py pt; local_z := pz pt |}.

Definition localToGps (m : LaneletMap) (l : LocalCoordinate) : GPSCoordinate :=
  proj_reverse (projector_ m) (mkPoint3d (local_x l) (local_y l) (local_z l)).

(** ** Geometry of one lanelet *)

(** Crosswalks, walkways, stairs and pedestrian areas are not drivable. *)
Definition non_drivable (ll : ConstLanelet) : bool :=
  match ll_subtype ll with
  | Some st => bool_decide (st ∈ ["crosswalk"; "walkway"; "stairs"; "pedestrian"])
  | None => false
  end.

(** cl[cl.size() / 2], for a centre line that has points. *)
Definition midpoint (ll : ConstLanelet) : option BasicPoint3d :=
  centerline ll !! Nat.div (length (centerline ll)) 2.

Definition laneletYaw (ll : ConstLanelet) : double :=
  match centerline ll with
  | [] | [_] => d0
  | p0 :: _ =>
    match last (centerline ll) with
    | Some p1 => d_atan2 (dsub (py p1) (py p0)) (dsub (px p1) (px p0))
    | None => d0
    end
  end.

(** qz and qw *)
Definition yawToQuat (yaw_rad : double) : double * double :=
  let h := dmul yaw_rad (dlit 1 2) in (d_sin h, d_cos h).

Definition layer_of (m : LaneletMap) : list ConstLanelet := default [] (map_ m).

Definition projectOntoLaneCenterline (m : LaneletMap) (g : GPSCoordinate) (id : Z) :
    outcome LocalCoordinate :=
  ll ← layer_get (layer_of m) id;
  let target := gpsToLocal m g in
  let p := (project_segments (local_x target) (local_y target) (centerline ll) dmax
              uninitialised_point).2 in
  mret {| local_x := px p; local_y := py p; local_z := pz p |}.

Definition makeLaneInfo (m : LaneletMap) (ll : ConstLanelet) (g : GPSCoordinate) :
    outcome LaneInfo :=
  projected ← projectOntoLaneCenterline m g (ll_id ll);
  let yaw_rad := laneletYaw ll in
  let '(qz, qw) := yawToQuat yaw_rad in
  mret {| lane_id := ll_id ll; gps := localToGps m projected; local := projected;
          lane_orientation :=
            {| ori_x := d0; ori_y := d0; ori_z := qz; ori_w := qw;
               yaw_degrees := ddiv (dmul yaw_rad (d_of_Z 180)) d_pi |} |}.

(** ** The searches *)

(** The distance from [target] to the midpoint of a lanelet the searches consider. *)
Definition lane_distance (m : LaneletMap) (target : LocalCoordinate) (ll : ConstLanelet) :
    option double :=
  if non_drivable ll then None else
  match midpoint ll with
  | None => None
  | Some mid =>
    let dx := dsub (dadd (offset_x_ m) (px mid)) (local_x target) in
    let dy := dsub (dadd (offset_y_ m) (py mid)) (local_y target) in
    Some (dsqrt (dadd (dmul dx dx) (dmul dy dy)))
  end.

(** The loop of both searches, from [min_dist] and [best_id]. *)
Fixpoint nearest_scan (m : LaneletMap) (target : LocalCoordinate) (candidates : list ConstLanelet)
    (min_dist : double) (best_id : Z) : Z :=
  match candidates with
  | [] => best_id
  | ll :: rest =>
    match lane_distance m target ll with
    | Some dist =>
      if dltb dist min_dist then nearest_scan m target rest dist (ll_id ll)
      else nearest_scan m target rest min_dist best_id
    | None => nearest_scan m target rest min_dist best_id
    end
  end.

(** The index of the first cached lane with the id. *)
Definition cached_index (m : LaneletMap) (id : Z) : option nat :=
  fst <$> list_find (λ l, lane_id l = id) (cache_ m).

(** cache_.emplace_back; returns &cache_.back().  A full vector grows by doubling, and its elements
    move: pointers into it stay valid exactly as long as the capacity does not change. *)
Definition emplace (l : LaneInfo) : Lookup (option nat) := λ m,
  let n := length (cache_ m) in
  let cap := cache_capacity_ m in
  (Ret (Some n),
   m <| cache_ ::= λ c, c ++ [l] |>
     <| cache_capacity_ := if Nat.ltb n cap then cap else Nat.max 1 (2 * cap) |>).

(** The end of both searches: the cached entry of the lanelet found, or a new one. *)
Definition resolve (best_id : Z) (g : GPSCoordinate) : Lookup (option nat) := λ m,
  if decide (best_id = InvalId) then (Ret None, m) else
  match cached_index m best_id with
  | Some i => (Ret (Some i), m)
  | None =>
    match layer_get (layer_of m) best_id ≫= λ ll, makeLaneInfo m ll g with
    | Ret l => emplace l m
    | Throw e => (Throw e, m)
    end
  end.

Definition findNearestLane (g : GPSCoordinate) : Lookup (option nat) := λ m,
  if negb (isLoaded m) then (Ret None, m) else
  let target := gpsToLocal m g in
  resolve (nearest_scan m target (layer_of m) dmax InvalId) g m.

Definition getLaneById (id : Z) : Lookup (option nat) := λ m,
  match cached_index m id with
  | Some i => (Ret (Some i), m)
  | None =>
    if negb (layer_exists (layer_of m) id) then (Ret None, m) else
    match (ll ← layer_get (layer_of m) id;
           match midpoint ll with
           | None => Throw UndefinedBehaviour
           | Some mid => makeLaneInfo m ll (localToGps m (mkLocal (px mid) (py mid) (pz mid)))
           end) with
    | Ret l => emplace l m
    | Throw e => (Throw e, m)
    end
  end.

(** The lanelets the connected search looks at. *)
Definition connected_candidates (g : RoutingGraph) (layer : list ConstLanelet)
    (reference_ll : ConstLanelet) (reference_id : Z) (must_be_reachable_from_ref : bool) :
    list ConstLanelet :=
  if must_be_reachable_from_ref then reachableSet g reference_ll (d_of_Z 8000)
  else filter (λ ll, Exists (λ r, ll_id r = reference_id) (reachableSet g ll (d_of_Z 8000)))
         layer.

Definition findNearestConnectedLane (g : GPSCoordinate) (reference_id : Z)
    (must_be_reachable_from_ref : bool) : Lookup (option nat) := λ m,
  match isLoaded m, routing_graph_ m with
  | true, Some graph =>
    let target := gpsToLocal m g in
    match layer_get (layer_of m) reference_id with
    | Throw e => (Throw e, m)
    | Ret reference_ll =>
      let candidates :=
        connected_candidates graph (layer_of m) reference_ll reference_id
          must_be_reachable_from_ref in
      resolve (nearest_scan m target candidates dmax InvalId) g m
    end
  | _, _ => (Ret None, m)
  end.

(** ** The default start *)

Definition setDefaultStart (name : string) (g : GPSCoordinate) : Lookup unit := λ m,
  match findNearestLane g m with
  | (Throw e, m') => (Throw e, m')
  | (Ret p, m') =>
    let pos :=
      match p ≫= λ i, cache_ m' !! i with
      | Some lane => {| start_name := name; start_gps := g; start_local := local lane;
                        start_orientation := lane_orientation lane |}
      | None => {| start_name := name; start_gps := g; start_local := gpsToLocal m' g;
                   start_orientation := mkOrientation d0 d0 d0 d0 d0 |}
      end in
    (Ret (), m' <| default_start_ := Some pos |>)
  end.

Definition getDefaultStart (m : LaneletMap) : option FixedStartPosition := default_start_ m.

(** ** Construction *)

(** std::filesystem::path: [base / filename] *)
Definition is_absolute (s : string) : bool :=
  match s with String a _ => bool_decide (a = "/"%char) | EmptyString => false end.
Definition path_append (base filename : string) : string :=
  if is_absolute filename then filename
  else match base with
       | EmptyString => filename
       | _ => match String.get (String.length base - 1) base with
              | Some "/"%char => base +:+ filename
              | _ => base +:+ "/" +:+ filename
              end
       end.

(** The directories are TEST_MAP_DIR, SRC_MAP_DIR and INSTALL_MAP_DIR of the build. *)
Definition resolveOsmPath (exists_ : string → bool) (dirs : list string) (filename : string) :
    string :=
  if is_absolute filename && exists_ filename then filename
  else match list_find (λ c, exists_ c = true) ((λ base, path_append base filename) <$> dirs) with
       | Some (_, candidate) => candidate
       | None => filename
       end.

Definition LaneletMap_new (exists_ : string → bool) (dirs : list string) (osm_path : string)
    (origin_lat origin_lon local_offset_x local_offset_y : double) : outcome LaneletMap :=
  let full_path := resolveOsmPath exists_ dirs osm_path in
  if negb (exists_ full_path) then
    Throw (RuntimeError ("[LaneletMap] File not found: " +:+ full_path))
  else
  let projector := setMGRSCode (mkGPS origin_lat origin_lon) in
  let layer := load full_path projector in
  match layer with
  | [] => Throw (RuntimeError ("[LaneletMap] Map has no lanelets: " +:+ full_path))
  | _ =>
    Ret {| origin_lat_ := origin_lat; origin_lon_ := origin_lon;
           offset_x_ := local_offset_x; offset_y_ := local_offset_y;
           projector_ := projector; map_ := Some layer; routing_graph_ := Some (build layer);
           cache_ := []; cache_capacity_ := length layer; default_start_ := None |}
  end.

(** ** The flood fill of debugConnectedComponents

    [visited] is the std::set of ids seen, [to_visit] the std::queue. *)

(** The lanelets next to one: followers, predecessors, left and right. *)
Definition neighbours (g : RoutingGraph) (ll : ConstLanelet) : list ConstLanelet :=
  following g ll ++ previous g ll ++ option_list (left_of g ll) ++ option_list (right_of g ll).

(** if (!visited.count(f.id())) { visited.insert(f.id()); to_visit.push(f); } *)
Definition discover (acc : list Z * list ConstLanelet) (f : ConstLanelet) :
    list Z * list ConstLanelet :=
  let '(visited, to_visit) := acc in
  if decide (ll_id f ∈ visited) then (visited, to_visit)
  else (visited ++ [ll_id f], to_visit ++ [f]).

(** The while loop: one lanelet per unit of fuel, [None] when it runs out. *)
Fixpoint flood (fuel : nat) (g : RoutingGraph) (to_visit : list ConstLanelet) (visited : list Z)
    (component : list Z) : option (list Z * list Z) :=
  match fuel with
  | O => None
  | S k =>
    match to_visit with
    | [] => Some (component, visited)
    | current :: rest =>
      let '(visited', to_visit') := foldl discover (visited, rest) (neighbours g current) in
      flood k g to_visit' visited' (component ++ [ll_id current])
    end
  end.

(** The for loop over the layer; the components before they are sorted for the log. *)
Fixpoint components_from (fuel : nat) (g : RoutingGraph) (layer : list ConstLanelet)
    (visited : list Z) (components : list (list Z)) : option (list (list Z)) :=
  match layer with
  | [] => Some components
  | ll :: rest =>
    if non_drivable ll then components_from fuel g rest visited components
    else if decide (ll_id ll ∈ visited) then components_from fuel g rest visited components
    else match flood fuel g [ll] (visited ++ [ll_id ll]) [] with
         | Some (component, visited') =>
           components_from fuel g rest visited' (components ++ [component])
         | None => None
         end
  end.

(** A component has at most as many lanelets as the layer, and the loop looks once more. *)
Definition debugConnectedComponents (m : LaneletMap) : option (list (list Z)) :=
  match routing_graph_ m with
  | None => Some []
  | Some g => components_from (S (length (layer_of m))) g (layer_of m) [] []
  end.

(** ** The interface of the trip logic

    The client dereferences the pointers it gets. *)
Definition deref (r : outcome (option nat) * LaneletMap) : outcome (option LaneInfo) * LaneletMap :=
  let '(o, m) := r in
  (match o with
   | Ret (Some i) => match cache_ m !! i with
                     | Some l => Ret (Some l)
                     | None => Throw UndefinedBehaviour
                     end
   | Ret None => Ret None
   | Throw e => Throw e
   end, m).

#[export] Instance LaneletMap_RouteMap : RouteMap LaneletMap := {|
  rm_getDefaultStart := getDefaultStart;
  rm_gpsToLocal := gpsToLocal;
  rm_localToGps := localToGps;
  rm_findNearestLane g m := deref (findNearestLane g m);
  rm_getLaneById id m := deref (getLaneById id m);
  rm_findNearestConnectedLane g ref reach m := deref (findNearestConnectedLane g ref reach m)
|}.
End Definitions.
