(* ===== verification/MapDebug.v ===== *)
(** * MapDebug: the diagnoses of the lane map

    The three debug functions of [src/map_routes/LaneletMap.cc], as the lines they log.
    [debugConnectedComponents] of [LaneletMap] is the flood fill; here its result is sorted and
    reported. *)

From S2P Require Export LaneletMap.

Section Definitions.
Context `{Lanelet2} `{StdSort}.

(** The lines, with the values they print. *)
Inductive Line : Type :=
  | GraphNotBuilt                                   (* routing graph not built *)
  | InvalidIds (from_id to_id : Z)
  | NoRoute (from_id to_id : Z)
  | RouteExists (from_id to_id : Z) (lanelets : nat)
  | Followers (id : Z) (n : nat)
  | Follower (id : Z)
  | Predecessors (id : Z) (n : nat)
  | Predecessor (id : Z)
  | ReachableWithin (id : Z) (n : nat)
  | InReachableSet (to_id : Z) (found : bool) (from_id : Z)
  | ComponentsTotal (n : nat)
  | ComponentSize (i : nat) (lanelets : nat)
  | Members (ids : string)
  | TopHeader
  | Reaches (i : nat) (lane : Z) (n : nat)
  | BottomHeader
  | ReachesOnly (lane : Z) (n : nat).

(** ** debugRouteConnectivity *)
Definition debugRouteConnectivity (m : LaneletMap) (from_id to_id : Z) : list Line :=
  match routing_graph_ m with
  | None => [GraphNotBuilt]
  | Some g =>
    match layer_find (layer_of m) from_id, layer_find (layer_of m) to_id with
    | Some from_ll, Some to_ll =>
      [match getRoute g from_ll to_ll with
       | None => NoRoute from_id to_id
       | Some route => RouteExists from_id to_id (length route)
       end] ++
      [Followers from_id (length (following g from_ll))] ++
      ((λ f, Follower (ll_id f)) <$> following g from_ll) ++
      [Predecessors to_id (length (previous g to_ll))] ++
      ((λ p, Predecessor (ll_id p)) <$> previous g to_ll) ++
      (let reachable := reachableSet g from_ll (d_of_Z 200) in
       [ReachableWithin from_id (length reachable);
        InReachableSet to_id (existsb (λ ll, ll_id ll =? to_id) reachable) from_id])
    | _, _ => [InvalidIds from_id to_id]
    end
  end.

(** ** debugConnectedComponents: the report *)

(** ids += std::to_string(id) + " " *)
Definition member_list (c : list Z) : string :=
  foldl (λ ids id, ids +:+ to_string id +:+ " ") "" c.

Definition component_lines (i : nat) (c : list Z) : list Line :=
  ComponentSize i (length c) :: (if Nat.leb (length c) 30 then [Members (member_list c)] else []).

Definition report_components (components : list (list Z)) : list Line :=
  let sorted := std_sort (λ a b, Nat.ltb (length b) (length a)) components in
  ComponentsTotal (length sorted) :: concat (imap component_lines sorted).

Definition debugConnectedComponents_log (m : LaneletMap) : option (list Line) :=
  match routing_graph_ m with
  | None => Some [GraphNotBuilt]
  | Some _ => report_components <$> debugConnectedComponents m
  end.

(** ** debugFindBestStartingLane *)

Definition reach_counts (g : RoutingGraph) (layer : list ConstLanelet) : list (nat * Z) :=
  (λ ll, (length (reachableSet g ll (d_of_Z 1000000)), ll_id ll)) <$>
  filter (λ ll, non_drivable ll = false) layer.

(** The rows of the two loops: positions [0 .. min 10 n - 1] from the front and from the back. *)
Definition top_lines (counts : list (nat * Z)) : list Line :=
  omap (λ i, (λ x, Reaches i x.2 x.1) <$> counts !! i) (seq 0 (Nat.min 10 (length counts))).
Definition bottom_lines (counts : list (nat * Z)) : list Line :=
  omap (λ i, (λ x, ReachesOnly x.2 x.1) <$> counts !! (length counts - 1 - i)%nat)
    (seq 0 (Nat.min 10 (length counts))).

Definition debugFindBestStartingLane (m : LaneletMap) : list Line :=
  match routing_graph_ m with
  | None => [GraphNotBuilt]
  | Some g =>
    let counts := std_sort (λ a b, Nat.ltb b.1 a.1) (reach_counts g (layer_of m)) in
    TopHeader :: top_lines counts ++ BottomHeader :: bottom_lines counts
  end.
End Definitions.
