(* ===== verification/LaneletMapFacts.v ===== *)
(** * LaneletMapFacts: correctness of the lane map

    The invariant of the map and its cache, the minimum search, the lifetime of the pointers the
    map hands out, and the proof that the map keeps the contract [RouteMapLaws] the trip logic
    relies on. *)

From S2P Require Export LaneletMap.

Section Facts.
Context `{Lanelet2}.
Implicit Types (m : LaneletMap) (layer : list ConstLanelet).

(** ** The layer *)

Lemma layer_find_Some layer id ll :
  layer_find layer id = Some ll → ll ∈ layer ∧ ll_id ll = id.
Proof.
  unfold layer_find. intros Hf. apply fmap_Some in Hf as ([i x] & Hf & ->).
  apply list_find_Some in Hf as (Hx & Hid & _). split; [|done].
  by apply list_elem_of_lookup_2 in Hx.
Qed.

Lemma layer_find_elem layer ll :
  ll ∈ layer → ∃ ll', layer_find layer (ll_id ll) = Some ll'.
Proof.
  intros Hin. unfold layer_find.
  destruct (list_find_elem_of (λ x, ll_id x = ll_id ll) layer ll Hin eq_refl) as [p ->].
  by eexists.
Qed.

Lemma layer_get_id layer ll id :
  ll ∈ layer → ll_id ll = id → ∃ ll', layer_get layer id = Ret ll' ∧ ll' ∈ layer ∧ ll_id ll' = id.
Proof.
  intros Hin <-. destruct (layer_find_elem layer ll Hin) as [ll' Hf]. exists ll'.
  unfold layer_get. rewrite Hf. split; [done|]. by apply layer_find_Some.
Qed.

(** ** The minimum search *)

(** What the search considers to be closer: strictly, from the first of equals on. *)
Definition eligible (m : LaneletMap) (target : LocalCoordinate) (cands : list ConstLanelet)
    (bound : double) (ll : ConstLanelet) (d : double) : Prop :=
  ll ∈ cands ∧ lane_distance m target ll = Some d ∧ dltb d bound = true.

(** A lanelet the loop passes over leaves the candidates as they are. *)
Lemma eligible_skip m target ll rest bound :
  (∀ d, lane_distance m target ll = Some d → dltb d bound = false) →
  ∀ x d, eligible m target (ll :: rest) bound x d ↔ eligible m target rest bound x d.
Proof.
  intros Hskip x d. split; intros (Hin & Hd & Hlt); split_and!; try done; [|by right].
  apply elem_of_cons in Hin as [->|Hin]; [|done]. by rewrite (Hskip d Hd) in Hlt.
Qed.

Lemma nearest_scan_spec m target cands bound best :
  (nearest_scan m target cands bound best = best ∧ ∀ ll d, ¬ eligible m target cands bound ll d) ∨
  ∃ ll d, nearest_scan m target cands bound best = ll_id ll ∧
          eligible m target cands bound ll d ∧
          ∀ ll' d', eligible m target cands bound ll' d' → dleb d d' = true.
Proof.
  revert bound best. induction cands as [|ll rest IH]; intros bound best; cbn [nearest_scan].
  { left. split; [done|]. intros ll d (Hin & _). by apply elem_of_nil in Hin. }
  destruct (lane_distance m target ll) as [dist|] eqn:Hd; [destruct (dltb dist bound) eqn:Hlt|].
  2,3: assert (Hs := λ Hskip, eligible_skip m target ll rest bound Hskip).
  2,3: setoid_rewrite Hs; [apply IH|congruence..].
  right. destruct (IH dist (ll_id ll)) as [[-> Hnone]|(ll' & d' & -> & (Hin & Hd' & Hlt') & Hmin)].
  - exists ll, dist. split; [done|]. split; [by split_and!; [left|..]|].
    intros ll' d' (Hin & Hd' & Hlt'). apply elem_of_cons in Hin as [->|Hin].
    { rewrite Hd in Hd'. simplify_eq. eauto with agent. }
    apply dltb_false_leb; [eauto with agent..|].
    apply not_true_is_false. intros Hc. by apply (Hnone ll' d').
  - exists ll', d'. split; [done|]. split.
    { split_and!; [by right|done|]. eapply dltb_leb_trans; [exact Hlt'|]. by apply dltb_leb. }
    intros ll2 d2 (Hin2 & Hd2 & Hlt2). apply elem_of_cons in Hin2 as [->|Hin2].
    { rewrite Hd in Hd2. simplify_eq. by apply dltb_leb. }
    destruct (dltb d2 dist) eqn:Hc; [by apply (Hmin ll2)|].
    eapply dleb_trans; [by apply dltb_leb|].
    apply dltb_false_leb; [eauto with agent..|done].
Qed.

Lemma nearest_scan_elem m target cands bound :
  let r := nearest_scan m target cands bound InvalId in
  r = InvalId ∨ ∃ ll, ll ∈ cands ∧ ll_id ll = r.
Proof.
  destruct (nearest_scan_spec m target cands bound InvalId) as [[-> _]|(ll & d & -> & (? & _) & _)].
  - by left.
  - right. by exists ll.
Qed.

(** ** The invariant *)

Definition map_wf (m : LaneletMap) : Prop :=
  ∃ layer g,
    map_ m = Some layer ∧ layer ≠ [] ∧ routing_graph_ m = Some g ∧
    layer_ok layer ∧ graph_ok layer g ∧ (length layer ≤ cache_capacity_ m)%nat ∧
    NoDup (lane_id <$> cache_ m) ∧ (∀ l, l ∈ cache_ m → lane_id l ∈ (ll_id <$> layer)).

(** A later map: the same lanelets, and a cache that has grown at its end, in place. *)
Definition map_le (m m' : LaneletMap) : Prop :=
  projector_ m' = projector_ m ∧ map_ m' = map_ m ∧ routing_graph_ m' = routing_graph_ m ∧
  offset_x_ m' = offset_x_ m ∧ offset_y_ m' = offset_y_ m ∧
  cache_capacity_ m' = cache_capacity_ m ∧ default_start_ m' = default_start_ m ∧
  cache_ m `prefix_of` cache_ m'.

#[export] Instance map_le_po : PreOrder map_le.
Proof.
  split.
  - intros m. by repeat split.
  - intros m1 m2 m3 (?&?&?&?&?&?&?&?) (?&?&?&?&?&?&?&?). repeat split; try congruence.
    by etrans.
Qed.

Lemma cached_index_Some m id i :
  cached_index m id = Some i → ∃ l, cache_ m !! i = Some l ∧ lane_id l = id.
Proof.
  unfold cached_index. intros Hf. apply fmap_Some in Hf as ([j l] & Hf & ->).
  apply list_find_Some in Hf as (? & ? & _). by exists l.
Qed.

Lemma cached_index_None m id :
  cached_index m id = None → id ∉ (lane_id <$> cache_ m).
Proof.
  unfold cached_index. intros Hf. apply fmap_None, list_find_None in Hf.
  rewrite Forall_forall in Hf. intros (l & -> & Hin)%list_elem_of_fmap. by apply (Hf l).
Qed.

Lemma cached_index_le m m' id i :
  map_le m m' → cached_index m id = Some i → cached_index m' id = Some i.
Proof.
  intros (_&_&_&_&_&_&_&[k Hk]). unfold cached_index. rewrite Hk.
  intros ([j l] & Hf & ->)%fmap_Some. by rewrite (list_find_app_l _ _ _ _ _ Hf).
Qed.

(** A cached lane is found at its index: ids occur once. *)
Lemma cached_index_lookup m i l :
  NoDup (lane_id <$> cache_ m) → cache_ m !! i = Some l → cached_index m (lane_id l) = Some i.
Proof.
  intros Hnd Hl. unfold cached_index. apply fmap_Some. exists (i, l). split; [|done].
  apply list_find_Some. split; [done|]. split; [done|]. intros j y Hj Hlt Heq.
  assert (j = i); [|lia].
  eapply NoDup_lookup; [exact Hnd| |]; rewrite list_lookup_fmap; [rewrite Hj|rewrite Hl]; cbn;
    by rewrite <- ?Heq.
Qed.

Lemma map_wf_nodup m : map_wf m → NoDup (lane_id <$> cache_ m).
Proof. by intros (? & ? & ? & ? & ? & ? & ? & ? & ? & ?). Qed.

(** The cache never outgrows what was reserved. *)
Lemma map_wf_cache_length m : map_wf m → (length (cache_ m) ≤ cache_capacity_ m)%nat.
Proof.
  intros (layer & g & _ & _ & _ & _ & _ & Hcap & Hnd & Hin).
  transitivity (length layer); [|done].
  rewrite <- (length_fmap lane_id), <- (length_fmap ll_id layer).
  apply submseteq_length, NoDup_submseteq; [done|].
  intros x (l & -> & Hl)%list_elem_of_fmap. by apply Hin.
Qed.

(** ** Resolving a lanelet *)

Lemma makeLaneInfo_ok m ll g :
  ll ∈ layer_of m → ∃ l, makeLaneInfo m ll g = Ret l ∧ lane_id l = ll_id ll.
Proof.
  intros Hin. destruct (layer_get_id _ _ _ Hin eq_refl) as (ll' & Hg & _).
  unfold makeLaneInfo, projectOntoLaneCenterline. rewrite Hg. cbn. by eexists.
Qed.

(** Adding a fresh lane of the layer keeps the invariant, in place. *)
Lemma emplace_wf m l :
  map_wf m → lane_id l ∈ (ll_id <$> layer_of m) → lane_id l ∉ (lane_id <$> cache_ m) →
  ∃ m', emplace l m = (Ret (Some (length (cache_ m))), m') ∧ map_wf m' ∧ map_le m m' ∧
        cache_ m' = cache_ m ++ [l].
Proof.
  intros Hwf Hl Hfresh.
  destruct (Hwf) as (layer & g & Hm & Hne & Hg & Hok & Hgr & Hcap & Hnd & Hin).
  unfold layer_of in Hl. rewrite Hm in Hl. cbn in Hl.
  assert (Hlt : (length (cache_ m) < length layer)%nat).
  { rewrite <- (length_fmap lane_id), <- (length_fmap ll_id layer).
    apply (submseteq_length (lane_id l :: (lane_id <$> cache_ m))), NoDup_submseteq;
      [by constructor|].
    intros x [->|(l' & -> & Hl')%list_elem_of_fmap]%elem_of_cons; [done|]. by apply Hin. }
  assert (Nat.ltb (length (cache_ m)) (cache_capacity_ m) = true) as Hltb
    by (apply Nat.ltb_lt; lia).
  unfold emplace. rewrite Hltb. eexists. split; [reflexivity|]. split; [|split; [|done]].
  - exists layer, g. cbn. split_and!; try done.
    + rewrite fmap_app. apply NoDup_app. split; [done|]. split; [|by apply NoDup_singleton].
      intros x Hx ->%list_elem_of_singleton. done.
    + intros l' [Hl'| ->%list_elem_of_singleton]%elem_of_app; [by apply Hin|done].
  - unfold map_le. cbn. split_and!; try done. by apply prefix_app_r.
Qed.

(** What a lookup does on a well-formed map: it returns null, or a pointer to a cached lane;
    the map stays well-formed and grows in place. *)
Definition lookup_spec (op : Lookup (option nat)) (m : LaneletMap) (want : Z → Prop) : Prop :=
  ∃ r m', op m = (Ret r, m') ∧ map_wf m' ∧ map_le m m' ∧
    ∀ i, r = Some i → ∃ l, cache_ m' !! i = Some l ∧ want (lane_id l) ∧ is_int64 (lane_id l).

Lemma cached_int64 m l : map_wf m → l ∈ cache_ m → is_int64 (lane_id l).
Proof.
  intros (layer & g & _ & _ & _ & [_ Hok] & _ & _ & _ & Hin) Hl.
  apply Hin in Hl. apply list_elem_of_fmap in Hl as (ll & -> & Hll). by apply Hok.
Qed.

Lemma cached_hit m id i : map_wf m → cached_index m id = Some i →
  ∃ l, cache_ m !! i = Some l ∧ lane_id l = id ∧ is_int64 (lane_id l).
Proof.
  intros Hwf Hi. destruct (cached_index_Some _ _ _ Hi) as (l & Hl & Hid). exists l.
  split_and!; [done..|]. eapply cached_int64; [done|]. by eapply list_elem_of_lookup_2.
Qed.

(** Making and caching the entry of a lanelet of the layer. *)
Lemma emplace_new m ll g :
  map_wf m → ll ∈ layer_of m → ll_id ll ∉ (lane_id <$> cache_ m) →
  ∃ l m', makeLaneInfo m ll g = Ret l ∧ emplace l m = (Ret (Some (length (cache_ m))), m') ∧
    map_wf m' ∧ map_le m m' ∧ cache_ m' !! length (cache_ m) = Some l ∧
    lane_id l = ll_id ll ∧ is_int64 (lane_id l).
Proof.
  intros Hwf Hin Hfresh. destruct (makeLaneInfo_ok m ll g Hin) as (l & Hl & Hid).
  destruct (emplace_wf m l) as (m' & He & Hwf' & Hle & Hc); [done|..].
  { rewrite Hid. by apply list_elem_of_fmap_2. }
  { by rewrite Hid. }
  exists l, m'. assert (cache_ m' !! length (cache_ m) = Some l) as Hlk.
  { rewrite Hc. by apply list_lookup_middle. }
  split_and!; try done. eapply cached_int64; [exact Hwf'|]. by eapply list_elem_of_lookup_2.
Qed.

Lemma resolve_spec m id g :
  map_wf m → (id = InvalId ∨ ∃ ll, ll ∈ layer_of m ∧ ll_id ll = id) →
  lookup_spec (resolve id g) m (λ i, i = id).
Proof.
  intros Hwf Hid. unfold lookup_spec, resolve.
  destruct (decide (id = InvalId)) as [->|Hne]; [by exists None, m|].
  destruct Hid as [?|(ll & Hin & Hid)]; [done|].
  destruct (cached_index m id) as [i|] eqn:Hc.
  - exists (Some i), m. split_and!; [done..|]. intros j [= <-]. by apply cached_hit.
  - destruct (layer_get_id _ _ _ Hin Hid) as (ll' & -> & Hin' & Hid'). cbn.
    apply cached_index_None in Hc. rewrite <- Hid' in Hc.
    destruct (emplace_new m ll' g Hwf Hin' Hc) as (l & m' & -> & -> & ? & ? & ? & ? & ?).
    eexists _, m'. split_and!; [done..|]. intros i [= <-]. exists l. split_and!; try done.
    congruence.
Qed.

Lemma map_wf_loaded m : map_wf m → isLoaded m = true.
Proof. intros ([|? ?] & g & Hm & ? & _); [done|]. unfold isLoaded. by rewrite Hm. Qed.

Lemma findNearestLane_spec m g :
  map_wf m →
  lookup_spec (findNearestLane g) m
    (λ id, id = nearest_scan m (gpsToLocal m g) (layer_of m) dmax InvalId).
Proof.
  intros Hwf. unfold lookup_spec, findNearestLane. rewrite map_wf_loaded by done. cbn.
  apply resolve_spec; [done|]. apply nearest_scan_elem.
Qed.

Lemma connected_candidates_layer m gr ll ref b :
  map_wf m → routing_graph_ m = Some gr → ll ∈ layer_of m →
  ∀ c, c ∈ connected_candidates gr (layer_of m) ll ref b → c ∈ layer_of m.
Proof.
  intros (layer & g' & Hm & _ & Hg' & _ & Hgr & _) Hg. simplify_eq. unfold layer_of. rewrite Hm.
  cbn. intros Hll c. unfold connected_candidates. destruct b.
  - by apply Hgr.
  - by intros [_ ?]%list_elem_of_filter.
Qed.

(** The reference lanelet must be in the map; a cached lane always is. *)
Lemma findNearestConnectedLane_spec m g ref b :
  map_wf m → ref ∈ (ll_id <$> layer_of m) →
  ∃ gr ll, routing_graph_ m = Some gr ∧ layer_get (layer_of m) ref = Ret ll ∧
  lookup_spec (findNearestConnectedLane g ref b) m
    (λ id, id = nearest_scan m (gpsToLocal m g)
                  (connected_candidates gr (layer_of m) ll ref b) dmax InvalId).
Proof.
  intros Hwf (ll0 & -> & Hin)%list_elem_of_fmap.
  destruct (layer_get_id _ _ _ Hin eq_refl) as (ll & Hget & Hll & Hid).
  destruct (Hwf) as (layer & gr & Hm & _ & Hgr & _). exists gr, ll.
  split; [done|]. split; [done|]. unfold lookup_spec, findNearestConnectedLane.
  rewrite map_wf_loaded, Hgr, Hget by done. apply resolve_spec; [done|].
  destruct (nearest_scan_elem m (gpsToLocal m g)
    (connected_candidates gr (layer_of m) ll (ll_id ll0) b) dmax) as [->|(c & Hc & <-)]; [by left|].
  right. exists c. split; [|done]. by eapply connected_candidates_layer.
Qed.

(** ** The contract of the trip logic *)

Lemma deref_spec op m want : lookup_spec op m want →
  ∃ o m', deref (op m) = (Ret o, m') ∧ map_wf m' ∧ map_le m m' ∧
    ∀ l, o = Some l → l ∈ cache_ m' ∧ want (lane_id l) ∧ is_int64 (lane_id l).
Proof.
  intros (r & m' & -> & Hwf & Hle & Hr). destruct r as [i|]; cbn.
  - destruct (Hr i eq_refl) as (l & Hl & ? & ?). rewrite Hl. exists (Some l), m'.
    split_and!; [done..|]. intros l' [= <-]. split_and!; [|done..].
    by eapply list_elem_of_lookup_2.
  - by exists None, m'.
Qed.

Lemma getLaneById_cached m l :
  map_wf m → l ∈ cache_ m → lane_settled m l.
Proof.
  intros Hwf [i Hi]%list_elem_of_lookup_1. unfold lane_settled. cbn. unfold getLaneById.
  assert (NoDup (lane_id <$> cache_ m)) by by apply map_wf_nodup.
  rewrite (cached_index_lookup m i l) by done. cbn. by rewrite Hi.
Qed.

(** A lane is settled exactly when it is cached. *)
Lemma settled_cached m l : lane_settled m l →
  ∃ i, cached_index m (lane_id l) = Some i ∧ cache_ m !! i = Some l.
Proof.
  unfold lane_settled. cbn. unfold getLaneById.
  destruct (cached_index m (lane_id l)) as [i|] eqn:Hc.
  - cbn. destruct (cache_ m !! i) as [l'|] eqn:Hl; [|done]. intros [= ->]. by exists i.
  - intros Hs. exfalso.
    destruct (layer_exists _ _); cbn in Hs; [|done].
    destruct (_ ≫= _) as [l'|]; cbn in Hs; [|done].
    rewrite list_lookup_middle in Hs by done. cbn in Hs.
    injection Hs as _ Hm. apply (f_equal (λ m, length (cache_ m))) in Hm. cbn in Hm.
    rewrite length_app in Hm. cbn in Hm. lia.
Qed.

Lemma lane_settled_le m m' l : map_le m m' → lane_settled m l → lane_settled m' l.
Proof.
  intros Hle (i & Hi & Hl)%settled_cached. unfold lane_settled. cbn. unfold getLaneById.
  rewrite (cached_index_le _ _ _ _ Hle Hi). cbn.
  destruct Hle as (_&_&_&_&_&_&_&Hp). by rewrite (prefix_lookup_Some _ _ _ _ Hl Hp).
Qed.

(** The answer of a search depends on the lanelets only. *)
Lemma lane_distance_le m m' target ll :
  map_le m m' → lane_distance m' target ll = lane_distance m target ll.
Proof.
  intros (_&_&_&Hx&Hy&_). unfold lane_distance. by rewrite Hx, Hy.
Qed.

Lemma nearest_scan_le m m' target cands d best :
  map_le m m' → nearest_scan m' target cands d best = nearest_scan m target cands d best.
Proof.
  intros Hle. revert d best. induction cands as [|ll rest IH]; intros d best; cbn; [done|].
  rewrite (lane_distance_le m m') by done. destruct (lane_distance m target ll); [|done].
  by destruct (dltb _ _).
Qed.

Lemma resolve_settled m id g l :
  deref (resolve id g m) = (Ret (Some l), m) →
  id ≠ InvalId ∧ ∃ i, cached_index m id = Some i ∧ cache_ m !! i = Some l.
Proof.
  unfold resolve. destruct (decide _) as [->|Hne]; [done|].
  destruct (cached_index m id) as [i|] eqn:Hc.
  - cbn. destruct (cache_ m !! i) as [l'|] eqn:Hl; [|done]. intros [= ->]. eauto.
  - intros Hs. exfalso.
    destruct (_ ≫= _) as [l'|]; cbn in Hs; [|done].
    rewrite list_lookup_middle in Hs by done. cbn in Hs.
    injection Hs as _ Hm. apply (f_equal (λ m, length (cache_ m))) in Hm. cbn in Hm.
    rewrite length_app in Hm. cbn in Hm. lia.
Qed.

Lemma resolve_hit m id g i l :
  id ≠ InvalId → cached_index m id = Some i → cache_ m !! i = Some l →
  deref (resolve id g m) = (Ret (Some l), m).
Proof.
  intros Hne Hc Hl. unfold resolve. rewrite decide_False by done. rewrite Hc. cbn. by rewrite Hl.
Qed.

Lemma route_settled_le m m' g ref l :
  map_le m m' → route_settled m g ref l → route_settled m' g ref l.
Proof.
  intros Hle. unfold route_settled. cbn. unfold findNearestConnectedLane.
  destruct (Hle) as (Hpr & Hmp & Hgr & _ & _ & _ & _ & Hp).
  unfold isLoaded, gpsToLocal, layer_of. rewrite Hpr, Hmp, Hgr.
  destruct (map_ m) as [[|ll0 layer]|]; try done. cbn [default].
  destruct (routing_graph_ m) as [gr|]; [|done].
  destruct (layer_get _ ref) as [ll|]; [|done].
  intros (Hne & i & Hi & Hl)%resolve_settled.
  rewrite (nearest_scan_le m m') by done.
  eapply resolve_hit; [done|by eapply cached_index_le|by eapply prefix_lookup_Some].
Qed.

#[export] Instance LaneletMap_laws : RouteMapLaws LaneletMap.
Proof.
  refine {| rm_inv := map_wf; rm_le := map_le |}.
  - exact lane_settled_le.
  - exact route_settled_le.
  - intros m g Hwf.
    destruct (deref_spec _ _ _ (findNearestLane_spec m g Hwf)) as (o & m' & ? & ? & ? & Ho).
    exists o, m'. split_and!; [done..|]. intros l Hl. destruct (Ho l Hl) as (Hin & _ & Hi).
    split; [by apply getLaneById_cached|done].
  - intros m g lr Hwf (i & _ & Hlr%list_elem_of_lookup_2)%settled_cached.
    assert (Href : lane_id lr ∈ (ll_id <$> layer_of m)).
    { destruct Hwf as (layer & gr & Hm & _ & _ & _ & _ & _ & _ & Hin). unfold layer_of.
      rewrite Hm. by apply Hin. }
    destruct (findNearestConnectedLane_spec m g _ true Hwf Href) as (gr & ll & Hgr & Hll & Hsp).
    destruct (deref_spec _ _ _ Hsp) as (o & m' & Heq & Hwf' & Hle & Ho).
    exists o, m'. split_and!; [done..|]. intros l Hl.
    destruct (Ho l Hl) as (Hin & Hid & Hi). split; [by apply getLaneById_cached|].
    split; [done|]. subst o.
    unfold route_settled. cbn. unfold findNearestConnectedLane.
    rewrite map_wf_loaded by done.
    destruct (Hle) as (Hpr & Hmp & Hgr' & _). unfold gpsToLocal, layer_of in *.
    rewrite Hpr, Hmp, Hgr', Hgr, Hll.
    rewrite (nearest_scan_le m m') by done.
    destruct (proj1 (list_elem_of_lookup _ _) Hin) as [j Hj].
    eapply resolve_hit; [| |exact Hj].
    + intros Hinv. rewrite <- Hid in Hinv.
      destruct Hwf' as (layer & ? & _ & _ & _ & [_ Hok] & _ & _ & _ & Hc).
      apply Hc, list_elem_of_fmap in Hin as (y & Hy & Hin).
      destruct (Hok y Hin) as [_ Hne]. congruence.
    + fold (gpsToLocal m g) in *. rewrite <- Hid. apply cached_index_lookup; [|done].
      by apply map_wf_nodup.
Defined.

(** Choosing the default start resolves a lane; it keeps the invariant. *)
Lemma setDefaultStart_wf name g m :
  map_wf m →
  ∃ m', setDefaultStart name g m = (Ret (), m') ∧ map_wf m' ∧ is_Some (default_start_ m') ∧
        cache_ m `prefix_of` cache_ m'.
Proof.
  intros Hwf. destruct (findNearestLane_spec m g Hwf) as (r & m' & Hf & Hwf' & Hle & _).
  unfold setDefaultStart. rewrite Hf. eexists. split; [reflexivity|]. split; [exact Hwf'|].
  split; [by eexists|]. apply Hle.
Qed.

(** A new map is well-formed. *)
Lemma map_new_wf `{!Lanelet2Laws} exists_ dirs path lat lon ox oy m :
  LaneletMap_new exists_ dirs path lat lon ox oy = Ret m → map_wf m ∧ cache_ m = [].
Proof.
  unfold LaneletMap_new. set (p := resolveOsmPath _ _ _).
  destruct (exists_ p); cbn; [|done].
  pose proof (load_ok p (setMGRSCode (mkGPS lat lon))) as Hok.
  destruct (load p (setMGRSCode (mkGPS lat lon))) as [|ll layer] eqn:Hl; [done|].
  intros [= <-]. split; [|done]. exists (ll :: layer), (build (ll :: layer)). cbn.
  split_and!; try done; [apply build_ok|..].
  - constructor.
  - intros l Hl'. by apply elem_of_nil in Hl'.
Qed.
End Facts.
