(* ===== verification/MapComponents.v ===== *)
(** * MapComponents: the connected components of the road network

    [debugConnectedComponents] is a breadth-first flood fill.  The loop ends within the fuel given,
    the components it finds do not overlap and cover every drivable lanelet, and no edge leads
    from a component to one found later. *)

From S2P Require Export LaneletMapFacts.

Section Components.
Context `{Lanelet2}.
Implicit Types (layer : list ConstLanelet) (g : RoutingGraph).

(** The neighbours the graph gives for a lanelet of the layer are in the layer. *)
Definition neighbours_ok layer g : Prop :=
  ∀ ll n, ll ∈ layer → n ∈ neighbours g ll → n ∈ layer.

(** Looking at a list of neighbours: the new ones are queued and marked, in order. *)
Lemma discover_all visited queue ns :
  ∃ new, foldl discover (visited, queue) ns = (visited ++ (ll_id <$> new), queue ++ new) ∧
    (∀ n, n ∈ new → n ∈ ns) ∧ (NoDup visited → NoDup (visited ++ (ll_id <$> new))) ∧
    ∀ n, n ∈ ns → ll_id n ∈ visited ++ (ll_id <$> new).
Proof.
  revert visited queue. induction ns as [|n ns IH]; intros visited queue; cbn [foldl].
  { exists []. cbn. rewrite !app_nil_r. split_and!; try done. intros n Hn.
    by apply elem_of_nil in Hn. }
  unfold discover at 2. destruct (decide (ll_id n ∈ visited)) as [Hin|Hnin].
  - destruct (IH visited queue) as (new & -> & Hnew & Hnd & Hall). exists new.
    split_and!; [done|by right; auto|done|].
    intros n' [->|Hn']%elem_of_cons; [|by apply Hall]. apply elem_of_app. by left.
  - destruct (IH (visited ++ [ll_id n]) (queue ++ [n])) as (new & -> & Hnew & Hnd & Hall).
    exists (n :: new). cbn [fmap list_fmap]. rewrite <- !app_assoc in *. cbn [app] in *.
    split_and!; [done| | |].
    + intros n' [->|Hn']%elem_of_cons; [by left|right; auto].
    + intros Hv. apply Hnd. apply NoDup_app. split_and!; [done| |by apply NoDup_singleton].
      by intros x Hx ->%list_elem_of_singleton.
    + intros n' [->|Hn']%elem_of_cons; [|by apply Hall]. apply elem_of_app. right. by left.
Qed.

(** The state of the flood: what is marked is what earlier components hold, what this one holds
    and what is queued, each once; members' neighbours are marked. *)
Record flooding layer g (past component visited : list Z) (queue : list ConstLanelet) : Prop :=
  mkFlooding {
    fl_marked : visited ≡ₚ past ++ component ++ (ll_id <$> queue);
    fl_nodup : NoDup visited;
    fl_layer : ∀ x, x ∈ past ++ component → x ∈ (ll_id <$> layer);
    fl_queue : ∀ ll, ll ∈ queue → ll ∈ layer;
    fl_closed : ∀ ll n, ll ∈ layer → ll_id ll ∈ component → n ∈ neighbours g ll →
                ll_id n ∈ visited
  }.

(** Ids name lanelets. *)
Lemma layer_unique layer a b :
  layer_ok layer → a ∈ layer → b ∈ layer → ll_id a = ll_id b → a = b.
Proof.
  intros [Hnd _] Ha Hb Heq. apply list_elem_of_lookup in Ha as [i Ha].
  apply list_elem_of_lookup in Hb as [j Hb].
  assert (i = j) as ->; [|congruence].
  eapply NoDup_lookup; [exact Hnd| |]; rewrite list_lookup_fmap; [by rewrite Ha|rewrite Hb; cbn; congruence].
Qed.

Lemma flooding_step layer g past component visited cur queue :
  layer_ok layer → neighbours_ok layer g →
  flooding layer g past component visited (cur :: queue) →
  let '(visited', queue') := foldl discover (visited, queue) (neighbours g cur) in
  flooding layer g past (component ++ [ll_id cur]) visited' queue' ∧
  (∀ x, x ∈ visited → x ∈ visited').
Proof.
  intros Hok Hng [Hmk Hnd Hl Hq Hcl].
  destruct (discover_all visited queue (neighbours g cur)) as (new & -> & Hnew & Hnd' & Hall).
  assert (Hcur : cur ∈ layer) by (apply Hq; by left).
  split; [|intros x Hx; apply elem_of_app; by left]. split.
  - rewrite Hmk, fmap_app. cbn [fmap list_fmap]. rewrite <- !app_assoc. by cbn [app].
  - by apply Hnd'.
  - intros x Hx. rewrite app_assoc, elem_of_app in Hx.
    destruct Hx as [Hx| ->%list_elem_of_singleton]; [by apply Hl|by apply list_elem_of_fmap_2].
  - intros ll [Hll|Hll]%elem_of_app; [by apply Hq; right|]. eapply Hng; [exact Hcur|by apply Hnew].
  - intros ll n Hll Hid Hn. apply elem_of_app in Hid as [Hid|Hid%list_elem_of_singleton].
    + apply elem_of_app. left. by eapply Hcl.
    + apply (layer_unique layer ll cur) in Hid as ->; [|done..]. by apply Hall.
Qed.

(** The number of members is bounded by the layer, so the fuel is enough. *)
Lemma flooding_bound layer g past component visited queue :
  layer_ok layer → flooding layer g past component visited queue →
  (length component + length queue ≤ length layer)%nat.
Proof.
  intros Hok [Hmk Hnd Hl Hq _]. rewrite Hmk in Hnd.
  assert (Hlen : (length (past ++ component ++ (ll_id <$> queue)) ≤ length (ll_id <$> layer))%nat).
  { apply submseteq_length, NoDup_submseteq; [done|]. intros x Hx.
    rewrite app_assoc, elem_of_app in Hx. destruct Hx as [Hx|Hx]; [by apply Hl|].
    apply list_elem_of_fmap in Hx as (ll & -> & Hll). apply list_elem_of_fmap_2. by apply Hq. }
  rewrite !length_app, !length_fmap in Hlen. lia.
Qed.

Lemma flood_spec layer g past fuel component visited queue :
  layer_ok layer → neighbours_ok layer g →
  flooding layer g past component visited queue →
  (length layer < fuel + length component)%nat →
  ∃ component' visited', flood fuel g queue visited component = Some (component', visited') ∧
    flooding layer g past component' visited' [] ∧ ∀ x, x ∈ visited → x ∈ visited'.
Proof.
  intros Hok Hng. revert component visited queue.
  induction fuel as [|k IH]; intros component visited queue Hfl Hfuel.
  { pose proof (flooding_bound _ _ _ _ _ _ Hok Hfl). lia. }
  cbn [flood]. destruct queue as [|cur queue].
  { by exists component, visited. }
  pose proof (flooding_step _ _ _ _ _ _ _ Hok Hng Hfl) as Hst.
  destruct (foldl discover (visited, queue) (neighbours g cur)) as [visited' queue'].
  destruct (IH (component ++ [ll_id cur]) visited' queue' (proj1 Hst)) as (c' & v' & -> & Hfl' & Hp).
  { rewrite length_app. cbn. lia. }
  exists c', v'. split_and!; [done..|]. intros x Hx. by apply Hp, Hst.
Qed.

(** ** The loop over the layer *)

(** The components found so far, the ids they mark. *)
Record found_components layer g (components : list (list Z)) (visited : list Z) : Prop :=
  mkFound {
    fc_marked : visited ≡ₚ concat components;
    fc_nodup : NoDup visited;
    fc_layer : ∀ x, x ∈ concat components → x ∈ (ll_id <$> layer);
    fc_closed : ∀ i c ll n, components !! i = Some c → ll ∈ layer → ll_id ll ∈ c →
      n ∈ neighbours g ll → ∃ j c', (j ≤ i)%nat ∧ components !! j = Some c' ∧ ll_id n ∈ c'
  }.

Lemma elem_of_concat (x : Z) (l : list (list Z)) :
  x ∈ concat l ↔ ∃ i c, l !! i = Some c ∧ x ∈ c.
Proof.
  induction l as [|c l IH]; cbn [concat].
  - split; [by intros ?%elem_of_nil|by intros (i & ? & ? & _)].
  - rewrite elem_of_app, IH. split.
    + intros [Hx|(i & c' & ? & ?)]; [by exists 0%nat, c|by exists (S i), c'].
    + intros ([|i] & c' & Hc & Hx); cbn in Hc; [left; congruence|right; eauto].
Qed.

Lemma found_more layer g components visited component visited' :
  found_components layer g components visited →
  flooding layer g (concat components) component visited' [] →
  found_components layer g (components ++ [component]) visited'.
Proof.
  intros [Hmk Hnd Hl Hcl] [Fmk Fnd Fl _ Fcl]. cbn [fmap list_fmap] in Fmk.
  rewrite app_nil_r in Fmk. split.
  - rewrite concat_app. cbn [concat]. by rewrite app_nil_r.
  - done.
  - intros x Hx. rewrite concat_app in Hx. cbn [concat] in Hx. rewrite app_nil_r in Hx.
    by apply Fl.
  - intros i c ll n Hi Hll Hid Hn. apply lookup_app_Some in Hi as [Hi|[Hge Hi]].
    + destruct (Hcl i c ll n Hi Hll Hid Hn) as (j & c' & Hj & Hc' & Hx).
      exists j, c'. split_and!; [done| |done]. by apply lookup_app_l_Some.
    + apply list_lookup_singleton_Some in Hi as [Hz <-].
      assert (Hx := Fcl ll n Hll Hid Hn). rewrite Fmk, elem_of_app in Hx.
      destruct Hx as [(j & c' & Hc' & Hx)%elem_of_concat|Hx].
      * exists j, c'. split_and!; [|by apply lookup_app_l_Some|done].
        apply lookup_lt_Some in Hc'. lia.
      * exists i, component. split_and!; [done| |done].
        rewrite lookup_app_r by done. by rewrite Hz.
Qed.

Lemma found_start layer g components visited ll :
  found_components layer g components visited → ll ∈ layer → ll_id ll ∉ visited →
  flooding layer g (concat components) [] (visited ++ [ll_id ll]) [ll].
Proof.
  intros [Hmk Hnd Hl Hcl] Hll Hfresh. split.
  - cbn. by rewrite Hmk.
  - apply NoDup_app. split_and!; [done| |by apply NoDup_singleton].
    by intros x Hx ->%list_elem_of_singleton.
  - intros x. rewrite app_nil_r. apply Hl.
  - by intros ? ->%list_elem_of_singleton.
  - by intros ? ? ? ?%elem_of_nil.
Qed.

Lemma components_from_spec layer g fuel rest visited components :
  layer_ok layer → neighbours_ok layer g → (length layer < fuel)%nat →
  (∀ ll, ll ∈ rest → ll ∈ layer) → found_components layer g components visited →
  ∃ components' visited', components_from fuel g rest visited components = Some components' ∧
    found_components layer g components' visited' ∧
    (∀ x, x ∈ visited → x ∈ visited') ∧
    ∀ ll, ll ∈ rest → non_drivable ll = false → ll_id ll ∈ visited'.
Proof.
  intros Hok Hng Hfuel. revert visited components.
  induction rest as [|ll rest IH]; intros visited components Hrest Hf; cbn [components_from].
  { exists components, visited. split_and!; try done. by intros ? ?%elem_of_nil. }
  assert (Hll : ll ∈ layer) by (apply Hrest; by left).
  assert (Hrest' : ∀ x, x ∈ rest → x ∈ layer) by (intros; apply Hrest; by right).
  destruct (non_drivable ll) eqn:Hnd; [|destruct (decide (ll_id ll ∈ visited)) as [Hin|Hnin]].
  - destruct (IH visited components Hrest' Hf) as (c' & v' & -> & Hf' & Hsub & Hall).
    exists c', v'. split_and!; [done..|]. intros x [->|Hx]%elem_of_cons Hd; [congruence|].
    by apply Hall.
  - destruct (IH visited components Hrest' Hf) as (c' & v' & -> & Hf' & Hsub & Hall).
    exists c', v'. split_and!; [done..|]. intros x [->|Hx]%elem_of_cons Hd; [by apply Hsub|].
    by apply Hall.
  - pose proof (found_start _ _ _ _ _ Hf Hll Hnin) as Hst.
    destruct (flood_spec layer g _ fuel _ _ _ Hok Hng Hst) as (c & v & -> & Hfl & Hv); [cbn; lia|].
    destruct (IH v (components ++ [c]) Hrest') as (c' & v' & -> & Hf' & Hsub & Hall);
      [by eapply found_more|].
    exists c', v'. split_and!; [done..| |].
    + intros x Hx. apply Hsub, Hv. apply elem_of_app. by left.
    + intros x [->|Hx]%elem_of_cons Hd; [|by apply Hall].
      apply Hsub, Hv. apply elem_of_app. right. by left.
Qed.

(** The diagnosis of the road network is total and sound.  On a loaded map whose graph leads to
    lanelets of the map, [debugConnectedComponents] finishes; no lanelet is in two components or
    twice in one, every drivable lanelet is in one, and an edge from a component leads into it or
    into one found earlier. *)
Theorem components_partition_roads m g :
  map_wf m → routing_graph_ m = Some g → neighbours_ok (layer_of m) g →
  ∃ cs, debugConnectedComponents m = Some cs ∧ NoDup (concat cs) ∧
    (∀ x, x ∈ concat cs → x ∈ (ll_id <$> layer_of m)) ∧
    (∀ ll, ll ∈ layer_of m → non_drivable ll = false → ll_id ll ∈ concat cs) ∧
    (∀ i c ll n, cs !! i = Some c → ll ∈ layer_of m → ll_id ll ∈ c → n ∈ neighbours g ll →
       ∃ j c', (j ≤ i)%nat ∧ cs !! j = Some c' ∧ ll_id n ∈ c').
Proof.
  intros (layer & g' & Hm & _ & Hg' & Hok & _) Hg Hng.
  unfold debugConnectedComponents. rewrite Hg. unfold layer_of in *. rewrite Hm in *.
  change (default [] (Some layer)) with layer in *.
  destruct (components_from_spec layer g (S (length layer)) layer [] [] Hok Hng)
    as (cs & v & -> & [Hmk Hnd Hl Hcl] & _ & Hall); [lia|done| |].
  { split; [done|constructor|by intros ? ?%elem_of_nil|by intros ? ? ? ? ?]. }
  exists cs. split_and!; [done|by rewrite <- Hmk|done| |done].
  intros ll Hin Hd. rewrite <- Hmk. by apply Hall.
Qed.
End Components.
