(* ===== verification/MapDebugTheorems.v ===== *)
(** * MapDebugTheorems: what the diagnoses say is so *)

From stdpp Require Import sorting.
From S2P Require Export MapDebug MapComponents.

Section Theorems.
Context `{Lanelet2} `{StdSort}.

(** ** The rows of a table sorted in descending order *)

Lemma omap_rows {A B} (f : nat → A → B) (l : list A) k n :
  (k + n ≤ length l)%nat →
  omap (λ i, f i <$> l !! i) (seq k n) = imap (λ i x, f (k + i)%nat x) (take n (drop k l)).
Proof.
  revert k. induction n as [|n IH]; intros k Hk; [done|].
  destruct (lookup_lt_is_Some_2 l k) as [x Hx]; [lia|].
  rewrite (drop_S l x k Hx). cbn. rewrite Hx. cbn. rewrite Nat.add_0_r. f_equal.
  rewrite IH by lia. apply imap_ext. intros i y _. cbn. f_equal. lia.
Qed.

Lemma imap_constant {A B} (f : A → B) (l : list A) : imap (λ _, f) l = f <$> l.
Proof. induction l as [|x l IH]; [done|]. cbn. by rewrite <- IH. Qed.

Lemma top_lines_rows (l : list (nat * Z)) :
  top_lines l = imap (λ i x, Reaches i x.2 x.1) (take 10 l).
Proof.
  unfold top_lines. rewrite (omap_rows (λ i x, Reaches i x.2 x.1)) by lia.
  rewrite drop_0. cbn [Nat.add]. f_equal.
  destruct (decide (length l ≤ 10)%nat).
  - rewrite Nat.min_r by done. rewrite !take_ge by lia. done.
  - rewrite Nat.min_l by lia. done.
Qed.

Lemma bottom_lines_rows (l : list (nat * Z)) :
  bottom_lines l = (λ x, ReachesOnly x.2 x.1) <$> take 10 (reverse l).
Proof.
  unfold bottom_lines.
  assert (Hrev : omap (λ i, (λ x, ReachesOnly x.2 x.1) <$> l !! (length l - 1 - i)%nat)
                   (seq 0 (Nat.min 10 (length l))) =
                 omap (λ i, (λ (_ : nat) x, ReachesOnly x.2 x.1) i <$> reverse l !! i)
                   (seq 0 (Nat.min 10 (length l)))).
  { apply list_omap_ext, Forall_Forall2_diag, Forall_forall. intros i Hi.
    apply list_elem_of_In, in_seq in Hi. rewrite reverse_lookup by lia.
    do 2 f_equal. lia. }
  rewrite Hrev, (omap_rows (λ (_ : nat) x, ReachesOnly x.2 x.1)) by (rewrite length_reverse; lia).
  rewrite drop_0, imap_constant.
  destruct (decide (length l ≤ 10)%nat).
  - rewrite Nat.min_r by done. rewrite !take_ge by (rewrite ?length_reverse; lia). done.
  - rewrite Nat.min_l by lia. done.
Qed.

(** Sorted by descending key: the first rows are the largest, the last the smallest. *)
Definition descending {A} (key : A → nat) : list A → Prop :=
  StronglySorted (λ a b, key b ≤ key a)%nat.

Lemma largest_first {A} (key : A → nat) (l counts : list A) n :
  l ≡ₚ counts → descending key l →
  ∃ rest, counts ≡ₚ take n l ++ rest ∧ length (take n l) = Nat.min n (length counts) ∧
    descending key (take n l) ∧ ∀ x y, x ∈ take n l → y ∈ rest → (key y ≤ key x)%nat.
Proof.
  intros Hp Hs. exists (drop n l). rewrite take_drop. unfold descending in *.
  rewrite <- (take_drop n l) in Hs. split_and!.
  - done.
  - by rewrite length_take, Hp.
  - by eapply StronglySorted_app_1_l.
  - intros x y Hx Hy. exact (StronglySorted_app_1_elem_of _ _ _ x y Hs Hx Hy).
Qed.

Lemma smallest_last {A} (key : A → nat) (l counts : list A) n :
  l ≡ₚ counts → descending key l →
  ∃ rest, counts ≡ₚ take n (reverse l) ++ rest ∧
    length (take n (reverse l)) = Nat.min n (length counts) ∧
    ∀ x y, x ∈ take n (reverse l) → y ∈ rest → (key x ≤ key y)%nat.
Proof.
  intros Hp Hs. exists (drop n (reverse l)). rewrite take_drop. split_and!.
  - by rewrite <- Hp, reverse_Permutation.
  - by rewrite length_take, length_reverse, Hp.
  - intros x y Hx Hy. rewrite <- (take_drop (length l - n) l) in Hs.
    rewrite take_reverse in Hx. rewrite drop_reverse in Hy. rewrite elem_of_reverse in Hx, Hy.
    exact (StronglySorted_app_1_elem_of _ _ _ y x Hs Hy Hx).
Qed.

(** The two tables of debugFindBestStartingLane.  On a loaded map the first table has the ten
    drivable lanelets that reach most (all of them when there are fewer), numbered from 0 and with
    the counts in descending order; the second has the ten that reach least.  Each row is one
    lanelet of the layer with the size of its reachable set, and no lanelet left out of a table
    belongs above its rows. *)
Theorem best_starting_lanes m g :
  routing_graph_ m = Some g →
  let counts := reach_counts g (layer_of m) in
  ∃ top top_rest bottom bottom_rest,
    debugFindBestStartingLane m =
      TopHeader :: imap (λ i x, Reaches i x.2 x.1) top ++
      BottomHeader :: ((λ x, ReachesOnly x.2 x.1) <$> bottom) ∧
    counts ≡ₚ top ++ top_rest ∧ length top = Nat.min 10 (length counts) ∧ descending fst top ∧
    (∀ x y, x ∈ top → y ∈ top_rest → (y.1 ≤ x.1)%nat) ∧
    counts ≡ₚ bottom ++ bottom_rest ∧ length bottom = Nat.min 10 (length counts) ∧
    (∀ x y, x ∈ bottom → y ∈ bottom_rest → (x.1 ≤ y.1)%nat).
Proof.
  intros Hg counts. unfold debugFindBestStartingLane. rewrite Hg. fold counts.
  rewrite top_lines_rows, bottom_lines_rows.
  set (l := std_sort _ counts).
  assert (Hp : l ≡ₚ counts) by apply std_sort_permutes.
  assert (Hs : descending fst l) by apply (std_sort_sorts fst).
  destruct (largest_first fst l counts 10 Hp Hs) as (tr & ? & ? & ? & ?).
  destruct (smallest_last fst l counts 10 Hp Hs) as (br & ? & ? & ?).
  by exists (take 10 l), tr, (take 10 (reverse l)), br.
Qed.

(** C30: the diagnosis of the road network is total and sound.  On a loaded map whose graph leads to
    lanelets of the map, debugConnectedComponents finishes.  Its report counts the components and
    lists them from the largest to the smallest, with the members of those of at most 30.  No
    lanelet is in two components or twice in one, every drivable lanelet is in one, and an edge
    from a component leads into it or into one found earlier ([cs] is the order they are found in). *)
Theorem components_reported m g :
  map_wf m → routing_graph_ m = Some g → neighbours_ok (layer_of m) g →
  ∃ cs sorted,
    debugConnectedComponents_log m =
      Some (ComponentsTotal (length cs) :: concat (imap component_lines sorted)) ∧
    sorted ≡ₚ cs ∧ descending length sorted ∧ NoDup (concat sorted) ∧
    (∀ ll, ll ∈ layer_of m → non_drivable ll = false → ll_id ll ∈ concat sorted) ∧
    (∀ x, x ∈ concat sorted → x ∈ (ll_id <$> layer_of m)) ∧
    (∀ i c ll n, cs !! i = Some c → ll ∈ layer_of m → ll_id ll ∈ c → n ∈ neighbours g ll →
       ∃ j c', (j ≤ i)%nat ∧ cs !! j = Some c' ∧ ll_id n ∈ c').
Proof.
  intros Hwf Hg Hng.
  destruct (components_partition_roads m g Hwf Hg Hng) as (cs & Hcs & Hnd & Hin & Hall & Hedge).
  exists cs, (std_sort (λ a b, Nat.ltb (length b) (length a)) cs).
  set (sorted := std_sort _ cs).
  assert (Hp : sorted ≡ₚ cs) by apply std_sort_permutes.
  assert (Hc : concat sorted ≡ₚ concat cs) by by rewrite Hp.
  unfold debugConnectedComponents_log. rewrite Hg, Hcs. split_and!.
  - cbn. unfold report_components. fold sorted. by rewrite (Permutation_length Hp).
  - done.
  - apply (std_sort_sorts length).
  - by rewrite Hc.
  - intros ll Hll Hd. rewrite Hc. by apply Hall.
  - intros x. rewrite Hc. apply Hin.
  - done.
Qed.
End Theorems.
