(* ===== verification/TripTypes.v ===== *)
(** * TripTypes: the data of the trip logic

    [TripStates.h], [TripTimings.h], [TripStatus.h] and the private state of [TripController.h],
    member by member with their default initialisers.  Scoped enumerations are inductive types in
    a module of the enumeration's name. *)

From S2P Require Export RouteMap.

Module TripState.
Inductive t : Type :=
  | IDLE
  | INITIALIZING_IN_MAP
  | QUERY_PUBLISHING_INITIAL_POSE
  | QUERY_WAITING_LOCALISATION
  | QUERY_PUBLISHING_GOAL
  | QUERY_WAITING_ROUTE
  | QUERY_READING_ETA
  | ROUTES_READY
  | WAITING_FOR_PICKUP_START
  | PUBLISHING_INITIAL_POSE
  | WAITING_LOCALISATION
  | ENGAGING
  | DRIVING_TO_PICKUP
  | WAITING_FOR_MOVE
  | RUNNING
  | COMPLETED
  | CANCELLED
  | FAILED.

#[export] Instance t_eq_dec : EqDecision t.
Proof. solve_decision. Defined.

(** static_cast<int>(state) *)
Definition to_int (s : t) : Z :=
  match s with
  | IDLE => 0 | INITIALIZING_IN_MAP => 1 | QUERY_PUBLISHING_INITIAL_POSE => 2
  | QUERY_WAITING_LOCALISATION => 3 | QUERY_PUBLISHING_GOAL => 4 | QUERY_WAITING_ROUTE => 5
  | QUERY_READING_ETA => 6 | ROUTES_READY => 7 | WAITING_FOR_PICKUP_START => 8
  | PUBLISHING_INITIAL_POSE => 9 | WAITING_LOCALISATION => 10 | ENGAGING => 11
  | DRIVING_TO_PICKUP => 12 | WAITING_FOR_MOVE => 13 | RUNNING => 14 | COMPLETED => 15
  | CANCELLED => 16 | FAILED => 17
  end.
End TripState.
Export (hints) TripState.

Module QueryLeg.
Inductive t : Type := PICKUP | TRIP.
#[export] Instance t_eq_dec : EqDecision t.
Proof. solve_decision. Defined.
End QueryLeg.
Export (hints) QueryLeg.

Record TripTimings := mkTripTimings {
  initial_pose_delay_ms : Z;
  goal_delay_ms : Z;
  route_poll_interval_ms : Z;
  route_timeout_ms : Z;
  loc_timeout_ms : Z;
  eta_settle_ms : Z
}.

Definition TripTimings_default : TripTimings :=
  mkTripTimings 15000 9000 500 30000 30000 2000.

Record TripStatus := mkTripStatus {
  state_ : TripState.t;
  start_lanelet_id_ : string;
  start_x_ : double; start_y_ : double; start_z_ : double;
  start_qw_ : double; start_qz_ : double;
  start_gps_ : GPSCoordinate;
  goal_gps_ : GPSCoordinate;
  goal_lanelet_id_ : string;
  goal_x_ : double; goal_y_ : double; goal_z_ : double;
  goal_qw_ : double; goal_qz_ : double;
  goal_distance_m_ : double;
  current_gps_ : GPSCoordinate;
  trip_started_at_ : Z;
  last_state_change_ : Z
}.

#[export] Instance TripStatus_eta : Eta TripStatus := λ s,
  mkTripStatus (state_ s) (start_lanelet_id_ s) (start_x_ s) (start_y_ s) (start_z_ s)
    (start_qw_ s) (start_qz_ s) (start_gps_ s) (goal_gps_ s) (goal_lanelet_id_ s) (goal_x_ s)
    (goal_y_ s) (goal_z_ s) (goal_qw_ s) (goal_qz_ s) (goal_distance_m_ s) (current_gps_ s)
    (trip_started_at_ s) (last_state_change_ s).

(** TripStatus{} *)
Definition TripStatus_default : TripStatus :=
  mkTripStatus TripState.IDLE "" d0 d0 d0 d0 d0 GPS_default GPS_default "" d0 d0 d0 d0 d0 d0
    GPS_default 0 0.

Record LegEta := mkLegEta {
  leg_success_ : bool;
  leg_distance_m_ : double;
  leg_eta_seconds_ : double;
  start_lane_id_ : string;
  goal_lane_id_ : string;
  leg_error_message_ : string
}.

Definition LegEta_default : LegEta := mkLegEta false d0 d0 "" "" "".

Record EtaQueryResult := mkEtaQueryResult {
  success_ : bool;
  pickup_leg_ : LegEta;
  trip_leg_ : LegEta;
  error_message_ : string;
  fare_ : double
}.

#[export] Instance EtaQueryResult_eta : Eta EtaQueryResult := λ r,
  mkEtaQueryResult (success_ r) (pickup_leg_ r) (trip_leg_ r) (error_message_ r) (fare_ r).

Definition EtaQueryResult_default : EtaQueryResult :=
  mkEtaQueryResult false LegEta_default LegEta_default "" d0.

Record HeldRoute := mkHeldRoute {
  route_ : LaneletRoute;
  held_eta_seconds_ : double;
  held_distance_m_ : double;
  held_goal_gps_ : GPSCoordinate;
  held_goal_lane_id_ : Z
}.

(** The members of [TripController] that its methods read or write.  A ROS message held by a
    shared pointer is an option of the member the code looks at; a [std::function] member is
    whether it is set (its calls are outputs), except [query_cb_], which is the identity of the
    closure given to [queryEta]. *)
Record TripController := mkTripController {
  timings_ : TripTimings;
  engaging_for_pickup_ : bool;
  current_loc_state_ : option Z;         (* LocalizationInitializationState::state *)
  current_route_state_ : option Z;       (* RouteState::state *)
  current_mode_state_ : option bool;     (* OperationModeState::is_autonomous_mode_available *)
  last_route_ : option LaneletRoute;
  last_publish_time_ : Z;
  status_ : TripStatus;
  on_state_change_ : bool;
  on_pickup_arrived_ : bool;
  on_dropoff_arrived_ : bool;
  state_entered_at_ : Z;
  route_received_ : bool;
  init_x_ : double; init_y_ : double; init_z_ : double; init_qz_ : double; init_qw_ : double;
  querying_ : bool;
  current_leg_ : QueryLeg.t;
  query_start_gps_ : GPSCoordinate;
  query_goal_gps_ : GPSCoordinate;
  query_cb_ : option nat;
  query_result_ : EtaQueryResult;
  eta_received_ : bool;
  eta_distance_m_ : double;
  eta_seconds_ : double;
  pickup_route_ : option HeldRoute;
  trip_route_ : option HeldRoute
}.

#[export] Instance TripController_eta : Eta TripController := λ c,
  mkTripController (timings_ c) (engaging_for_pickup_ c) (current_loc_state_ c)
    (current_route_state_ c) (current_mode_state_ c) (last_route_ c) (last_publish_time_ c)
    (status_ c) (on_state_change_ c) (on_pickup_arrived_ c) (on_dropoff_arrived_ c)
    (state_entered_at_ c) (route_received_ c) (init_x_ c) (init_y_ c) (init_z_ c) (init_qz_ c)
    (init_qw_ c) (querying_ c) (current_leg_ c) (query_start_gps_ c) (query_goal_gps_ c)
    (query_cb_ c) (query_result_ c) (eta_received_ c) (eta_distance_m_ c) (eta_seconds_ c)
    (pickup_route_ c) (trip_route_ c).

(** A controller as constructed, before callbacks are registered. *)
Definition TripController_init (timings : TripTimings) : TripController :=
  {| timings_ := timings; engaging_for_pickup_ := true;
     current_loc_state_ := None; current_route_state_ := None; current_mode_state_ := None;
     last_route_ := None; last_publish_time_ := 0; status_ := TripStatus_default;
     on_state_change_ := false; on_pickup_arrived_ := false; on_dropoff_arrived_ := false;
     state_entered_at_ := 0; route_received_ := false;
     init_x_ := d0; init_y_ := d0; init_z_ := d0; init_qz_ := d0; init_qw_ := d1;
     querying_ := false; current_leg_ := QueryLeg.PICKUP;
     query_start_gps_ := GPS_default; query_goal_gps_ := GPS_default;
     query_cb_ := None; query_result_ := EtaQueryResult_default;
     eta_received_ := false; eta_distance_m_ := d0; eta_seconds_ := d0;
     pickup_route_ := None; trip_route_ := None |}.
