(* ===== verification/TripController.v ===== *)
(** * TripController: the trip state machine, operation by operation

    [src/gateway_bridge/src/TripController.cc].  Every method runs on one strand, so a method is a
    computation of the monad of [Prelude] over the controller, the lane map it refers to and the
    number of clock readings made so far.  What a method does to the outside (publishers, service
    clients, registered callbacks) is its output.  What the outside answers during a method (the
    TF lookup, whether a service is ready) is an argument.  Logging is left out. *)

From S2P Require Export TripTypes.

(** What a method makes observable. *)
Inductive Output : Type :=
  | PublishInitialPose (m : PoseWithCovarianceStamped)   (* initial_pose_pub_->publish *)
  | PublishGoal (m : PoseStamped)                        (* goal_pub_->publish *)
  | SendModeRequest                                      (* mode_client_->async_send_request *)
  | SendEngageRequest (engage : bool)                    (* engage_client_->async_send_request *)
  | StateChange (prev next : TripState.t) (status : TripStatus)
      (* on_state_change_(prev, next); the status is what the callback can read at that moment *)
  | PickupArrived                                        (* on_pickup_arrived_() *)
  | DropoffArrived                                       (* on_dropoff_arrived_() *)
  | QueryReply (cb : nat) (r : EtaQueryResult).          (* query_cb_(r) *)

Section Definitions.
Context {Mp : Type} `{RouteMap Mp} `{Clocks} `{AutowareMsgs}.

Record World := mkWorld {
  ctrl : TripController;
  lanelet_map_ : Mp;
  reads : nat               (* clock readings made so far *)
}.

#[export] Instance World_eta : Eta World := λ w,
  mkWorld (ctrl w) (lanelet_map_ w) (reads w).

Definition Op (A : Type) : Type := M World Output A.

(** ** Access to members, map and clocks *)

Definition get_c {A} (f : TripController → A) : Op A := gets (λ w, f (ctrl w)).
Definition get_s {A} (f : TripStatus → A) : Op A := gets (λ w, f (status_ (ctrl w))).
Definition set_c (f : TripController → TripController) : Op unit :=
  modify (λ w, w <| ctrl ::= f |>).
Definition set_s (f : TripStatus → TripStatus) : Op unit :=
  modify (λ w, w <| ctrl ::= λ c, c <| status_ ::= f |> |>).
Definition on_map {A} (f : Mp → outcome A * Mp) : Op A := λ w,
  let '(o, m') := f (lanelet_map_ w) in (o, w <| lanelet_map_ := m' |>, []).

(** std::chrono::steady_clock::now() and node_->now() *)
Definition now : Op Z := λ w, (Ret (steady_at (reads w)), w <| reads ::= S |>, []).
Definition ros_now : Op Z := λ w, (Ret (ros_at (reads w)), w <| reads ::= S |>, []).

Definition elapsed_ms (since : Z) : Op Z :=
  t ← now; mret (to_ms (t - since)).

(** ** Private helpers *)

Definition transitionTo (next : TripState.t) : Op unit :=
  prev ← get_s state_;
  if decide (prev = next) then mret () else
  set_s (λ s, s <| state_ := next |>);;
  t ← now;
  set_s (λ s, s <| last_state_change_ := t |>);;
  set_c (λ c, c <| state_entered_at_ := t |> <| last_publish_time_ := 0 |>);;
  cb ← get_c on_state_change_;
  st ← get_c status_;
  when cb (emit (StateChange prev next st)).

(** The message's covariance: zero but for x, y and yaw. *)
Definition pose_covariance : list double :=
  <[35%nat := dlit 6853891909122467 100000000000000000]>
    (<[7%nat := dlit 25 100]> (<[0%nat := dlit 25 100]> (replicate 36 d0))).

Definition doPublishInitialPose (x y z qz qw : double) : Op unit :=
  t ← ros_now;
  emit (PublishInitialPose
    {| pwc_header := {| frame_id := "map"; stamp := t |};
       pwc_pose := {| position := mkPoint x y z; orientation := mkQuaternion d0 d0 qz qw |};
       pwc_covariance := pose_covariance |}).

Definition doPublishGoal (x y z qz qw : double) : Op unit :=
  t ← ros_now;
  emit (PublishGoal
    {| ps_header := {| frame_id := "map"; stamp := t |};
       ps_pose := {| position := mkPoint x y z; orientation := mkQuaternion d0 d0 qz qw |} |}).

Definition publish_start : Op unit :=
  s ← get_c status_;
  doPublishInitialPose (start_x_ s) (start_y_ s) (start_z_ s) (start_qz_ s) (start_qw_ s).
Definition publish_init : Op unit :=
  c ← get_c (λ c, c);
  doPublishInitialPose (init_x_ c) (init_y_ c) (init_z_ c) (init_qz_ c) (init_qw_ c).
Definition publish_goal : Op unit :=
  s ← get_c status_;
  doPublishGoal (goal_x_ s) (goal_y_ s) (goal_z_ s) (goal_qz_ s) (goal_qw_ s).

(** The services are asked for only when both are ready and autonomous mode is not known to be
    unavailable. *)
Definition doEngage (mode_ready engage_ready : bool) : Op unit :=
  if negb mode_ready || negb engage_ready then mret () else
  mode ← get_c current_mode_state_;
  if decide (mode = Some false) then mret () else
  emit SendModeRequest.

(** The response callbacks of [doEngage]: the mode response sends the engage request; a
    successful engage response posts [onEngaged] to the strand. *)
Definition onModeResponse (success : bool) : Op unit :=
  if negb success then mret () else emit (SendEngageRequest true).

Definition onEngaged : Op unit :=
  st ← get_s state_;
  if decide (st = TripState.ENGAGING) then
    pickup ← get_c engaging_for_pickup_;
    if (pickup : bool) then transitionTo TripState.DRIVING_TO_PICKUP
    else transitionTo TripState.RUNNING
  else mret ().

Definition onRouteReceived (msg : LaneletRoute) : Op unit :=
  set_c (λ c, c <| last_route_ := Some msg |> <| route_received_ := true |>).

Definition injectEta (distance_m time_seconds : double) : Op unit :=
  st ← get_s state_;
  if decide (st ≠ TripState.QUERY_READING_ETA) then mret () else
  set_c (λ c, c <| eta_distance_m_ := distance_m |> <| eta_seconds_ := time_seconds |>
                <| eta_received_ := true |>).

Definition setCurrentGps (g : GPSCoordinate) : Op unit :=
  set_s (λ s, s <| current_gps_ := g |>).

(** The TF lookup is an argument: [None] is a tf2::TransformException. *)
Definition gps_out_of_range (g : GPSCoordinate) : bool :=
  dltb (latitude g) (d_of_Z 35) || dltb (d_of_Z 36) (latitude g) ||
  dltb (longitude g) (d_of_Z 139) || dltb (d_of_Z 140) (longitude g).

Definition getCurrentVehiclePose (tf : option LocalCoordinate) : Op (option GPSCoordinate) :=
  match tf with
  | None => mret None
  | Some loc =>
    m ← gets lanelet_map_;
    let g := rm_localToGps m loc in
    if gps_out_of_range g then mret None else mret (Some (rm_localToGps m loc))
  end.

(** ** The query pipeline *)

Definition failQuery (reason : string) : Op unit :=
  cb ← get_c query_cb_;
  match cb with
  | Some k =>
    set_c (λ c, c <| query_result_ ::= λ r, r <| success_ := false |>
                                              <| error_message_ := reason |> |>);;
    r ← get_c query_result_;
    emit (QueryReply k r);;
    set_c (λ c, c <| query_cb_ := None |>)
  | None => mret ()
  end;;
  set_c (λ c, c <| querying_ := false |> <| pickup_route_ := None |> <| trip_route_ := None |>
                <| status_ := TripStatus_default |> <| route_received_ := false |>);;
  transitionTo TripState.IDLE.

Definition leg_name (l : QueryLeg.t) : string :=
  match l with QueryLeg.PICKUP => "pickup" | QueryLeg.TRIP => "trip" end.

(** The two lane lookups of [startQueryLeg]. *)
Definition resolve_from (from_gps : GPSCoordinate) : Op (option LaneInfo) :=
  leg ← get_c current_leg_;
  match leg with
  | QueryLeg.PICKUP => on_map (rm_findNearestLane from_gps)
  | QueryLeg.TRIP =>
    g ← get_s goal_lanelet_id_;
    id ← lift (stoll g);
    on_map (rm_getLaneById id)
  end.

(** The assignments of [startQueryLeg] to the status. *)
Definition set_leg (from_lane to_lane : LaneInfo) (to_gps : GPSCoordinate) (s : TripStatus) :
    TripStatus :=
  s <| start_x_ := local_x (local from_lane) |>
    <| start_y_ := local_y (local from_lane) |>
    <| start_z_ := local_z (local from_lane) |>
    <| start_qw_ := ori_w (lane_orientation from_lane) |>
    <| start_qz_ := ori_z (lane_orientation from_lane) |>
    <| start_lanelet_id_ := to_string (lane_id from_lane) |>
    <| goal_x_ := local_x (local to_lane) |>
    <| goal_y_ := local_y (local to_lane) |>
    <| goal_z_ := local_z (local to_lane) |>
    <| goal_qw_ := ori_w (lane_orientation to_lane) |>
    <| goal_qz_ := ori_z (lane_orientation to_lane) |>
    <| goal_lanelet_id_ := to_string (lane_id to_lane) |>
    <| goal_gps_ := to_gps |>.

Definition snap_distance (to_lane : LaneInfo) (raw : LocalCoordinate) : double :=
  let dx := dsub (local_x (local to_lane)) (local_x raw) in
  let dy := dsub (local_y (local to_lane)) (local_y raw) in
  dsqrt (dadd (dmul dx dx) (dmul dy dy)).

Definition startQueryLeg (from_gps to_gps : GPSCoordinate) : Op unit :=
  from_lane ← resolve_from from_gps;
  match from_lane with
  | None =>
    leg ← get_c current_leg_;
    failQuery ("cannot resolve lane for " +:+
               match leg with QueryLeg.PICKUP => "pickup origin" | _ => "trip start" end)
  | Some fl =>
    to_lane ← on_map (rm_findNearestConnectedLane to_gps (lane_id fl) true);
    match to_lane with
    | None =>
      near ← on_map (rm_findNearestLane to_gps);
      failQuery ("destination lane " +:+
                 to_string (match near with Some l => lane_id l | None => -1 end) +:+
                 " not reachable from start lane " +:+ to_string (lane_id fl))
    | Some tl =>
      set_s (set_leg fl tl to_gps);;
      m ← gets lanelet_map_;
      set_s (λ s, s <| goal_distance_m_ := snap_distance tl (rm_gpsToLocal m to_gps) |>);;
      transitionTo TripState.QUERY_PUBLISHING_INITIAL_POSE
    end
  end.

Definition leg_eta (c : TripController) : LegEta :=
  {| leg_success_ := true; leg_distance_m_ := eta_distance_m_ c;
     leg_eta_seconds_ := eta_seconds_ c;
     start_lane_id_ := start_lanelet_id_ (status_ c);
     goal_lane_id_ := goal_lanelet_id_ (status_ c); leg_error_message_ := "" |}.

Definition held_route (c : TripController) (g : GPSCoordinate) (goal_lane : Z) : HeldRoute :=
  {| route_ := default LaneletRoute_default (last_route_ c);
     held_eta_seconds_ := eta_seconds_ c; held_distance_m_ := eta_distance_m_ c;
     held_goal_gps_ := g; held_goal_lane_id_ := goal_lane |}.

Definition finishPickupLeg : Op unit :=
  set_c (λ c, c <| query_result_ ::= λ r, r <| pickup_leg_ := leg_eta c |> |>);;
  g ← get_s goal_lanelet_id_;
  id ← lift (stoll g);
  set_c (λ c, c <| pickup_route_ := Some (held_route c (query_start_gps_ c) id) |>);;
  set_c (λ c, c <| current_leg_ := QueryLeg.TRIP |> <| current_route_state_ := None |>
                <| route_received_ := false |>);;
  c ← get_c (λ c, c);
  startQueryLeg (query_start_gps_ c) (query_goal_gps_ c).

Definition finishTripLeg : Op unit :=
  set_c (λ c, c <| query_result_ ::= λ r, r <| trip_leg_ := leg_eta c |> |>);;
  set_c (λ c, c <| trip_route_ := Some (held_route c (query_goal_gps_ c) 0) |>);;
  set_c (λ c, c <| query_result_ ::= λ r, r <| success_ := true |> |>
                <| querying_ := false |>);;
  cb ← get_c query_cb_;
  match cb with
  | Some k =>
    r ← get_c query_result_;
    emit (QueryReply k r);;
    set_c (λ c, c <| query_cb_ := None |>)
  | None => mret ()
  end;;
  set_c (λ c, c <| status_ := TripStatus_default |>);;
  transitionTo TripState.ROUTES_READY.

Definition finishQueryLeg : Op unit :=
  leg ← get_c current_leg_;
  match leg with
  | QueryLeg.PICKUP => finishPickupLeg
  | QueryLeg.TRIP => finishTripLeg
  end.

(** ** Commands *)

Definition initializeInMap : Op unit :=
  m ← gets lanelet_map_;
  match rm_getDefaultStart m with
  | None => mret ()
  | Some p =>
    set_c (λ c, c <| init_x_ := local_x (start_local p) |>
                  <| init_y_ := local_y (start_local p) |>
                  <| init_z_ := local_z (start_local p) |>
                  <| init_qz_ := ori_z (start_orientation p) |>
                  <| init_qw_ := ori_w (start_orientation p) |>);;
    publish_init;;
    transitionTo TripState.INITIALIZING_IN_MAP
  end.

(** A refusal of [queryEta] before the query starts. *)
Definition rejectQuery (cb : option nat) (msg : string) : Op bool :=
  match cb with
  | Some k => emit (QueryReply k (EtaQueryResult_default <| error_message_ := msg |>))
  | None => mret ()
  end;;
  mret false.

Definition queryEta (tf : option LocalCoordinate) (start_g goal_g : GPSCoordinate)
    (cb : option nat) : Op bool :=
  st ← get_s state_;
  if decide (st ≠ TripState.IDLE) then
    rejectQuery cb ("not idle (state=" +:+ to_string (TripState.to_int st) +:+ ")")
  else
  vehicle_pose ← getCurrentVehiclePose tf;
  match vehicle_pose with
  | None => rejectQuery cb "vehicle not localized — call after IDLE (post map init)"
  | Some pose =>
    set_c (λ c, c <| querying_ := true |> <| current_leg_ := QueryLeg.PICKUP |>
                  <| query_start_gps_ := start_g |> <| query_goal_gps_ := goal_g |>
                  <| query_cb_ := cb |> <| query_result_ := EtaQueryResult_default |>
                  <| pickup_route_ := None |> <| trip_route_ := None |>);;
    startQueryLeg pose start_g;;
    mret true
  end.

Definition goToPickup : Op bool :=
  st ← get_s state_;
  if decide (st ≠ TripState.WAITING_FOR_PICKUP_START) then mret false else
  set_c (λ c, c <| current_route_state_ := None |> <| route_received_ := false |>);;
  transitionTo TripState.PUBLISHING_INITIAL_POSE;;
  mret true.

(** The assignments of [startTrip] and of [move] to the status. *)
Definition set_start (l : LaneInfo) (g : GPSCoordinate) (s : TripStatus) : TripStatus :=
  s <| start_lanelet_id_ := to_string (lane_id l) |>
    <| start_x_ := local_x (local l) |> <| start_y_ := local_y (local l) |>
    <| start_z_ := local_z (local l) |>
    <| start_qw_ := ori_w (lane_orientation l) |> <| start_qz_ := ori_z (lane_orientation l) |>
    <| start_gps_ := g |>.

Definition set_goal (l : LaneInfo) (r : HeldRoute) (s : TripStatus) : TripStatus :=
  s <| goal_lanelet_id_ := to_string (lane_id l) |>
    <| goal_x_ := local_x (local l) |> <| goal_y_ := local_y (local l) |>
    <| goal_z_ := local_z (local l) |>
    <| goal_qw_ := ori_w (lane_orientation l) |> <| goal_qz_ := ori_z (lane_orientation l) |>
    <| goal_gps_ := held_goal_gps_ r |> <| goal_distance_m_ := held_distance_m_ r |>.

Definition startTrip : Op bool :=
  set_c (λ c, c <| engaging_for_pickup_ := true |>);;
  set_c (λ c, c <| current_route_state_ := None |>);;
  pr ← get_c pickup_route_;
  match pr with
  | None => mret false
  | Some p =>
    tr ← get_c trip_route_;
    match tr with
    | None => mret false
    | Some _ =>
      st ← get_s state_;
      if decide (st ≠ TripState.ROUTES_READY ∧ st ≠ TripState.IDLE) then mret false else
      start_lane ← on_map (rm_getLaneById (held_goal_lane_id_ p));
      match start_lane with
      | None => transitionTo TripState.FAILED;; mret false
      | Some l =>
        set_s (set_start l (held_goal_gps_ p));;
        transitionTo TripState.WAITING_FOR_PICKUP_START;;
        mret true
      end
    end
  end.

Definition move : Op bool :=
  st ← get_s state_;
  if decide (st ≠ TripState.WAITING_FOR_MOVE) then mret false else
  tr ← get_c trip_route_;
  match tr with
  | None => transitionTo TripState.FAILED;; mret false
  | Some r =>
    s ← get_s start_lanelet_id_;
    current_lane_id ← lift (stoll s);
    goal_lane ← on_map (rm_findNearestConnectedLane (held_goal_gps_ r) current_lane_id true);
    match goal_lane with
    | None => transitionTo TripState.FAILED;; mret false
    | Some l =>
      set_s (set_goal l r);;
      set_c (λ c, c <| current_route_state_ := None |>);;
      publish_goal;;
      set_c (λ c, c <| engaging_for_pickup_ := false |>);;
      transitionTo TripState.ENGAGING;;
      mret true
    end
  end.

Definition handleMoveCommand : Op bool :=
  st ← get_s state_;
  if decide (st = TripState.WAITING_FOR_PICKUP_START) then goToPickup
  else if decide (st = TripState.WAITING_FOR_MOVE) then move
  else mret false.

Definition cancel : Op unit :=
  set_c (λ c, c <| querying_ := false |> <| query_cb_ := None |> <| pickup_route_ := None |>
                <| trip_route_ := None |> <| status_ := TripStatus_default |>
                <| route_received_ := false |> <| engaging_for_pickup_ := false |>
                <| current_route_state_ := None |>);;
  m ← gets lanelet_map_;
  match rm_getDefaultStart m with
  | Some p =>
    doPublishInitialPose (local_x (start_local p)) (local_y (start_local p))
      (local_z (start_local p)) (ori_z (start_orientation p)) (ori_w (start_orientation p))
  | None => mret ()
  end;;
  transitionTo TripState.IDLE.

(** ** The tick *)

Definition localized (c : TripController) : bool :=
  bool_decide (current_loc_state_ c = Some LIS_INITIALIZED).
Definition route_is (v : Z) (c : TripController) : bool :=
  bool_decide (current_route_state_ c = Some v).

(** Publish again once [period] ms have passed since the last time. *)
Definition republish (period : Z) (publish : Op unit) : Op unit :=
  lp ← get_c last_publish_time_;
  e ← elapsed_ms lp;
  when (period <=? e)
    (publish;; t ← now; set_c (λ c, c <| last_publish_time_ := t |>)).

(** Fail the query once [limit] ms have passed in the state. *)
Definition fail_after (limit : Z) (reason : string) : Op unit :=
  since ← get_c state_entered_at_;
  e ← elapsed_ms since;
  when (limit <=? e) (failQuery reason).

Definition tick_initializing : Op unit :=
  c ← get_c (λ c, c);
  if negb (localized c) then republish 1000 publish_init
  else transitionTo TripState.IDLE.

Definition tick_query_localisation : Op unit :=
  c ← get_c (λ c, c);
  if negb (localized c) then
    republish 1000 publish_start;;
    fail_after (loc_timeout_ms (timings_ c))
      ("timeout waiting for localisation on " +:+ leg_name (current_leg_ c) +:+ " leg")
  else transitionTo TripState.QUERY_PUBLISHING_GOAL.

Definition tick_query_goal : Op unit :=
  publish_goal;;
  set_c (λ c, c <| route_received_ := false |> <| current_route_state_ := None |>);;
  transitionTo TripState.QUERY_WAITING_ROUTE.

Definition tick_query_route : Op unit :=
  c ← get_c (λ c, c);
  if negb (route_is RS_SET c) then
    republish 2000 publish_goal;;
    fail_after (route_timeout_ms (timings_ c))
      ("timeout waiting for route on " +:+ leg_name (current_leg_ c) +:+ " leg (lanes " +:+
       start_lanelet_id_ (status_ c) +:+ " → " +:+ goal_lanelet_id_ (status_ c) +:+
       " may not be connected)")
  else
    set_c (λ c, c <| eta_received_ := false |>);;
    transitionTo TripState.QUERY_READING_ETA.

Definition tick_query_eta : Op unit :=
  c ← get_c (λ c, c);
  if eta_received_ c then finishQueryLeg
  else
    e ← elapsed_ms (state_entered_at_ c);
    when (eta_settle_ms (timings_ c) <=? e)
      (set_c (λ c, c <| eta_distance_m_ := d0 |> <| eta_seconds_ := d0 |>);;
       finishQueryLeg).

Definition tick_localisation : Op unit :=
  c ← get_c (λ c, c);
  if negb (localized c) then republish 1000 publish_init
  else
    s ← get_c status_;
    doPublishGoal (start_x_ s) (start_y_ s) (start_z_ s) (start_qz_ s) (start_qw_ s);;
    transitionTo TripState.ENGAGING.

Definition tick_engaging (mode_ready engage_ready : bool) : Op unit :=
  republish 2000 (doEngage mode_ready engage_ready).

Definition tick_driving : Op unit :=
  c ← get_c (λ c, c);
  when (route_is RS_ARRIVED c)
    (when (on_pickup_arrived_ c) (emit PickupArrived);;
     set_c (λ c, c <| current_route_state_ := None |>);;
     transitionTo TripState.WAITING_FOR_MOVE).

Definition tick_running : Op unit :=
  c ← get_c (λ c, c);
  when (route_is RS_ARRIVED c)
    (when (on_dropoff_arrived_ c) (emit DropoffArrived);;
     set_c (λ c, c <| current_route_state_ := None |>);;
     transitionTo TripState.COMPLETED).

Definition tick (mode_ready engage_ready : bool) : Op unit :=
  st ← get_s state_;
  match st with
  | TripState.IDLE | TripState.ROUTES_READY | TripState.WAITING_FOR_MOVE
  | TripState.COMPLETED | TripState.CANCELLED | TripState.FAILED
  | TripState.WAITING_FOR_PICKUP_START => mret ()
  | TripState.INITIALIZING_IN_MAP => tick_initializing
  | TripState.QUERY_PUBLISHING_INITIAL_POSE =>
    publish_start;; transitionTo TripState.QUERY_WAITING_LOCALISATION
  | TripState.QUERY_WAITING_LOCALISATION => tick_query_localisation
  | TripState.QUERY_PUBLISHING_GOAL => tick_query_goal
  | TripState.QUERY_WAITING_ROUTE => tick_query_route
  | TripState.QUERY_READING_ETA => tick_query_eta
  | TripState.PUBLISHING_INITIAL_POSE =>
    publish_init;; transitionTo TripState.WAITING_LOCALISATION
  | TripState.WAITING_LOCALISATION => tick_localisation
  | TripState.ENGAGING => tick_engaging mode_ready engage_ready
  | TripState.DRIVING_TO_PICKUP => tick_driving
  | TripState.RUNNING => tick_running
  end.

(** ** The strand's view

    Everything that reaches the controller after boot: the subscription callbacks, the commands
    and the timer. *)
Inductive Input : Type :=
  | LocStateMsg (state : Z)
  | EtaMsg (distance_m time_s : double)
  | RouteStateMsg (state : Z)
  | ModeStateMsg (autonomous_available : bool)
  | RouteMsg (msg : LaneletRoute)
  | Engaged
  | QueryEta (tf : option LocalCoordinate) (start_g goal_g : GPSCoordinate) (cb : option nat)
  | StartTrip
  | GoToPickup
  | MoveCommand
  | Move
  | Cancel
  | SetCurrentGps (g : GPSCoordinate)
  | Tick (mode_ready engage_ready : bool).

(** The state-storing subscription callbacks of the constructor. *)
Definition on_loc_state (state : Z) : Op unit :=
  set_c (λ c, c <| current_loc_state_ := Some state |>).
Definition on_route_state (state : Z) : Op unit :=
  set_c (λ c, c <| current_route_state_ := Some state |>).
Definition on_mode_state (available : bool) : Op unit :=
  set_c (λ c, c <| current_mode_state_ := Some available |>).

(** A command's return value is a boolean; the other inputs return nothing ([true] here). *)
Definition handle (i : Input) : Op bool :=
  match i with
  | LocStateMsg v => on_loc_state v;; mret true
  | EtaMsg d t => injectEta d t;; mret true
  | RouteStateMsg v => on_route_state v;; mret true
  | ModeStateMsg b => on_mode_state b;; mret true
  | RouteMsg r => onRouteReceived r;; mret true
  | Engaged => onEngaged;; mret true
  | QueryEta tf s g cb => queryEta tf s g cb
  | StartTrip => startTrip
  | GoToPickup => goToPickup
  | MoveCommand => handleMoveCommand
  | Move => move
  | Cancel => cancel;; mret true
  | SetCurrentGps g => setCurrentGps g;; mret true
  | Tick a b => tick a b;; mret true
  end.

(** The state after an input, and after a list of them. *)
Definition step (i : Input) (w : World) : World := final (handle i) w.
Definition run (l : list Input) (w : World) : World := run_inputs step l w.
Fixpoint run_outputs (l : list Input) (w : World) : list Output :=
  match l with
  | [] => []
  | i :: l' => outputs (handle i) w ++ run_outputs l' (step i w)
  end.

(** Boot: construction, registration of the three callbacks, [initializeInMap]. *)
Definition setStateChangeCallback (set : bool) : Op unit :=
  set_c (λ c, c <| on_state_change_ := set |>).
Definition setArrivalCallbacks (pickup dropoff : bool) : Op unit :=
  set_c (λ c, c <| on_pickup_arrived_ := pickup |> <| on_dropoff_arrived_ := dropoff |>).

Definition boot_op : Op unit :=
  setStateChangeCallback true;; setArrivalCallbacks true true;; initializeInMap.
Definition boot (timings : TripTimings) (m : Mp) : World :=
  final boot_op (mkWorld (TripController_init timings) m 0).

Definition trip_state (w : World) : TripState.t := state_ (status_ (ctrl w)).
End Definitions.
Arguments World : clear implicits.
Arguments Op : clear implicits.
