(* ===== verification/TripRules.v ===== *)
(** * TripRules: symbolic execution of the trip controller

    The weakest-precondition rules of the primitives of [TripController] and the tactic [wp_ops]
    that runs an operation with them.  A read is simplified before it is substituted; the state
    stays a sequence of member updates. *)

From S2P Require Export TripController.

Section Rules.
Context {Mp : Type} `{RouteMap Mp} `{Clocks} `{AutowareMsgs}.
Implicit Types (w : World Mp) (c : TripController).

(** The state after entering [next], and what the registered callback is told. *)
Definition enter (next : TripState.t) (w : World Mp) : World Mp :=
  w <| reads ::= S |>
    <| ctrl ::= λ c, c <| status_ ::= λ s, s <| state_ := next |>
                                             <| last_state_change_ := steady_at (reads w) |> |>
                       <| state_entered_at_ := steady_at (reads w) |>
                       <| last_publish_time_ := 0 |> |>.

Definition change_out (next : TripState.t) (w : World Mp) : list Output :=
  if on_state_change_ (ctrl w)
  then [StateChange (trip_state w) next (status_ (ctrl (enter next w)))] else [].

Lemma wp_get_c {A} (f : TripController → A) w v Q :
  f (ctrl w) = v → Q (Ret v) w [] → wp (get_c f) w Q.
Proof. by intros <-. Qed.
Lemma wp_get_s {A} (f : TripStatus → A) w v Q :
  f (status_ (ctrl w)) = v → Q (Ret v) w [] → wp (get_s f) w Q.
Proof. by intros <-. Qed.
Lemma wp_set_c f w Q : Q (Ret ()) (w <| ctrl ::= f |>) [] → wp (set_c f) w Q.
Proof. done. Qed.
Lemma wp_set_s f w Q :
  Q (Ret ()) (w <| ctrl ::= λ c, c <| status_ ::= f |> |>) [] → wp (set_s f) w Q.
Proof. done. Qed.
Lemma wp_now w Q : Q (Ret (steady_at (reads w))) (w <| reads ::= S |>) [] → wp now w Q.
Proof. done. Qed.
Lemma wp_ros_now w Q : Q (Ret (ros_at (reads w))) (w <| reads ::= S |>) [] → wp ros_now w Q.
Proof. done. Qed.
Lemma wp_on_map {A} (f : Mp → outcome A * Mp) w o m' Q :
  f (lanelet_map_ w) = (o, m') → Q o (w <| lanelet_map_ := m' |>) [] → wp (on_map f) w Q.
Proof. intros Hf HQ. unfold wp, result, final, outputs, on_map. by rewrite Hf. Qed.

Lemma wp_transitionTo next w Q :
  (trip_state w = next → Q (Ret ()) w []) →
  (trip_state w ≠ next → Q (Ret ()) (enter next w) (change_out next w)) →
  wp (transitionTo next) w Q.
Proof.
  intros Heq Hne. unfold change_out in Hne. unfold transitionTo.
  apply wp_bind. eapply wp_get_s; [reflexivity|]. cbv beta iota.
  destruct (decide _) as [Heq'|Hne']; [by apply Heq|]. specialize (Hne Hne').
  apply wp_bind, wp_set_s, wp_bind, wp_now, wp_bind, wp_set_s, wp_bind, wp_set_c, wp_bind.
  eapply wp_get_c; [cbn; reflexivity|]. apply wp_bind. eapply wp_get_c; [cbn; reflexivity|].
  cbv beta iota. by destruct (on_state_change_ (ctrl w)).
Qed.

(** A publication changes nothing but the number of clock readings. *)
Definition is_publication (out : list Output) : Prop :=
  match out with
  | [PublishInitialPose _] | [PublishGoal _] => True
  | _ => False
  end.

(** Outputs that only speak to Autoware. *)
Definition is_io (o : Output) : Prop :=
  match o with
  | PublishInitialPose _ | PublishGoal _ | SendModeRequest => True
  | _ => False
  end.

Lemma publication_io out : is_publication out → Forall is_io out.
Proof. destruct out as [|[] []]; try done; intros _; by constructor. Qed.

Lemma wp_doPublishInitialPose x y z qz qw w Q :
  (∀ t, is_publication t → Q (Ret ()) (w <| reads ::= S |>) t) →
  wp (doPublishInitialPose x y z qz qw) w Q.
Proof. intros HQ. apply wp_bind, wp_ros_now. by apply HQ. Qed.

Lemma wp_doPublishGoal x y z qz qw w Q :
  (∀ t, is_publication t → Q (Ret ()) (w <| reads ::= S |>) t) →
  wp (doPublishGoal x y z qz qw) w Q.
Proof. intros HQ. apply wp_bind, wp_ros_now. by apply HQ. Qed.

(** ** Outputs

    [emits P op]: whatever the state, [op] makes outputs in [P] only. *)
Definition emits {A} (P : Output → Prop) (op : Op Mp A) : Prop :=
  ∀ w, Forall P (outputs op w).

Lemma emits_bind {A B} P (m : Op Mp A) (f : A → Op Mp B) :
  emits P m → (∀ a, emits P (f a)) → emits P (m ≫= f).
Proof.
  intros Hm Hf w. change (wp (m ≫= f) w (λ _ _ out, Forall P out)). apply wp_bind.
  specialize (Hm w). unfold wp. destruct (result m w) as [a|e]; [|done].
  apply Forall_app. split; [done|]. apply Hf.
Qed.

Lemma emits_transitionTo P s :
  (∀ a b st, P (StateChange a b st)) → emits P (transitionTo s).
Proof.
  intros HP w. change (wp (transitionTo s) w (λ _ _ out, Forall P out)).
  apply wp_transitionTo; intros _; [by constructor|]. unfold change_out.
  destruct (on_state_change_ (ctrl w)); repeat constructor; auto.
Qed.

Lemma emits_on_map {A} P (f : Mp → outcome A * Mp) : emits P (on_map f).
Proof.
  intros w. unfold outputs, on_map. destruct (f (lanelet_map_ w)). by constructor.
Qed.

Lemma emits_silent {A} P (op : Op Mp A) : (∀ w, outputs op w = []) → emits P op.
Proof. intros Hs w. rewrite Hs. by constructor. Qed.

Lemma emits_emit (P : Output → Prop) o : P o → emits P (emit o).
Proof. intros Ho w. by repeat constructor. Qed.

Lemma emits_when P b op : emits P op → emits P (when b op).
Proof. destruct b; [done|]. intros _. by apply emits_silent. Qed.

Lemma emits_sub {A} (P Q : Output → Prop) (op : Op Mp A) :
  (∀ o, P o → Q o) → emits P op → emits Q op.
Proof. intros HPQ Hop w. eapply Forall_impl; [apply Hop|done]. Qed.
End Rules.

(** Decomposes an operation into its primitives; outputs are left to [tac]. *)
Ltac emits_by tac :=
  repeat first
    [ progress cbv beta iota
    | lazymatch goal with
      | |- emits _ (_ ≫= _) => apply emits_bind; [|intros ?]
      | |- emits _ (on_map _) => apply emits_on_map
      | |- emits _ (emit _) => apply emits_emit; tac
      | |- emits _ (when _ _) => apply emits_when
      | |- emits _ (transitionTo _) => apply emits_transitionTo; intros ???; tac
      | |- emits _ (if ?b then _ else _) => destruct b
      | |- emits _ (match ?x with _ => _ end) => destruct x
      | |- emits _ (mret _) => by apply emits_silent
      | |- emits _ (get_c _) => by apply emits_silent
      | |- emits _ (get_s _) => by apply emits_silent
      | |- emits _ (gets _) => by apply emits_silent
      | |- emits _ (set_c _) => by apply emits_silent
      | |- emits _ (set_s _) => by apply emits_silent
      | |- emits _ (lift _) => by apply emits_silent
      | |- emits _ now => by apply emits_silent
      | |- emits _ ros_now => by apply emits_silent
      end ].

(** A transition whose source is known does happen; its source is otherwise kept. *)
Ltac wp_transition :=
  apply wp_transitionTo;
    [intros Hsame; unfold trip_state in Hsame; cbn in Hsame; absurd_case
    |intros Hdiff; unfold trip_state in Hdiff; cbn in Hdiff; absurd_case].

Ltac wp_op :=
  lazymatch goal with
  | |- wp (get_c _) _ _ => eapply wp_get_c; [cbn; reflexivity|]
  | |- wp (get_s _) _ _ => eapply wp_get_s; [cbn; reflexivity|]
  | |- wp (set_c _) _ _ => apply wp_set_c
  | |- wp (set_s _) _ _ => apply wp_set_s
  | |- wp now _ _ => apply wp_now
  | |- wp ros_now _ _ => apply wp_ros_now
  | |- wp (transitionTo _) _ _ => wp_transition
  | |- wp (doPublishInitialPose _ _ _ _ _) _ _ => apply wp_doPublishInitialPose; intros ? ?
  | |- wp (doPublishGoal _ _ _ _ _) _ _ => apply wp_doPublishGoal; intros ? ?
  end.
Ltac wp_ops := repeat (first [wp_op; cbv beta iota | wp_step]).
