(* ===== verification/TripInvariant.v ===== *)
(** * TripInvariant: what holds of the controller in every reachable state

    The invariant of the trip state machine: which routes, lanes and callbacks a state of the
    machine holds.  It is kept by every input and no input throws, provided the lane map keeps its
    contract ([RouteMapLaws]). *)

From S2P Require Export TripRules.
Import TripState.

Section Invariant.
Context {Mp : Type} `{RouteMap Mp} `{Clocks} `{AutowareMsgs}.
Implicit Types (w : World Mp) (c : TripController).

(** ** The invariant *)

(** What a state of the machine holds depends on its phase only. *)
Inductive phase_t := PIdle | PQuery | PReady | PTrip | PDead.

Definition phase (st : TripState.t) : phase_t :=
  match st with
  | IDLE | INITIALIZING_IN_MAP => PIdle
  | QUERY_PUBLISHING_INITIAL_POSE | QUERY_WAITING_LOCALISATION | QUERY_PUBLISHING_GOAL
  | QUERY_WAITING_ROUTE | QUERY_READING_ETA => PQuery
  | ROUTES_READY => PReady
  | WAITING_FOR_PICKUP_START | PUBLISHING_INITIAL_POSE | WAITING_LOCALISATION | ENGAGING
  | DRIVING_TO_PICKUP | WAITING_FOR_MOVE | RUNNING | COMPLETED => PTrip
  | CANCELLED | FAILED => PDead
  end.

Definition is_query (st : TripState.t) : bool :=
  match phase st with PQuery => true | _ => false end.

(** During a query leg the status names the leg's two lanes, the goal lane is the one the map
    gives for the leg's destination, and the bank holds the pickup route exactly on the second
    leg, whose start is the pickup lane. *)
Definition query_inv (c : TripController) (m : Mp) : Prop :=
  ∃ fl tl,
    start_lanelet_id_ (status_ c) = to_string (lane_id fl) ∧
    goal_lanelet_id_ (status_ c) = to_string (lane_id tl) ∧
    is_int64 (lane_id fl) ∧ is_int64 (lane_id tl) ∧
    lane_settled m fl ∧ lane_settled m tl ∧
    route_settled m (goal_gps_ (status_ c)) (lane_id fl) tl ∧
    trip_route_ c = None ∧
    match current_leg_ c with
    | QueryLeg.PICKUP =>
      goal_gps_ (status_ c) = query_start_gps_ c ∧ pickup_route_ c = None
    | QueryLeg.TRIP =>
      goal_gps_ (status_ c) = query_goal_gps_ c ∧
      ∃ p, pickup_route_ c = Some p ∧ held_goal_lane_id_ p = lane_id fl ∧
           held_goal_gps_ p = query_start_gps_ c
    end.

(** Both routes are banked: the pickup lane is resolved and the trip's destination has a lane
    reachable from it. *)
Definition banked (c : TripController) (m : Mp) (pl gl : LaneInfo) (p r : HeldRoute) : Prop :=
  pickup_route_ c = Some p ∧ trip_route_ c = Some r ∧
  held_goal_lane_id_ p = lane_id pl ∧ is_int64 (lane_id pl) ∧ is_int64 (lane_id gl) ∧
  lane_settled m pl ∧ lane_settled m gl ∧
  route_settled m (held_goal_gps_ r) (lane_id pl) gl.

Definition bank_inv (c : TripController) (m : Mp) : Prop :=
  query_cb_ c = None ∧ ∃ pl gl p r, banked c m pl gl p r.

Definition trip_inv (c : TripController) (m : Mp) : Prop :=
  query_cb_ c = None ∧
  ∃ pl gl p r, banked c m pl gl p r ∧ start_lanelet_id_ (status_ c) = to_string (lane_id pl).

Definition state_inv (c : TripController) (m : Mp) : Prop :=
  querying_ c = is_query (state_ (status_ c)) ∧
  match phase (state_ (status_ c)) with
  | PIdle => query_cb_ c = None ∧ pickup_route_ c = None ∧ trip_route_ c = None
  | PQuery => query_inv c m
  | PReady => bank_inv c m
  | PTrip => trip_inv c m
  | PDead => False
  end.

(** The members the invariant looks at. *)
Definition view (c : TripController) :=
  (phase (state_ (status_ c)), start_lanelet_id_ (status_ c), goal_lanelet_id_ (status_ c),
   goal_gps_ (status_ c), querying_ c, current_leg_ c, query_start_gps_ c, query_goal_gps_ c,
   query_cb_ c, pickup_route_ c, trip_route_ c).

Lemma state_inv_view c c' m : view c = view c' → state_inv c m → state_inv c' m.
Proof.
  unfold view. intros Heq. injection Heq as Hst Hs Hg Hgg Hq Hl Hqs Hqg Hcb Hp Ht.
  unfold state_inv, query_inv, bank_inv, trip_inv, banked, is_query.
  by rewrite Hst, Hs, Hg, Hgg, Hq, Hl, Hqs, Hqg, Hcb, Hp, Ht.
Qed.

Context {Laws : RouteMapLaws Mp}.

Definition inv (w : World Mp) : Prop :=
  rm_inv (lanelet_map_ w) ∧ state_inv (ctrl w) (lanelet_map_ w).

Lemma inv_view (w w' : World Mp) :
  view (ctrl w) = view (ctrl w') → lanelet_map_ w = lanelet_map_ w' → inv w → inv w'.
Proof.
  unfold inv. intros Hv <- [Hm Hs]. split; [done|]. by eapply state_inv_view.
Qed.

(** Resolving more lanes keeps what the routes rely on. *)
Lemma banked_le c m m' pl gl p r : rm_le m m' → banked c m pl gl p r → banked c m' pl gl p r.
Proof. unfold banked. intros Hle ?. destruct_and!. eauto 15 with agent. Qed.

(** ** Every operation is safe: it returns, and keeps the invariant *)

Definition returns_inv {A} : outcome A → World Mp → list Output → Prop :=
  λ o w' _, (∃ a, o = Ret a) ∧ inv w'.
Definition safe {A} (op : Op Mp A) : Prop := ∀ w, inv w → wp op w returns_inv.

Lemma safe_ret {A} (a : A) : safe (mret a).
Proof. intros w Hw. split; eauto. Qed.

Lemma safe_bind {A B} (m : Op Mp A) (f : A → Op Mp B) :
  safe m → (∀ a, safe (f a)) → safe (m ≫= f).
Proof.
  intros Hm Hf w Hw. apply wp_bind. eapply wp_mono; [by apply Hm|].
  intros o w' t [[a ->] Hw']. by apply Hf.
Qed.

(** An operation that does not touch the view. *)
Lemma returns_view {A} (a : A) w w' t :
  inv w → view (ctrl w') = view (ctrl w) → lanelet_map_ w' = lanelet_map_ w →
  returns_inv (Ret a) w' t.
Proof. intros Hw Hv Hm. split; [eauto|]. by eapply inv_view. Qed.

Lemma failQuery_inv reason w :
  rm_inv (lanelet_map_ w) → wp (failQuery reason) w returns_inv.
Proof.
  intros Hm. unfold failQuery. wp_ops.
  all: split; [by eexists|]; split; [exact Hm|]; by repeat split.
Qed.

(** What [startQueryLeg] is entered with, on either leg. *)
Definition leg_ready (c : TripController) (m : Mp) (to_gps : GPSCoordinate) : Prop :=
  querying_ c = true ∧ trip_route_ c = None ∧
  match current_leg_ c with
  | QueryLeg.PICKUP => to_gps = query_start_gps_ c ∧ pickup_route_ c = None
  | QueryLeg.TRIP =>
    to_gps = query_goal_gps_ c ∧
    ∃ p fl, pickup_route_ c = Some p ∧ held_goal_lane_id_ p = lane_id fl ∧
            held_goal_gps_ p = query_start_gps_ c ∧
            goal_lanelet_id_ (status_ c) = to_string (lane_id fl) ∧
            is_int64 (lane_id fl) ∧ lane_settled m fl
  end.

(** The same once the origin lane is resolved. *)
Definition leg_from (c : TripController) (m : Mp) (to_gps : GPSCoordinate) (fl : LaneInfo) : Prop :=
  querying_ c = true ∧ trip_route_ c = None ∧ lane_settled m fl ∧ is_int64 (lane_id fl) ∧
  match current_leg_ c with
  | QueryLeg.PICKUP => to_gps = query_start_gps_ c ∧ pickup_route_ c = None
  | QueryLeg.TRIP =>
    to_gps = query_goal_gps_ c ∧
    ∃ p, pickup_route_ c = Some p ∧ held_goal_lane_id_ p = lane_id fl ∧
         held_goal_gps_ p = query_start_gps_ c
  end.

Lemma resolve_from_spec from_gps to_gps w :
  rm_inv (lanelet_map_ w) → leg_ready (ctrl w) (lanelet_map_ w) to_gps →
  wp (resolve_from from_gps) w (λ o w' _, ∃ r m',
    o = Ret r ∧ w' = w <| lanelet_map_ := m' |> ∧ rm_inv m' ∧
    ∀ fl, r = Some fl → leg_from (ctrl w) m' to_gps fl).
Proof.
  intros Hm (Hq & Ht & Hleg). unfold resolve_from, leg_from.
  destruct (current_leg_ (ctrl w)) eqn:Hl; wp_ops; absurd_case.
  - destruct (rm_nearest_spec (lanelet_map_ w) from_gps Hm) as (o & m' & Hf & Hm' & _ & Ho).
    eapply wp_on_map; [exact Hf|]. exists o, m'.
    split_and!; [done..|]. intros fl Hfl. by destruct (Ho fl Hfl).
  - destruct Hleg as (-> & p & fl & Hp & Hid & Hg & Hgl & Hi & Hs).
    rewrite Hgl, stoll_to_string by done. cbv beta iota. 
    eapply wp_on_map; [exact Hs|]. exists (Some fl), (lanelet_map_ w).
    split_and!; [done|by destruct w|done|]. intros fl' [= <-]. eauto 10.
Qed.

Lemma startQueryLeg_inv from_gps to_gps w :
  rm_inv (lanelet_map_ w) → leg_ready (ctrl w) (lanelet_map_ w) to_gps →
  wp (startQueryLeg from_gps to_gps) w returns_inv.
Proof.
  intros Hm Hready. unfold startQueryLeg. apply wp_bind.
  eapply wp_mono; [by apply resolve_from_spec|].
  intros o w' t (r & m' & -> & -> & Hm' & Hfl).
  destruct r as [fl|]; cbv beta iota; [|wp_ops; by apply failQuery_inv].
  destruct (Hfl fl eq_refl) as (Hq & Ht & Hs & Hi & Hleg).
  destruct (rm_connected_spec m' to_gps fl Hm' Hs) as (o & m'' & Hf & Hm'' & Hle & Ho).
  apply wp_bind. eapply wp_on_map; [exact Hf|]. cbv beta iota.
  destruct o as [tl|]; cbv beta iota.
  - destruct (Ho tl eq_refl) as (Hts & Hti & Hr).
    wp_ops; (split; [by eexists|split; [exact Hm''|]]).
    all: unfold state_inv, is_query; cbn; rewrite ?Hsame; cbn.
    all: split; [done|]; exists fl, tl; cbn.
    all: split_and!; eauto with agent.
  - destruct (rm_nearest_spec m'' to_gps Hm'') as (o & m3 & Hf3 & Hm3 & _).
    apply wp_bind. eapply wp_on_map; [exact Hf3|]. cbv beta iota. by apply failQuery_inv.
Qed.

(** Leaves an operation whose view is unchanged. *)
Ltac keep_view Hw :=
  eapply returns_view; [exact Hw| |reflexivity];
  unfold view; cbn; repeat match goal with E : state_ _ = _ |- _ => rewrite E end; reflexivity.

Lemma finishTripLeg_inv w :
  inv w → phase (trip_state w) = PQuery → current_leg_ (ctrl w) = QueryLeg.TRIP →
  wp finishTripLeg w returns_inv.
Proof.
  intros [Hm [Hq Hs]] Hph Hl. unfold trip_state in Hph. rewrite Hph in Hs.
  destruct Hs as (fl & tl & Hfl & Htl & Hi & Hj & Hsf & Hst & Hr & Ht & Hleg).
  rewrite Hl in Hleg. destruct Hleg as (Hg & p & Hp & Hid & Hgp).
  unfold finishTripLeg. wp_ops.
  all: split; [by eexists|]; split; [exact Hm|]; unfold state_inv; cbn.
  all: split; [done|]; split; [done|].
  all: eexists fl, tl, p, _; unfold banked; cbn; rewrite <- Hg.
  all: split_and!; eauto.
Qed.

Lemma finishPickupLeg_inv w :
  inv w → phase (trip_state w) = PQuery → current_leg_ (ctrl w) = QueryLeg.PICKUP →
  wp finishPickupLeg w returns_inv.
Proof.
  intros [Hm [Hq Hs]] Hph Hl. unfold trip_state in Hph. rewrite Hph in Hs.
  destruct Hs as (fl & tl & Hfl & Htl & Hi & Hj & Hsf & Hst & Hr & Ht & Hleg).
  unfold is_query in Hq. rewrite Hph in Hq.
  unfold finishPickupLeg. wp_ops; rewrite Htl, stoll_to_string in * by done; simplify_eq.
  cbv beta iota. wp_ops. apply startQueryLeg_inv; [exact Hm|].
  unfold leg_ready. cbn. split_and!; [done..|]. eauto 10.
Qed.

Lemma finishQueryLeg_inv w :
  inv w → phase (trip_state w) = PQuery → wp finishQueryLeg w returns_inv.
Proof.
  intros Hw Hph. unfold finishQueryLeg. apply wp_bind. eapply wp_get_c; [reflexivity|].
  cbv beta iota. destruct (current_leg_ (ctrl w)) eqn:Hl.
  - by apply finishPickupLeg_inv.
  - by apply finishTripLeg_inv.
Qed.

(** Operations that publish or ask for services: of the controller they touch the time of the
    last publication at most. *)
Definition quietly w : outcome unit → World Mp → list Output → Prop := λ o w' out,
  o = Ret () ∧ lanelet_map_ w' = lanelet_map_ w ∧ Forall is_io out ∧
  (reads w ≤ reads w')%nat ∧ ∃ t, ctrl w' = (ctrl w) <| last_publish_time_ := t |>.
Definition quiet (op : Op Mp unit) : Prop := ∀ w, wp op w (quietly w).

Lemma quiet_safe op : quiet op → safe op.
Proof.
  intros Hq w Hw. eapply wp_mono; [apply Hq|]. intros o w' t (-> & Hm & _ & _ & t' & Hc).
  eapply returns_view; [exact Hw| |done]. by rewrite Hc.
Qed.

Lemma quiet_same w out (w' : World Mp) :
  Forall is_io out → lanelet_map_ w' = lanelet_map_ w → ctrl w' = ctrl w →
  (reads w ≤ reads w')%nat → quietly w (Ret ()) w' out.
Proof.
  intros Ho Hm Hc Hr. split_and!; [done..|]. exists (last_publish_time_ (ctrl w)). rewrite Hc.
  by destruct (ctrl w).
Qed.

Ltac io_only :=
  apply quiet_same; [|reflexivity|reflexivity|cbn; lia];
  repeat first [apply publication_io; assumption | apply Forall_app; split
               | constructor; [exact I|] | constructor].

Lemma quiet_publish_start : quiet publish_start.
Proof. intros w. unfold publish_start. wp_ops. io_only. Qed.
Lemma quiet_publish_init : quiet publish_init.
Proof. intros w. unfold publish_init. wp_ops. io_only. Qed.
Lemma quiet_publish_goal : quiet publish_goal.
Proof. intros w. unfold publish_goal. wp_ops. io_only. Qed.
Lemma quiet_doEngage a b : quiet (doEngage a b).
Proof. intros w. unfold doEngage. wp_ops; io_only. Qed.

Lemma quiet_republish period op : quiet op → quiet (republish period op).
Proof.
  intros Hq w. unfold republish, elapsed_ms. wp_ops; [|io_only].
  eapply wp_mono; [apply Hq|]. intros o w' t (-> & Hm & Ho & Hr & t' & Hc). cbv beta iota.
  cbn in Hr. wp_ops. cbn. rewrite app_nil_r. split_and!; [done..|cbn; lia|].
  cbn. rewrite Hc. by eexists.
Qed.

Lemma safe_fail_after limit reason : safe (fail_after limit reason).
Proof.
  intros w Hw. unfold fail_after, elapsed_ms. wp_ops; [|by keep_view Hw].
  eapply wp_mono; [apply failQuery_inv; apply Hw|]. done.
Qed.

(** A transition inside a phase. *)
Lemma safe_transition next w :
  inv w → phase (trip_state w) = phase next → wp (transitionTo next) w returns_inv.
Proof.
  intros Hw Hph. unfold trip_state in Hph. apply wp_transitionTo; intros Hd.
  - by keep_view Hw.
  - eapply returns_view; [exact Hw| |reflexivity]. unfold view. cbn. by rewrite Hph.
Qed.

Lemma safe_tick_initializing w :
  inv w → trip_state w = INITIALIZING_IN_MAP → wp tick_initializing w returns_inv.
Proof.
  intros Hw Hst. unfold trip_state in Hst. unfold tick_initializing. wp_ops.
  - by apply quiet_safe; [apply quiet_republish, quiet_publish_init|].
  - keep_view Hw.
Qed.

Lemma safe_tick_query_localisation w :
  inv w → trip_state w = QUERY_WAITING_LOCALISATION → wp tick_query_localisation w returns_inv.
Proof.
  intros Hw Hst. unfold trip_state in Hst. unfold tick_query_localisation. wp_ops.
  - eapply wp_mono; [by apply (quiet_safe _ (quiet_republish _ _ quiet_publish_start))|].
    intros o w' t [[a ->] Hw']. by apply safe_fail_after.
  - keep_view Hw.
Qed.

Lemma safe_tick_query_goal w :
  inv w → trip_state w = QUERY_PUBLISHING_GOAL → wp tick_query_goal w returns_inv.
Proof.
  intros Hw Hst. unfold trip_state in Hst. unfold tick_query_goal, publish_goal. wp_ops.
  keep_view Hw.
Qed.

Lemma safe_tick_query_route w :
  inv w → trip_state w = QUERY_WAITING_ROUTE → wp tick_query_route w returns_inv.
Proof.
  intros Hw Hst. unfold trip_state in Hst. unfold tick_query_route. wp_ops.
  - eapply wp_mono; [by apply (quiet_safe _ (quiet_republish _ _ quiet_publish_goal))|].
    intros o w' t [[a ->] Hw']. by apply safe_fail_after.
  - keep_view Hw.
Qed.

Lemma safe_tick_query_eta w :
  inv w → trip_state w = QUERY_READING_ETA → wp tick_query_eta w returns_inv.
Proof.
  intros Hw Hst. unfold trip_state in Hst. unfold tick_query_eta, elapsed_ms. wp_ops.
  - apply finishQueryLeg_inv; [done|]. unfold trip_state. by rewrite Hst.
  - apply finishQueryLeg_inv; [by eapply inv_view; [..|exact Hw]|].
    unfold trip_state. cbn. by rewrite Hst.
  - keep_view Hw.
Qed.

Lemma safe_tick_driving_states a b w :
  inv w → phase (trip_state w) = PTrip → wp (tick a b) w returns_inv.
Proof.
  intros Hw Hst. unfold trip_state in Hst. unfold tick. apply wp_bind.
  eapply wp_get_s; [reflexivity|]. cbv beta iota.
  destruct (state_ (status_ (ctrl w))) eqn:E; try done; cbv beta iota.
  all: unfold publish_init, tick_localisation, tick_engaging, tick_driving, tick_running.
  4: by apply quiet_safe; [apply quiet_republish, quiet_doEngage|].
  3: wp_ops; [by apply quiet_safe; [apply quiet_republish, quiet_publish_init|]|].
  all: wp_ops; keep_view Hw.
Qed.

Lemma safe_tick a b : safe (tick a b).
Proof.
  intros w Hw. destruct (phase (trip_state w)) eqn:Hph.
  4: by apply safe_tick_driving_states.
  all: unfold tick; apply wp_bind; (eapply wp_get_s; [reflexivity|]); cbv beta iota.
  all: unfold trip_state in Hph; destruct (state_ (status_ (ctrl w))) eqn:E; try done; cbv beta iota.
  - by apply safe_ret.
  - by apply safe_tick_initializing.
  - unfold publish_start. wp_ops. keep_view Hw.
  - by apply safe_tick_query_localisation.
  - by apply safe_tick_query_goal.
  - by apply safe_tick_query_route.
  - by apply safe_tick_query_eta.
  - by apply safe_ret.
  - by apply safe_ret.
  - by apply safe_ret.
Qed.
(** ** The commands and the callbacks *)

Lemma safe_rejectQuery cb msg : safe (rejectQuery cb msg).
Proof. intros w Hw. unfold rejectQuery. wp_ops; keep_view Hw. Qed.

Lemma safe_queryEta tf s g cb : safe (queryEta tf s g cb).
Proof.
  intros w Hw. unfold queryEta. wp_ops; [by apply safe_rejectQuery|].
  apply dec_stable in n. eapply wp_mono with (P := λ o w' _, (∃ a, o = Ret a) ∧ w' = w).
  { unfold getCurrentVehiclePose. wp_ops; eauto. }
  intros o w' t [[v ->] ->]. destruct v as [pose|]; [|by apply safe_rejectQuery].
  wp_ops. eapply wp_mono; [apply startQueryLeg_inv; [apply Hw|by repeat split]|].
  intros o w' t' [[a ->] Hw']. by apply safe_ret.
Qed.

Lemma safe_startTrip : safe startTrip.
Proof.
  intros w Hw. destruct (Hw) as [Hm [Hq Hs]]. unfold startTrip. wp_ops; try keep_view Hw.
  assert (Hph : phase (state_ (status_ (ctrl w))) = PReady).
  { clear Hq. destruct (state_ (status_ (ctrl w))); cbn in *; try done; exfalso.
    all: try (apply n; split; discriminate). by destruct Hs as (_ & ? & ?); congruence. }
  rewrite Hph in Hs. destruct Hs as (Hcb & pl & gl & p & r & Hb). pose proof Hb as Hb'.
  destruct Hb as (Hp & Hr & Hid & Hi & Hj & Hsp & Hsg & Hset).
  assert (h = p) as -> by congruence. rewrite Hid.
  eapply wp_on_map; [exact Hsp|]. cbv beta iota. wp_ops; unfold trip_state in *; cbn in *.
  { by rewrite Hsame in Hph. }
  split; [by eexists|]. split; [exact Hm|]. unfold state_inv, is_query. cbn.
  rewrite Hq. unfold is_query. rewrite Hph. split; [done|]. split; [done|].
  by exists pl, gl, p, r.
Qed.

Lemma safe_goToPickup : safe goToPickup.
Proof.
  intros w Hw. unfold goToPickup. wp_ops; try keep_view Hw. apply dec_stable in n. keep_view Hw.
Qed.

Lemma safe_move : safe move.
Proof.
  intros w Hw. destruct (Hw) as [Hm [Hq Hs]]. unfold move. wp_ops; try keep_view Hw.
  all: apply dec_stable in n; rewrite n in Hs.
  all: destruct Hs as (Hcb & pl & gl & p & r & Hb & Hst); pose proof Hb as Hb'.
  all: destruct Hb as (Hp & Hr & Hid & Hi & Hj & Hsp & Hsg & Hset); try congruence.
  assert (h = r) as -> by congruence. rewrite Hst, stoll_to_string by done. cbv beta iota.
  wp_ops. eapply wp_on_map; [exact Hset|]. cbv beta iota. unfold publish_goal.
  wp_ops. split; [by eexists|]. split; [exact Hm|]. unfold state_inv, is_query. cbn.
  rewrite Hq, n. split; [done|]. split; [done|]. by exists pl, gl, p, r.
Qed.

Lemma safe_handleMoveCommand : safe handleMoveCommand.
Proof.
  intros w Hw. unfold handleMoveCommand.
  wp_ops; [by apply safe_goToPickup|by apply safe_move|keep_view Hw].
Qed.

Lemma safe_cancel : safe cancel.
Proof.
  intros w [Hm Hs]. unfold cancel. wp_ops.
  all: split; [by eexists|]; split; [exact Hm|]; by repeat split.
Qed.

Lemma safe_onEngaged : safe onEngaged.
Proof. intros w Hw. unfold onEngaged. wp_ops; keep_view Hw. Qed.

Lemma safe_injectEta d t : safe (injectEta d t).
Proof. intros w Hw. unfold injectEta. wp_ops; keep_view Hw. Qed.

(** Every input is handled: the handler returns, and the invariant still holds. *)
Lemma safe_handle i : safe (handle i).
Proof.
  destruct i; cbn [handle].
  7: apply safe_queryEta. 7: apply safe_startTrip. 7: apply safe_goToPickup.
  7: apply safe_handleMoveCommand. 7: apply safe_move.
  all: apply safe_bind; [|intros _; apply safe_ret].
  2: apply safe_injectEta. 5: apply safe_onEngaged. 5: apply safe_cancel. 6: apply safe_tick.
  all: intros w Hw; unfold on_loc_state, on_route_state, on_mode_state, onRouteReceived,
    setCurrentGps; wp_ops; keep_view Hw.
Qed.

Lemma inv_step i w : inv w → inv (step i w).
Proof. intros Hw. by apply (safe_handle i w). Qed.

Lemma handle_returns i w : inv w → ∃ b, result (handle i) w = Ret b.
Proof. intros Hw. by apply (safe_handle i w). Qed.

Lemma inv_run l w : inv w → inv (run l w).
Proof. intros Hw. apply (run_inputs_inv step inv); [|done]. intros. by apply inv_step. Qed.

(** Boot establishes it, on a map without resolved lanes or with. *)
Lemma inv_boot_op timings m k :
  rm_inv m → wp boot_op (mkWorld (TripController_init timings) m k) returns_inv.
Proof.
  intros Hm. unfold boot_op, setStateChangeCallback, setArrivalCallbacks, initializeInMap,
    publish_init.
  wp_ops; (split; [by eexists|]); (split; [exact Hm|]); by repeat split.
Qed.

Lemma inv_boot timings m : rm_inv m → inv (boot timings m).
Proof. intros Hm. by destruct (inv_boot_op timings m 0 Hm). Qed.

Lemma boot_no_query timings m : query_cb_ (ctrl (boot timings m)) = None.
Proof.
  unfold boot. set (w0 := mkWorld _ _ _).
  change (wp boot_op w0 (λ _ w' _, query_cb_ (ctrl w') = None)). subst w0.
  unfold boot_op, setStateChangeCallback, setArrivalCallbacks, initializeInMap, publish_init.
  by wp_ops.
Qed.

(** The states of the running program. *)
Definition reachable (w : World Mp) : Prop :=
  ∃ timings m l, rm_inv m ∧ w = run l (boot timings m).

Lemma reachable_inv w : reachable w → inv w.
Proof. intros (timings & m & l & Hm & ->). by apply inv_run, inv_boot. Qed.

Lemma reachable_boot timings m l : rm_inv m → reachable (run l (boot timings m)).
Proof. intros Hm. by exists timings, m, l. Qed.

Lemma reachable_run l w : reachable w → reachable (run l w).
Proof.
  intros (timings & m & l' & Hm & ->). exists timings, m, (l' ++ l). split; [done|].
  symmetry. apply run_inputs_app.
Qed.
End Invariant.

#[export] Hint Resolve quiet_publish_start quiet_publish_init quiet_publish_goal quiet_doEngage
  quiet_republish : agent.
