(* ===== verification/Providers.v ===== *)
(** * Providers: what the stream client asks the rest of the agent

    [src/gateway_bridge/include/Providers.h], [AutowareControllerProvider.h] and
    [ClusterBridgeProvider.h].  The abstract classes [ITripManager], [IEtaProvider] and
    [ILocationProvider] are type classes over the object that implements them; the adapters of the
    two bridge files are their instances. *)

From S2P Require Export TripTypes.

Record EtaData := mkEtaData { eta_request_id : Z; time_seconds : double; fare : double }.
Record LocationData := mkLocationData { loc_longitude : double; latitud : double }.
Record TripInitData := mkTripInitData {
  init_request_id : Z; start_long : double; init_start_lat : double; end_long : double;
  end_lat : double }.
Record TripMoveData := mkTripMoveData {
  move_trip_id : Z; move_longitude : double; move_latitude : double }.
Record ArriveData := mkArriveData {
  arrive_trip_id : Z; arrive_longitude : double; arrive_latitude : double }.

Class IEtaProvider (P : Type) : Type := GetEta : P → EtaData.
Class ILocationProvider (P : Type) : Type := GetCurrentLocation : P → LocationData.
Class ITripManager (P : Type) : Type := {
  GetTripInitData : P → TripInitData;
  GetTripMoveData : P → TripMoveData;
  GetArriveData : P → ArriveData;
  GetCurrentStatus : P → string;
  GetActiveTripId : P → Z;
  SetActiveTripId : Z → P → P
}.

(** ** AutowareControllerTripAdapter

    The adapter reads the controller's status when it is asked; [status_of] is that status. *)
Record AutowareControllerTripAdapter := mkTripAdapter {
  status_of : TripStatus;        (* controller_->getTripStatusSync() *)
  active_trip_id_ : Z
}.
#[export] Instance TripAdapter_eta : Eta AutowareControllerTripAdapter := λ a,
  mkTripAdapter (status_of a) (active_trip_id_ a).

Definition current_status (s : TripState.t) : string :=
  match s with
  | TripState.IDLE => "idle"
  | TripState.QUERY_PUBLISHING_INITIAL_POSE | TripState.QUERY_WAITING_LOCALISATION
  | TripState.QUERY_PUBLISHING_GOAL | TripState.QUERY_WAITING_ROUTE
  | TripState.QUERY_READING_ETA => "planning"
  | TripState.ROUTES_READY => "routes_ready"
  | TripState.PUBLISHING_INITIAL_POSE | TripState.WAITING_LOCALISATION => "preparing"
  | TripState.ENGAGING => "accepted"
  | TripState.DRIVING_TO_PICKUP => "driving_to_pickup"
  | TripState.WAITING_FOR_MOVE => "waiting_for_move"
  | TripState.RUNNING => "in_progress"
  | TripState.COMPLETED => "completed"
  | TripState.CANCELLED => "cancelled"
  | TripState.FAILED => "error"
  | TripState.INITIALIZING_IN_MAP | TripState.WAITING_FOR_PICKUP_START => "unknown"
  end.

#[export] Instance TripAdapter_manager : ITripManager AutowareControllerTripAdapter := {|
  GetTripInitData a :=
    mkTripInitData (active_trip_id_ a) (longitude (start_gps_ (status_of a)))
      (latitude (start_gps_ (status_of a))) (longitude (goal_gps_ (status_of a)))
      (latitude (goal_gps_ (status_of a)));
  GetTripMoveData a :=
    mkTripMoveData (active_trip_id_ a) (longitude (current_gps_ (status_of a)))
      (latitude (current_gps_ (status_of a)));
  GetArriveData a :=
    mkArriveData (active_trip_id_ a) (longitude (current_gps_ (status_of a)))
      (latitude (current_gps_ (status_of a)));
  GetCurrentStatus a := current_status (state_ (status_of a));
  GetActiveTripId := active_trip_id_;
  SetActiveTripId id a := a <| active_trip_id_ := id |>
|}.

(** ** ClusterEtaAdapter and ClusterLocationAdapter

    They read the cluster bridge's frame state and its request id under its mutex. *)
Record ClusterView := mkClusterView {
  remaining_time_s : float32;
  frame_longitude : double;
  frame_latitude : double;
  request_id_ : Z
}.
#[export] Instance ClusterView_eta : Eta ClusterView := λ v,
  mkClusterView (remaining_time_s v) (frame_longitude v) (frame_latitude v) (request_id_ v).

#[export] Instance ClusterEtaAdapter : IEtaProvider ClusterView := λ v,
  {| eta_request_id := request_id_ v; time_seconds := f_to_d (remaining_time_s v); fare := d0 |}.
#[export] Instance ClusterLocationAdapter : ILocationProvider ClusterView := λ v,
  {| loc_longitude := frame_longitude v; latitud := frame_latitude v |}.
