(* ===== verification/StreamClient.v ===== *)
(** * StreamClient: the gateway's bidirectional stream

    [src/gateway_bridge/include/VehicleGatewayStreamClient.h].  Any thread enqueues events; per
    connection a writer thread sends them, a reader dispatches the gateway's commands and a
    watchdog gives up a silent gateway.  Each thread is a program counter and a step; the
    interleavings are sequences of [StreamAction].  What gRPC answers ([Write], [Read]) and the
    clock are arguments of the steps. *)

From S2P Require Export Providers.

Module Stream.

(** ** Pointers

    The client is given raw pointers to its providers: [None] is a pointer whose object has been
    destroyed, and to follow it is undefined.  The trip manager outlives the client in this
    program (the location bridge owns it too), so it is held as a value. *)
Definition deref {A} (p : option A) : outcome A :=
  match p with Some a => Ret a | None => Throw UndefinedBehaviour end.

(** ** Messages of the protocol, with the members the client reads or writes *)
Inductive VehicleEvent : Type :=
  | TripInitAck (success : bool) (message : string)
  | TripCancelAck (success : bool) (message : string)
  | OrderUpdateLocationAck (success : bool) (message : string)
  | LocationEvent (vin : string) (latitude longitude : double)
  | EtaEvent (vin : string) (request_id : Z) (time fare : double) (status : string)
  | StatusEvent (vin : string) (trip_id : Z) (status : string)
  | ArriveEvent (vin : string) (trip_id : Z) (lat long_ : double).

Record TripInitRequest := mkTripInitRequest {
  init_vin : string; init_id : Z; req_start_long : double; req_start_lat : double;
  req_end_long : double; req_end_lat : double }.

(** The oneof of GatewayCommand; [NoCommand] when none is set. *)
Inductive GatewayCommand : Type :=
  | TripInit (r : TripInitRequest)
  | TripMove (vin : string) (trip_id : Z)
  | TripPark (vin : string)
  | OrderUpdateLocation (vin : string)
  | OrderUpdateStatus (vin : string)
  | TripCancel (vin : string) (request_id : Z)
  | NoCommand.

(** ** Threads of a connection *)
Inductive Writer : Type := Waiting | Writing (ev : VehicleEvent) | WriterDone.
Inductive Watchdog : Type := Checking (deadline : Z) | Sleeping (deadline : Z) | WatchdogDone.

Record Connection := mkConnection {
  stream_dead : bool;
  read_received : bool;
  writer : Writer;
  watchdog : Watchdog;
  reading : bool                       (* the reader has not seen the end of the stream *)
}.
#[export] Instance Connection_eta : Eta Connection := λ c,
  mkConnection (stream_dead c) (read_received c) (writer c) (watchdog c) (reading c).

(** reconnect_thread_ between two connections: at the head of its loop, asleep until a time, or
    ended. *)
Inductive Reconnect : Type := AtLoop | Pausing (until : Z) | ThreadEnded.
#[export] Instance Reconnect_eq_dec : EqDecision Reconnect.
Proof. solve_decision. Defined.

(** What the client does to the outside. *)
Inductive Effect : Type :=
  | Connect                          (* VehicleCommandStream(&ctx) *)
  | Sent (ev : VehicleEvent)         (* Write returned true *)
  | WriteFailed (ev : VehicleEvent)  (* Write returned false *)
  | WritesDone
  | TryCancel
  | Finish
  | Handler (cmd : GatewayCommand).  (* handlers_.on_...(cmd) *)

Section Definitions.
Context {T E L : Type} `{ITripManager T} `{IEtaProvider E} `{ILocationProvider L}.

Record StreamClient := mkStreamClient {
  trip_manager_ : T;
  eta_provider_ : option E;
  location_provider_ : option L;
  vin_ : string;
  handlers_ : bool;                    (* set_handlers has been called *)
  current_request_id_ : Z;
  shutdown_ : bool;
  write_queue_ : list VehicleEvent;
  connection : option Connection;
  reconnect : Reconnect                (* of no account during a connection *)
}.
#[export] Instance StreamClient_eta : Eta StreamClient := λ c,
  mkStreamClient (trip_manager_ c) (eta_provider_ c) (location_provider_ c) (vin_ c) (handlers_ c)
    (current_request_id_ c) (shutdown_ c) (write_queue_ c) (connection c) (reconnect c).

Definition Op (A : Type) : Type := M StreamClient Effect A.

(** ** Reports *)

Definition enqueue (ev : VehicleEvent) : Op unit :=
  modify (λ c, c <| write_queue_ ::= λ q, q ++ [ev] |>).

Definition ReportTripInitAck : Op unit := enqueue (TripInitAck true "accepted").
Definition ReportTripCancelAck (success : bool) (message : string) : Op unit :=
  enqueue (TripCancelAck success message).
Definition ReportOrderUpdateLocationAck (success : bool) (message : string) : Op unit :=
  enqueue (OrderUpdateLocationAck success message).
Definition ReportLocation (latitude longitude : double) : Op unit :=
  vin ← gets vin_; enqueue (LocationEvent vin latitude longitude).
Definition eta_data : Op EtaData :=
  p ← gets eta_provider_; e ← lift (deref p); mret (GetEta e).
Definition location_data : Op LocationData :=
  p ← gets location_provider_; l ← lift (deref p); mret (GetCurrentLocation l).
Definition ReportEta_provider : Op unit :=
  vin ← gets vin_;
  d ← eta_data;
  enqueue (EtaEvent vin (eta_request_id d) (time_seconds d) (fare d) "COMPLETED").
Definition ReportEta (distance_m time_seconds fare : double) : Op unit :=
  vin ← gets vin_;
  d ← eta_data;
  enqueue (EtaEvent vin (eta_request_id d) time_seconds fare "COMPLETED").
Definition ReportStatus (status : string) : Op unit :=
  vin ← gets vin_;
  id ← gets (λ c, GetActiveTripId (trip_manager_ c));
  enqueue (StatusEvent vin id status).
Definition ReportArrive : Op unit :=
  vin ← gets vin_;
  d ← gets (λ c, GetArriveData (trip_manager_ c));
  enqueue (ArriveEvent vin (arrive_trip_id d) (arrive_latitude d) (arrive_longitude d)).
Definition ReportLocation_provider : Op unit :=
  vin ← gets vin_;
  d ← location_data;
  enqueue (LocationEvent vin (latitud d) (loc_longitude d)).

(** ** The connection *)

Definition on_connection (f : Connection → Connection) : Op unit :=
  modify (λ c, c <| connection ::= fmap f |>).

(** run_stream up to the start of its threads.  The watchdog's deadline is eight seconds ahead. *)
Definition open_stream (now : Z) : Op unit :=
  modify (λ c, c <| connection :=
    Some (mkConnection false false Waiting (Checking (now + 8000000000)) true) |>);;
  emit Connect.

(** A turn of run_with_reconnect outside a connection: it sleeps on, or is at the head of its loop. *)
Definition run_with_reconnect (now : Z) : Op unit :=
  c ← gets id;
  match connection c with
  | Some _ => mret ()
  | None =>
    let head := if shutdown_ c then modify (λ c, c <| reconnect := ThreadEnded |>)
                else open_stream now in
    match reconnect c with
    | ThreadEnded => mret ()
    | Pausing until => if now <? until then mret () else head
    | AtLoop => head
    end
  end.

(** The writer leaves its loop. *)
Definition writer_ends : Op unit :=
  on_connection (λ k, k <| writer := WriterDone |>);; emit WritesDone.

(** One turn of the writer: at the loop head, the event it takes is gone from the queue; [ok] is
    what [Write] returns for the event it holds. *)
Definition writer_step (ok : bool) : Op unit :=
  c ← gets id;
  match connection c with
  | None => mret ()
  | Some k =>
    match writer k with
    | WriterDone => mret ()
    | Waiting =>
      if shutdown_ c || stream_dead k then writer_ends else
      match write_queue_ c with
      | [] => mret ()
      | ev :: q =>
        modify (λ c, c <| write_queue_ := q |>);;
        on_connection (λ k, k <| writer := Writing ev |>)
      end
    | Writing ev =>
      if ok then emit (Sent ev);; on_connection (λ k, k <| writer := Waiting |>)
      else
        emit (WriteFailed ev);;
        on_connection (λ k, k <| stream_dead := true |>);;
        emit TryCancel;;
        writer_ends
    end
  end.

(** One turn of the watchdog: the loop condition, the sleep of 200 ms, the test after it. *)
Definition watchdog_step (now : Z) : Op unit :=
  c ← gets id;
  match connection c with
  | None => mret ()
  | Some k =>
    match watchdog k with
    | WatchdogDone => mret ()
    | Sleeping deadline =>
      on_connection (λ k, k <| watchdog := if read_received k then WatchdogDone
                                           else Checking deadline |>)
    | Checking deadline =>
      if negb (shutdown_ c) && (now <? deadline) then
        on_connection (λ k, k <| watchdog := Sleeping deadline |>)
      else
        on_connection (λ k, k <| watchdog := WatchdogDone |>);;
        when (negb (read_received k))
          (on_connection (λ k, k <| stream_dead := true |>);; emit TryCancel)
    end
  end.

(** The VIN a command names; empty for one the client does not know. *)
Definition command_vin (cmd : GatewayCommand) : string :=
  match cmd with
  | TripInit r => init_vin r
  | TripMove vin _ | TripCancel vin _ | TripPark vin | OrderUpdateLocation vin
  | OrderUpdateStatus vin => vin
  | NoCommand => ""
  end.

Definition call_handler (cmd : GatewayCommand) : Op unit :=
  h ← gets handlers_; when h (emit (Handler cmd)).

Definition dispatch (cmd : GatewayCommand) : Op unit :=
  match cmd with
  | TripInit r =>
    modify (λ c, c <| trip_manager_ ::= SetActiveTripId (init_id r) |>);;
    modify (λ c, c <| current_request_id_ := init_id r |>);;
    call_handler cmd
  | TripMove _ trip_id =>
    modify (λ c, c <| trip_manager_ ::= SetActiveTripId trip_id |>);;
    call_handler cmd
  | OrderUpdateLocation _ => call_handler cmd
  | TripCancel _ _ => call_handler cmd
  | TripPark _ | OrderUpdateStatus _ | NoCommand => mret ()
  end.

(** The body of the read loop. *)
Definition read_command (cmd : GatewayCommand) : Op unit :=
  on_connection (λ k, k <| read_received := true |>);;
  vin ← gets vin_;
  if decide (command_vin cmd ≠ vin) then mret () else dispatch cmd.

(** [Read] returns, with a command or false, while the reader is in its loop. *)
Definition reader_step (read : option GatewayCommand) : Op unit :=
  c ← gets id;
  match connection c with
  | None => mret ()
  | Some k =>
    if negb (reading k) then mret () else
    match read with
    | Some cmd => read_command cmd
    | None => on_connection (λ k, k <| stream_dead := true |> <| reading := false |>)
    end
  end.

(** The end of run_stream: both threads joined, then Finish; run_with_reconnect then sleeps for two
    seconds unless shut down. *)
Definition finish_stream (now : Z) : Op unit :=
  c ← gets id;
  match connection c with
  | Some k =>
    match reading k, writer k, watchdog k with
    | false, WriterDone, WatchdogDone =>
      emit Finish;;
      modify (λ c, c <| connection := None |>
                     <| reconnect := if shutdown_ c then AtLoop else Pausing (now + 2000000000) |>)
    | _, _, _ => mret ()
    end
  | None => mret ()
  end.

Definition set_handlers : Op unit := modify (λ c, c <| handlers_ := true |>).
(** shutdown, up to its join, which waits for [thread_ended]. *)
Definition shutdown : Op unit := modify (λ c, c <| shutdown_ := true |>).
Definition thread_ended (c : StreamClient) : bool :=
  match connection c, reconnect c with None, ThreadEnded => true | _, _ => false end.

(** ** Interleavings *)
Inductive Report : Type :=
  | RTripInitAck
  | RTripCancelAck (success : bool) (message : string)
  | ROrderUpdateLocationAck (success : bool) (message : string)
  | RLocation (latitude longitude : double)
  | REtaProvider
  | REta (distance_m time_seconds fare : double)
  | RStatus (status : string)
  | RArrive
  | RLocationProvider.

Definition report (r : Report) : Op unit :=
  match r with
  | RTripInitAck => ReportTripInitAck
  | RTripCancelAck b m => ReportTripCancelAck b m
  | ROrderUpdateLocationAck b m => ReportOrderUpdateLocationAck b m
  | RLocation lat lon => ReportLocation lat lon
  | REtaProvider => ReportEta_provider
  | REta d t f => ReportEta d t f
  | RStatus s => ReportStatus s
  | RArrive => ReportArrive
  | RLocationProvider => ReportLocation_provider
  end.

Inductive StreamAction : Type :=
  | DoReport (r : Report)
  | Open (now : Z)
  | WriterStep (ok : bool)
  | WatchdogStep (now : Z)
  | ReaderStep (read : option GatewayCommand)
  | FinishStream (now : Z)
  | SetHandlers
  | Shutdown.

Definition act (a : StreamAction) : Op unit :=
  match a with
  | DoReport r => report r
  | Open now => run_with_reconnect now
  | WriterStep ok => writer_step ok
  | WatchdogStep now => watchdog_step now
  | ReaderStep read => reader_step read
  | FinishStream now => finish_stream now
  | SetHandlers => set_handlers
  | Shutdown => shutdown
  end.

Definition after (l : list StreamAction) (c : StreamClient) : StreamClient :=
  run_inputs (λ a, final (act a)) l c.
Fixpoint trace (l : list StreamAction) (c : StreamClient) : list Effect :=
  match l with
  | [] => []
  | a :: l' => outputs (act a) c ++ trace l' (final (act a) c)
  end.

(** The client as constructed; its thread has not connected yet. *)
Definition StreamClient_new (trip_manager : T) (eta_provider : E) (location_provider : L)
    (vin : string) (request_id : Z) : StreamClient :=
  mkStreamClient trip_manager (Some eta_provider) (Some location_provider) vin false request_id
    false [] None AtLoop.
End Definitions.
Arguments StreamClient : clear implicits.
Arguments Op : clear implicits.
End Stream.
