(* ===== verification/AutowareController.v ===== *)
(** * AutowareController: the node and its strand

    [src/gateway_bridge/{include/AutowareController.h,src/AutowareController.cc}].  The public
    methods, the tick timer and the subscriptions of the trip controller post handlers to one
    strand; the I/O thread, started by [initialize], runs them one at a time in the order they
    were posted.  The node's state holds the handlers posted and not yet run; [run_next] runs the
    first.  What a handler is told by the transform tree and the services while it runs is the
    argument [Surroundings]. *)

From S2P Require Export MapProjector LaneletMap TripInvariant.

Module Controller.

Inductive ArrivalKind : Type := PICKUP | DROPOFF.

(** The subscriptions of the trip controller, and the response that posts [onEngaged]. *)
Inductive Message : Type :=
  | MLocState (state : Z)
  | MEta (distance_m time_s : double)
  | MRouteState (state : Z)
  | MModeState (autonomous_available : bool)
  | MRoute (msg : LaneletRoute)
  | MEngaged.

(** What is posted to the strand.  A std::function is the identity of the closure, or none. *)
Inductive Job : Type :=
  | JInitialize
  | JStartTrip (callback : option nat)
  | JMove (callback : option nat)
  | JGoToPickup (callback : option nat)
  | JHandleMove (callback : option nat)
  | JCancel
  | JStatus (callback : option nat)
  | JTick
  | JQueryEta (start_gps goal_gps : GPSCoordinate) (callback : option nat)
  | JMessage (msg : Message).

(** What the node makes observable. *)
Inductive Event : Type :=
  | Ros (o : Output)                               (* publications and service requests *)
  | Answer (cb : nat) (ok : bool)                  (* callback(ok) *)
  | StatusAnswer (cb : nat) (s : TripStatus)       (* callback(status) *)
  | EtaAnswer (cb : nat) (r : EtaQueryResult)      (* cb(result) *)
  | TripStateChanged (prev next : TripState.t) (s : TripStatus)   (* trip_state_callback_ *)
  | Arrived (k : ArrivalKind)                      (* arrival_callback_ *)
  | Log (line : string).                           (* spdlog lines of onTripStateChanged *)

Record Surroundings := mkSurroundings {
  tf : option LocalCoordinate;      (* lookupTransform(map, base_link) *)
  mode_ready : bool;
  engage_ready : bool
}.

Section Definitions.
Context {Mp : Type} `{RouteMap Mp} `{Clocks} `{AutowareMsgs}.

Record Node := mkNode {
  lanelet_map_ : Mp;
  trip_ctrl_ : option TripController;
  tick_timer_ : option Z;                   (* period in ms *)
  tick_hz_ : double;
  strand_ : list Job;                       (* posted, not yet run *)
  io_thread_ : bool;                        (* the I/O thread runs *)
  trip_state_callback_ : bool;
  arrival_callback_ : bool;
  clock_reads : nat
}.

#[export] Instance Node_eta : Eta Node := λ n,
  mkNode (lanelet_map_ n) (trip_ctrl_ n) (tick_timer_ n) (tick_hz_ n) (strand_ n) (io_thread_ n)
    (trip_state_callback_ n) (arrival_callback_ n) (clock_reads n).

Definition NodeOp (A : Type) : Type := M Node Event A.

(** ** State names and the state-change callback *)

Definition name (s : TripState.t) : string :=
  match s with
  | TripState.IDLE => "IDLE"
  | TripState.INITIALIZING_IN_MAP => "INITIALIZING_IN_MAP"
  | TripState.QUERY_PUBLISHING_INITIAL_POSE => "QUERY_PUBLISHING_INITIAL_POSE"
  | TripState.QUERY_WAITING_LOCALISATION => "QUERY_WAITING_LOCALISATION"
  | TripState.QUERY_PUBLISHING_GOAL => "QUERY_PUBLISHING_GOAL"
  | TripState.QUERY_WAITING_ROUTE => "QUERY_WAITING_ROUTE"
  | TripState.QUERY_READING_ETA => "QUERY_READING_ETA"
  | TripState.ROUTES_READY => "ROUTES_READY"
  | TripState.WAITING_FOR_PICKUP_START => "WAITING_FOR_PICKUP_START"
  | TripState.PUBLISHING_INITIAL_POSE => "PUBLISHING_INITIAL_POSE"
  | TripState.WAITING_LOCALISATION => "WAITING_LOCALISATION"
  | TripState.ENGAGING => "ENGAGING"
  | TripState.DRIVING_TO_PICKUP => "DRIVING_TO_PICKUP"
  | TripState.WAITING_FOR_MOVE => "WAITING_FOR_MOVE"
  | TripState.RUNNING => "RUNNING"
  | TripState.COMPLETED => "COMPLETED"
  | TripState.CANCELLED => "CANCELLED"
  | TripState.FAILED => "FAILED"
  end.

(** The status is the trip controller's at the moment of the change. *)
Definition onTripStateChanged (registered : bool) (prev next : TripState.t) (st : TripStatus) :
    list Event :=
  [Log (name prev +:+ " -> " +:+ name next)] ++
  (if registered then [TripStateChanged prev next st] else []) ++
  (if decide (next = TripState.FAILED) then [Log "Trip FAILED"] else []) ++
  (if decide (next = TripState.RUNNING ∨ next = TripState.DRIVING_TO_PICKUP)
   then [Log ("Trip live: lane " +:+ start_lanelet_id_ st +:+ " → lane " +:+ goal_lanelet_id_ st)]
   else []) ++
  (if decide (next = TripState.ROUTES_READY)
   then [Log ("Routes ready: pickup=" +:+ start_lanelet_id_ st +:+ " goal=" +:+
              goal_lanelet_id_ st)]
   else []).

(** The callbacks [initialize] registers with the trip controller; the rest goes to ROS. *)
Definition react (n : Node) (o : Output) : list Event :=
  match o with
  | StateChange prev next st => onTripStateChanged (trip_state_callback_ n) prev next st
  | PickupArrived => if arrival_callback_ n then [Arrived PICKUP] else []
  | DropoffArrived => if arrival_callback_ n then [Arrived DROPOFF] else []
  | QueryReply cb r => [EtaAnswer cb r]
  | o => [Ros o]
  end.

(** ** The node and the trip controller it owns *)

(** The trip controller's view of the node. *)
Definition world (n : Node) (c : TripController) : World Mp :=
  mkWorld c (lanelet_map_ n) (clock_reads n).
Definition put_world (w : World Mp) (n : Node) : Node :=
  n <| trip_ctrl_ := Some (ctrl w) |> <| lanelet_map_ := TripController.lanelet_map_ w |>
    <| clock_reads := reads w |>.

(** trip_ctrl_->op(); dereferencing the null pointer is undefined. *)
Definition on_trip {A} (op : Op Mp A) : NodeOp A := λ n,
  match trip_ctrl_ n with
  | None => (Throw UndefinedBehaviour, n, [])
  | Some c => let '(o, w, out) := op (world n c) in (o, put_world w n, out ≫= react n)
  end.

(** if (callback) callback(v) *)
Definition reply {A} (answer : nat → A → Event) (callback : option nat) (v : A) : NodeOp unit :=
  match callback with Some k => emit (answer k v) | None => mret () end.

(** The body of the command handlers: refuse before [initialize], else run and answer. *)
Definition commandImpl (op : Op Mp bool) (callback : option nat) : NodeOp unit :=
  c ← gets trip_ctrl_;
  match c with
  | None => reply Answer callback false
  | Some _ => ok ← on_trip op; reply Answer callback ok
  end.

Definition startTripImpl : option nat → NodeOp unit := commandImpl startTrip.
Definition handleMoveCommandImpl : option nat → NodeOp unit := commandImpl handleMoveCommand.
Definition goToPickupImpl : option nat → NodeOp unit := commandImpl goToPickup.
Definition moveImpl : option nat → NodeOp unit := commandImpl move.

Definition cancelTripImpl : NodeOp unit :=
  c ← gets trip_ctrl_;
  match c with None => mret () | Some _ => on_trip cancel end.

Definition getTripStatusSync (n : Node) : TripStatus :=
  match trip_ctrl_ n with Some c => status_ c | None => TripStatus_default end.

Definition getTripStatusImpl (callback : option nat) : NodeOp unit :=
  c ← gets trip_ctrl_;
  match c with
  | None => reply StatusAnswer callback TripStatus_default
  | Some c => reply StatusAnswer callback (status_ c)
  end.

Definition onTickTimer (env : Surroundings) : NodeOp unit :=
  c ← gets trip_ctrl_;
  match c with
  | None => mret ()
  | Some _ =>
    pose ← on_trip (getCurrentVehiclePose (tf env));
    match pose with
    | Some g => on_trip (setCurrentGps g)
    | None => mret ()
    end;;
    on_trip (tick (mode_ready env) (engage_ready env))
  end.

Definition queryEtaImpl (env : Surroundings) (start_gps goal_gps : GPSCoordinate)
    (callback : option nat) : NodeOp unit :=
  c ← gets trip_ctrl_;
  match c with
  | None => reply EtaAnswer callback (EtaQueryResult_default <| error_message_ := "not initialized" |>)
  | Some _ => on_trip (queryEta (tf env) start_gps goal_gps callback);; mret ()
  end.

(** The handler [initialize] posts. *)
Definition initializeImpl : NodeOp unit :=
  modify (λ n, n <| trip_ctrl_ := Some (TripController_init TripTimings_default) |>);;
  on_trip (setStateChangeCallback true);;
  on_trip (setArrivalCallbacks true true);;
  on_trip initializeInMap.

Definition message_input (m : Message) : Input :=
  match m with
  | MLocState v => LocStateMsg v
  | MEta d t => EtaMsg d t
  | MRouteState v => RouteStateMsg v
  | MModeState b => ModeStateMsg b
  | MRoute r => RouteMsg r
  | MEngaged => Engaged
  end.

Definition run_job (env : Surroundings) (j : Job) : NodeOp unit :=
  match j with
  | JInitialize => initializeImpl
  | JStartTrip cb => startTripImpl cb
  | JMove cb => moveImpl cb
  | JGoToPickup cb => goToPickupImpl cb
  | JHandleMove cb => handleMoveCommandImpl cb
  | JCancel => cancelTripImpl
  | JStatus cb => getTripStatusImpl cb
  | JTick => onTickTimer env
  | JQueryEta s g cb => queryEtaImpl env s g cb
  | JMessage m => on_trip (handle (message_input m));; mret ()
  end.

(** ** The public methods: post and return *)

Definition post (j : Job) : NodeOp unit := modify (λ n, n <| strand_ ::= λ q, q ++ [j] |>).

Definition initialize : NodeOp unit :=
  post JInitialize;;
  hz ← gets tick_hz_;
  period_ms ← lift (d_to_int (ddiv (d_of_Z 1000) hz));
  modify (λ n, n <| tick_timer_ := Some period_ms |>);;
  modify (λ n, n <| io_thread_ := true |>).

Definition startTrip (callback : option nat) : NodeOp unit := post (JStartTrip callback).
Definition move (callback : option nat) : NodeOp unit := post (JMove callback).
Definition goToPickup (callback : option nat) : NodeOp unit := post (JGoToPickup callback).
Definition handleMoveCommand (callback : option nat) : NodeOp unit := post (JHandleMove callback).
Definition cancelTrip : NodeOp unit := post JCancel.
Definition getTripStatus (callback : option nat) : NodeOp unit := post (JStatus callback).
Definition queryEta (start_gps goal_gps : GPSCoordinate) (callback : option nat) : NodeOp unit :=
  post (JQueryEta start_gps goal_gps callback).

Definition setTripStateCallback (set : bool) : NodeOp unit :=
  modify (λ n, n <| trip_state_callback_ := set |>).
Definition setArrivalCallback (set : bool) : NodeOp unit :=
  modify (λ n, n <| arrival_callback_ := set |>).

(** The timer fires once it is created; the subscriptions exist once the trip controller does. *)
Definition timer_fires : NodeOp unit :=
  t ← gets tick_timer_;
  match t with None => mret () | Some _ => post JTick end.
Definition message_arrives (m : Message) : NodeOp unit :=
  c ← gets trip_ctrl_;
  match c with None => mret () | Some _ => post (JMessage m) end.

(** The I/O thread runs the handler posted first. *)
Definition run_next (env : Surroundings) : NodeOp unit :=
  n ← gets id;
  match strand_ n with
  | j :: q =>
    if io_thread_ n then modify (λ n, n <| strand_ := q |>);; run_job env j else mret ()
  | [] => mret ()
  end.

(** ** The schedule

    Whatever can happen to the node: a public method is called, the timer fires, a subscribed
    message or the engage response arrives, the I/O thread takes a handler. *)
Inductive Action : Type :=
  | CallInitialize
  | CallStartTrip (callback : option nat)
  | CallMove (callback : option nat)
  | CallGoToPickup (callback : option nat)
  | CallHandleMoveCommand (callback : option nat)
  | CallCancelTrip
  | CallGetTripStatus (callback : option nat)
  | CallQueryEta (start_gps goal_gps : GPSCoordinate) (callback : option nat)
  | CallSetTripStateCallback (set : bool)
  | CallSetArrivalCallback (set : bool)
  | TimerFires
  | MessageArrives (m : Message)
  | RunNext (env : Surroundings).

Definition act (a : Action) : NodeOp unit :=
  match a with
  | CallInitialize => initialize
  | CallStartTrip cb => startTrip cb
  | CallMove cb => move cb
  | CallGoToPickup cb => goToPickup cb
  | CallHandleMoveCommand cb => handleMoveCommand cb
  | CallCancelTrip => cancelTrip
  | CallGetTripStatus cb => getTripStatus cb
  | CallQueryEta s g cb => queryEta s g cb
  | CallSetTripStateCallback b => setTripStateCallback b
  | CallSetArrivalCallback b => setArrivalCallback b
  | TimerFires => timer_fires
  | MessageArrives m => message_arrives m
  | RunNext env => run_next env
  end.

Definition after (l : list Action) (n : Node) : Node := run_inputs (λ a, final (act a)) l n.
Fixpoint trace (l : list Action) (n : Node) : list Event :=
  match l with
  | [] => []
  | a :: l' => outputs (act a) n ++ trace l' (final (act a) n)
  end.

(** The destructor lets the work guard go, stops the io_context and joins its thread: handlers not
    yet run never are. *)
Definition destroy : NodeOp unit := modify (λ n, n <| io_thread_ := false |>).

(** A node as constructed around a map. *)
Definition Node_new (m : Mp) (tick_hz : double) : Node :=
  mkNode m None None tick_hz [] false false false 0.
End Definitions.
Arguments Node : clear implicits.
Arguments NodeOp : clear implicits.

(** ** Construction *)
Section Construction.
Context `{Lanelet2} `{YamlCpp}.

(** The directory and the .osm file a map path stands for. *)
Definition map_paths (map_path : string) : string * string :=
  let len := String.length map_path in
  if bool_decide (4 ≤ len)%nat && bool_decide (substr (len - 4) 4 map_path = ".osm") then
    (match find_last_of "/" map_path with
     | Some last_slash => substr 0 last_slash map_path
     | None => "."
     end, map_path)
  else (map_path, map_path +:+ "/lanelet2_map.osm").

Definition AutowareController_new (exists_ : string → bool) (dirs : list string)
    (map_path : string) (tick_hz : double) : outcome (Node LaneletMap) :=
  let '(dir_path, osm_path) := map_paths map_path in
  proj_info ← MapProjectorInfo_load dir_path;
  m ← LaneletMap_new exists_ dirs osm_path (origin_lat proj_info) (origin_lon proj_info)
        (local_offset_x proj_info) (local_offset_y proj_info);
  if has_start proj_info then
    let '(o, m') := setDefaultStart (info_start_name proj_info)
                      (mkGPS (start_lat proj_info) (start_lon proj_info)) m in
    match o with
    | Ret _ => mret (Node_new m' tick_hz)
    | Throw e => Throw e
    end
  else mret (Node_new m tick_hz).
End Construction.
End Controller.
