(* ===== verification/Frames.v ===== *)
(** * Frames: the messages of vehicle_frame.proto

    [src/proto/vehicle_frame.proto].  A message is the record of its fields, an enumeration the
    inductive type of its values, under the names of the file in a module of the package's name
    (field names carry a prefix where two messages share one).  A field that is not set has the
    default value of proto3. *)

From S2P Require Export Ieee CppStd.

Module vehicle_frame.

(** ** Cluster *)
Inductive GearState : Type :=
  | GEAR_UNKNOWN | GEAR_PARK | GEAR_REVERSE | GEAR_NEUTRAL | GEAR_DRIVE.
Inductive TurnSignal : Type := TURN_NONE | TURN_LEFT | TURN_RIGHT.
Inductive ControlMode : Type := MODE_UNKNOWN | MODE_MANUAL | MODE_AUTO.
Inductive MotionState : Type :=
  | MOTION_UNKNOWN | MOTION_STOPPED | MOTION_MOVING | MOTION_DECELERATING.
Inductive MrmBehavior : Type := MRM_NONE | MRM_PULL_OVER | MRM_EMERGENCY_STOP.

Record VelocityData := mkVelocityData { vd_speed_mps : float32; vd_speed_kmh : float32 }.
Record KinematicsData := mkKinematicsData { kd_accel_mps2 : float32; kd_yaw_rate : float32 }.
Record MetricsData := mkMetricsData { odometer_m : float32; energy_kwh : float32 }.
Record AdasSummary := mkAdasSummary {
  as_obstacle_count : Z;
  as_traffic_light_red : bool;
  as_traffic_light_yellow : bool;
  as_traffic_light_green : bool;
  as_pedestrian_count : Z;
  as_vehicle_count : Z
}.
Record SurroundObject := mkSurroundObject {
  so_x : float32; so_y : float32; so_vx : float32; so_vy : float32; so_type : string }.
Record EtaData := mkEtaData { ed_remaining_distance_m : float32; ed_remaining_time_s : float32 }.
Record MrmState := mkMrmState {
  ms_is_active : bool; ms_behavior : MrmBehavior; ms_description : string }.

Record VehicleFrame := mkVehicleFrame {
  vf_stamp_ns : Z;
  vf_seq : Z;
  vf_velocity : VelocityData;
  vf_mrm : MrmState;
  vf_gear : GearState;
  vf_target_speed_mps : float32;
  vf_turn_signal : TurnSignal;
  vf_surround_objects : list SurroundObject;
  vf_speed_limit_mps : float32;
  vf_control_mode : ControlMode;
  vf_adas : AdasSummary;
  vf_kinematics : KinematicsData;
  vf_motion_state : MotionState;
  vf_steering_angle_deg : float32;
  vf_battery_pct : float32;
  vf_hazard_on : bool;
  vf_metrics : option MetricsData;
  vf_eta : EtaData
}.

(** ** Planning *)
Record TrajectoryPoint := mkTrajectoryPoint {
  tp_x : double; tp_y : double; tp_z : double; tp_longitudinal_velocity_mps : float32 }.
Record Pose := mkPose { po_x : double; po_y : double; po_z : double }.
Record LaneletPrimitive := mkLaneletPrimitive { lp_id : Z; lp_primitive_type : string }.
Record LaneletSegment := mkLaneletSegment {
  ls_preferred : LaneletPrimitive; ls_primitives : list LaneletPrimitive }.
Record FullRoute := mkFullRoute {
  fr_start_pose : option Pose; fr_goal_pose : option Pose; fr_segments : list LaneletSegment }.

Inductive VelocityFactorStatus : Type :=
  | VELOCITY_UNKNOWN | VELOCITY_APPROACHING | VELOCITY_STOPPED.
Record VelocityFactor := mkVelocityFactor {
  vfa_reason : string; vfa_pose : Pose; vfa_status : VelocityFactorStatus }.
Inductive SteeringDirection : Type :=
  | STEERING_UNKNOWN | STEERING_LEFT | STEERING_RIGHT | STEERING_STRAIGHT.
Inductive SteeringStatus : Type :=
  | STEERING_STATUS_UNKNOWN | STEERING_STATUS_APPROACHING | STEERING_STATUS_TURNING.
Record SteeringFactor := mkSteeringFactor {
  sf_direction : SteeringDirection; sf_status : SteeringStatus; sf_reason : string;
  sf_pose : Pose }.
Inductive RouteState : Type :=
  | ROUTE_UNKNOWN | ROUTE_UNSET | ROUTE_SET | ROUTE_ARRIVED | ROUTE_CHANGING.
Record RoutingState := mkRoutingState { rs_state : RouteState }.
Record ScenarioState := mkScenarioState {
  ss_current_scenario : string; ss_active_scenarios : list string }.

Record PlanningFrame := mkPlanningFrame {
  pf_stamp_ns : Z;
  pf_seq : Z;
  pf_trajectory_points : list TrajectoryPoint;
  pf_lane_trajectory : list TrajectoryPoint;
  pf_full_route : FullRoute;
  pf_velocity_factors : list VelocityFactor;
  pf_steering_factors : list SteeringFactor;
  pf_target_speed_mps : float32;
  pf_max_speed_mps : float32;
  pf_eta : EtaData;
  pf_routing_state : RoutingState;
  pf_scenario_state : ScenarioState
}.

(** ** Perception *)
Inductive ObjectClass : Type :=
  | UNKNOWN | CAR | TRUCK | BUS | TRAILER | MOTORCYCLE | BICYCLE | PEDESTRIAN | ANIMAL.
Inductive CellState : Type := CELL_UNKNOWN | CELL_FREE | CELL_OCCUPIED.
Record BoundingBox := mkBoundingBox { bb_length : float32; bb_height : float32; bb_width : float32 }.
Record ObjectVelocity := mkObjectVelocity { vx_object : float32; vy_object : float32 }.
Record SurroundingObject := mkSurroundingObject {
  ob_id : Z;
  ob_class : ObjectClass;
  ob_bounding_box : BoundingBox;
  ob_velocity : ObjectVelocity;
  ob_heading : float32;
  ob_pose : Pose
}.
Record PointCloud := mkPointCloud { pc_point : Pose }.
Record OccupancyGrid := mkOccupancyGrid {
  og_resolution : float32; og_width : Z; og_height : Z; og_origin_x : float32;
  og_origin_y : float32; og_grid_data : list CellState }.
Inductive TrafficLightColor : Type :=
  | TRAFFIC_LIGHT_UNKNOWN | TRAFFIC_LIGHT_RED | TRAFFIC_LIGHT_AMBER | TRAFFIC_LIGHT_GREEN.
Record TrafficLight := mkTrafficLight {
  tl_traffic_id : Z; tl_confidence : float32; tl_color : TrafficLightColor }.

Record PerceptionFrame := mkPerceptionFrame {
  pe_stamp_ns : Z;
  pe_seq : Z;
  pe_surrounding_objects : list SurroundingObject;
  pe_points_cloud : list PointCloud;
  pe_occupancy_grid : OccupancyGrid;
  pe_traffic_lights : list TrafficLight
}.

(** ** Trip *)
Inductive LocalizationState : Type :=
  | LOCALIZATION_STATE_UNKNOWN | LOCALIZATION_STATE_UNINITIALIZED
  | LOCALIZATION_STATE_INITIALIZING | LOCALIZATION_STATE_INITIALIZED.
Inductive OperationMode : Type :=
  | OPERATION_MODE_UNKNOWN | OPERATION_MODE_STOP | OPERATION_MODE_AUTONOMOUS
  | OPERATION_MODE_LOCAL | OPERATION_MODE_REMOTE.
Inductive DiagLevel : Type := DIAG_OK | DIAG_WARN | DIAG_ERROR | DIAG_STALE.
Record ComponentHealth := mkComponentHealth {
  ch_name : string; ch_level : DiagLevel; ch_message : string }.
Inductive TripState : Type :=
  | TRIP_IDLE | TRIP_PUBLISHING_INITIAL_POSE | TRIP_WAITING_LOCALISATION | TRIP_PUBLISHING_GOAL
  | TRIP_WAITING_ROUTE | TRIP_ENGAGING | TRIP_RUNNING | TRIP_COMPLETED | TRIP_FAILED.

Record TripFrame := mkTripFrame {
  tf_stamp_ns : Z;
  tf_seq : Z;
  tf_localization_state : LocalizationState;
  tf_operation_mode : OperationMode;
  tf_mrm_state : MrmState;
  tf_system_alive : bool;
  tf_component_health : list ComponentHealth;
  tf_trip_state : TripState;
  tf_start_lanelet_id : string;
  tf_start_x : double; tf_start_y : double; tf_start_z : double;
  tf_goal_lanelet_id : string;
  tf_goal_x : double; tf_goal_y : double; tf_goal_z : double;
  tf_goal_lat : double; tf_goal_lon : double;
  tf_goal_distance_m : double
}.

(** ** Default values *)
Definition EtaData_default : EtaData := mkEtaData f0 f0.
Definition MrmState_default : MrmState := mkMrmState false MRM_NONE "".
Definition FullRoute_default : FullRoute := mkFullRoute None None [].
Definition RoutingState_default : RoutingState := mkRoutingState ROUTE_UNKNOWN.
Definition ScenarioState_default : ScenarioState := mkScenarioState "" [].
Definition OccupancyGrid_default : OccupancyGrid := mkOccupancyGrid f0 0 0 f0 f0 [].
End vehicle_frame.
