(* ===== verification/Bridge.v ===== *)
(** * Bridge: the part the five bridges have in common

    [ClusterBridge], [PlanningBridge], [PerceptionBridge], [TripBridge] and [LocationBridge] are
    built alike: callbacks post a handler for each message on the strand of an io_context that one
    thread runs, a steady timer has onTick posted there every 16.667 ms (once a second for the
    location), and onTick publishes the frame built from the state, numbered by a 64-bit counter,
    and starts the timer again.  The location bridge publishes only while it is told to.  What a bridge adds
    is an instance of [BridgeOps]; what its handlers promise is [BridgeLaws].  The clock, and what
    else a handler reads from outside the bridge, is its surroundings [Env]. *)

From S2P Require Export Ieee CppStd.

Module FrameBridge.

Class BridgeOps (St Env Msg Frame : Type) : Type := {
  bridge_handle : Env → Msg → St → St;     (* the handler posted for a message *)
  bridge_refresh : Env → St → St;          (* what onTick does before it builds the frame *)
  bridge_frame : Env → Z → St → option Frame   (* buildFrame, given the number of the frame *)
}.

(** What waits on the strand. *)
Inductive Task (Msg : Type) : Type :=
  | Handle (m : Msg)
  | StartTimer                             (* posted by the constructor *)
  | TimerExpired (aborted : bool).         (* the completion handler of async_wait *)
Arguments Handle {Msg} _.
Arguments StartTimer {Msg}.
Arguments TimerExpired {Msg} _.

(** What is observed of a bridge: the handlers run, the frames published, and the ticks that
    publish none. *)
Inductive BridgeEvent (Env Msg Frame : Type) : Type :=
  | Handled (e : Env) (m : Msg)
  | Published (e : Env) (f : Frame)
  | Silent (e : Env).
Arguments Handled {Env Msg Frame} _ _.
Arguments Published {Env Msg Frame} _ _.
Arguments Silent {Env Msg Frame} _.

Record Bridge (St Msg : Type) : Type := mkBridge {
  body : St;                               (* state_ *)
  frame_seq_ : Z;                          (* uint64_t *)
  strand_ : list (Task Msg);
  timer_pending : bool;                    (* publisher_timer_ *)
  work_guard_ : bool;
  io_running : bool                        (* io_context_.run() has not returned *)
}.
Arguments mkBridge {St Msg} _ _ _ _ _ _.
Arguments body {St Msg} _.
Arguments frame_seq_ {St Msg} _.
Arguments strand_ {St Msg} _.
Arguments timer_pending {St Msg} _.
Arguments work_guard_ {St Msg} _.
Arguments io_running {St Msg} _.
#[export] Instance Bridge_eta {St Msg} : Eta (Bridge St Msg) := λ b,
  mkBridge (body b) (frame_seq_ b) (strand_ b) (timer_pending b) (work_guard_ b) (io_running b).

Inductive BridgeAction (Env Msg : Type) : Type :=
  | MessagePosted (m : Msg)                (* a ROS callback *)
  | TimerExpires
  | StrandRuns (e : Env)                   (* the io thread takes the next task *)
  | ShutdownCalled.
Arguments MessagePosted {Env Msg} _.
Arguments TimerExpires {Env Msg}.
Arguments StrandRuns {Env Msg} _.
Arguments ShutdownCalled {Env Msg}.

Section Definitions.
Context {St Env Msg Frame : Type} {Ops : BridgeOps St Env Msg Frame}.
Definition BridgeM (A : Type) : Type := M (Bridge St Msg) (BridgeEvent Env Msg Frame) A.

Definition post (t : Task Msg) : BridgeM unit := modify (λ b, b <| strand_ ::= λ q, q ++ [t] |>).

(** expires_after cancels a wait that is still pending. *)
Definition cancel_timer : BridgeM unit :=
  pending ← gets timer_pending;
  when pending (modify (λ b, b <| timer_pending := false |>);; post (TimerExpired true)).
Definition scheduleNextTick : BridgeM unit :=
  cancel_timer;; modify (λ b, b <| timer_pending := true |>).

Definition onTick (e : Env) : BridgeM unit :=
  modify (λ b, b <| body ::= bridge_refresh e |>);;
  b ← gets id;
  match bridge_frame e (frame_seq_ b) (body b) with
  | Some f => modify (λ b, b <| frame_seq_ ::= u64_succ |>);; emit (Published e f)
  | None => emit (Silent e)
  end;;
  scheduleNextTick.

Definition run_task (e : Env) (t : Task Msg) : BridgeM unit :=
  match t with
  | Handle m => modify (λ b, b <| body ::= bridge_handle e m |>);; emit (Handled e m)
  | StartTimer => scheduleNextTick
  | TimerExpired aborted => if aborted then mret () else onTick e
  end.

(** io_context::run takes one task, and returns when nothing is left that could post one. *)
Definition run_next (e : Env) : BridgeM unit :=
  b ← gets id;
  if io_running b then
    match strand_ b with
    | t :: q => modify (λ b, b <| strand_ := q |>);; run_task e t
    | [] => mret ()
    end
  else mret ().
Definition stop_when_out_of_work : BridgeM unit :=
  modify (λ b, match strand_ b with
               | [] => if timer_pending b || work_guard_ b then b else b <| io_running := false |>
               | _ => b
               end).

Definition timer_expires : BridgeM unit :=
  pending ← gets timer_pending;
  when pending (modify (λ b, b <| timer_pending := false |>);; post (TimerExpired false)).

(** shutdown, up to the join: that waits until [io_running] is false. *)
Definition shutdown : BridgeM unit :=
  cancel_timer;; modify (λ b, b <| work_guard_ := false |>).

Definition perform (a : BridgeAction Env Msg) : BridgeM unit :=
  match a with
  | MessagePosted m => post (Handle m)
  | TimerExpires => timer_expires
  | StrandRuns e => run_next e
  | ShutdownCalled => shutdown
  end.
Definition act (a : BridgeAction Env Msg) : BridgeM unit := perform a;; stop_when_out_of_work.

Fixpoint act_all (l : list (BridgeAction Env Msg)) : BridgeM unit :=
  match l with
  | [] => mret ()
  | a :: l' => act a;; act_all l'
  end.

(** After the constructor, whose last statement posts scheduleNextTick. *)
Definition Bridge_new (s : St) : Bridge St Msg := mkBridge s 0 [StartTimer] false true true.

(** ** Histories *)
Definition messages_handled (t : list (BridgeEvent Env Msg Frame)) : list (Env * Msg) :=
  omap (λ ev, match ev with Handled e m => Some (e, m) | _ => None end) t.
Definition frames_published (t : list (BridgeEvent Env Msg Frame)) : list Frame :=
  omap (λ ev, match ev with Published _ f => Some f | _ => None end) t.
Definition messages_posted (l : list (BridgeAction Env Msg)) : list Msg :=
  omap (λ a, match a with MessagePosted m => Some m | _ => None end) l.
Definition messages_queued (q : list (Task Msg)) : list Msg :=
  omap (λ t, match t with Handle m => Some m | _ => None end) q.

(** The state that a history of handled messages builds up. *)
Definition handle_all (l : list (Env * Msg)) (s : St) : St :=
  foldl (λ s em, bridge_handle em.1 em.2 s) s l.
End Definitions.

(** What the handlers of a bridge promise: a message replaces what the message before it on the
    same topic left, messages of different topics do not interfere, and what onTick computes is
    not read back. *)
Class BridgeLaws {St Env Msg Frame : Type} (Ops : BridgeOps St Env Msg Frame) (Topic : Type)
    (topic : Msg → Topic) : Prop := {
  handle_overwrites e e' m m' s :
    topic m = topic m' → bridge_handle e' m' (bridge_handle e m s) = bridge_handle e' m' s;
  handle_commutes e e' m m' s :
    topic m ≠ topic m' →
    bridge_handle e' m' (bridge_handle e m s) = bridge_handle e m (bridge_handle e' m' s);
  refresh_refresh e e' s : bridge_refresh e (bridge_refresh e' s) = bridge_refresh e s;
  refresh_handle e e' e'' m s :
    bridge_refresh e (bridge_handle e' m (bridge_refresh e'' s)) =
    bridge_refresh e (bridge_handle e' m s)
}.
End FrameBridge.
