(* ===== verification/BridgeFacts.v ===== *)
(** * BridgeFacts: histories of a frame bridge

    Which messages of a history still count, what one action does ([act_spec]) and what a sequence
    of actions does ([run_spec]). *)

From S2P Require Export Bridge.
Import FrameBridge.

(** ** The last message of each topic decides the state *)
Section Latest.
Context {St Env Msg Frame Topic : Type} {Ops : BridgeOps St Env Msg Frame} {topic : Msg → Topic}
  `{EqDecision Topic} {Laws : BridgeLaws Ops Topic topic}.
Implicit Types (s : St) (l : list (Env * Msg)).

Definition topics_of l : list Topic := (λ em, topic em.2) <$> l.

Definition last_message (k : Topic) l : option (Env * Msg) :=
  last (filter (λ em, topic em.2 = k) l).

(** The messages that no later message of their topic replaces. *)
Fixpoint latest l : list (Env * Msg) :=
  match l with
  | [] => []
  | em :: l' => if decide (topic em.2 ∈ topics_of l') then latest l' else em :: latest l'
  end.

Lemma handle_all_cons em l s :
  handle_all (em :: l) s = handle_all l (bridge_handle em.1 em.2 s).
Proof. done. Qed.

Lemma handle_all_app l l' s : handle_all (l ++ l') s = handle_all l' (handle_all l s).
Proof. apply foldl_app. Qed.

Lemma handle_all_overwritten e m l s :
  topic m ∈ topics_of l → handle_all l (bridge_handle e m s) = handle_all l s.
Proof.
  revert s. induction l as [|[e' m'] l IH]; intros s Hin; [by apply elem_of_nil in Hin|].
  rewrite !handle_all_cons. cbn. destruct (decide (topic m = topic m')) as [Heq|Hne].
  - by rewrite handle_overwrites.
  - rewrite handle_commutes by done. apply IH. by apply elem_of_cons in Hin as [?|?].
Qed.

Lemma handle_all_latest l s : handle_all l s = handle_all (latest l) s.
Proof.
  revert s. induction l as [|[e m] l IH]; intros s; [done|].
  cbn [latest]. case_decide as Hin; rewrite !handle_all_cons; cbn.
  - rewrite handle_all_overwritten by done. apply IH.
  - apply IH.
Qed.

Lemma filter_topic_nil k l : filter (λ em, topic em.2 = k) l = [] ↔ k ∉ topics_of l.
Proof.
  split.
  - intros Hnil Hin. apply list_elem_of_fmap in Hin as (x & -> & Hx).
    by eapply (filter_nil_not_elem_of _ _ x Hnil).
  - intros Hni. destruct (filter _ l) as [|x f] eqn:Hf; [done|]. exfalso. apply Hni.
    assert (x ∈ filter (λ em : Env * Msg, topic em.2 = k) l) as Hx by (rewrite Hf; constructor).
    apply list_elem_of_filter in Hx as [<- Hx]. apply list_elem_of_fmap. eauto.
Qed.

Lemma elem_of_latest em l : em ∈ latest l ↔ last_message (topic em.2) l = Some em.
Proof.
  unfold last_message. induction l as [|em' l IH].
  { cbn. split; [intros ?%elem_of_nil|]; done. }
  cbn [latest]. rewrite filter_cons.
  repeat case_decide; rewrite ?elem_of_cons, ?IH.
  - destruct (filter _ l) eqn:Hf; [|done]. apply filter_topic_nil in Hf. congruence.
  - done.
  - rewrite (proj2 (filter_topic_nil (topic em.2) l)) by congruence. cbn. intuition congruence.
  - split; [intros [->|?]; done|auto].
Qed.

Lemma latest_NoDup l : NoDup (topics_of (latest l)).
Proof.
  induction l as [|em l IH]; cbn [latest]; [apply NoDup_nil_2|].
  case_decide as Hin; [done|]. cbn. apply NoDup_cons. split; [|done].
  intros Hin'. apply Hin. unfold topics_of in *.
  apply list_elem_of_fmap in Hin' as (x & Hx & Hl). apply list_elem_of_fmap. exists x.
  split; [done|]. apply elem_of_latest in Hl. unfold last_message in Hl.
  apply last_Some_elem_of, list_elem_of_filter in Hl. tauto.
Qed.

Lemma handle_all_permuted l l' s :
  NoDup (topics_of l) → l ≡ₚ l' → handle_all l s = handle_all l' s.
Proof.
  intros Hnd Hp. revert s Hnd. induction Hp; intros s Hnd; rewrite ?handle_all_cons.
  - done.
  - apply IHHp. by apply NoDup_cons in Hnd as [_ ?].
  - rewrite handle_commutes; [done|]. intros Heq. cbn in Hnd.
    apply NoDup_cons in Hnd as [Hni _]. apply Hni. rewrite <- Heq. constructor.
  - rewrite IHHp1 by done. apply IHHp2. unfold topics_of in *. by rewrite <- Hp1.
Qed.

Lemma handle_all_same_latest l l' s :
  (∀ k, last_message k l = last_message k l') → handle_all l s = handle_all l' s.
Proof.
  intros Hk. rewrite (handle_all_latest l), (handle_all_latest l').
  apply handle_all_permuted; [apply latest_NoDup|].
  assert (Hnd : ∀ k, NoDup (latest k)).
  { intros k. eapply NoDup_fmap_1, latest_NoDup. }
  apply NoDup_Permutation; [done..|]. intros em. by rewrite !elem_of_latest, Hk.
Qed.

(** States that show the same frame whatever the surroundings of the next tick. *)
Definition same_view s s' : Prop := ∀ e, bridge_refresh e s = bridge_refresh e s'.

#[export] Instance same_view_equivalence : Equivalence same_view.
Proof.
  split; [by intros s e | by intros s s' Hs e | intros s s' s'' Hs Hs' e].
  by rewrite Hs, Hs'.
Qed.
#[export] Instance handle_same_view e m : Proper (same_view ==> same_view) (bridge_handle e m).
Proof.
  intros s s' Hs e'.
  rewrite <- (refresh_handle e' e e' m s), <- (refresh_handle e' e e' m s'). by rewrite Hs.
Qed.
#[export] Instance handle_all_same_view l : Proper (same_view ==> same_view) (handle_all l).
Proof.
  induction l as [|[e m] l IH]; intros s s' Hs; [done|].
  rewrite !handle_all_cons. apply IH. by apply handle_same_view.
Qed.
Lemma refresh_same_view e s : same_view (bridge_refresh e s) s.
Proof. intros e'. apply refresh_refresh. Qed.
End Latest.

(** ** What a bridge does, event by event *)
Section Execution.
Context {St Env Msg Frame : Type} {Ops : BridgeOps St Env Msg Frame}.
Implicit Types (b : Bridge St Msg) (a : BridgeAction Env Msg) (l : list (BridgeAction Env Msg))
  (t : list (BridgeEvent Env Msg Frame)).

(** A history told by its events alone: every frame is the one of the state at that point. *)
Fixpoint consistent (s : St) (n : Z) t : Prop :=
  match t with
  | [] => True
  | Handled e m :: t' => consistent (bridge_handle e m s) n t'
  | Published e f :: t' =>
    bridge_frame e n (bridge_refresh e s) = Some f ∧
    consistent (bridge_refresh e s) (u64_succ n) t'
  | Silent e :: t' =>
    bridge_frame e n (bridge_refresh e s) = None ∧ consistent (bridge_refresh e s) n t'
  end.
Fixpoint replay t (s : St) : St :=
  match t with
  | [] => s
  | Handled e m :: t' => replay t' (bridge_handle e m s)
  | Published e _ :: t' | Silent e :: t' => replay t' (bridge_refresh e s)
  end.

Lemma consistent_app s n t t' :
  consistent s n (t ++ t') ↔
  consistent s n t ∧
  consistent (replay t s) (Nat.iter (length (frames_published t)) u64_succ n) t'.
Proof.
  revert s n. induction t as [|[e m|e f|e] t IH]; intros s n; cbn [app consistent replay].
  - cbn. tauto.
  - apply IH.
  - rewrite IH. change (frames_published (Published e f :: t)) with (f :: frames_published t).
    cbn [length]. rewrite Nat.iter_succ_r. tauto.
  - rewrite IH. change (frames_published (Silent e :: t)) with (frames_published t). tauto.
Qed.
Lemma replay_app t t' s : replay (t ++ t') s = replay t' (replay t s).
Proof. revert s. by induction t as [|[e m|e f|e] t IH]; intros s; cbn. Qed.
Lemma frames_published_app t t' :
  frames_published (t ++ t') = frames_published t ++ frames_published t'.
Proof. apply omap_app. Qed.

Lemma u64_succ_iter k n : (0 ≤ n < 2 ^ 64)%Z →
  Nat.iter k u64_succ n = wrap 64 (n + Z.of_nat k).
Proof.
  intros Hn. induction k as [|k IH].
  - cbn [Nat.iter]. rewrite wrap_small; cbn; lia.
  - change (Nat.iter (S k) u64_succ n) with (u64_succ (Nat.iter k u64_succ n)).
    rewrite IH. unfold u64_succ, wrap. rewrite Zplus_mod_idemp_l. f_equal. lia.
Qed.

(** The start signals under way: the pending wait and the tasks that will tick. *)
Definition starts_tick (t : Task Msg) : option unit :=
  match t with StartTimer | TimerExpired false => Some () | _ => None end.
Definition ticks_queued (q : list (Task Msg)) : nat := length (omap starts_tick q).
Definition tokens b : nat := (if timer_pending b then 1 else 0) + ticks_queued (strand_ b).

Lemma ticks_queued_app q q' : ticks_queued (q ++ q') = (ticks_queued q + ticks_queued q')%nat.
Proof. unfold ticks_queued. by rewrite omap_app, length_app. Qed.
Lemma messages_queued_app (q q' : list (Task Msg)) :
  messages_queued (q ++ q') = messages_queued q ++ messages_queued q'.
Proof. apply omap_app. Qed.

(** One action, from any state: it returns, its events are those of the state it starts from, and
    what it does to the strand. *)
Record act_spec a b (b' : Bridge St Msg) t : Prop := {
  act_consistent : consistent (body b) (frame_seq_ b) t;
  act_body : body b' = replay t (body b);
  act_seq : frame_seq_ b' = Nat.iter (length (frames_published t)) u64_succ (frame_seq_ b);
  act_messages :
    (messages_handled t).*2 ++ messages_queued (strand_ b') =
    messages_queued (strand_ b) ++ messages_posted [a];
  act_tokens :
    match a with
    | ShutdownCalled => tokens b' = ticks_queued (strand_ b)
    | _ => (tokens b ≤ 1)%nat → tokens b' = tokens b
    end;
  act_silent : tokens b = 0%nat → frames_published t = [];
  act_strand :
    (tokens b ≤ 1)%nat →
    match a with
    | StrandRuns _ => strand_ b' = if io_running b then tail (strand_ b) else strand_ b
    | _ => True
    end;
  act_guard : work_guard_ b' = match a with ShutdownCalled => false | _ => work_guard_ b end
}.
End Execution.

Ltac run_bridge :=
  unfold perform, run_next, run_task, onTick, scheduleNextTick, cancel_timer, timer_expires,
    shutdown, post, stop_when_out_of_work, when, gets, modify, emit, mbind, M_bind, mret, M_ret;
  cbn.

(** One action on an explicit bridge, wherever its control flow branches. *)
Ltac bridge_cases b a :=
  destruct b as [s n q tp wg io], a as [m| |e|]; run_bridge;
  [|destruct tp
   |destruct io;
    [destruct q as [|[m| |[]] q];
     [| |destruct tp| |destruct (bridge_frame e n (bridge_refresh e s)) eqn:Hframe; destruct tp]|]
   |destruct tp]; run_bridge;
  try match goal with Hf : bridge_frame _ _ _ = _ |- _ => rewrite Hf; cbn end.

Section Facts.
Context {St Env Msg Frame : Type} {Ops : BridgeOps St Env Msg Frame}.
Implicit Types (b : Bridge St Msg) (a : BridgeAction Env Msg) (l : list (BridgeAction Env Msg))
  (t : list (BridgeEvent Env Msg Frame)).

Lemma stop_when_out_of_work_spec b :
  ∃ r, stop_when_out_of_work (Env := Env) (Frame := Frame) b =
       (Ret (), b <| io_running := r |>, []) ∧
  (io_running b = false → r = false) ∧
  (io_running b = true → r = false →
   strand_ b = [] ∧ timer_pending b = false ∧ work_guard_ b = false) ∧
  (strand_ b = [] → timer_pending b = false → work_guard_ b = false → r = false).
Proof.
  exists (io_running (final (stop_when_out_of_work (Env := Env) (Frame := Frame)) b)).
  destruct b as [s n [|tk q] [] [] []]; run_bridge; intuition congruence.
Qed.

Lemma perform_spec a b : ∃ b' t, perform (Ops := Ops) a b = (Ret (), b', t) ∧ act_spec a b b' t.
Proof.
  bridge_cases b a; eexists _, _; (split; [reflexivity|]); split; try done; cbn;
    unfold tokens, ticks_queued, messages_queued; cbn; rewrite ?omap_app, ?length_app; cbn;
    rewrite ?app_nil_r; done || lia.
Qed.

Lemma bridge_act_ok a b : ∃ b' t,
  act (Ops := Ops) a b = (Ret (), b', t) ∧ act_spec a b b' t ∧
  (io_running b = false → io_running b' = false) ∧
  (io_running b = true → io_running b' = false →
   strand_ b' = [] ∧ tokens b' = 0%nat ∧ work_guard_ b' = false) ∧
  (strand_ b' = [] → timer_pending b' = false → work_guard_ b' = false → io_running b' = false).
Proof.
  destruct (perform_spec a b) as (b1 & t & Heq & [H1 H2 H3 H4 H5 H6 H7 H8]).
  destruct (stop_when_out_of_work_spec b1) as (r & Hr & Hr1 & Hr2 & Hr3).
  assert (Hio : io_running b1 = io_running b).
  { apply (f_equal (λ x, io_running x.1.2)) in Heq. cbn in Heq. rewrite <- Heq.
    bridge_cases b a; done. }
  eexists _, t. unfold act. unfold mbind, M_bind. rewrite Heq, Hr, app_nil_r.
  split; [reflexivity|]. split; [by split|]. cbn. split; [intros; apply Hr1; congruence|].
  split; [|done]. intros Hb Hf. destruct Hr2 as (Hq & Htp & Hwg); [congruence|done|].
  unfold tokens. cbn. by rewrite Hq, Htp.
Qed.

(** Without a call of shutdown. *)
Definition undisturbed l : Prop := ShutdownCalled ∉ l.

Record run_spec l b (b' : Bridge St Msg) t : Prop := {
  run_consistent : consistent (body b) (frame_seq_ b) t;
  run_body : body b' = replay t (body b);
  run_seq : frame_seq_ b' = Nat.iter (length (frames_published t)) u64_succ (frame_seq_ b);
  run_messages :
    (messages_handled t).*2 ++ messages_queued (strand_ b') =
    messages_queued (strand_ b) ++ messages_posted l;
  run_tokens : undisturbed l → (tokens b ≤ 1)%nat → tokens b' = tokens b;
  run_ended : io_running b = false → io_running b' = false;
  run_lively : undisturbed l → tokens b = 1%nat → io_running b = true → io_running b' = true;
  run_silent : undisturbed l → tokens b = 0%nat → frames_published t = [];
  run_guard : undisturbed l → work_guard_ b' = work_guard_ b;
  run_ends :
    l ≠ [] → strand_ b' = [] → timer_pending b' = false → work_guard_ b' = false →
    io_running b' = false
}.

Lemma act_all_ok l b :
  ∃ b' t, act_all (Ops := Ops) l b = (Ret (), b', t) ∧ run_spec l b b' t.
Proof.
  revert b. induction l as [|a l IH]; intros b.
  { exists b, []. split; [done|]. split; try done. by rewrite app_nil_r. }
  destruct (bridge_act_ok a b) as (b1 & t1 & Heq1 & [H1 H2 H3 H4 H5 H6 _ H8] & Hend & Hlive & Hstop).
  destruct (IH b1) as (b2 & t2 & Heq2 & [R1 R2 R3 R4 R5 R6 R7 R8 R9 R10]).
  assert (Hu : undisturbed (a :: l) → (tokens b ≤ 1)%nat → undisturbed l ∧ tokens b1 = tokens b).
  { unfold undisturbed. rewrite not_elem_of_cons. intros [Ha Hl] Htok. split; [done|].
    destruct a; try done; auto. }
  exists b2, (t1 ++ t2). cbn [act_all]. unfold mbind, M_bind. rewrite Heq1, Heq2.
  split; [done|]. split.
  - apply consistent_app. rewrite <- H2, <- H3. done.
  - by rewrite replay_app, <- H2.
  - rewrite frames_published_app, length_app, Nat.add_comm, Nat.iter_add. by rewrite R3, H3.
  - unfold messages_handled. rewrite omap_app, fmap_app. fold (messages_handled t1).
    rewrite <- app_assoc. unfold messages_handled in R4 at 1. rewrite R4, app_assoc.
    rewrite H4, <- app_assoc. by destruct a.
  - intros Hun Htok. destruct (Hu Hun Htok) as [Hl <-]. apply R5; [done|].
    by rewrite (proj2 (Hu Hun Htok)).
  - auto.
  - intros Hun Htok Hio. destruct (Hu Hun) as [Hl Hb]; [lia|]. apply R7; [done|lia|].
    destruct (io_running b1) eqn:Hf; [done|]. destruct (Hlive Hio eq_refl) as (_ & ? & _). lia.
  - intros Hun Htok. destruct (Hu Hun) as [Hl Hb]; [lia|].
    rewrite frames_published_app, H6, R8 by (done || lia). done.
  - unfold undisturbed. rewrite not_elem_of_cons. intros [Ha Hl]. rewrite R9, H8 by done.
    by destruct a.
  - intros _. destruct l; [|by apply R10]. injection Heq2 as <- _. done.
Qed.

(** Frames are published by turns of the io thread, in its surroundings. *)
Lemma act_published a b e0 f :
  Published e0 f ∈ outputs (act (Ops := Ops) a) b → a = StrandRuns e0.
Proof.
  destruct (stop_when_out_of_work_spec (final (perform (Ops := Ops) a) b)) as (r & Hr & _).
  destruct (perform_spec a b) as (b1 & t & Heq & _).
  unfold outputs, final, act, mbind, M_bind in *. rewrite Heq in *. cbn in Hr. rewrite Hr. cbn.
  rewrite app_nil_r. apply (f_equal snd) in Heq. cbn in Heq. subst t.
  bridge_cases b a; rewrite ?elem_of_cons, ?elem_of_nil; naive_solver.
Qed.

Lemma act_all_published l b e f :
  Published e f ∈ outputs (act_all (Ops := Ops) l) b → StrandRuns e ∈ l.
Proof.
  revert b. induction l as [|a l IH]; intros b; [by intros ?%elem_of_nil|].
  pose proof (act_published a b e f) as Ha. unfold outputs in *. cbn [act_all].
  unfold mbind, M_bind. destruct (act a b) as [[[[]|] b1] t1]; cbn in Ha |- *.
  - specialize (IH b1). destruct (act_all l b1) as [[o b2] t2]. cbn in IH |- *.
    rewrite elem_of_app, elem_of_cons. intros [->%Ha|?%IH]; auto.
  - intros ->%Ha. constructor.
Qed.
End Facts.
