(* ===== verification/LocationBridge.v ===== *)
(** * LocationBridge: the vehicle's position on the location topic

    [src/location_bridge/].  Once a second the bridge asks for the position and, while streaming is
    enabled, publishes the last one it was given on "autoware/location".  The strand, the timer and
    shutdown are those of [Bridge.FrameBridge]; the only handlers posted set the streaming flag. *)

From S2P Require Export Ieee CppStd Bridge.

Module Location.
Import FrameBridge.

(** vehicle_frame.LocationFrame *)
Record LocationFrame := mkLocationFrame {
  stamp_ns : Z; seq : Z; frame_lat : double; frame_lon : double }.

(** The JSON object put on the topic. *)
Record LocationJson := mkLocationJson {
  json_latitude : double; json_longitude : double; tripId : Z }.

(** The members the handlers and onTick change. *)
Record LocationState := mkLocationState {
  current_lat_ : double;
  current_lon_ : double;
  streaming_enabled_ : bool
}.
#[export] Instance LocationState_eta : Eta LocationState := λ s,
  mkLocationState (current_lat_ s) (current_lon_ s) (streaming_enabled_ s).

Definition LocationState_default : LocationState := mkLocationState d0 d0 false.

(** What a tick reads: the node's clock, gps_provider_() and trip_id_provider_(). *)
Record Reading := mkReading {
  read_now : Z;
  gps : option (double * double);
  trip_id : option Z                  (* none when there is no provider *)
}.

(** The task posted by setStreamingEnabled. *)
Definition set_streaming (enabled : bool) (s : LocationState) : LocationState :=
  s <| streaming_enabled_ := enabled |>.

(** onTick, before it builds the frame. *)
Definition update_position (e : Reading) (s : LocationState) : LocationState :=
  match gps e with
  | Some (lat, lon) => s <| current_lat_ := lat |> <| current_lon_ := lon |>
  | None => s
  end.

Definition buildFrame (now seq : Z) (s : LocationState) : LocationFrame :=
  mkLocationFrame now seq (current_lat_ s) (current_lon_ s).

(** The frame is not what is published. *)
Definition broadcastFrame (frame : LocationFrame) (trip_id : option Z) (s : LocationState) :
    LocationJson := mkLocationJson (current_lat_ s) (current_lon_ s) (default 0 trip_id).

#[export] Instance LocationBridge_ops : BridgeOps LocationState Reading bool LocationJson := {|
  bridge_handle _ := set_streaming;
  bridge_refresh := update_position;
  bridge_frame e seq s :=
    if streaming_enabled_ s
    then Some (broadcastFrame (buildFrame (read_now e) seq s) (trip_id e) s)
    else None
|}.

Definition LocationBridge : Type := Bridge LocationState bool.
Definition LocationBridge_new : LocationBridge := Bridge_new LocationState_default.

(** ** The operations of the bridge *)
Definition BridgeOp : Type :=
  BridgeM (St := LocationState) (Env := Reading) (Msg := bool) (Frame := LocationJson) unit.
Definition scheduleNextTick : BridgeOp := FrameBridge.scheduleNextTick.
Definition onTick (e : Reading) : BridgeOp := FrameBridge.onTick e.
Definition shutdown : BridgeOp := FrameBridge.shutdown.
Definition setStreamingEnabled (enabled : bool) : BridgeOp := post (Handle enabled).
End Location.
