(* ===== verification/ClusterBridge.v ===== *)
(** * ClusterBridge: the instrument cluster's frame

    [src/cluster_bridge/].  Fifteen topics are folded into one [FrameState]; a frame of it is
    published on "autoware/cluster".  The strand, the timer and the counter are those of
    [Bridge.FrameBridge]. *)

From S2P Require Export RosMsgs Frames Bridge.

Module Cluster.
Import FrameBridge.

(** FrameStates.h *)
Record FrameState := mkFrameState {
  speed_mps : float32; speed_kmh : float32;
  gear : vehicle_frame.GearState;
  steering_angle_deg : float32;
  hazard_on : bool;
  turn_signal : vehicle_frame.TurnSignal;
  control_mode : vehicle_frame.ControlMode;
  battery_pct : float32;
  accel_mps2 : float32; yaw_rate : float32;
  motion_state : vehicle_frame.MotionState;
  target_speed_mps : float32; speed_limit_mps : float32;
  remaining_distance_m : float32; remaining_time_s : float32;
  traffic_light_red : bool; traffic_light_yellow : bool; traffic_light_green : bool;
  obstacle_count : Z; pedestrian_count : Z; vehicle_count : Z;   (* uint32_t *)
  surround_objects : list vehicle_frame.SurroundObject;
  mrm_behavior : vehicle_frame.MrmBehavior; is_active : bool; description : string;
  longitude : double; latitude : double
}.
#[export] Instance FrameState_eta : Eta FrameState := λ s,
  mkFrameState (speed_mps s) (speed_kmh s) (gear s) (steering_angle_deg s) (hazard_on s)
    (turn_signal s) (control_mode s) (battery_pct s) (accel_mps2 s) (yaw_rate s) (motion_state s)
    (target_speed_mps s) (speed_limit_mps s) (remaining_distance_m s) (remaining_time_s s)
    (traffic_light_red s) (traffic_light_yellow s) (traffic_light_green s) (obstacle_count s)
    (pedestrian_count s) (vehicle_count s) (surround_objects s) (mrm_behavior s) (is_active s)
    (description s) (longitude s) (latitude s).

Definition FrameState_default : FrameState :=
  {| speed_mps := f0; speed_kmh := f0; gear := vehicle_frame.GEAR_UNKNOWN; steering_angle_deg := f0;
     hazard_on := false; turn_signal := vehicle_frame.TURN_NONE; control_mode := vehicle_frame.MODE_UNKNOWN;
     battery_pct := f0; accel_mps2 := f0; yaw_rate := f0; motion_state := vehicle_frame.MOTION_UNKNOWN;
     target_speed_mps := f0; speed_limit_mps := f0; remaining_distance_m := f0;
     remaining_time_s := f0; traffic_light_red := false; traffic_light_yellow := false;
     traffic_light_green := false; obstacle_count := 0; pedestrian_count := 0;
     vehicle_count := 0; surround_objects := []; mrm_behavior := vehicle_frame.MRM_NONE; is_active := false;
     description := ""; longitude := d0; latitude := d0 |}.

(** The messages, by the subscription they come from. *)
Inductive Msg : Type :=
  | VelocityReport (longitudinal_velocity : float32)
  | GearReport (report : Z)
  | SteeringReport (steering_tire_angle : float32)
  | HazardLightsReport (report : Z)
  | TurnIndicatorsReport (report : Z)
  | ControlModeReport (mode : Z)
  | BatteryStatus (energy_level : float32)
  | VehicleKinematics (accel_x yaw_z geo_longitude geo_latitude : double)
  | MotionStateMsg (state : Z)
  | TargetVelocity (data : float32)
  | VelocityLimit (max_velocity : float32)
  | MissionRemaining (remaining_distance remaining_time : double)
  | TrafficSignals (traffic_light_groups : list TrafficLightGroup)
  | Objects (objects : list PredictedObject)
  | Mrm (msg : RosMsgs.MrmState).

(** 180.0f / 3.14159265358979323846f; the float nearest to pi is 13176795 / 2^22. *)
Definition DEG_PER_RAD : float32 := fdiv (f_of_Z 180) (flit 13176795 4194304).

Section Definitions.
Context `{AutowareMsgs}.

(** ** Conversions *)
Definition toGear (v : Z) : vehicle_frame.GearState :=
  if decide (v = GR_PARK) then vehicle_frame.GEAR_PARK
  else if decide (v = GR_REVERSE) then vehicle_frame.GEAR_REVERSE
  else if decide (v = GR_NEUTRAL) then vehicle_frame.GEAR_NEUTRAL
  else if decide (v = GR_DRIVE) then vehicle_frame.GEAR_DRIVE
  else vehicle_frame.GEAR_UNKNOWN.
Definition toTurn (v : Z) : vehicle_frame.TurnSignal :=
  if decide (v = TIR_ENABLE_LEFT) then vehicle_frame.TURN_LEFT
  else if decide (v = TIR_ENABLE_RIGHT) then vehicle_frame.TURN_RIGHT
  else vehicle_frame.TURN_NONE.
Definition toCtrlMode (v : Z) : vehicle_frame.ControlMode :=
  if decide (v = CMR_AUTONOMOUS) then vehicle_frame.MODE_AUTO else vehicle_frame.MODE_MANUAL.
Definition toMotionState (v : Z) : vehicle_frame.MotionState :=
  if decide (v = MS_STOPPED) then vehicle_frame.MOTION_STOPPED
  else if decide (v = MS_MOVING) then vehicle_frame.MOTION_MOVING
  else if decide (v = MS_STARTING) then vehicle_frame.MOTION_DECELERATING
  else vehicle_frame.MOTION_UNKNOWN.
Definition toHazard (v : Z) : bool :=
  match v with 1 => false | 2 => true | _ => false end%Z.
Definition toMrmState (v : Z) : vehicle_frame.MrmBehavior :=
  if decide (v = MRM_EMERGENCY_STOP) then vehicle_frame.MRM_EMERGENCY_STOP
  else if decide (v = MRM_PULL_OVER) then vehicle_frame.MRM_PULL_OVER
  else vehicle_frame.MRM_NONE.

(** ** Handlers *)
Definition onVelocityImpl (v : float32) (s : FrameState) : FrameState :=
  s <| speed_mps := v |> <| speed_kmh := fmul v (flit 36 10) |>.
Definition onGearImpl (report : Z) (s : FrameState) : FrameState := s <| gear := toGear report |>.
Definition onSteeringImpl (angle : float32) (s : FrameState) : FrameState :=
  s <| steering_angle_deg := fmul angle DEG_PER_RAD |>.
Definition onHazardLightsImpl (report : Z) (s : FrameState) : FrameState :=
  s <| hazard_on := toHazard report |>.
Definition onTurnIndicatorsImpl (report : Z) (s : FrameState) : FrameState :=
  s <| turn_signal := toTurn report |>.
Definition onControlModeImpl (mode : Z) (s : FrameState) : FrameState :=
  s <| control_mode := toCtrlMode mode |>.
Definition onBatteryStatusImpl (energy_level : float32) (s : FrameState) : FrameState :=
  s <| battery_pct := fmul energy_level (f_of_Z 100) |>.
Definition onKinematicsStatusImpl (ax yaw lon lat : double) (s : FrameState) : FrameState :=
  s <| accel_mps2 := d_to_f ax |> <| yaw_rate := d_to_f yaw |>
    <| longitude := lon |> <| latitude := lat |>.
Definition onMotionStateImpl (state : Z) (s : FrameState) : FrameState :=
  s <| motion_state := toMotionState state |>.
Definition onTargetVelocityImpl (data : float32) (s : FrameState) : FrameState :=
  s <| target_speed_mps := data |>.
Definition onVelocityLimitImpl (max_velocity : float32) (s : FrameState) : FrameState :=
  s <| speed_limit_mps := max_velocity |>.
Definition onEtaImpl (distance time : double) (s : FrameState) : FrameState :=
  s <| remaining_distance_m := d_to_f distance |> <| remaining_time_s := d_to_f time |>.

(** The two nested loops over the groups and their elements: (red, green, yellow). *)
Fixpoint scan_elements (l : list TrafficLightElement) (rgy : bool * bool * bool) :
    bool * bool * bool :=
  match l with
  | [] => rgy
  | ele :: l' =>
    let '(red, green, yellow) := rgy in
    scan_elements l' (if decide (color ele = TLE_RED) then true else red,
                      if decide (color ele = TLE_GREEN) then true else green,
                      if decide (color ele = TLE_AMBER) then true else yellow)
  end.
Fixpoint scan_groups (l : list TrafficLightGroup) (rgy : bool * bool * bool) :
    bool * bool * bool :=
  match l with
  | [] => rgy
  | group :: l' => scan_groups l' (scan_elements (tl_elements group) rgy)
  end.
Definition onTrafficSignalsImpl (groups : list TrafficLightGroup) (s : FrameState) : FrameState :=
  let '(red, green, yellow) := scan_groups groups (false, false, false) in
  s <| traffic_light_red := red |> <| traffic_light_green := green |>
    <| traffic_light_yellow := yellow |>.

Definition is_vehicle (label : Z) : bool :=
  bool_decide (label = OC_CAR ∨ label = OC_TRUCK ∨ label = OC_BUS ∨ label = OC_TRAILER ∨
               label = OC_MOTORCYCLE).

(** (obstacle_count, pedestrian_count, vehicle_count), all uint32_t *)
Fixpoint count_objects (l : list PredictedObject) (opv : Z * Z * Z) : Z * Z * Z :=
  match l with
  | [] => opv
  | object :: l' =>
    match classification object with
    | [] => count_objects l' opv
    | c :: _ =>
      let '(o, p, v) := opv in
      count_objects l'
        (if is_vehicle (label c) then (u32_succ o, p, u32_succ v)
         else if decide (label c = OC_PEDESTRIAN) then (u32_succ o, u32_succ p, v)
         else (u32_succ o, p, v))
    end
  end.
Definition onObjectsImpl (objects : list PredictedObject) (s : FrameState) : FrameState :=
  let '(o, p, v) := count_objects objects (0, 0, 0)%Z in
  s <| obstacle_count := o |> <| pedestrian_count := p |> <| vehicle_count := v |>.

Definition surround_type (label : Z) : string :=
  if decide (label = OC_PEDESTRIAN) then "PEDESTRIAN"
  else if is_vehicle label then "VEHICLE"
  else "UNKNOWN".
Fixpoint surrounds (l : list PredictedObject) (acc : list vehicle_frame.SurroundObject) :
    list vehicle_frame.SurroundObject :=
  match l with
  | [] => acc
  | object :: l' =>
    match classification object with
    | [] => surrounds l' acc
    | c :: _ =>
      if fltb (existence_probability object) (flit 1 2) then surrounds l' acc
      else surrounds l'
             (acc ++ [vehicle_frame.mkSurroundObject
                        (d_to_f (pt_x (position (initial_pose object))))
                        (d_to_f (pt_y (position (initial_pose object))))
                        (d_to_f (initial_twist_x object)) (d_to_f (initial_twist_y object))
                        (surround_type (label c))])
    end
  end.
Definition onSurroundObjectsImpl (objects : list PredictedObject) (s : FrameState) : FrameState :=
  s <| surround_objects := surrounds objects [] |>.

Definition mrm_description (state : Z) : string :=
  if decide (state = MRM_NORMAL) then "Normal"
  else if decide (state = MRM_MRM_OPERATING) then "MRM Operating"
  else if decide (state = MRM_MRM_SUCCEEDED) then "MRM Succeeded"
  else if decide (state = MRM_MRM_FAILED) then "MRM Failed"
  else "Unknown".
Definition onMrmStateImpl (msg : RosMsgs.MrmState) (s : FrameState) : FrameState :=
  s <| is_active :=
         bool_decide (mrm_state_of msg ≠ MRM_NORMAL ∧ mrm_state_of msg ≠ MRM_UNKNOWN) |>
    <| mrm_behavior := toMrmState (mrm_behavior_of msg) |>
    <| description := mrm_description (mrm_state_of msg) |>.

(** The handler each ROS callback posts. *)
Definition handler (m : Msg) : FrameState → FrameState :=
  match m with
  | VelocityReport v => onVelocityImpl v
  | GearReport r => onGearImpl r
  | SteeringReport a => onSteeringImpl a
  | HazardLightsReport r => onHazardLightsImpl r
  | TurnIndicatorsReport r => onTurnIndicatorsImpl r
  | ControlModeReport r => onControlModeImpl r
  | BatteryStatus e => onBatteryStatusImpl e
  | VehicleKinematics ax yaw lon lat => onKinematicsStatusImpl ax yaw lon lat
  | MotionStateMsg st => onMotionStateImpl st
  | TargetVelocity d => onTargetVelocityImpl d
  | VelocityLimit v => onVelocityLimitImpl v
  | MissionRemaining d t => onEtaImpl d t
  | TrafficSignals gs => onTrafficSignalsImpl gs
  | Objects os => λ s, onObjectsImpl os (onSurroundObjectsImpl os s)
  | Mrm msg => onMrmStateImpl msg
  end.

(** ** Frames *)

(** buildFrame: [now] is the node's clock in nanoseconds, [seq] the counter. *)
Definition buildFrame (now seq : Z) (s : FrameState) : vehicle_frame.VehicleFrame :=
  {| vehicle_frame.vf_stamp_ns := now;
     vehicle_frame.vf_seq := seq;
     vehicle_frame.vf_velocity := vehicle_frame.mkVelocityData (speed_mps s) (speed_kmh s);
     vehicle_frame.vf_mrm :=
       vehicle_frame.mkMrmState (is_active s) (mrm_behavior s) (description s);
     vehicle_frame.vf_gear := gear s;
     vehicle_frame.vf_target_speed_mps := target_speed_mps s;
     vehicle_frame.vf_turn_signal := turn_signal s;
     vehicle_frame.vf_surround_objects := surround_objects s;
     vehicle_frame.vf_speed_limit_mps := speed_limit_mps s;
     vehicle_frame.vf_control_mode := control_mode s;
     vehicle_frame.vf_adas :=
       {| vehicle_frame.as_obstacle_count := 0;      (* not set *)
          vehicle_frame.as_traffic_light_red := traffic_light_red s;
          vehicle_frame.as_traffic_light_yellow := traffic_light_yellow s;
          vehicle_frame.as_traffic_light_green := traffic_light_green s;
          vehicle_frame.as_pedestrian_count := pedestrian_count s;
          vehicle_frame.as_vehicle_count := vehicle_count s |};
     vehicle_frame.vf_kinematics := vehicle_frame.mkKinematicsData (accel_mps2 s) (yaw_rate s);
     vehicle_frame.vf_motion_state := motion_state s;
     vehicle_frame.vf_steering_angle_deg := steering_angle_deg s;
     vehicle_frame.vf_battery_pct := battery_pct s;
     vehicle_frame.vf_hazard_on := hazard_on s;
     vehicle_frame.vf_metrics := None;                (* not set *)
     vehicle_frame.vf_eta :=
       vehicle_frame.mkEtaData (remaining_distance_m s) (remaining_time_s s) |}.

#[export] Instance ClusterBridge_ops : BridgeOps FrameState Z Msg vehicle_frame.VehicleFrame := {|
  bridge_handle _ := handler;
  bridge_refresh _ s := s;
  bridge_frame now seq s := Some (buildFrame now seq s)
|}.

Definition ClusterBridge : Type := Bridge FrameState Msg.
Definition ClusterBridge_new : ClusterBridge := Bridge_new FrameState_default.

(** ** The operations of the bridge *)
Definition BridgeOp : Type :=
  BridgeM (St := FrameState) (Env := Z) (Msg := Msg) (Frame := vehicle_frame.VehicleFrame) unit.
Definition scheduleNextTick : BridgeOp := FrameBridge.scheduleNextTick.
Definition onTick (e : Z) : BridgeOp := FrameBridge.onTick e.
Definition shutdown : BridgeOp := FrameBridge.shutdown.
(** The ROS callbacks: each posts the handler of its message. *)
Definition receive (m : Msg) : BridgeOp := post (Handle m).
End Definitions.

(** ** Laws *)

(** The subscription a message comes from, by its position in the constructor. *)
Definition topic (m : Msg) : nat :=
  match m with
  | VelocityReport _ => 0 | GearReport _ => 1 | SteeringReport _ => 2 | HazardLightsReport _ => 3
  | TurnIndicatorsReport _ => 4 | ControlModeReport _ => 5 | BatteryStatus _ => 6
  | VehicleKinematics _ _ _ _ => 7 | MotionStateMsg _ => 8 | TargetVelocity _ => 9
  | VelocityLimit _ => 10 | MissionRemaining _ _ => 11 | TrafficSignals _ => 12 | Objects _ => 13
  | Mrm _ => 14
  end.

#[export] Instance ClusterBridge_laws `{AutowareMsgs} : BridgeLaws ClusterBridge_ops nat topic.
Proof.
  split; [..|done|done].
  - intros e e' [] [] s [=]; destruct s; cbn;
      unfold onTrafficSignalsImpl, onObjectsImpl; repeat case_match; done.
  - intros e e' [] [] s Hne; try done; destruct s; cbn;
      unfold onTrafficSignalsImpl, onObjectsImpl; repeat case_match; done.
Qed.
End Cluster.
