(* ===== verification/PlanningBridge.v ===== *)
(** * PlanningBridge: the planner's frame

    [src/planning_bridge/].  Ten topics are folded into one [PlanningFrameState]; a frame of it is
    published on "autoware/planning". *)

From S2P Require Export RosMsgs Frames Bridge.

Module Planning.
Import FrameBridge.

(** FrameStates.h *)
Record PlanningFrameState := mkPlanningFrameState {
  trajectory_points : list vehicle_frame.TrajectoryPoint;
  lane_trajectory : list vehicle_frame.TrajectoryPoint;
  full_route : vehicle_frame.FullRoute;
  velocity_factors : list vehicle_frame.VelocityFactor;
  steering_factors : list vehicle_frame.SteeringFactor;
  target_speed_mps : float32;
  max_speed_mps : float32;
  eta_data : vehicle_frame.EtaData;
  routing_state : vehicle_frame.RoutingState;
  scenario_state : vehicle_frame.ScenarioState
}.
#[export] Instance PlanningFrameState_eta : Eta PlanningFrameState := λ s,
  mkPlanningFrameState (trajectory_points s) (lane_trajectory s) (full_route s)
    (velocity_factors s) (steering_factors s) (target_speed_mps s) (max_speed_mps s) (eta_data s)
    (routing_state s) (scenario_state s).

Definition PlanningFrameState_default : PlanningFrameState :=
  {| trajectory_points := []; lane_trajectory := [];
     full_route := vehicle_frame.FullRoute_default; velocity_factors := [];
     steering_factors := []; target_speed_mps := f0; max_speed_mps := f0;
     eta_data := vehicle_frame.EtaData_default;
     routing_state := vehicle_frame.RoutingState_default;
     scenario_state := vehicle_frame.ScenarioState_default |}.

Inductive Msg : Type :=
  | TrajectoryMsg (points : list TrajectoryPoint)
  | RouteMsg (route : LaneletRoute)
  | LaneTrajectoryMsg (points : list TrajectoryPoint)
  | VelocityFactorArray (factors : list VelocityFactor)
  | SteeringFactorArray (factors : list SteeringFactor)
  | TargetVelocity (data : float32)
  | VelocityLimit (max_velocity : float32)
  | MissionRemaining (remaining_distance remaining_time : double)
  | RouteStateMsg (state : Z)
  | Scenario (current_scenario : string) (activating_scenarios : list string).

Section Definitions.
Context `{AutowareMsgs}.

(** ** Conversions *)
Definition toVelocityFactorStatus (v : Z) : vehicle_frame.VelocityFactorStatus :=
  if decide (v = VF_APPROACHING) then vehicle_frame.VELOCITY_APPROACHING
  else if decide (v = VF_STOPPED) then vehicle_frame.VELOCITY_STOPPED
  else vehicle_frame.VELOCITY_UNKNOWN.
Definition toSteeringDirection (v : Z) : vehicle_frame.SteeringDirection :=
  if decide (v = SF_LEFT) then vehicle_frame.STEERING_LEFT
  else if decide (v = SF_RIGHT) then vehicle_frame.STEERING_RIGHT
  else if decide (v = SF_STRAIGHT) then vehicle_frame.STEERING_STRAIGHT
  else vehicle_frame.STEERING_UNKNOWN.
Definition toSteeringStatus (v : Z) : vehicle_frame.SteeringStatus :=
  if decide (v = SF_APPROACHING) then vehicle_frame.STEERING_STATUS_APPROACHING
  else if decide (v = SF_TURNING) then vehicle_frame.STEERING_STATUS_TURNING
  else vehicle_frame.STEERING_STATUS_UNKNOWN.
Definition toRouteState (v : Z) : vehicle_frame.RouteState :=
  if decide (v = RS_UNSET) then vehicle_frame.ROUTE_UNSET
  else if decide (v = RS_SET) then vehicle_frame.ROUTE_SET
  else if decide (v = RS_ARRIVED) then vehicle_frame.ROUTE_ARRIVED
  else if decide (v = RS_CHANGING) then vehicle_frame.ROUTE_CHANGING
  else vehicle_frame.ROUTE_UNKNOWN.

(** ** Handlers

    The loops build one element at a time and push it at the back. *)
Definition to_pose (p : Point) : vehicle_frame.Pose :=
  vehicle_frame.mkPose (pt_x p) (pt_y p) (pt_z p).

Definition to_trajectory_point (point : TrajectoryPoint) : vehicle_frame.TrajectoryPoint :=
  let p := position (tp_pose point) in
  vehicle_frame.mkTrajectoryPoint (pt_x p) (pt_y p) (pt_z p) (longitudinal_velocity_mps point).
Fixpoint push_points (l : list TrajectoryPoint) (acc : list vehicle_frame.TrajectoryPoint) :
    list vehicle_frame.TrajectoryPoint :=
  match l with
  | [] => acc
  | point :: l' => push_points l' (acc ++ [to_trajectory_point point])
  end.
Definition onTrajectoryPointImpl (points : list TrajectoryPoint) (s : PlanningFrameState) :
    PlanningFrameState :=
  s <| trajectory_points := push_points points [] |>.
Definition onTrajectoryLaneImpl (points : list TrajectoryPoint) (s : PlanningFrameState) :
    PlanningFrameState :=
  s <| lane_trajectory := push_points points [] |>.

Definition to_primitive (p : LaneletPrimitive) : vehicle_frame.LaneletPrimitive :=
  vehicle_frame.mkLaneletPrimitive (prim_id p) (primitive_type p).
Fixpoint push_primitives (l : list LaneletPrimitive)
    (acc : list vehicle_frame.LaneletPrimitive) : list vehicle_frame.LaneletPrimitive :=
  match l with
  | [] => acc
  | prim :: l' => push_primitives l' (acc ++ [to_primitive prim])
  end.
Fixpoint push_segments (l : list LaneletSegment) (acc : list vehicle_frame.LaneletSegment) :
    list vehicle_frame.LaneletSegment :=
  match l with
  | [] => acc
  | seg :: l' =>
    push_segments l'
      (acc ++ [vehicle_frame.mkLaneletSegment (to_primitive (preferred_primitive seg))
                 (push_primitives (primitives seg) [])])
  end.
Definition onFullRouteImpl (route : LaneletRoute) (s : PlanningFrameState) :
    PlanningFrameState :=
  s <| full_route :=
         vehicle_frame.mkFullRoute (Some (to_pose (position (start_pose route))))
           (Some (to_pose (position (goal_pose route)))) (push_segments (segments route) []) |>.

Fixpoint push_velocity_factors (l : list VelocityFactor)
    (acc : list vehicle_frame.VelocityFactor) : list vehicle_frame.VelocityFactor :=
  match l with
  | [] => acc
  | factor :: l' =>
    push_velocity_factors l'
      (acc ++ [vehicle_frame.mkVelocityFactor (vfm_behavior factor)
                 (to_pose (position (vfm_pose factor)))
                 (toVelocityFactorStatus (vfm_status factor))])
  end.
Definition onVelocityFactorImpl (factors : list VelocityFactor) (s : PlanningFrameState) :
    PlanningFrameState :=
  s <| velocity_factors := push_velocity_factors factors [] |>.

(** Of the two poses of a steering factor the first is shown. *)
Fixpoint push_steering_factors (l : list SteeringFactor)
    (acc : list vehicle_frame.SteeringFactor) : list vehicle_frame.SteeringFactor :=
  match l with
  | [] => acc
  | factor :: l' =>
    push_steering_factors l'
      (acc ++ [{| vehicle_frame.sf_direction := toSteeringDirection (sfm_direction factor);
                  vehicle_frame.sf_status := toSteeringStatus (sfm_status factor);
                  vehicle_frame.sf_reason := sfm_behavior factor;
                  vehicle_frame.sf_pose := to_pose (position (sfm_pose factor).1) |}])
  end.
Definition onSteeringFactorImpl (factors : list SteeringFactor) (s : PlanningFrameState) :
    PlanningFrameState :=
  s <| steering_factors := push_steering_factors factors [] |>.

Definition onTargetVelocityImpl (data : float32) (s : PlanningFrameState) : PlanningFrameState :=
  s <| target_speed_mps := data |>.
Definition onVelocityLimitImpl (max_velocity : float32) (s : PlanningFrameState) :
    PlanningFrameState := s <| max_speed_mps := max_velocity |>.
Definition onEtaImpl (distance time : double) (s : PlanningFrameState) : PlanningFrameState :=
  s <| eta_data := vehicle_frame.mkEtaData (d_to_f distance) (d_to_f time) |>.
Definition onRouteStateImpl (state : Z) (s : PlanningFrameState) : PlanningFrameState :=
  s <| routing_state := vehicle_frame.mkRoutingState (toRouteState state) |>.
Definition onScenarioStateImpl (current : string) (activating : list string)
    (s : PlanningFrameState) : PlanningFrameState :=
  s <| scenario_state := vehicle_frame.mkScenarioState current activating |>.

(** The handler each ROS callback posts. *)
Definition handler (m : Msg) : PlanningFrameState → PlanningFrameState :=
  match m with
  | TrajectoryMsg ps => onTrajectoryPointImpl ps
  | RouteMsg r => onFullRouteImpl r
  | LaneTrajectoryMsg ps => onTrajectoryLaneImpl ps
  | VelocityFactorArray fs => onVelocityFactorImpl fs
  | SteeringFactorArray fs => onSteeringFactorImpl fs
  | TargetVelocity d => onTargetVelocityImpl d
  | VelocityLimit v => onVelocityLimitImpl v
  | MissionRemaining d t => onEtaImpl d t
  | RouteStateMsg st => onRouteStateImpl st
  | Scenario cur act => onScenarioStateImpl cur act
  end.

(** ** Frames *)
Definition buildFrame (now seq : Z) (s : PlanningFrameState) : vehicle_frame.PlanningFrame :=
  {| vehicle_frame.pf_stamp_ns := now;
     vehicle_frame.pf_seq := seq;
     vehicle_frame.pf_trajectory_points := trajectory_points s;
     vehicle_frame.pf_lane_trajectory := lane_trajectory s;
     vehicle_frame.pf_full_route := full_route s;
     vehicle_frame.pf_velocity_factors := velocity_factors s;
     vehicle_frame.pf_steering_factors := steering_factors s;
     vehicle_frame.pf_target_speed_mps := target_speed_mps s;
     vehicle_frame.pf_max_speed_mps := max_speed_mps s;
     vehicle_frame.pf_eta := eta_data s;
     vehicle_frame.pf_routing_state := routing_state s;
     vehicle_frame.pf_scenario_state := scenario_state s |}.

#[export] Instance PlanningBridge_ops :
    BridgeOps PlanningFrameState Z Msg vehicle_frame.PlanningFrame := {|
  bridge_handle _ := handler;
  bridge_refresh _ s := s;
  bridge_frame now seq s := Some (buildFrame now seq s)
|}.

Definition PlanningBridge : Type := Bridge PlanningFrameState Msg.
Definition PlanningBridge_new : PlanningBridge := Bridge_new PlanningFrameState_default.

(** ** The operations of the bridge *)
Definition BridgeOp : Type :=
  BridgeM (St := PlanningFrameState) (Env := Z) (Msg := Msg) (Frame := vehicle_frame.PlanningFrame) unit.
Definition scheduleNextTick : BridgeOp := FrameBridge.scheduleNextTick.
Definition onTick (e : Z) : BridgeOp := FrameBridge.onTick e.
Definition shutdown : BridgeOp := FrameBridge.shutdown.
(** The ROS callbacks: each posts the handler of its message. *)
Definition receive (m : Msg) : BridgeOp := post (Handle m).
End Definitions.

(** ** Laws *)
Definition topic (m : Msg) : nat :=
  match m with
  | TrajectoryMsg _ => 0 | RouteMsg _ => 1 | LaneTrajectoryMsg _ => 2 | VelocityFactorArray _ => 3
  | SteeringFactorArray _ => 4 | TargetVelocity _ => 5 | VelocityLimit _ => 6
  | MissionRemaining _ _ => 7 | RouteStateMsg _ => 8 | Scenario _ _ => 9
  end.

#[export] Instance PlanningBridge_laws `{AutowareMsgs} : BridgeLaws PlanningBridge_ops nat topic.
Proof.
  split; [..|done|done].
  - by intros e e' [] [] s [=].
  - intros e e' [] [] s Hne; by try contradiction.
Qed.
End Planning.
