(* ===== verification/TripBridge.v ===== *)
(** * TripBridge: the trip frame

    [src/trip_bridge/].  Five topics and, at every tick, the status of the trip controller and the
    age of the last heartbeat go into one [TripFrameState]; a frame of it is published on
    "autoware/trip". *)

From S2P Require Export RosMsgs TripTypes Frames Bridge.

Module TripFrames.
Import FrameBridge.

(** FrameStates.h, without the nested record's members split up. *)
Record TripFrameState := mkTripFrameState {
  localization_state : vehicle_frame.LocalizationState;
  operation_mode : vehicle_frame.OperationMode;
  mrm_state : vehicle_frame.MrmState;
  system_alive : bool;
  components : list vehicle_frame.ComponentHealth;
  trip_state : vehicle_frame.TripState;
  start_lanelet_id : string;
  start_x : double; start_y : double; start_z : double;
  goal_lanelet_id : string;
  goal_x : double; goal_y : double; goal_z : double;
  goal_distance_m : double
}.
#[export] Instance TripFrameState_eta : Eta TripFrameState := λ s,
  mkTripFrameState (localization_state s) (operation_mode s) (mrm_state s) (system_alive s)
    (components s) (trip_state s) (start_lanelet_id s) (start_x s) (start_y s) (start_z s)
    (goal_lanelet_id s) (goal_x s) (goal_y s) (goal_z s) (goal_distance_m s).

Definition TripFrameState_default : TripFrameState :=
  {| localization_state := vehicle_frame.LOCALIZATION_STATE_UNKNOWN;
     operation_mode := vehicle_frame.OPERATION_MODE_UNKNOWN;
     mrm_state := vehicle_frame.MrmState_default; system_alive := false; components := [];
     trip_state := vehicle_frame.TRIP_IDLE; start_lanelet_id := ""; start_x := d0; start_y := d0;
     start_z := d0; goal_lanelet_id := ""; goal_x := d0; goal_y := d0; goal_z := d0;
     goal_distance_m := d0 |}.

(** The members the handlers change. *)
Record TripBody := mkTripBody {
  frame_state : TripFrameState;            (* state_ *)
  last_heartbeat_time_ : Z                 (* nanoseconds *)
}.
#[export] Instance TripBody_eta : Eta TripBody := λ b,
  mkTripBody (frame_state b) (last_heartbeat_time_ b).

Inductive Msg : Type :=
  | LocalizationMsg (state : Z)
  | OperationModeMsg (mode : Z)
  | Mrm (msg : RosMsgs.MrmState)
  | Heartbeat
  | DiagState (diags : list DiagNode).

(** What a task reads from outside: node_->now(), asked again for the stamp, and
    controller_->getTripStatusSync(). *)
Record Surroundings := mkSurroundings { now : Z; stamp_now : Z; status : TripStatus }.

Section Definitions.
Context `{AutowareMsgs}.

(** ** Conversions *)
Definition toLocalizationState (v : Z) : vehicle_frame.LocalizationState :=
  if decide (v = LIS_UNINITIALIZED) then vehicle_frame.LOCALIZATION_STATE_UNINITIALIZED
  else if decide (v = LIS_INITIALIZING) then vehicle_frame.LOCALIZATION_STATE_INITIALIZING
  else if decide (v = LIS_INITIALIZED) then vehicle_frame.LOCALIZATION_STATE_INITIALIZED
  else vehicle_frame.LOCALIZATION_STATE_UNKNOWN.
Definition toOperationMode (v : Z) : vehicle_frame.OperationMode :=
  if decide (v = OM_STOP) then vehicle_frame.OPERATION_MODE_STOP
  else if decide (v = OM_AUTONOMOUS) then vehicle_frame.OPERATION_MODE_AUTONOMOUS
  else if decide (v = OM_LOCAL) then vehicle_frame.OPERATION_MODE_LOCAL
  else if decide (v = OM_REMOTE) then vehicle_frame.OPERATION_MODE_REMOTE
  else vehicle_frame.OPERATION_MODE_UNKNOWN.
Definition toDiagLevel (v : Z) : vehicle_frame.DiagLevel :=
  match v with
  | 0 => vehicle_frame.DIAG_OK
  | 1 => vehicle_frame.DIAG_WARN
  | 2 => vehicle_frame.DIAG_ERROR
  | _ => vehicle_frame.DIAG_STALE
  end%Z.
Definition toMrmBehavior (v : Z) : vehicle_frame.MrmBehavior :=
  if decide (v = MRM_EMERGENCY_STOP) then vehicle_frame.MRM_EMERGENCY_STOP
  else if decide (v = MRM_PULL_OVER) then vehicle_frame.MRM_PULL_OVER
  else vehicle_frame.MRM_NONE.
Definition toTripState (v : TripState.t) : vehicle_frame.TripState :=
  match v with
  | TripState.IDLE => vehicle_frame.TRIP_IDLE
  | TripState.PUBLISHING_INITIAL_POSE => vehicle_frame.TRIP_PUBLISHING_INITIAL_POSE
  | TripState.WAITING_LOCALISATION => vehicle_frame.TRIP_WAITING_LOCALISATION
  | TripState.QUERY_PUBLISHING_GOAL => vehicle_frame.TRIP_PUBLISHING_GOAL
  | TripState.QUERY_WAITING_ROUTE => vehicle_frame.TRIP_WAITING_ROUTE
  | TripState.ENGAGING => vehicle_frame.TRIP_ENGAGING
  | TripState.RUNNING => vehicle_frame.TRIP_RUNNING
  | TripState.COMPLETED => vehicle_frame.TRIP_COMPLETED
  | TripState.FAILED => vehicle_frame.TRIP_FAILED
  | _ => vehicle_frame.TRIP_IDLE
  end.

(** ** Handlers *)
Definition on_state (f : TripFrameState → TripFrameState) (b : TripBody) : TripBody :=
  b <| frame_state ::= f |>.

Definition onLocalizationStateImpl (state : Z) : TripBody → TripBody :=
  on_state (λ s, s <| localization_state := toLocalizationState state |>).
Definition onOperationModeImpl (mode : Z) : TripBody → TripBody :=
  on_state (λ s, s <| operation_mode := toOperationMode mode |>).

Definition mrm_description (state : Z) : string :=
  if decide (state = MRM_NORMAL) then "Normal"
  else if decide (state = MRM_MRM_OPERATING) then "MRM Operating"
  else if decide (state = MRM_MRM_SUCCEEDED) then "MRM Succeeded"
  else if decide (state = MRM_MRM_FAILED) then "MRM Failed"
  else "Unknown".
Definition onMrmStateImpl (msg : RosMsgs.MrmState) : TripBody → TripBody :=
  on_state (λ s, s <| mrm_state :=
    {| vehicle_frame.ms_is_active :=
         bool_decide (mrm_state_of msg ≠ MRM_NORMAL ∧ mrm_state_of msg ≠ MRM_UNKNOWN);
       vehicle_frame.ms_behavior := toMrmBehavior (mrm_behavior_of msg);
       vehicle_frame.ms_description := mrm_description (mrm_state_of msg) |} |>).

Definition onHeartbeatImpl (now : Z) (b : TripBody) : TripBody :=
  on_state (λ s, s <| system_alive := true |>) (b <| last_heartbeat_time_ := now |>).

Fixpoint push_components (l : list DiagNode) (acc : list vehicle_frame.ComponentHealth) :
    list vehicle_frame.ComponentHealth :=
  match l with
  | [] => acc
  | diag :: l' =>
    if decide (hardware_id diag = "") then push_components l' acc
    else push_components l'
           (acc ++ [vehicle_frame.mkComponentHealth (hardware_id diag) (toDiagLevel (level diag))
                      (message diag)])
  end.
Definition onDiagStateImpl (diags : list DiagNode) : TripBody → TripBody :=
  on_state (λ s, s <| components := push_components diags [] |>).

(** The handler each ROS callback posts. *)
Definition handler (e : Surroundings) (m : Msg) : TripBody → TripBody :=
  match m with
  | LocalizationMsg st => onLocalizationStateImpl st
  | OperationModeMsg mode => onOperationModeImpl mode
  | Mrm msg => onMrmStateImpl msg
  | Heartbeat => onHeartbeatImpl (now e)
  | DiagState diags => onDiagStateImpl diags
  end.

(** ** Frames *)

(** rclcpp::Duration::seconds() of a difference of two times in nanoseconds. *)
Definition seconds (ns : Z) : double := ddiv (d_of_Z ns) (d_of_Z 1000000000).

(** onTick, before it builds the frame. *)
Definition refresh (e : Surroundings) (b : TripBody) : TripBody :=
  let dur := seconds (now e - last_heartbeat_time_ b) in
  let st := status e in
  on_state (λ s,
    s <| system_alive := dltb dur d1 |>
      <| trip_state := toTripState (state_ st) |>
      <| start_lanelet_id := start_lanelet_id_ st |>
      <| start_x := start_x_ st |> <| start_y := start_y_ st |> <| start_z := start_z_ st |>
      <| goal_lanelet_id := goal_lanelet_id_ st |>
      <| goal_x := goal_x_ st |> <| goal_y := goal_y_ st |> <| goal_z := goal_z_ st |>
      <| goal_distance_m := goal_distance_m_ st |>) b.

Definition buildFrame (stamp seq : Z) (s : TripFrameState) : vehicle_frame.TripFrame :=
  {| vehicle_frame.tf_stamp_ns := stamp;
     vehicle_frame.tf_seq := seq;
     vehicle_frame.tf_localization_state := localization_state s;
     vehicle_frame.tf_operation_mode := operation_mode s;
     vehicle_frame.tf_mrm_state := mrm_state s;
     vehicle_frame.tf_system_alive := system_alive s;
     vehicle_frame.tf_component_health := components s;
     vehicle_frame.tf_trip_state := trip_state s;
     vehicle_frame.tf_start_lanelet_id := start_lanelet_id s;
     vehicle_frame.tf_start_x := start_x s;
     vehicle_frame.tf_start_y := start_y s;
     vehicle_frame.tf_start_z := start_z s;
     vehicle_frame.tf_goal_lanelet_id := goal_lanelet_id s;
     vehicle_frame.tf_goal_x := goal_x s;
     vehicle_frame.tf_goal_y := goal_y s;
     vehicle_frame.tf_goal_z := goal_z s;
     vehicle_frame.tf_goal_lat := d0;                 (* not set *)
     vehicle_frame.tf_goal_lon := d0;                 (* not set *)
     vehicle_frame.tf_goal_distance_m := goal_distance_m s |}.

#[export] Instance TripBridge_ops :
    BridgeOps TripBody Surroundings Msg vehicle_frame.TripFrame := {|
  bridge_handle := handler;
  bridge_refresh := refresh;
  bridge_frame e seq b := Some (buildFrame (stamp_now e) seq (frame_state b))
|}.

Definition TripBridge : Type := Bridge TripBody Msg.
Definition TripBody_new (constructed_at : Z) : TripBody :=
  mkTripBody TripFrameState_default constructed_at.
Definition TripBridge_new (constructed_at : Z) : TripBridge :=
  Bridge_new (TripBody_new constructed_at).

(** ** The operations of the bridge *)
Definition BridgeOp : Type :=
  BridgeM (St := TripBody) (Env := Surroundings) (Msg := Msg) (Frame := vehicle_frame.TripFrame) unit.
Definition scheduleNextTick : BridgeOp := FrameBridge.scheduleNextTick.
Definition onTick (e : Surroundings) : BridgeOp := FrameBridge.onTick e.
Definition shutdown : BridgeOp := FrameBridge.shutdown.
(** The ROS callbacks: each posts the handler of its message. *)
Definition receive (m : Msg) : BridgeOp := post (Handle m).
End Definitions.

(** ** Laws *)
Definition topic (m : Msg) : nat :=
  match m with
  | LocalizationMsg _ => 0 | OperationModeMsg _ => 1 | Mrm _ => 2 | Heartbeat => 3
  | DiagState _ => 4
  end.

#[export] Instance TripBridge_laws `{AutowareMsgs} : BridgeLaws TripBridge_ops nat topic.
Proof.
  split.
  - by intros e e' [] [] s [=].
  - intros e e' [] [] s Hne; by try contradiction.
  - done.
  - by intros e e' e'' [] s.
Qed.
End TripFrames.
