(* ===== verification/PerceptionBridge.v ===== *)
(** * PerceptionBridge: the perception frame

    [src/perception_bridge/].  Objects, obstacle points, the occupancy grid and traffic lights go
    into one [PerceptionFrameState]; a frame of it is published on "autoware/perception".  The
    point cloud library and std::atan2 are parameters. *)

From S2P Require Export RosMsgs Frames Bridge.

(** pcl, and the part of libm the bridge uses. *)
Class Pcl : Type := {
  PointCloud2 : Type;                                  (* sensor_msgs/PointCloud2 *)
  PointXYZ : Type := (float32 * float32 * float32)%type;
  fromROSMsg : PointCloud2 → list PointXYZ;
  (* VoxelGrid::filter for a leaf size *)
  voxel_filter : float32 → list PointXYZ → list PointXYZ;
  atan2_of : double → double → double                  (* std::atan2 *)
}.

Module Perception.
Import FrameBridge.

(** FrameStates.h *)
Record PerceptionFrameState := mkPerceptionFrameState {
  surrounding_objects : list vehicle_frame.SurroundingObject;
  points_cloud : list vehicle_frame.PointCloud;
  occupancy_grid : vehicle_frame.OccupancyGrid;
  traffic_lights : list vehicle_frame.TrafficLight
}.
#[export] Instance PerceptionFrameState_eta : Eta PerceptionFrameState := λ s,
  mkPerceptionFrameState (surrounding_objects s) (points_cloud s) (occupancy_grid s)
    (traffic_lights s).

Definition PerceptionFrameState_default : PerceptionFrameState :=
  mkPerceptionFrameState [] [] vehicle_frame.OccupancyGrid_default [].

Section Definitions.
Context `{AutowareMsgs} `{Pcl}.

Inductive Msg : Type :=
  | Objects (objects : list PredictedObject)
  | Cloud (msg : PointCloud2)
  | Grid (msg : OccupancyGrid)
  | TrafficSignals (traffic_light_groups : list TrafficLightGroup).

(** ** Conversions *)
Definition toObjectClass (v : Z) : vehicle_frame.ObjectClass :=
  if decide (v = OC_CAR) then vehicle_frame.CAR
  else if decide (v = OC_TRUCK) then vehicle_frame.TRUCK
  else if decide (v = OC_BUS) then vehicle_frame.BUS
  else if decide (v = OC_TRAILER) then vehicle_frame.TRAILER
  else if decide (v = OC_MOTORCYCLE) then vehicle_frame.MOTORCYCLE
  else if decide (v = OC_BICYCLE) then vehicle_frame.BICYCLE
  else if decide (v = OC_PEDESTRIAN) then vehicle_frame.PEDESTRIAN
  else if decide (v = OC_ANIMAL) then vehicle_frame.ANIMAL
  else vehicle_frame.UNKNOWN.
Definition toTrafficLightColor (v : Z) : vehicle_frame.TrafficLightColor :=
  if decide (v = TLE_RED) then vehicle_frame.TRAFFIC_LIGHT_RED
  else if decide (v = TLE_AMBER) then vehicle_frame.TRAFFIC_LIGHT_AMBER
  else if decide (v = TLE_GREEN) then vehicle_frame.TRAFFIC_LIGHT_GREEN
  else vehicle_frame.TRAFFIC_LIGHT_UNKNOWN.

(** ** Handlers *)

(** The heading of an orientation; the literals 2.0F and 1.0F are exact as doubles. *)
Definition heading (h : Quaternion) : float32 :=
  let d2 := d_of_Z 2 in
  d_to_f (atan2_of (dmul d2 (dadd (dmul (q_w h) (q_z h)) (dmul (q_x h) (q_y h))))
                   (dsub d1 (dmul d2 (dadd (dmul (q_y h) (q_y h)) (dmul (q_z h) (q_z h)))))).

(** object_pose has double fields: the narrowed coordinates are widened again. *)
Definition to_object (id label : Z) (object : PredictedObject) :
    vehicle_frame.SurroundingObject :=
  let d := dimensions object in
  let p := position (initial_pose object) in
  {| vehicle_frame.ob_id := id;
     vehicle_frame.ob_class := toObjectClass label;
     vehicle_frame.ob_bounding_box :=
       {| vehicle_frame.bb_length := d_to_f (pt_x d);
          vehicle_frame.bb_height := d_to_f (pt_z d);
          vehicle_frame.bb_width := d_to_f (pt_y d) |};
     vehicle_frame.ob_velocity :=
       vehicle_frame.mkObjectVelocity (d_to_f (initial_twist_x object))
         (d_to_f (initial_twist_y object));
     vehicle_frame.ob_heading := heading (orientation (initial_pose object));
     vehicle_frame.ob_pose :=
       vehicle_frame.mkPose (f_to_d (d_to_f (pt_x p))) (f_to_d (d_to_f (pt_y p)))
         (f_to_d (d_to_f (pt_z p))) |}.

Fixpoint push_objects (l : list PredictedObject) (acc : list vehicle_frame.SurroundingObject) :
    list vehicle_frame.SurroundingObject :=
  match l with
  | [] => acc
  | object :: l' =>
    match classification object with
    | [] => push_objects l' acc
    | c :: _ =>
      if fltb (existence_probability object) (flit 1 2) then push_objects l' acc
      else push_objects l'
             (acc ++ [to_object (wrap 32 (Z.of_nat (length acc))) (label c) object])
    end
  end.
Definition onSurroundingObjectImpl (objects : list PredictedObject)
    (s : PerceptionFrameState) : PerceptionFrameState :=
  s <| surrounding_objects := push_objects objects [] |>.

Fixpoint push_points (l : list PointXYZ) (acc : list vehicle_frame.PointCloud) :
    list vehicle_frame.PointCloud :=
  match l with
  | [] => acc
  | (x, y, z) :: l' =>
    if negb (is_finite x) || negb (is_finite y) || negb (is_finite z) then push_points l' acc
    else push_points l'
           (acc ++ [vehicle_frame.mkPointCloud
                      (vehicle_frame.mkPose (f_to_d x) (f_to_d y) (f_to_d z))])
  end.
Definition onPointCloudImpl (msg : PointCloud2) (s : PerceptionFrameState) :
    PerceptionFrameState :=
  s <| points_cloud := push_points (voxel_filter (flit 2 10) (fromROSMsg msg)) [] |>.

(** The cells are int8_t. *)
Definition to_cell (c : Z) : vehicle_frame.CellState :=
  if decide (c = -1)%Z then vehicle_frame.CELL_UNKNOWN
  else if decide (c < 50)%Z then vehicle_frame.CELL_FREE
  else vehicle_frame.CELL_OCCUPIED.
Fixpoint push_cells (l : list Z) (acc : list vehicle_frame.CellState) :
    list vehicle_frame.CellState :=
  match l with
  | [] => acc
  | c :: l' => push_cells l' (acc ++ [to_cell c])
  end.
Definition onOccupancyGridImpl (msg : OccupancyGrid) (s : PerceptionFrameState) :
    PerceptionFrameState :=
  s <| occupancy_grid :=
    {| vehicle_frame.og_resolution := resolution msg;
       vehicle_frame.og_width := width msg;
       vehicle_frame.og_height := height msg;
       vehicle_frame.og_origin_x := d_to_f (pt_x (origin_position msg));
       vehicle_frame.og_origin_y := d_to_f (pt_y (origin_position msg));
       vehicle_frame.og_grid_data := push_cells (data msg) [] |} |>.

(** std::ranges::max_element by confidence: the first element no later one exceeds. *)
Fixpoint max_element (l : list TrafficLightElement) (best : TrafficLightElement) :
    TrafficLightElement :=
  match l with
  | [] => best
  | e :: l' => max_element l' (if fltb (confidence best) (confidence e) then e else best)
  end.
Fixpoint push_lights (l : list TrafficLightGroup) (acc : list vehicle_frame.TrafficLight) :
    list vehicle_frame.TrafficLight :=
  match l with
  | [] => acc
  | group :: l' =>
    match tl_elements group with
    | [] => push_lights l' acc
    | e :: es =>
      let maxx := max_element es e in
      push_lights l'
        (acc ++ [vehicle_frame.mkTrafficLight (traffic_light_group_id group) (confidence maxx)
                   (toTrafficLightColor (color maxx))])
    end
  end.
Definition onTrafficSignalImpl (groups : list TrafficLightGroup) (s : PerceptionFrameState) :
    PerceptionFrameState := s <| traffic_lights := push_lights groups [] |>.

(** The handler each ROS callback posts. *)
Definition handler (m : Msg) : PerceptionFrameState → PerceptionFrameState :=
  match m with
  | Objects os => onSurroundingObjectImpl os
  | Cloud msg => onPointCloudImpl msg
  | Grid msg => onOccupancyGridImpl msg
  | TrafficSignals gs => onTrafficSignalImpl gs
  end.

(** ** Frames *)
Definition buildFrame (now seq : Z) (s : PerceptionFrameState) : vehicle_frame.PerceptionFrame :=
  {| vehicle_frame.pe_stamp_ns := now;
     vehicle_frame.pe_seq := seq;
     vehicle_frame.pe_surrounding_objects := surrounding_objects s;
     vehicle_frame.pe_points_cloud := points_cloud s;
     vehicle_frame.pe_occupancy_grid := occupancy_grid s;
     vehicle_frame.pe_traffic_lights := traffic_lights s |}.

#[export] Instance PerceptionBridge_ops :
    BridgeOps PerceptionFrameState Z Msg vehicle_frame.PerceptionFrame := {|
  bridge_handle _ := handler;
  bridge_refresh _ s := s;
  bridge_frame now seq s := Some (buildFrame now seq s)
|}.

Definition PerceptionBridge : Type := Bridge PerceptionFrameState Msg.
Definition PerceptionBridge_new : PerceptionBridge := Bridge_new PerceptionFrameState_default.

(** ** The operations of the bridge *)
Definition BridgeOp : Type :=
  BridgeM (St := PerceptionFrameState) (Env := Z) (Msg := Msg) (Frame := vehicle_frame.PerceptionFrame) unit.
Definition scheduleNextTick : BridgeOp := FrameBridge.scheduleNextTick.
Definition onTick (e : Z) : BridgeOp := FrameBridge.onTick e.
Definition shutdown : BridgeOp := FrameBridge.shutdown.
(** The ROS callbacks: each posts the handler of its message. *)
Definition receive (m : Msg) : BridgeOp := post (Handle m).

(** ** Laws *)
Definition topic (m : Msg) : nat :=
  match m with Objects _ => 0 | Cloud _ => 1 | Grid _ => 2 | TrafficSignals _ => 3 end.

#[export] Instance PerceptionBridge_laws : BridgeLaws PerceptionBridge_ops nat topic.
Proof.
  split; [..|done|done].
  - by intros e e' [] [] s [=].
  - intros e e' [] [] s Hne; by try contradiction.
Qed.
End Definitions.
End Perception.
