(* ===== verification/App.v ===== *)
(** * App: the agent as it is wired together

    [src/AutowareApp.cpp]: the node, the stream client with its adapters and the location bridge,
    and the closures between them.  The closures given to the node are known by the numbers below.
    Threads interleave as [AppAction]s; the reactions to what a component does are run with it.
    The cluster, planning, perception and trip bridges do not act on these components; [Agent] adds
    them. *)

From S2P Require Export AutowareController StreamClient LocationBridge.

Module App.
Import FrameBridge Controller Stream Location.

(** The constants of calculate_fare. *)
Definition BASE_FARE : double := d_of_Z 5.
Definition RATE_PER_KM : double := d_of_Z 2.
Definition RATE_PER_MIN : double := dlit 5 10.

Definition calculate_fare (distance_m time_seconds : double) : double :=
  let distance_km := ddiv distance_m (d_of_Z 1000) in
  let time_min := ddiv time_seconds (d_of_Z 60) in
  dadd (dadd BASE_FARE (dmul distance_km RATE_PER_KM)) (dmul time_min RATE_PER_MIN).

(** The closures the application gives to the node. *)
Definition eta_callback : nat := 0.
Definition start_callback : nat := 1.
Definition move_callback : nat := 2.
Definition location_callback : nat := 3.

Inductive AppEffect : Type :=
  | NodeEvent (e : Event)
  | StreamEffect (e : Effect)
  | LocationEffect (e : BridgeEvent Reading bool LocationJson)
  | LogError (line : string).

Section Definitions.
Context {Mp : Type} `{RouteMap Mp} `{Clocks} `{AutowareMsgs}.

Definition Client : Type := StreamClient AutowareControllerTripAdapter ClusterView ClusterView.

Record AppHandles := mkAppHandles {
  controller_ : Node Mp;
  stream_client_ : Client;
  location_bridge_ : LocationBridge
}.
#[export] Instance AppHandles_eta : Eta AppHandles := λ h,
  mkAppHandles (controller_ h) (stream_client_ h) (location_bridge_ h).

Definition AppOp (A : Type) : Type := M AppHandles AppEffect A.

(** ** The components inside the application *)

Definition tagged {A} (out : list A) (tag : A → AppEffect) : list AppEffect := tag <$> out.

Definition on_controller (op : NodeOp Mp unit) : AppOp (list Event) := λ h,
  match op (controller_ h) with
  | (Ret _, n, out) => (Ret out, h <| controller_ := n |>, NodeEvent <$> out)
  | (Throw e, n, out) => (Throw e, h <| controller_ := n |>, NodeEvent <$> out)
  end.

(** The adapters read the live objects: the controller's status and the request id, which the
    client and the cluster bridge share by reference. *)
Definition refresh (st : TripStatus) (c : Client) : Client :=
  c <| trip_manager_ ::= λ a, a <| status_of := st |> |>
    <| eta_provider_ ::= fmap (λ v, v <| request_id_ := current_request_id_ c |>) |>.

Definition on_client_with (st : TripStatus) (op : Stream.Op _ _ _ unit) : AppOp (list Effect) :=
  λ h,
  match op (refresh st (stream_client_ h)) with
  | (Ret _, c, out) => (Ret out, h <| stream_client_ := c |>, StreamEffect <$> out)
  | (Throw e, c, out) => (Throw e, h <| stream_client_ := c |>, StreamEffect <$> out)
  end.
Definition on_client (op : Stream.Op _ _ _ unit) : AppOp (list Effect) :=
  st ← gets (λ h, getTripStatusSync (controller_ h)); on_client_with st op.

Definition on_location (op : BridgeOp) : AppOp unit := λ h,
  let '(o, b, out) := op (location_bridge_ h) in
  (o, h <| location_bridge_ := b |>, LocationEffect <$> out).

Definition call (op : NodeOp Mp unit) : AppOp unit := on_controller op;; mret ().
Definition send (op : Stream.Op _ _ _ unit) : AppOp unit := on_client op;; mret ().
Definition send_at (st : TripStatus) (op : Stream.Op _ _ _ unit) : AppOp unit :=
  on_client_with st op;; mret ().

Fixpoint for_each {A} (f : A → AppOp unit) (l : list A) : AppOp unit :=
  match l with
  | [] => mret ()
  | a :: l' => f a;; for_each f l'
  end.

(** ** The command handlers *)

Definition on_trip_init (req : TripInitRequest) : AppOp unit :=
  call (queryEta (mkGPS (req_start_lat req) (req_start_long req))
                 (mkGPS (req_end_lat req) (req_end_long req)) (Some eta_callback)).

Definition on_trip_move : AppOp unit := call (handleMoveCommand (Some move_callback)).

Definition on_order_update_location : AppOp unit :=
  send (ReportOrderUpdateLocationAck true "");;
  call (getTripStatus (Some location_callback)).

Definition on_trip_cancel : AppOp unit :=
  call cancelTrip;;
  send (ReportTripCancelAck true "");;
  send (ReportStatus "CANCELLED").

Definition handle_effect (e : Effect) : AppOp unit :=
  match e with
  | Handler (TripInit req) => on_trip_init req
  | Handler (TripMove _ _) => on_trip_move
  | Handler (OrderUpdateLocation _) => on_order_update_location
  | Handler (TripCancel _ _) => on_trip_cancel
  | _ => mret ()
  end.

(** ** The callbacks given to the node *)

Definition total_distance (r : EtaQueryResult) : double :=
  dadd (leg_distance_m_ (pickup_leg_ r)) (leg_distance_m_ (trip_leg_ r)).
Definition total_eta (r : EtaQueryResult) : double :=
  dadd (leg_eta_seconds_ (pickup_leg_ r)) (leg_eta_seconds_ (trip_leg_ r)).
Definition trip_fare (r : EtaQueryResult) : double :=
  calculate_fare (leg_distance_m_ (trip_leg_ r)) (leg_eta_seconds_ (trip_leg_ r)).

Definition on_eta (r : EtaQueryResult) : AppOp unit :=
  if negb (success_ r) then
    emit (LogError ("[AutowareApp] queryEta failed: " +:+ error_message_ r))
  else
    send (ReportEta (total_distance r) (total_eta r) (trip_fare r));;
    call (startTrip (Some start_callback)).

Definition trip_state_callback (next : TripState.t) (st : TripStatus) : AppOp unit :=
  match next with
  | TripState.WAITING_FOR_MOVE =>
    send_at st ReportTripInitAck;;
    send_at st ReportArrive;;
    send_at st (ReportStatus "ARRIVED_AT_PICKUP");;
    on_location (setStreamingEnabled false)
  | TripState.DRIVING_TO_PICKUP => on_location (setStreamingEnabled true)
  | TripState.RUNNING => send_at st (ReportStatus "IN_PROGRESS")
  | TripState.COMPLETED =>
    send_at st ReportArrive;;
    send_at st (ReportStatus "COMPLETED")
  | TripState.FAILED => send_at st (ReportStatus "ERROR")
  | _ => mret ()
  end.

Definition on_status (st : TripStatus) : AppOp unit :=
  send (ReportLocation (latitude (current_gps_ st)) (longitude (current_gps_ st))).

Definition handle_event (e : Event) : AppOp unit :=
  match e with
  | EtaAnswer cb r => if decide (cb = eta_callback) then on_eta r else mret ()
  | StatusAnswer cb st => if decide (cb = location_callback) then on_status st else mret ()
  | Answer cb ok =>
    if ok then mret ()
    else if decide (cb = start_callback) then emit (LogError "[AutowareApp] startTrip rejected")
    else if decide (cb = move_callback) then emit (LogError "[AutowareApp] move rejected")
    else mret ()
  | TripStateChanged _ next st => trip_state_callback next st
  | _ => mret ()
  end.

(** The location bridge's position provider: none while the status has no position.  [st] is what
    getTripStatusSync yields on the bridge's thread, a copy made without a lock. *)
Definition gps_provider (st : TripStatus) : option (double * double) :=
  let g := current_gps_ st in
  if deqb (latitude g) d0 && deqb (longitude g) d0 then None
  else Some (latitude g, longitude g).

(** ** The running application *)
Inductive AppAction : Type :=
  | NodeTimer
  | NodeMessage (m : Message)
  | NodeRun (env : Surroundings)
  | ClientStep (a : StreamAction)          (* a step of one of the client's threads *)
  | LocationTimer
  | LocationRun (now : Z) (st : TripStatus)
      (* a turn of the location bridge's io thread, with the copy of the status *)
  | LocationShutdown.

Definition node_step (a : Action) : AppOp unit :=
  events ← on_controller (Controller.act a);
  for_each handle_event events.

(** The steps of the client's own threads; its reports are made by the handlers. *)
Definition client_step (a : StreamAction) : AppOp unit :=
  match a with
  | DoReport _ => mret ()
  | _ => effects ← on_client (Stream.act a); for_each handle_effect effects
  end.

Definition act (a : AppAction) : AppOp unit :=
  match a with
  | NodeTimer => node_step TimerFires
  | NodeMessage m => node_step (MessageArrives m)
  | NodeRun env => node_step (RunNext env)
  | ClientStep a => client_step a
  | LocationTimer => on_location (FrameBridge.act TimerExpires)
  | LocationRun now st =>
    h ← gets id;
    let e := {| read_now := now; gps := gps_provider st;
                trip_id := Some (GetActiveTripId (trip_manager_ (stream_client_ h))) |} in
    on_location (FrameBridge.act (StrandRuns e))
  | LocationShutdown => on_location (FrameBridge.act ShutdownCalled)
  end.

Definition after (l : list AppAction) (h : AppHandles) : AppHandles :=
  run_inputs (λ a, final (act a)) l h.

(** The components as constructed around a node, and their wiring. *)
Definition AppHandles_new (n : Node Mp) : AppHandles :=
  {| controller_ := n;
     stream_client_ :=
       StreamClient_new (mkTripAdapter TripStatus_default 0) (mkClusterView f0 d0 d0 0)
         (mkClusterView f0 d0 d0 0) "ORIN_NANO_001" 0;
     location_bridge_ := LocationBridge_new |}.

Definition wire : AppOp unit :=
  call initialize;;
  send set_handlers;;
  call (setTripStateCallback true).

(** The eta and the location adapter have no owner but locals of startAutowareApp; the client
    keeps the raw pointers.  Its return destroys both. *)
Definition destroy_locals (h : AppHandles) : AppHandles :=
  h <| stream_client_ ::= λ c, c <| eta_provider_ := None |> <| location_provider_ := None |> |>.
End Definitions.
Arguments AppHandles : clear implicits.
Arguments AppOp : clear implicits.

(** startAutowareApp up to its return.  The route search radius is what the node gets as its tick
    frequency. *)
Definition startAutowareApp_body `{Lanelet2} `{YamlCpp} `{Clocks} (exists_ : string → bool)
    (dirs : list string) (yaml_path : string) (controller_route_search_radius : double) :
    outcome (AppHandles LaneletMap) :=
  n ← AutowareController_new exists_ dirs yaml_path controller_route_search_radius;
  match wire (AppHandles_new n) with
  | (Ret _, h, _) => Ret h
  | (Throw e, _, _) => Throw e
  end.

Definition startAutowareApp `{Lanelet2} `{YamlCpp} `{Clocks} (exists_ : string → bool)
    (dirs : list string) (yaml_path : string) (controller_route_search_radius : double) :
    outcome (AppHandles LaneletMap) :=
  h ← startAutowareApp_body exists_ dirs yaml_path controller_route_search_radius;
  mret (destroy_locals h).
End App.
