(* ===== verification/Agent.v ===== *)
(** * Agent: the application together with its four frame bridges

    The rest of [src/AutowareApp.cpp].  The bridges share the node, the controller and the Zenoh
    session with the application of [App]: the adapters of the stream client read the cluster
    bridge's state, and the trip bridge copies the controller's status at every tick.  That copy is
    made without a lock on a thread of its own while the controller's handlers write, so what it
    yields comes with the action ([TripFrames.status]) and nothing is assumed of it. *)

From S2P Require Export App ClusterBridge PlanningBridge TripBridge PerceptionBridge.

Module Agent.
Import FrameBridge.
#[local] Existing Instances App.AppHandles_eta Stream.StreamClient_eta.

Inductive AgentEffect `{Pcl} : Type :=
  | AppOut (e : App.AppEffect)
  | ClusterOut (e : BridgeEvent Z Cluster.Msg vehicle_frame.VehicleFrame)
  | PlanningOut (e : BridgeEvent Z Planning.Msg vehicle_frame.PlanningFrame)
  | PerceptionOut (e : BridgeEvent Z Perception.Msg vehicle_frame.PerceptionFrame)
  | TripOut (e : BridgeEvent TripFrames.Surroundings TripFrames.Msg vehicle_frame.TripFrame).

Inductive AgentAction `{Pcl} : Type :=
  | AppDoes (a : App.AppAction)
  | ClusterDoes (a : BridgeAction Z Cluster.Msg)
  | PlanningDoes (a : BridgeAction Z Planning.Msg)
  | PerceptionDoes (a : BridgeAction Z Perception.Msg)
  | TripDoes (a : BridgeAction TripFrames.Surroundings TripFrames.Msg).

(** The handles of the running agent. *)
Record Handles `{Pcl} (Mp : Type) : Type := mkHandles {
  app : App.AppHandles Mp;
  cluster_bridge_ : Cluster.ClusterBridge;
  planning_bridge_ : Planning.PlanningBridge;
  perception_bridge_ : Perception.PerceptionBridge;
  trip_bridge_ : TripFrames.TripBridge
}.
Arguments mkHandles {_ Mp} _ _ _ _ _.
Arguments app {_ Mp} _.
Arguments cluster_bridge_ {_ Mp} _.
Arguments planning_bridge_ {_ Mp} _.
Arguments perception_bridge_ {_ Mp} _.
Arguments trip_bridge_ {_ Mp} _.

Section Definitions.
Context {Mp : Type} `{RouteMap Mp} `{Clocks} `{AutowareMsgs} `{Pcl}.
#[export] Instance Handles_eta : Eta (Handles Mp) := λ h,
  mkHandles (app h) (cluster_bridge_ h) (planning_bridge_ h) (perception_bridge_ h)
    (trip_bridge_ h).

Definition AgentM (A : Type) : Type := M (Handles Mp) AgentEffect A.

Definition in_app (op : App.AppOp Mp unit) : AgentM unit := λ h,
  let '(o, a, out) := op (app h) in (o, h <| app := a |>, AppOut <$> out).
Definition in_cluster (op : M Cluster.ClusterBridge _ unit) : AgentM unit := λ h,
  let '(o, b, out) := op (cluster_bridge_ h) in (o, h <| cluster_bridge_ := b |>, ClusterOut <$> out).
Definition in_planning (op : M Planning.PlanningBridge _ unit) : AgentM unit := λ h,
  let '(o, b, out) := op (planning_bridge_ h) in
  (o, h <| planning_bridge_ := b |>, PlanningOut <$> out).
Definition in_perception (op : M Perception.PerceptionBridge _ unit) : AgentM unit := λ h,
  let '(o, b, out) := op (perception_bridge_ h) in
  (o, h <| perception_bridge_ := b |>, PerceptionOut <$> out).
Definition in_trip (op : M TripFrames.TripBridge _ unit) : AgentM unit := λ h,
  let '(o, b, out) := op (trip_bridge_ h) in (o, h <| trip_bridge_ := b |>, TripOut <$> out).

(** The eta and location adapters hold references to the cluster bridge's state. *)
Definition read_cluster (s : Cluster.FrameState) (v : ClusterView) : ClusterView :=
  v <| remaining_time_s := Cluster.remaining_time_s s |>
    <| frame_longitude := Cluster.longitude s |> <| frame_latitude := Cluster.latitude s |>.
Definition share_cluster_state : AgentM unit :=
  modify (λ h,
    let s := body (cluster_bridge_ h) in
    h <| app ::= λ a,
      a <| App.stream_client_ ::= λ c,
        c <| Stream.eta_provider_ ::= fmap (read_cluster s) |>
          <| Stream.location_provider_ ::= fmap (read_cluster s) |> |> |>).

Definition act (a : AgentAction) : AgentM unit :=
  match a with
  | AppDoes a => in_app (App.act a)
  | ClusterDoes a =>
    in_cluster (FrameBridge.act (Ops := Cluster.ClusterBridge_ops) a);; share_cluster_state
  | PlanningDoes a => in_planning (FrameBridge.act (Ops := Planning.PlanningBridge_ops) a)
  | PerceptionDoes a => in_perception (FrameBridge.act (Ops := Perception.PerceptionBridge_ops) a)
  | TripDoes a => in_trip (FrameBridge.act (Ops := TripFrames.TripBridge_ops) a)
  end.

Definition after (l : list AgentAction) (h : Handles Mp) : Handles Mp :=
  run_inputs (λ a, final (act a)) l h.

(** What an execution lets the outside see. *)
Fixpoint trace (l : list AgentAction) (h : Handles Mp) : list AgentEffect :=
  match l with
  | [] => []
  | a :: l' => outputs (act a) h ++ trace l' (final (act a) h)
  end.

(** The bridges as constructed around the started application. *)
Definition Handles_new (a : App.AppHandles Mp) (now : Z) : Handles Mp :=
  {| app := a;
     cluster_bridge_ := Cluster.ClusterBridge_new;
     planning_bridge_ := Planning.PlanningBridge_new;
     perception_bridge_ := Perception.PerceptionBridge_new;
     trip_bridge_ := TripFrames.TripBridge_new now |}.

(** ** stopAutowareApp

    The bridges and the stream client are shut down in this order, by the calling thread, while all
    others go on: a shutdown returns when the thread it joins has ended (the io thread of a bridge;
    the client's thread, which may be asleep between two connections), and the next one is not
    called before.  The join of the ROS thread that follows is in [Main].  At an even [stop_pc] the
    next shutdown is called, at an odd one it is waited for. *)
Definition stop_call (k : nat) : option AgentAction :=
  match k with
  | 0 => Some (PlanningDoes ShutdownCalled)
  | 1 => Some (PerceptionDoes ShutdownCalled)
  | 2 => Some (TripDoes ShutdownCalled)
  | 3 => Some (ClusterDoes ShutdownCalled)
  | 4 => Some (AppDoes App.LocationShutdown)
  | 5 => Some (AppDoes (App.ClientStep Stream.Shutdown))
  | _ => None
  end%nat.
Definition stop_joined (k : nat) (h : Handles Mp) : bool :=
  match k with
  | 0 => negb (io_running (planning_bridge_ h))
  | 1 => negb (io_running (perception_bridge_ h))
  | 2 => negb (io_running (trip_bridge_ h))
  | 3 => negb (io_running (cluster_bridge_ h))
  | 4 => negb (io_running (App.location_bridge_ (app h)))
  | 5 => Stream.thread_ended (App.stream_client_ (app h))
  | _ => false
  end%nat.

Record Stopping : Type := mkStopping { stop_pc : nat; stopping : Handles Mp }.

(** A turn of the thread in stopAutowareApp, or an action of the others. *)
Definition stop_step (a : option AgentAction) (s : Stopping) : Stopping :=
  match a with
  | Some a => mkStopping (stop_pc s) (final (act a) (stopping s))
  | None =>
    let k := Nat.div2 (stop_pc s) in
    if Nat.even (stop_pc s) then
      match stop_call k with
      | Some a => mkStopping (S (stop_pc s)) (final (act a) (stopping s))
      | None => s
      end
    else if stop_joined k (stopping s) then mkStopping (S (stop_pc s)) (stopping s) else s
  end.
End Definitions.

(** startAutowareApp: the application, then the bridges. *)
Definition startAgent `{Lanelet2} `{YamlCpp} `{Clocks} `{AutowareMsgs} `{Pcl}
    (exists_ : string → bool) (dirs : list string) (yaml_path : string)
    (controller_route_search_radius : double) (now : Z) : outcome (Handles LaneletMap) :=
  a ← App.startAutowareApp exists_ dirs yaml_path controller_route_search_radius;
  mret (Handles_new a now).
End Agent.
