(* ===== verification/SharedState.v ===== *)
(** * SharedState: two threads at one object

    Elsewhere a handler is one step.  Here the accesses to shared members are steps of their own, so
    that threads interleave inside the handlers: a std::mutex is taken and released, members are
    written and read one by one.  Three parts of the agent's state are read by other threads than
    the one that writes them: the cluster bridge's position and remaining time, under [state_mtx_];
    the current request id, which the stream's reader writes without that mutex; and the position
    in the controller's status, without a lock. *)

From stdpp Require Export functions.
From S2P Require Export Agent.

Module Shared.

Inductive Field : Type :=
  | Longitude | Latitude | RemainingTime   (* of the cluster bridge's state_ *)
  | RequestId                              (* the cluster bridge's current_request_id_ *)
  | GpsLatitude | GpsLongitude.            (* of the controller's status_.current_gps_ *)
#[export] Instance Field_eq_dec : EqDecision Field.
Proof. solve_decision. Defined.

(** What a member holds: a number, or the id of a request. *)
Inductive Value : Type := Num (d : double) | Id (n : Z).

Inductive Op : Type :=
  | Acquire                                (* the std::lock_guard of state_mtx_ *)
  | Release                                (* its end *)
  | Write (f : Field) (v : Value)
  | Read (f : Field).

(** A thread: what it has still to do, and what it has read. *)
Record Thread := mkThread { code : list Op; seen : list (Field * Value) }.
Record Machine := mkMachine {
  store : Field → Value;
  holder : option nat;                     (* of state_mtx_ *)
  threads : list Thread
}.

(** Thread [i] takes its next step; it waits at a mutex that is held. *)
Definition step (i : nat) (m : Machine) : Machine :=
  match threads m !! i with
  | Some (mkThread (op :: rest) sn) =>
    match op with
    | Acquire =>
      match holder m with
      | None => mkMachine (store m) (Some i) (<[i := mkThread rest sn]> (threads m))
      | Some _ => m
      end
    | Release => mkMachine (store m) None (<[i := mkThread rest sn]> (threads m))
    | Write f v =>
      mkMachine (<[f := v]> (store m)) (holder m) (<[i := mkThread rest sn]> (threads m))
    | Read f =>
      mkMachine (store m) (holder m) (<[i := mkThread rest (sn ++ [(f, store m f)])]> (threads m))
    end
  | _ => m
  end.
Definition run (schedule : list nat) (m : Machine) : Machine := run_inputs step schedule m.

(** ** The cluster bridge and its adapters *)

(** The accesses of a handler to the members the adapters read. *)
Definition shared_code `{AutowareMsgs} (m : Cluster.Msg) : list Op :=
  match m with
  | Cluster.VehicleKinematics _ _ lon lat =>
    [Acquire; Write Longitude (Num lon); Write Latitude (Num lat); Release]
  | Cluster.MissionRemaining _ t => [Acquire; Write RemainingTime (Num (d_to_f t)); Release]
  | _ => []
  end.
(** The stream's reader stores the request id of a TripInit for this vehicle; client, adapter and
    bridge share the variable by reference. *)
Definition request_of (vin : string) (cmd : Stream.GatewayCommand) : list Z :=
  if decide (Stream.command_vin cmd ≠ vin) then [] else
  match cmd with Stream.TripInit r => [Stream.init_id r] | _ => [] end.
Definition reader_code (vin : string) (cmds : list Stream.GatewayCommand) : list Op :=
  (λ id, Write RequestId (Id id)) <$> (cmds ≫= request_of vin).

Definition GetEta_reads : list Field := [RequestId; RemainingTime].
Definition GetCurrentLocation_reads : list Field := [Longitude; Latitude].
(** A call of an adapter: the lock, the reads, the end of the lock. *)
Definition adapter_code (fields : list Field) : list Op :=
  Acquire :: (Read <$> fields) ++ [Release].

(** The members that the mutex protects. *)
Definition protected (f : Field) : bool :=
  match f with Longitude | Latitude | RemainingTime => true | _ => false end.
Definition view (s : Cluster.FrameState) (f : Field) : Value :=
  match f with
  | Longitude => Num (Cluster.longitude s)
  | Latitude => Num (Cluster.latitude s)
  | RemainingTime => Num (Cluster.remaining_time_s s)
  | _ => Num d0
  end.

(** The bridge's io thread handles [ms], the stream's reader reads [cmds]; each of [readers] is a
    call of an adapter. *)
Definition cluster_machine `{AutowareMsgs} (s0 : Cluster.FrameState) (id0 : Z) (vin : string)
    (ms : list Cluster.Msg) (cmds : list Stream.GatewayCommand) (readers : list (list Field)) :
    Machine :=
  mkMachine (λ f, if decide (f = RequestId) then Id id0 else view s0 f) None
    (mkThread (ms ≫= shared_code) [] :: mkThread (reader_code vin cmds) [] ::
     ((λ fs, mkThread (adapter_code fs) []) <$> readers)).

(** ** The controller's status *)

(** status_.current_gps_ = gps, on the strand; and the copy of status_ that getTripStatusSync makes
    on the thread of its caller. *)
Definition setCurrentGps_code (gps : GPSCoordinate) : list Op :=
  [Write GpsLatitude (Num (latitude gps)); Write GpsLongitude (Num (longitude gps))].
Definition status_copy_code : list Op := [Read GpsLatitude; Read GpsLongitude].
Definition gps_store (gps : GPSCoordinate) (f : Field) : Value :=
  match f with
  | GpsLatitude => Num (latitude gps)
  | GpsLongitude => Num (longitude gps)
  | _ => Num d0
  end.

Definition status_machine (before : GPSCoordinate) (after : list GPSCoordinate) : Machine :=
  mkMachine (gps_store before) None
    [mkThread (after ≫= setCurrentGps_code) []; mkThread status_copy_code []].
End Shared.
