(* ===== verification/SharedTheorems.v ===== *)
(** * SharedTheorems: reads under the lock are whole, reads without it can be torn *)

From S2P Require Export SharedState.
Import Shared.

Section Theorems.
Context `{AutowareMsgs}.
Implicit Types (m : Machine) (s : Cluster.FrameState) (t : Thread) (st : Field → Value).

Definition handled (ms : list Cluster.Msg) s : Cluster.FrameState :=
  foldl (λ s msg, Cluster.handler msg s) s ms.
Lemma handled_app ms ms' s : handled (ms ++ ms') s = handled ms' (handled ms s).
Proof. apply foldl_app. Qed.

(** The protected members of a store are those of the bridge's state. *)
Definition shows st s : Prop := ∀ f, protected f = true → st f = view s f.
(** Two stores agree on the protected members. *)
Definition agree st st' : Prop := ∀ f, protected f = true → st' f = st f.
Lemma shows_agree st st' s : agree st st' → shows st s → shows st' s.
Proof. intros Ha Hs f Hf. by rewrite Ha, Hs. Qed.

(** ** The handlers' accesses *)

Definition writes (ws : list (Field * Value)) : list Op := (λ w, Write w.1 w.2) <$> ws.
Definition written (ws : list (Field * Value)) st : Field → Value :=
  foldl (λ st w, <[w.1 := w.2]> st) st ws.
Lemma written_agree ws st st' : agree st st' → agree (written ws st) (written ws st').
Proof.
  revert st st'. induction ws as [|[f v] ws IH]; intros st st' Ha; [done|]. apply IH.
  intros f' Hf'. cbn. unfold insert, fn_insert. case_decide; [done|by apply Ha].
Qed.

(** Handlers without the lock leave the members that the adapters read alone. *)
Lemma unlocked_handler msg s f : shared_code msg = [] → view (Cluster.handler msg s) f = view s f.
Proof.
  destruct msg; try done; intros _; cbn [Cluster.handler];
    repeat match goal with |- context [Cluster.onObjectsImpl ?os ?s'] =>
             unfold Cluster.onObjectsImpl; destruct (Cluster.count_objects _ _) as [[? ?] ?] end;
    unfold Cluster.onTrafficSignalsImpl, Cluster.onMrmStateImpl;
    repeat case_match; by destruct f.
Qed.

(** The next access is the beginning of a locked section with the writes of one handler. *)
Lemma next_section ms s op rest :
  ms ≫= shared_code = op :: rest →
  ∃ now later ws, ms = now ++ later ∧ op = Acquire ∧
    rest = writes ws ++ Release :: (later ≫= shared_code) ∧
    Forall (λ w, protected w.1 = true) ws ∧
    ∀ st, shows st s → shows (written ws st) (handled now s).
Proof.
  revert s. induction ms as [|msg ms IH]; intros s Hc; [done|]. cbn in Hc.
  destruct (decide (shared_code msg = [])) as [Hu|Hl].
  - rewrite Hu in Hc.
    destruct (IH (Cluster.handler msg s) Hc) as (now & later & ws & -> & -> & -> & Hp & Hw).
    exists (msg :: now), later, ws. split_and!; [done..|]. intros st Hst. apply Hw.
    intros f Hf. rewrite unlocked_handler by done. by apply Hst.
  - assert (∃ ws, shared_code msg = Acquire :: writes ws ++ [Release] ∧
              Forall (λ w, protected w.1 = true) ws ∧
              ∀ st, shows st s → shows (written ws st) (Cluster.handler msg s))
      as (ws & Hsc & Hp & Hw).
    { destruct msg; try done.
      - exists [(Longitude, Num geo_longitude); (Latitude, Num geo_latitude)].
        split; [done|]. split; [by repeat constructor|].
        intros st Hst f Hf. cbn. unfold insert, fn_insert.
        destruct f; repeat case_decide; try done; by rewrite Hst.
      - exists [(RemainingTime, Num (d_to_f remaining_time))].
        split; [done|]. split; [by repeat constructor|].
        intros st Hst f Hf. cbn. unfold insert, fn_insert.
        destruct f; repeat case_decide; try done; by rewrite Hst. }
    rewrite Hsc in Hc. injection Hc as <- <-. exists [msg], ms, ws.
    split_and!; [done..| |exact Hp|exact Hw]. by rewrite <- app_assoc.
Qed.

(** ** The invariant *)
Context (s0 : Cluster.FrameState) (id0 : Z) (vin : string) (ms : list Cluster.Msg)
  (cmds : list Stream.GatewayCommand) (readers : list (list Field)).

(** The ids the client ever has. *)
Definition request_ids : list Z := id0 :: (cmds ≫= request_of vin).
Definition an_id (v : Value) : Prop := ∃ id, v = Id id ∧ id ∈ request_ids.

(** A state between two handlers. *)
Definition snapshot s : Prop := ∃ k, (k ≤ length ms)%nat ∧ s = handled (take k ms) s0.

(** The io thread is between two handlers or in the locked section of one. *)
Definition writer_ok (h : option nat) st t : Prop := ∃ now later,
  ms = now ++ later ∧
  ((h ≠ Some 0%nat ∧ code t = later ≫= shared_code ∧ shows st (handled now s0)) ∨
   (h = Some 0%nat ∧ ∃ ws, code t = writes ws ++ Release :: (later ≫= shared_code) ∧
                           Forall (λ w, protected w.1 = true) ws ∧
                           shows (written ws st) (handled now s0))).

(** The stream's reader has ids still to store. *)
Definition stream_ok t : Prop := ∃ ids,
  (∀ id, id ∈ ids → id ∈ request_ids) ∧ code t = (λ id, Write RequestId (Id id)) <$> ids.

(** What a call has read: protected members as they are in [st], ids of the client. *)
Definition fits (read : Field → Value) (x : Field * Value) : Prop :=
  (protected x.1 = true → x.2 = read x.1) ∧ (x.1 = RequestId → an_id x.2).

(** An adapter's call has not begun, holds the lock, or has returned a snapshot. *)
Definition reader_ok (h : option nat) st (i : nat) (fs : list Field) t : Prop :=
  (h ≠ Some i ∧ t = mkThread (adapter_code fs) []) ∨
  (h = Some i ∧ ∃ fs2, fs = (seen t).*1 ++ fs2 ∧ code t = (Read <$> fs2) ++ [Release] ∧
     Forall (fits st) (seen t)) ∨
  (h ≠ Some i ∧ code t = [] ∧ (seen t).*1 = fs ∧
     ∃ s, snapshot s ∧ Forall (fits (view s)) (seen t)).

Record machine_ok m : Prop := {
  ok_threads : length (threads m) = S (S (length readers));
  ok_id : an_id (store m RequestId);
  ok_writer t : threads m !! 0%nat = Some t → writer_ok (holder m) (store m) t;
  ok_stream t : threads m !! 1%nat = Some t → stream_ok t ∧ holder m ≠ Some 1%nat;
  ok_reader i fs t : readers !! i = Some fs → threads m !! S (S i) = Some t →
    reader_ok (holder m) (store m) (S (S i)) fs t
}.

(** A step of one thread leaves the others where they are. *)
Lemma writer_other h h' st st' t :
  agree st st' → (h = Some 0%nat ↔ h' = Some 0%nat) → writer_ok h st t → writer_ok h' st' t.
Proof.
  intros Ha Hh (now & later & Hms & [(Hn & ? & ?)|(Hy & ws & ? & ? & ?)]);
    exists now, later; (split; [done|]).
  - left. split; [tauto|]. split; [done|by eapply shows_agree].
  - right. split; [tauto|]. exists ws. split_and!; [done..|].
    eapply shows_agree; [by apply written_agree|done].
Qed.
Lemma reader_other h h' st st' i fs t :
  (h = Some i ↔ h' = Some i) → (h' = Some i → agree st st') →
  reader_ok h st i fs t → reader_ok h' st' i fs t.
Proof.
  intros Hh Ha [[? ?]|[(Hy & fs2 & ? & ? & Hf)|(? & ? & ? & ?)]].
  - left. split; [tauto|done].
  - right; left. assert (Hy' : h' = Some i) by tauto. split; [done|]. exists fs2.
    split_and!; [done..|]. eapply Forall_impl; [exact Hf|]. intros [f v] [Hv Hi].
    split; [|exact Hi]. intros Hp. cbn in *. rewrite (Ha Hy') by done. by apply Hv.
  - right; right. split; [tauto|]. done.
Qed.

(** Thread [j] moves, the holder of the lock changes at most from or to [j], and the protected
    members change at most if [j] holds it. *)
Lemma machine_ok_update m j st h t :
  machine_ok m → (j < length (threads m))%nat → an_id (st RequestId) →
  (∀ i, i ≠ j → holder m = Some i ↔ h = Some i) →
  (∀ i, i ≠ j → h = Some i → agree (store m) st) → (j ≠ 0%nat → agree (store m) st) →
  (j = 0%nat → writer_ok h st t) →
  (j = 1%nat → stream_ok t ∧ h ≠ Some 1%nat) →
  (∀ i fs, j = S (S i) → readers !! i = Some fs → reader_ok h st j fs t) →
  machine_ok (mkMachine st h (<[j := t]> (threads m))).
Proof.
  intros [Hl Hid Hw Hs Hr] Hj Hid' Hh Hag Ha0 Hj0 Hj1 Hj2. split; cbn.
  - by rewrite length_insert.
  - done.
  - intros t'. destruct (decide (j = 0%nat)) as [->|Hne].
    + rewrite list_lookup_insert_eq by done. intros [= <-]. by apply Hj0.
    + rewrite list_lookup_insert_ne by done. intros Ht'.
      apply (writer_other (holder m) h (store m) st); [by apply Ha0|apply (Hh 0%nat); lia|by apply Hw].
  - intros t'. destruct (decide (j = 1%nat)) as [->|Hne].
    + rewrite list_lookup_insert_eq by done. intros [= <-]. by apply Hj1.
    + rewrite list_lookup_insert_ne by done. intros Ht'. destruct (Hs t' Ht').
      split; [done|]. rewrite <- (Hh 1%nat) by done. done.
  - intros i fs t' Hfs. destruct (decide (j = S (S i))) as [->|Hne].
    + rewrite list_lookup_insert_eq by done. intros [= <-]. by apply (Hj2 i fs).
    + rewrite list_lookup_insert_ne by done. intros Ht'.
      apply (reader_other (holder m) h (store m) st);
        [apply Hh; lia|apply Hag; lia|by apply Hr].
Qed.

Lemma writer_step m op rest sn :
  machine_ok m → threads m !! 0%nat = Some (mkThread (op :: rest) sn) → machine_ok (step 0 m).
Proof.
  intros Hok Ht. pose proof (lookup_lt_Some _ _ _ Ht) as Hlt. unfold step. rewrite Ht.
  destruct (ok_writer _ Hok _ Ht)
    as (now & later & Hms & [(Hh & Hc & Hst)|(Hh & ws & Hc & Hp & Hst)]); cbn [code] in Hc.
  - destruct (next_section later (handled now s0) op rest (eq_sym Hc))
      as (now' & later' & ws & -> & -> & -> & Hp & Hw).
    destruct (holder m) eqn:Hm; [done|].
    apply machine_ok_update; try done; [apply Hok|intros i Hi; split; congruence|].
    intros _. exists (now ++ now'), later'. split; [by rewrite <- app_assoc|]. right.
    split; [done|]. exists ws. split_and!; [done..|]. rewrite handled_app. by apply Hw.
  - destruct ws as [|[f v] ws]; injection Hc as -> ->; rewrite ?Hh.
    + apply machine_ok_update; try done; [apply Hok|rewrite Hh; intros i Hi; split; congruence|].
      intros _. exists now, later. split; [done|]. by left.
    + apply Forall_cons in Hp as [Hf Hp]. cbn in Hf.
      apply machine_ok_update; try done; [|by rewrite Hh|intros i Hi; congruence|].
      * unfold insert, fn_insert. case_decide; [by subst|apply Hok].
      * intros _. exists now, later. split; [done|]. right. split; [done|]. by exists ws.
Qed.

Lemma stream_step m op rest sn :
  machine_ok m → threads m !! 1%nat = Some (mkThread (op :: rest) sn) → machine_ok (step 1 m).
Proof.
  intros Hok Ht. pose proof (lookup_lt_Some _ _ _ Ht) as Hlt. unfold step. rewrite Ht.
  destruct (ok_stream _ Hok _ Ht) as [(ids & Hids & Hc) Hh]. cbn [code] in Hc.
  destruct ids as [|id ids]; [done|]. injection Hc as -> ->.
  assert (Hag : agree (store m) (<[RequestId := Id id]> (store m))).
  { intros f Hf. unfold insert, fn_insert. case_decide; [by subst|done]. }
  apply machine_ok_update; try done.
  - unfold insert, fn_insert. rewrite decide_True by done. exists id. split; [done|].
    apply Hids. by left.
  - intros _. split; [|done]. exists ids. split; [|done]. intros id' Hin. apply Hids. by right.
Qed.

Lemma reader_step m j op rest sn :
  machine_ok m → threads m !! S (S j) = Some (mkThread (op :: rest) sn) →
  machine_ok (step (S (S j)) m).
Proof.
  intros Hok Ht. pose proof (lookup_lt_Some _ _ _ Ht) as Hlt. unfold step. rewrite Ht.
  assert (∃ fs, readers !! j = Some fs) as [fs Hfs].
  { apply lookup_lt_is_Some_2. rewrite (ok_threads _ Hok) in Hlt. lia. }
  pose proof (ok_id _ Hok) as Hid.
  assert (Hupd : ∀ h t, (∀ i, i ≠ S (S j) → holder m = Some i ↔ h = Some i) →
    reader_ok h (store m) (S (S j)) fs t →
    machine_ok (mkMachine (store m) h (<[S (S j) := t]> (threads m)))).
  { intros h t Hh Hr. apply machine_ok_update; try done. intros i fs' [= <-] Hfs'. by simplify_eq. }
  destruct (ok_reader _ Hok j fs _ Hfs Ht) as
    [(Hh & [= -> -> ->])|[(Hh & fs2 & -> & Hc & Hf)|(_ & Hc & _)]]; [| |done].
  - destruct (holder m) eqn:Hm; [done|]. apply Hupd; [intros i Hi; split; congruence|].
    right; left. split; [done|]. by exists fs.
  - cbn [code seen] in *. destruct fs2 as [|f fs2]; injection Hc as -> ->; rewrite ?Hh.
    + apply Hupd; [rewrite Hh; intros i Hi; split; congruence|].
      right; right. rewrite app_nil_r. split_and!; [done..|].
      destruct (lookup_lt_is_Some_2 (threads m) 0) as [tw Htw]; [rewrite (ok_threads _ Hok); lia|].
      destruct (ok_writer _ Hok _ Htw) as (now & later & Hms & [(_ & _ & Hst)|(Hw & _)]);
        [|congruence].
      exists (handled now s0). split.
      * exists (length now). rewrite Hms, length_app, take_app_length. split; [lia|done].
      * eapply Forall_impl; [exact Hf|]. intros [f v] [Hv Hi]. split; [|exact Hi].
        intros Hp. cbn in *. by rewrite Hv, Hst.
    + apply Hupd; [by rewrite Hh|].
      right; left. split; [done|]. exists fs2. cbn [seen code]. rewrite fmap_app, <- app_assoc.
      split_and!; [done..|]. apply Forall_app. split; [done|]. apply Forall_singleton.
      split; cbn; [done|]. by intros ->.
Qed.

Lemma machine_ok_step i m : machine_ok m → machine_ok (step i m).
Proof.
  intros Hok. destruct (threads m !! i) as [[[|op rest] sn]|] eqn:Ht;
    [by unfold step; rewrite Ht| |by unfold step; rewrite Ht].
  destruct i as [|[|j]]; [by eapply writer_step|by eapply stream_step|by eapply reader_step].
Qed.

Lemma machine_ok_start : machine_ok (cluster_machine s0 id0 vin ms cmds readers).
Proof.
  split; cbn.
  - by rewrite length_fmap.
  - exists id0. split; [done|]. by left.
  - intros t [= <-]. exists [], ms. split; [done|]. left. split_and!; [done..|].
    intros f Hf. cbn. by case_decide; [subst|].
  - intros t [= <-]. split; [|done]. exists (cmds ≫= request_of vin). split; [|done].
    intros id Hin. by right.
  - intros i fs t Hfs Ht.
    assert (Hi : ((λ fs, mkThread (adapter_code fs) []) <$> readers) !! i = Some t) by exact Ht.
    rewrite list_lookup_fmap, Hfs in Hi. injection Hi as <-. by left.
Qed.

(** C20: what an adapter's answer is made of.  Whatever messages the cluster bridge handles and
    whatever commands the stream's reader reads, and however these threads and the calls of the
    adapters interleave inside them, a call that has returned has read each of its members once, in
    its order.  The members under the mutex (longitude, latitude, remaining time) are as they were
    together between two handlers of the bridge.  The request id, which the reader writes without
    the mutex, is one that the client has had, but not tied to that moment. *)
Theorem adapter_reads_snapshot schedule i fs t :
  let m := run schedule (cluster_machine s0 id0 vin ms cmds readers) in
  readers !! i = Some fs → threads m !! S (S i) = Some t → code t = [] →
  (seen t).*1 = fs ∧
  ∃ k, (k ≤ length ms)%nat ∧
    ∀ f v, (f, v) ∈ seen t →
      (protected f = true → v = view (handled (take k ms) s0) f) ∧
      (f = RequestId → ∃ id, v = Id id ∧ id ∈ id0 :: (cmds ≫= request_of vin)).
Proof.
  intros m Hfs Ht Hc.
  assert (Hok : machine_ok m)
    by (apply (run_inputs_inv step machine_ok);
        [intros; by apply machine_ok_step|apply machine_ok_start]).
  destruct (ok_reader _ Hok i fs t Hfs Ht) as
    [(_ & ->)|[(_ & fs2 & _ & Hc' & _)|(_ & _ & Hf & s & (k & Hk & ->) & Hs)]].
  - done.
  - rewrite Hc in Hc'. by destruct fs2.
  - split; [done|]. exists k. split; [done|]. intros f v Hin.
    rewrite Forall_forall in Hs. apply (Hs (f, v) Hin).
Qed.
End Theorems.

(** The id and the time of an estimate need not belong together.  While the answer of GetEta is put
    together the reader can store the next request: the call returns either id, with the same
    remaining time. *)
Theorem eta_can_mix_requests `{AutowareMsgs} s0 id0 vin r :
  Stream.init_vin r = vin →
  let m schedule := run schedule
    (cluster_machine s0 id0 vin [] [Stream.TripInit r] [GetEta_reads]) in
  let answer id := Some (mkThread [] [(RequestId, Id id); (RemainingTime, view s0 RemainingTime)]) in
  threads (m [2; 2; 1; 2; 2]%nat) !! 2%nat = answer id0 ∧
  threads (m [2; 1; 2; 2; 2]%nat) !! 2%nat = answer (Stream.init_id r).
Proof.
  intros <-. unfold cluster_machine, reader_code, request_of. cbn [mbind list_bind].
  rewrite decide_False by (cbn; congruence). done.
Qed.

(** A copy of the status can be torn.  getTripStatusSync takes no lock: even with every double read
    and written at once, some interleaving with setCurrentGps gives its caller (the location bridge
    at a tick, say) the new latitude with the old longitude, a position where the vehicle never
    was. *)
Theorem status_copy_can_tear before after :
  ∃ schedule t,
    threads (run schedule (status_machine before [after])) !! 1%nat = Some t ∧ code t = [] ∧
    seen t = [(GpsLatitude, Num (latitude after)); (GpsLongitude, Num (longitude before))].
Proof. exists [0; 1; 1; 0]%nat. eexists. split; [reflexivity|]. done. Qed.
