(* ===== verification/Main.v ===== *)
(** * Main: the process

    [src/main.cc] and the end of stopAutowareApp in [src/AutowareApp.cpp]: main starts the agent,
    polls the flag the signal handler sets, shuts ROS down and stops the agent.  The thread in main
    takes its turns among the others; the thread in rclcpp::spin, which runs the node's timer and
    the subscriptions, ends some time after rclcpp::shutdown. *)

From S2P Require Export Agent.

Module Main.
Import FrameBridge Agent.

Inductive Stage : Type :=
  | Polling                                  (* while (!g_shutdown_requested.load()) *)
  | InStop                                   (* in stopAutowareApp *)
  | Returned.

Record Process `{Pcl} (Mp : Type) : Type := mkProcess {
  stage : Stage;
  g_shutdown_requested : bool;
  ros_ok : bool;                             (* rclcpp::shutdown has not been called *)
  ros_thread_ : bool;                        (* rclcpp::spin has not returned *)
  app_handles : Stopping (Mp := Mp)
}.
Arguments mkProcess {_ Mp} _ _ _ _ _.
Arguments stage {_ Mp} _.
Arguments g_shutdown_requested {_ Mp} _.
Arguments ros_ok {_ Mp} _.
Arguments ros_thread_ {_ Mp} _.
Arguments app_handles {_ Mp} _.

Inductive ProcessAction `{Pcl} : Type :=
  | SignalArrives                            (* signalHandler *)
  | MainTurn                                 (* the thread in main *)
  | SpinReturns                              (* the end of ros_thread_ *)
  | Thread (a : AgentAction).                (* any other thread *)

Section Definitions.
Context {Mp : Type} `{RouteMap Mp} `{Clocks} `{AutowareMsgs} `{Pcl}.
#[export] Instance Process_eta : Eta (Process Mp) := λ p,
  mkProcess (stage p) (g_shutdown_requested p) (ros_ok p) (ros_thread_ p) (app_handles p).

(** What the thread in rclcpp::spin does. *)
Definition from_ros (a : AgentAction) : bool :=
  match a with
  | AppDoes App.NodeTimer | AppDoes (App.NodeMessage _) => true
  | ClusterDoes (MessagePosted _) | PlanningDoes (MessagePosted _)
  | PerceptionDoes (MessagePosted _) | TripDoes (MessagePosted _) => true
  | _ => false
  end.

(** What only the thread in main or the handlers themselves call. *)
Definition is_call (a : AgentAction) : bool :=
  match a with
  | AppDoes App.LocationShutdown => true
  | AppDoes (App.ClientStep (Stream.Shutdown | Stream.SetHandlers | Stream.DoReport _)) => true
  | ClusterDoes ShutdownCalled | PlanningDoes ShutdownCalled
  | PerceptionDoes ShutdownCalled | TripDoes ShutdownCalled => true
  | _ => false
  end.

Definition signalHandler (p : Process Mp) : Process Mp := p <| g_shutdown_requested := true |>.

(** The body of stopAutowareApp after its six shutdowns: the join of the ROS thread.  The handles
    that are dropped after it are the subject of [Ownership]. *)
Definition join_ros (p : Process Mp) : Process Mp :=
  if ros_thread_ p then p else p <| stage := Returned |>.

Definition main_turn (p : Process Mp) : Process Mp :=
  match stage p with
  | Polling =>
    if g_shutdown_requested p then p <| ros_ok := false |> <| stage := InStop |> else p
  | InStop =>
    if Nat.ltb (stop_pc (app_handles p)) 12
    then p <| app_handles ::= stop_step None |>
    else join_ros p
  | Returned => p
  end.

Definition process_step (a : ProcessAction) (p : Process Mp) : Process Mp :=
  match a with
  | SignalArrives => signalHandler p
  | MainTurn => main_turn p
  | SpinReturns => if ros_ok p then p else p <| ros_thread_ := false |>
  | Thread a =>
    if is_call a || (from_ros a && negb (ros_thread_ p)) then p
    else p <| app_handles ::= stop_step (Some a) |>
  end.

Definition process_after (l : list ProcessAction) (p : Process Mp) : Process Mp :=
  run_inputs process_step l p.
End Definitions.

(** main up to its loop: the map path and the defaults of startAutowareApp. *)
Definition main_start `{Lanelet2} `{YamlCpp} `{Clocks} `{AutowareMsgs} `{Pcl}
    (exists_ : string → bool) (test_map_dir src_map_dir install_map_dir : string) (now : Z) :
    outcome (Process LaneletMap) :=
  h ← startAgent exists_ [test_map_dir; src_map_dir; install_map_dir]
        (src_map_dir +:+ "/lanelet2_map.osm") (d_of_Z 10) now;
  mret (mkProcess Polling false true true (mkStopping 0 h)).
End Main.
