(* ===== verification/Zenoh.v ===== *)
(** * Zenoh: what the bridges put on the network

    [src/zenoh_publisher.h] and the broadcastFrame of the bridges.  Each bridge is a publisher with a
    key of its own on the session they share; a frame is put there in its serialized form.  The
    serializers are protobuf's and nlohmann's. *)

From S2P Require Export Agent.

Module Zenoh.
Import FrameBridge Agent.

(** SerializeAsString of the four frames; dump of the location object. *)
Class Serializers `{Pcl} : Type := {
  serialize_vehicle : vehicle_frame.VehicleFrame → string;
  serialize_planning : vehicle_frame.PlanningFrame → string;
  serialize_perception : vehicle_frame.PerceptionFrame → string;
  serialize_trip : vehicle_frame.TripFrame → string;
  dump : Location.LocationJson → string
}.

(** The session: the publishers declared on it, and the samples put by them, in order. *)
Record Sample := mkSample { sample_key : string; payload : string }.
Record Session := mkSession { declared : list string; samples : list Sample }.
#[export] Instance Session_eta : Eta Session := λ s, mkSession (declared s) (samples s).

Record ZenohPublisher := mkPublisher { key : string }.
Definition ZenohPublisher_new (key : string) (s : Session) : ZenohPublisher * Session :=
  (mkPublisher key, s <| declared ::= λ l, l ++ [key] |>).
Definition publish (p : ZenohPublisher) (serialized_proto : string) (s : Session) : Session :=
  s <| samples ::= λ l, l ++ [mkSample (key p) serialized_proto] |>.

(** ** The session of startAutowareApp *)

(** The configuration of a session of its own: the entries inserted into the default one. *)
Definition zconfig : list (string * string) :=
  [("scouting/multicast/enabled", "false"); ("transport/shared_memory/enabled", "false");
   ("listen/endpoints", "[" +:+ String (Ascii.ascii_of_nat 34) "udp/0.0.0.0:7447" +:+
                        String (Ascii.ascii_of_nat 34) "]")].
(** Opening a session is Zenoh's. *)
Definition session_for (open : list (string * string) → outcome Session)
    (zsession_in : option Session) : outcome Session :=
  match zsession_in with Some s => Ret s | None => open zconfig end.

(** The publishers, in the order in which the bridges are constructed. *)
Record Publishers := mkPublishers {
  cluster_pub : ZenohPublisher; planning_pub : ZenohPublisher; perception_pub : ZenohPublisher;
  trip_pub : ZenohPublisher; location_pub : ZenohPublisher
}.
Definition declare_publishers (s : Session) : Publishers * Session :=
  let '(c, s) := ZenohPublisher_new "autoware/cluster" s in
  let '(p, s) := ZenohPublisher_new "autoware/planning" s in
  let '(e, s) := ZenohPublisher_new "autoware/perception" s in
  let '(t, s) := ZenohPublisher_new "autoware/trip" s in
  let '(l, s) := ZenohPublisher_new "autoware/location" s in
  (mkPublishers c p e t l, s).

(** ** The broadcasts of a running agent *)
Section Broadcasts.
Context `{Pcl} `{Serializers}.

Definition broadcast_vehicle (p : Publishers) (f : vehicle_frame.VehicleFrame) : Session → Session :=
  publish (cluster_pub p) (serialize_vehicle f).
Definition broadcast_planning (p : Publishers) (f : vehicle_frame.PlanningFrame) : Session → Session :=
  publish (planning_pub p) (serialize_planning f).
Definition broadcast_perception (p : Publishers) (f : vehicle_frame.PerceptionFrame) :
    Session → Session := publish (perception_pub p) (serialize_perception f).
Definition broadcast_trip (p : Publishers) (f : vehicle_frame.TripFrame) : Session → Session :=
  publish (trip_pub p) (serialize_trip f).
Definition broadcast_location (p : Publishers) (j : Location.LocationJson) : Session → Session :=
  publish (location_pub p) (dump j).

(** What an effect of the agent does to the session. *)
Definition on_session (p : Publishers) (e : AgentEffect) : Session → Session :=
  match e with
  | ClusterOut (Published _ f) => broadcast_vehicle p f
  | PlanningOut (Published _ f) => broadcast_planning p f
  | PerceptionOut (Published _ f) => broadcast_perception p f
  | TripOut (Published _ f) => broadcast_trip p f
  | AppOut (App.LocationEffect (Published _ j)) => broadcast_location p j
  | _ => id
  end.

(** The session after the effects of an execution, and what a subscriber to a key has been sent. *)
Definition session_after (t : list AgentEffect) (s : Session) : Session :=
  let '(p, s') := declare_publishers s in foldl (λ s e, on_session p e s) s' t.
Definition received (k : string) (s : Session) : list string :=
  payload <$> filter (λ x, sample_key x = k) (samples s).
End Broadcasts.
End Zenoh.
