(* ===== verification/NodeFacts.v ===== *)
(** * NodeFacts: what the node does with a handler

    A handler run by the I/O thread is a list of inputs to the trip controller, its outputs passed
    on by [react], and at most one answer.  The trip controller's invariant therefore holds at
    every moment, and no handler throws. *)

From S2P Require Export LaneletMapFacts AutowareController.
Import Controller.

Section Facts.
Context {Mp : Type} `{RouteMap Mp} `{Clocks} `{AutowareMsgs} {Laws : RouteMapLaws Mp}.
Implicit Types (n : Node Mp) (c : TripController) (w : World Mp).

(** ** The trip controller inside the node *)

Lemma world_put n w : world (put_world w n) (ctrl w) = w.
Proof. by destruct w. Qed.
Lemma put_put w w' n : put_world w' (put_world w n) = put_world w' n.
Proof. done. Qed.
Lemma put_self n c : trip_ctrl_ n = Some c → put_world (world n c) n = n.
Proof. intros Hc. destruct n. cbn in Hc. by subst. Qed.
Lemma react_put w n : react (put_world w n) = react n.
Proof. done. Qed.

Lemma on_trip_run {A} (op : Op Mp A) n c :
  trip_ctrl_ n = Some c →
  on_trip op n = (result op (world n c), put_world (final op (world n c)) n,
                  outputs op (world n c) ≫= react n).
Proof. intros Hc. unfold on_trip. rewrite Hc, (run_split op). done. Qed.

Lemma wp_on_trip {A} (op : Op Mp A) n c Q :
  trip_ctrl_ n = Some c →
  Q (result op (world n c)) (put_world (final op (world n c)) n)
    (outputs op (world n c) ≫= react n) →
  wp (on_trip op) n Q.
Proof. intros Hc HQ. unfold wp, result, final, outputs in *. by rewrite (on_trip_run op n c Hc). Qed.

(** An operation without a result, as an input. *)
Lemma then_true (op : Op Mp unit) w :
  result (op;; mret true) w = match result op w with Ret _ => Ret true | Throw e => Throw e end ∧
  final (op;; mret true) w = final op w ∧ outputs (op;; mret true) w = outputs op w.
Proof.
  unfold result, final, outputs, mbind, M_bind, mret, M_ret.
  destruct (op w) as [[[[]|e] s'] t]; cbn; by rewrite ?app_nil_r.
Qed.

(** ** What a handler asks of the trip controller *)

Definition job_inputs (env : Surroundings) (n : Node Mp) (j : Job) : list Input :=
  match j with
  | JInitialize | JStatus _ => []
  | JStartTrip _ => [StartTrip]
  | JMove _ => [Move]
  | JGoToPickup _ => [GoToPickup]
  | JHandleMove _ => [MoveCommand]
  | JCancel => [Cancel]
  | JTick =>
    match tf env with
    | None => []
    | Some loc =>
      let g := rm_localToGps (lanelet_map_ n) loc in
      if gps_out_of_range g then [] else [SetCurrentGps g]
    end ++ [Tick (mode_ready env) (engage_ready env)]
  | JQueryEta s g cb => [QueryEta (tf env) s g cb]
  | JMessage m => [message_input m]
  end.

(** The callback a handler answers by the time it ends, and with what. *)
Definition job_cb (j : Job) : option nat :=
  match j with
  | JStartTrip cb | JMove cb | JGoToPickup cb | JHandleMove cb | JStatus cb => cb
  | _ => None
  end.
Definition accepted (i : Input) w : bool :=
  match result (handle i) w with Ret b => b | Throw _ => false end.
Definition job_answer n c (j : Job) : list Event :=
  match job_cb j, j with
  | Some k, JStartTrip _ => [Answer k (accepted StartTrip (world n c))]
  | Some k, JMove _ => [Answer k (accepted Move (world n c))]
  | Some k, JGoToPickup _ => [Answer k (accepted GoToPickup (world n c))]
  | Some k, JHandleMove _ => [Answer k (accepted MoveCommand (world n c))]
  | Some k, JStatus _ => [StatusAnswer k (status_ c)]
  | _, _ => []
  end.

Definition ran env n c j : outcome unit → Node Mp → list Event → Prop := λ o n' out,
  o = Ret () ∧ n' = put_world (run (job_inputs env n j) (world n c)) n ∧
  out = (run_outputs (job_inputs env n j) (world n c) ≫= react n) ++ job_answer n c j.

Lemma input_ran (i : Input) n c :
  trip_ctrl_ n = Some c → inv (world n c) →
  on_trip (handle i) n = (Ret (accepted i (world n c)), put_world (step i (world n c)) n,
                          run_outputs [i] (world n c) ≫= react n).
Proof.
  intros Hc Hi. rewrite (on_trip_run _ _ _ Hc). unfold accepted, step.
  destruct (handle_returns i _ Hi) as (b & ->). cbn. by rewrite app_nil_r.
Qed.

Lemma unit_ran (i : Input) (op : Op Mp unit) n c :
  handle i = (op;; mret true) → trip_ctrl_ n = Some c → inv (world n c) →
  on_trip op n = (Ret (), put_world (step i (world n c)) n,
                  run_outputs [i] (world n c) ≫= react n).
Proof.
  intros Hop Hc Hi. rewrite (on_trip_run _ _ _ Hc).
  destruct (handle_returns i _ Hi) as (b & Hb). unfold step. cbn [run_outputs].
  rewrite Hop in *. destruct (then_true op (world n c)) as (Hr & -> & ->). rewrite Hr in Hb.
  rewrite app_nil_r. by destruct (result op (world n c)) as [[]|e].
Qed.

Lemma commandImpl_ran env n c i (op : Op Mp bool) cb j :
  handle i = op → job_inputs env n j = [i] →
  job_answer n c j = match cb with Some k => [Answer k (accepted i (world n c))] | None => [] end →
  trip_ctrl_ n = Some c → inv (world n c) → wp (commandImpl op cb) n (ran env n c j).
Proof.
  intros <- Hin Hans Hc Hi. unfold commandImpl. apply wp_bind, wp_gets with (v := Some c); [done|].
  unfold wp, result, final, outputs, ran, mbind, M_bind. rewrite (input_ran i n c Hc Hi), Hin, Hans.
  destruct cb; cbn; by rewrite ?app_nil_r.
Qed.

Lemma onTickTimer_ran env n c :
  trip_ctrl_ n = Some c → inv (world n c) → wp (onTickTimer env) n (ran env n c JTick).
Proof.
  intros Hc Hi. unfold onTickTimer. apply wp_bind, wp_gets with (v := Some c); [done|].
  set (mr := mode_ready env). set (er := engage_ready env).
  assert (Hpose : on_trip (getCurrentVehiclePose (tf env)) n =
    (Ret (match tf env with
          | None => None
          | Some loc => let g := rm_localToGps (lanelet_map_ n) loc in
                        if gps_out_of_range g then None else Some g
          end), n, [])).
  { rewrite (on_trip_run _ _ _ Hc). unfold getCurrentVehiclePose.
    destruct (tf env) as [loc|]; cbn; [|by rewrite put_self].
    unfold result, final, outputs, mbind, M_bind, gets. cbn.
    destruct (gps_out_of_range _); cbn; by rewrite put_self. }
  unfold wp, result, final, outputs, ran, mbind, M_bind, mret, M_ret. rewrite Hpose.
  unfold job_inputs, job_answer, job_cb. fold mr er.
  set (pose := match tf env with None => None | Some loc => _ end).
  assert (Hin : match tf env with
                | None => []
                | Some loc => if gps_out_of_range (rm_localToGps (lanelet_map_ n) loc) then []
                              else [SetCurrentGps (rm_localToGps (lanelet_map_ n) loc)]
                end = match pose with Some g => [SetCurrentGps g] | None => [] end).
  { subst pose. destruct (tf env); [|done]. cbn. by destruct (gps_out_of_range _). }
  cbn zeta. rewrite Hin. clearbody pose. clear Hin Hpose. destruct pose as [g|].
  - rewrite (unit_ran (SetCurrentGps g) (setCurrentGps g) n c) by done.
    set (w1 := step _ _).
    rewrite (unit_ran (Tick mr er) (tick mr er) (put_world w1 n) (ctrl w1)); [|done..|].
    + rewrite world_put, put_put, react_put. cbn. by rewrite !app_nil_r, bind_app.
    + rewrite world_put. by apply inv_step.
  - rewrite (unit_ran (Tick mr er) (tick mr er) n c) by done. cbn. by rewrite !app_nil_r.
Qed.

(** Every handler but the first runs to its end as its inputs. *)
Lemma run_job_ran env n c j :
  trip_ctrl_ n = Some c → inv (world n c) → j ≠ JInitialize →
  wp (run_job env j) n (ran env n c j).
Proof.
  intros Hc Hi Hj. destruct j as [|cb|cb|cb|cb| |cb| |s g cb|m]; [done|..]; cbn [run_job].
  1-4: by eapply commandImpl_ran; [..|exact Hc|exact Hi]; [|done|by destruct cb].
  - unfold cancelTripImpl. apply wp_bind, wp_gets with (v := Some c); [done|].
    unfold wp, result, final, outputs, ran. rewrite (unit_ran Cancel cancel n c) by done.
    cbn. by rewrite !app_nil_r.
  - unfold getTripStatusImpl. apply wp_bind, wp_gets with (v := Some c); [done|].
    unfold wp, ran. change (run (job_inputs env n (JStatus cb)) (world n c)) with (world n c).
    rewrite put_self by done. by destruct cb.
  - by apply onTickTimer_ran.
  - unfold queryEtaImpl. apply wp_bind, wp_gets with (v := Some c); [done|].
    apply wp_bind. unfold wp, result, final, outputs, ran.
    change (TripController.queryEta (tf env) s g cb) with (handle (QueryEta (tf env) s g cb)).
    rewrite (input_ran _ n c Hc Hi). cbn. by rewrite !app_nil_r.
  - apply wp_bind. unfold wp, result, final, outputs, ran. rewrite (input_ran _ n c Hc Hi).
    cbn. by rewrite !app_nil_r.
Qed.

(** ** The first handler *)

(** Where [initialize]'s handler starts the trip controller. *)
Definition fresh n : World Mp :=
  mkWorld (TripController_init TripTimings_default) (lanelet_map_ n) (clock_reads n).

Lemma initializeImpl_ran n :
  rm_inv (lanelet_map_ n) →
  initializeImpl n = (Ret (), put_world (final boot_op (fresh n)) n,
                      outputs boot_op (fresh n) ≫= react n).
Proof.
  intros Hm. pose proof (inv_boot_op TripTimings_default (lanelet_map_ n) (clock_reads n) Hm) as Hok.
  unfold wp, returns_inv in Hok. destruct Hok as [[[] Hr] _]. revert Hr.
  unfold result, final, outputs, initializeImpl, boot_op, on_trip, setStateChangeCallback,
    setArrivalCallbacks, set_c, mbind, M_bind, modify, fresh, world.
  cbn -[initializeInMap]. destruct (initializeInMap _) as [[o w'] t]. cbn. by intros ->.
Qed.

(** Before it has run, every other handler refuses and changes nothing. *)
Definition refusal (j : Job) : list Event :=
  match j with
  | JStartTrip (Some k) | JMove (Some k) | JGoToPickup (Some k) | JHandleMove (Some k) =>
    [Answer k false]
  | JStatus (Some k) => [StatusAnswer k TripStatus_default]
  | JQueryEta _ _ (Some k) =>
    [EtaAnswer k (EtaQueryResult_default <| error_message_ := "not initialized" |>)]
  | _ => []
  end.

Lemma run_job_early env n j :
  trip_ctrl_ n = None → j ≠ JInitialize → (∀ m, j ≠ JMessage m) →
  run_job env j n = (Ret (), n, refusal j).
Proof.
  intros Hn Hj Hm.
  destruct j as [|cb|cb|cb|cb| |cb| |s g cb|m]; [done|..|by destruct (Hm m)];
    cbn [run_job];
    unfold startTripImpl, moveImpl, goToPickupImpl, handleMoveCommandImpl, commandImpl,
      cancelTripImpl, getTripStatusImpl, onTickTimer, queryEtaImpl, gets, mbind, M_bind;
    rewrite Hn; try done; by destruct cb.
Qed.

(** ** The other actions: they post, or register a callback *)

Definition posted (a : Action) n : list Job :=
  match a with
  | CallStartTrip cb => [JStartTrip cb]
  | CallMove cb => [JMove cb]
  | CallGoToPickup cb => [JGoToPickup cb]
  | CallHandleMoveCommand cb => [JHandleMove cb]
  | CallCancelTrip => [JCancel]
  | CallGetTripStatus cb => [JStatus cb]
  | CallQueryEta s g cb => [JQueryEta s g cb]
  | TimerFires => match tick_timer_ n with Some _ => [JTick] | None => [] end
  | MessageArrives m => match trip_ctrl_ n with Some _ => [JMessage m] | None => [] end
  | _ => []
  end.

(** The part of the node the trip controller lives in. *)
Definition core n := (trip_ctrl_ n, lanelet_map_ n, clock_reads n, tick_hz_ n).

Definition is_post (a : Action) : Prop :=
  match a with RunNext _ | CallInitialize => False | _ => True end.

Lemma act_posts a n :
  is_post a → result (act a) n = Ret () ∧ outputs (act a) n = [] ∧
  core (final (act a) n) = core n ∧ io_thread_ (final (act a) n) = io_thread_ n ∧
  strand_ (final (act a) n) = strand_ n ++ posted a n.
Proof.
  destruct n as [m [c|] [t|] hz q io sc ac k]; destruct a; intros Ha; try done; cbn;
    by rewrite ?app_nil_r.
Qed.

Lemma initialize_posts n :
  outputs (act CallInitialize) n = [] ∧ core (final (act CallInitialize) n) = core n ∧
  strand_ (final (act CallInitialize) n) = strand_ n ++ [JInitialize] ∧
  (∀ p, d_to_int (ddiv (d_of_Z 1000) (tick_hz_ n)) = Ret p →
        result (act CallInitialize) n = Ret ()).
Proof.
  unfold act, initialize, result, final, outputs, post, modify, gets, lift, mbind, M_bind. cbn.
  destruct (d_to_int _); cbn; repeat split; by intros.
Qed.

Lemma run_next_run env n j q :
  strand_ n = j :: q → io_thread_ n = true →
  act (RunNext env) n = run_job env j (n <| strand_ := q |>).
Proof.
  destruct n. cbn -[act]. intros -> ->.
  unfold act, run_next, gets, modify, mbind, M_bind. cbn -[run_job]. by destruct (run_job _ _ _) as [[[[]|e] s'] t].
Qed.

Lemma run_next_idle env n :
  strand_ n = [] ∨ io_thread_ n = false → act (RunNext env) n = (Ret (), n, []).
Proof.
  intros Hs. unfold act, run_next, gets, mbind, M_bind. cbn -[run_job].
  destruct (strand_ n); [done|]. destruct (io_thread_ n); [by destruct Hs|done].
Qed.

(** ** What the node has at every moment *)

Definition node_inv n : Prop :=
  match trip_ctrl_ n with
  | Some c => inv (world n c)
  | None => rm_inv (lanelet_map_ n) ∧ ∀ m, JMessage m ∉ strand_ n
  end.

Lemma node_inv_core n n' :
  core n' = core n → (∀ m, JMessage m ∈ strand_ n' → JMessage m ∈ strand_ n ∨ trip_ctrl_ n ≠ None) →
  node_inv n → node_inv n'.
Proof.
  unfold core, node_inv, world. intros [= -> -> -> _] Hs. destruct (trip_ctrl_ n); [done|].
  intros [Hm Hq]. split; [done|]. intros m Hin. destruct (Hs m Hin) as [Hin'|?]; [|done].
  by apply (Hq m).
Qed.

(** The cases of a handler taken from the strand. *)
Definition ran_next env n j q : outcome unit → Node Mp → list Event → Prop := λ o n' out,
  let n0 := n <| strand_ := q |> in
  o = Ret () ∧
  ((j = JInitialize ∧ n' = put_world (final boot_op (fresh n0)) n0 ∧
    out = outputs boot_op (fresh n0) ≫= react n) ∨
   (j ≠ JInitialize ∧ trip_ctrl_ n = None ∧ n' = n0 ∧ out = refusal j) ∨
   (∃ c, j ≠ JInitialize ∧ trip_ctrl_ n = Some c ∧ ran env n0 c j o n' out)).

Lemma run_next_ran env n j q :
  node_inv n → strand_ n = j :: q → io_thread_ n = true →
  wp (act (RunNext env)) n (ran_next env n j q).
Proof.
  unfold node_inv. intros Hn Hs Hi. unfold wp, result, final, outputs.
  rewrite (run_next_run env n j q Hs Hi). unfold ran_next. cbn zeta.
  set (n0 := n <| strand_ := q |>).
  assert (Hdec : j = JInitialize ∨ j ≠ JInitialize) by (destruct j; (by left) || by right).
  destruct Hdec as [->|Hj].
  - cbn [run_job]. rewrite initializeImpl_ran.
    + split; [done|]. by left.
    + cbn. destruct (trip_ctrl_ n); [apply Hn|by destruct Hn].
  - destruct (trip_ctrl_ n) as [c|] eqn:Hc.
    + destruct (run_job_ran env n0 c j Hc Hn Hj) as (Ho & Hn' & Hout).
      split; [exact Ho|]. right. right. by exists c.
    + destruct Hn as [Hm Hq]. rewrite run_job_early; [|done..|].
      * split; [done|]. right. by left.
      * intros m ->. apply (Hq m). rewrite Hs. apply list_elem_of_here.
Qed.

Lemma act_ok a n :
  node_inv n → node_inv (final (act a) n) ∧
  (∀ p, d_to_int (ddiv (d_of_Z 1000) (tick_hz_ n)) = Ret p → result (act a) n = Ret ()) ∧
  tick_hz_ (final (act a) n) = tick_hz_ n.
Proof.
  intros Hn. assert (Hdec : is_post a ∨ a = CallInitialize ∨ ∃ env, a = RunNext env).
  { destruct a; try (by left); right; [by left|right; by eexists]. }
  destruct Hdec as [Hp|[->|[env ->]]].
  - destruct (act_posts a n Hp) as (Hr & _ & Hc & _ & Hs). split; [|split].
    + apply (node_inv_core n); [done| |done]. rewrite Hs. intros m [Hin|Hin]%elem_of_app; [by left|].
      right. intros Hnone. unfold posted in Hin. rewrite Hnone in Hin.
      destruct a; try case_match; try done; set_solver.
    + done.
    + by injection Hc.
  - destruct (initialize_posts n) as (_ & Hc & Hs & Hr). split; [|split; [done|by injection Hc]].
    apply (node_inv_core n); [done| |done]. rewrite Hs. set_solver.
  - destruct (strand_ n) as [|j q] eqn:Hs; [|destruct (io_thread_ n) eqn:Hi].
    1,3: unfold result, final; rewrite run_next_idle by tauto; by intuition.
    destruct (run_next_ran env n j q Hn Hs Hi) as [Ho Hcases].
    destruct Hcases as [(_ & -> & _)|[(Hj & Hc & -> & _)|(c & Hj & Hc & _ & -> & _)]].
    + split; [|by intuition]. unfold node_inv. cbn -[boot_op fresh inv world put_world].
      change (inv (final boot_op (fresh (n <| strand_ := q |>)))).
      assert (rm_inv (lanelet_map_ n)) as Hm.
      { unfold node_inv in Hn. destruct (trip_ctrl_ n); [apply Hn|by destruct Hn]. }
      by destruct (inv_boot_op TripTimings_default (lanelet_map_ n) (clock_reads n) Hm).
    + split; [|by intuition]. apply (node_inv_core n); [done| |done]. cbn. rewrite Hs. set_solver.
    + split; [|by intuition]. unfold node_inv in Hn |- *. rewrite Hc in Hn.
      change (inv (run (job_inputs env (n <| strand_ := q |>) j) (world (n <| strand_ := q |>) c))).
      by apply inv_run.
Qed.

Lemma node_inv_after l n : node_inv n → node_inv (after l n).
Proof.
  intros Hn. apply (run_inputs_inv (λ a, final (act a)) node_inv); [|done].
  intros a n' Hn'. by apply act_ok.
Qed.

(** After the destructor nothing is handled: every call and message is only queued. *)
Lemma destroyed_silent l n : CallInitialize ∉ l → trace l (final destroy n) = [].
Proof.
  assert (Hio : io_thread_ (final destroy n) = false) by done. revert Hio.
  generalize (final destroy n). clear n. induction l as [|a l IH]; intros n Hio Hl; [done|].
  apply not_elem_of_cons in Hl as [Ha Hl]. cbn [trace].
  assert (outputs (act a) n = [] ∧ io_thread_ (final (act a) n) = false) as [-> Hn]; [|by apply IH].
  destruct a as [| | | | | | | | | | |m|env]; try done; cbn [act].
  - unfold timer_fires, gets, mbind, M_bind, outputs, final. cbn. by destruct (tick_timer_ n).
  - unfold message_arrives, gets, mbind, M_bind, outputs, final. cbn. by destruct (trip_ctrl_ n).
  - unfold run_next, gets, mbind, M_bind, outputs, final. cbn. rewrite Hio.
    by destruct (strand_ n).
Qed.
End Facts.
