(* ===== verification/TripProtocol.v ===== *)
(** * TripProtocol: the state machine, as its clients see it

    [allowed i s] is the abstract specification: the states in which the trip may be after input
    [i] in state [s].  The controller refines it in every reachable state.  The file also has the
    exact outcome of the commands that start the two drives, which the specification relies on. *)

From S2P Require Export TripInvariant.
Import TripState.

(** ** The abstract machine *)

Definition allowed (i : Input) (s : TripState.t) : list TripState.t :=
  match i with
  | Cancel => [IDLE]
  | QueryEta _ _ _ _ =>
    match s with IDLE => [IDLE; QUERY_PUBLISHING_INITIAL_POSE] | _ => [s] end
  | StartTrip => match s with ROUTES_READY => [WAITING_FOR_PICKUP_START] | _ => [s] end
  | GoToPickup => match s with WAITING_FOR_PICKUP_START => [PUBLISHING_INITIAL_POSE] | _ => [s] end
  | Move => match s with WAITING_FOR_MOVE => [ENGAGING] | _ => [s] end
  | MoveCommand =>
    match s with
    | WAITING_FOR_PICKUP_START => [PUBLISHING_INITIAL_POSE]
    | WAITING_FOR_MOVE => [ENGAGING]
    | _ => [s]
    end
  | Engaged => match s with ENGAGING => [DRIVING_TO_PICKUP; RUNNING] | _ => [s] end
  | Tick _ _ =>
    match s with
    | INITIALIZING_IN_MAP => [s; IDLE]
    | QUERY_PUBLISHING_INITIAL_POSE => [QUERY_WAITING_LOCALISATION]
    | QUERY_WAITING_LOCALISATION => [s; QUERY_PUBLISHING_GOAL; IDLE]
    | QUERY_PUBLISHING_GOAL => [QUERY_WAITING_ROUTE]
    | QUERY_WAITING_ROUTE => [s; QUERY_READING_ETA; IDLE]
    | QUERY_READING_ETA => [s; QUERY_PUBLISHING_INITIAL_POSE; ROUTES_READY; IDLE]
    | PUBLISHING_INITIAL_POSE => [WAITING_LOCALISATION]
    | WAITING_LOCALISATION => [s; ENGAGING]
    | DRIVING_TO_PICKUP => [s; WAITING_FOR_MOVE]
    | RUNNING => [s; COMPLETED]
    | _ => [s]
    end
  | _ => [s]
  end.

(** Its state after a list of inputs, in every way the specification permits. *)
Inductive allowed_run : list Input → TripState.t → TripState.t → Prop :=
  | allowed_nil s : allowed_run [] s s
  | allowed_cons i l s s' s'' :
      s' ∈ allowed i s → allowed_run l s' s'' → allowed_run (i :: l) s s''.

Section Protocol.
Context {Mp : Type} `{RouteMap Mp} `{Clocks} `{AutowareMsgs}.
Implicit Types (w : World Mp) (c : TripController).

(** ** The commands that start the drives *)

(** Equality of two sequences of member updates: evaluate both. *)
Ltac same_record w :=
  clear; destruct w as [c ? ?]; destruct c as [? ? ? ? ? ? ? s]; destruct s;
  cbv -[to_string steady_at d0]; reflexivity.

(** What the registered observer is told of a change of state from [w] to [w']. *)
Definition told (w w' : World Mp) : list Output :=
  if on_state_change_ (ctrl w)
  then [StateChange (trip_state w) (trip_state w') (status_ (ctrl w'))] else [].

Section Commands.
Context {Laws : RouteMapLaws Mp}.

(** [startTrip] with the routes ready: always accepted, and the trip's start is the pickup lane. *)
Lemma startTrip_ready w :
  inv w → trip_state w = ROUTES_READY →
  ∃ p pl, pickup_route_ (ctrl w) = Some p ∧ lane_settled (lanelet_map_ w) pl ∧
    lane_id pl = held_goal_lane_id_ p ∧
    wp startTrip w (λ o w' out,
      o = Ret true ∧ out = told w w' ∧ lanelet_map_ w' = lanelet_map_ w ∧
      ∃ t, ctrl w' = (ctrl w)
        <| engaging_for_pickup_ := true |> <| current_route_state_ := None |>
        <| status_ ::= λ s, set_start pl (held_goal_gps_ p) s
                              <| state_ := WAITING_FOR_PICKUP_START |>
                              <| last_state_change_ := t |> |>
        <| state_entered_at_ := t |> <| last_publish_time_ := 0 |>).
Proof.
  intros [Hm [Hq Hs]] Hst. unfold trip_state in Hst. rewrite Hst in Hs. cbn in Hs.
  destruct Hs as (_ & pl & gl & p & r & Hp & Hr & Hid & _ & _ & Hpl & _).
  exists p, pl. split_and!; [done..|]. unfold startTrip. wp_ops.
  { intuition congruence. }
  assert (h = p) as -> by congruence. rewrite Hid. eapply wp_on_map; [exact Hpl|]. cbv beta iota. wp_ops.
  split; [reflexivity|]. split.
  { unfold told, change_out. cbn. by destruct (on_state_change_ (ctrl w)). }
  split; [reflexivity|]. exists (steady_at (reads w)). same_record w.
Qed.

(** [move] at the pickup point: always accepted; the goal is the lane the map gives for the
    destination of the banked trip route, and it is published. *)
Lemma move_waiting w :
  inv w → trip_state w = WAITING_FOR_MOVE →
  ∃ r pl gl, trip_route_ (ctrl w) = Some r ∧
    start_lanelet_id_ (status_ (ctrl w)) = to_string (lane_id pl) ∧
    route_settled (lanelet_map_ w) (held_goal_gps_ r) (lane_id pl) gl ∧
    wp move w (λ o w' out,
      o = Ret true ∧ lanelet_map_ w' = lanelet_map_ w ∧
      (∃ t, ctrl w' = (ctrl w)
        <| status_ ::= λ s, set_goal gl r s <| state_ := ENGAGING |> <| last_state_change_ := t |> |>
        <| current_route_state_ := None |> <| engaging_for_pickup_ := false |>
        <| state_entered_at_ := t |> <| last_publish_time_ := 0 |>) ∧
      ∃ t, out = [PublishGoal {| ps_header := {| frame_id := "map"; stamp := t |};
                    ps_pose := {| position := mkPoint (local_x (local gl)) (local_y (local gl))
                                                (local_z (local gl));
                                  orientation := mkQuaternion d0 d0
                                    (ori_z (lane_orientation gl)) (ori_w (lane_orientation gl)) |} |}]
                 ++ told w w').
Proof.
  intros [Hm [Hq Hs]] Hst. unfold trip_state in Hst. rewrite Hst in Hs. cbn in Hs.
  destruct Hs as (_ & pl & gl & p & r & (Hp & Hr & Hid & Hi & _ & _ & _ & Hset) & Hsl).
  exists r, pl, gl. split_and!; [done..|]. unfold move. wp_ops.
  rewrite Hsl, stoll_to_string by done. cbv beta iota. assert (h = r) as -> by congruence.
  wp_ops. eapply wp_on_map; [exact Hset|]. cbv beta iota.
  unfold publish_goal, doPublishGoal. wp_ops.
  split; [reflexivity|]. split; [reflexivity|]. split.
  { exists (steady_at (S (reads w))). same_record w. }
  eexists.
  unfold told, change_out. cbn. by destruct (on_state_change_ (ctrl w)).
Qed.
(** A refused [startTrip] still resets two members. *)
Lemma startTrip_refused w :
  inv w → trip_state w ≠ ROUTES_READY →
  startTrip w = (Ret false,
    w <| ctrl ::= λ c, c <| engaging_for_pickup_ := true |>
                         <| current_route_state_ := None |> |>, []).
Proof.
  intros [Hm [Hq Hs]] Hst. unfold trip_state in Hst.
  assert (Hwp : wp startTrip w (λ o w' out, (o, w', out) = (Ret false,
    w <| ctrl ::= λ c, c <| engaging_for_pickup_ := true |>
                         <| current_route_state_ := None |> |>, []))).
  { unfold startTrip. wp_ops; try done. exfalso. apply n. split; [done|]. intros Hi. rewrite Hi in Hs.
    destruct Hs as (_ & ? & _). congruence. }
  rewrite <- Hwp. apply run_split.
Qed.
End Commands.

(** ** The operations, up to the state they end in *)

Lemma wp_on_map_any {A} (f : Mp → outcome A * Mp) w Q :
  (∀ o m', Q o (w <| lanelet_map_ := m' |>) []) → wp (on_map f) w Q.
Proof. intros HQ. eapply wp_on_map; [apply surjective_pairing|apply HQ]. Qed.

(** An operation that, if it returns, ends in one of [l]. *)
Definition ends_in {A} (l : list TripState.t) : outcome A → World Mp → list Output → Prop :=
  λ o w' _, (∃ a, o = Ret a) → trip_state w' ∈ l.

Lemma ends_throw {A} l (e : exn) w out : ends_in (A := A) l (Throw e) w out.
Proof. by intros [a ?]. Qed.

Lemma ends_sub {A} l l' (o : outcome A) w out out' :
  l ⊆ l' → ends_in l o w out → ends_in l' o w out'.
Proof. intros Hsub Ho Ha. by apply Hsub, Ho. Qed.

(** Closes a branch whose last state is known. *)
Ltac pick_state :=
  repeat match goal with E : state_ _ = _ |- _ => progress rewrite E end;
  repeat first [left; reflexivity | right].
Ltac ends :=
  unfold trip_state in *;
  lazymatch goal with
  | |- ends_in _ (Throw _) _ _ => apply ends_throw
  | |- ends_in _ (Ret _) _ _ => solve [intros _; unfold trip_state; cbn; pick_state]
  end.

Lemma quiet_then op w (Q : outcome unit → World Mp → list Output → Prop) :
  quiet op →
  (∀ w' out, trip_state w' = trip_state w → Q (Ret ()) w' out) → wp op w Q.
Proof.
  intros Hq HQ. eapply wp_mono; [apply Hq|]. intros o w' out (-> & _ & _ & _ & t & Hc).
  apply HQ. unfold trip_state. by rewrite Hc.
Qed.

Lemma failQuery_ends reason w : wp (failQuery reason) w (ends_in [IDLE]).
Proof. unfold failQuery. wp_ops; ends. Qed.

Lemma startQueryLeg_ends f t w :
  wp (startQueryLeg f t) w (ends_in [IDLE; QUERY_PUBLISHING_INITIAL_POSE]).
Proof.
  assert (Hf : ∀ reason w', wp (failQuery reason) w'
    (ends_in [IDLE; QUERY_PUBLISHING_INITIAL_POSE])).
  { intros reason w'. eapply wp_mono; [apply failQuery_ends|]. intros o w'' out.
    apply ends_sub. set_solver. }
  unfold startQueryLeg. apply wp_bind.
  apply wp_mono with (P := λ _ _ _, True); [done|]. intros [[fl|]|e] w1 out1 _; cbv beta iota.
  3: apply ends_throw.
  2: wp_ops; apply Hf.
  apply wp_bind, wp_on_map_any. intros [[tl|]|e] m'; cbv beta iota.
  3: apply ends_throw.
  2: apply wp_bind, wp_on_map_any; intros [near|e] m''; [apply Hf|apply ends_throw].
  wp_ops; ends.
Qed.

Lemma finishQueryLeg_ends w :
  wp finishQueryLeg w (ends_in [IDLE; QUERY_PUBLISHING_INITIAL_POSE; ROUTES_READY]).
Proof.
  unfold finishQueryLeg, finishPickupLeg, finishTripLeg. wp_ops; try ends.
  destruct (stoll _); [|ends]. wp_ops.
  eapply wp_mono; [apply startQueryLeg_ends|]. intros o w' out. apply ends_sub. set_solver.
Qed.

Lemma fail_after_ends limit reason w :
  wp (fail_after limit reason) w (ends_in [trip_state w; IDLE]).
Proof.
  unfold fail_after, elapsed_ms. wp_ops; [|ends].
  eapply wp_mono; [apply failQuery_ends|]. intros o w' out. apply ends_sub. set_solver.
Qed.

Lemma tick_ends a b w : wp (tick a b) w (ends_in (allowed (Tick a b) (trip_state w))).
Proof.
  unfold tick. apply wp_bind. eapply wp_get_s; [reflexivity|]. cbv beta iota.
  unfold trip_state.
  destruct (state_ (status_ (ctrl w))) eqn:E; cbn [allowed].
  all: unfold tick_initializing,
    tick_query_localisation, tick_query_goal, tick_query_route,
    tick_query_eta, tick_localisation, tick_engaging, tick_driving, tick_running, elapsed_ms.
  all: wp_ops; try ends.
  all: try (apply quiet_then;
    [auto with agent|]; intros w' out Hs; unfold trip_state in Hs; wp_ops; try ends).
  1,2: eapply wp_mono; [apply fail_after_ends|]; intros o w'' out'; apply ends_sub.
  3,4: eapply wp_mono; [apply finishQueryLeg_ends|]; intros o w' out'; apply ends_sub.
  all: unfold trip_state; rewrite ?Hs, ?E; set_solver.
Qed.

Lemma queryEta_ends tf s g cb w :
  wp (queryEta tf s g cb) w (ends_in (allowed (QueryEta tf s g cb) (trip_state w))).
Proof.
  unfold queryEta, rejectQuery, getCurrentVehiclePose.
  apply wp_bind. eapply wp_get_s; [reflexivity|]. cbv beta iota.
  destruct (decide _) as [Hne|Heq%dec_stable].
  - assert (allowed (QueryEta tf s g cb) (trip_state w) = [trip_state w]) as ->
      by (unfold trip_state; by destruct (state_ (status_ (ctrl w)))).
    wp_ops; ends.
  - assert (allowed (QueryEta tf s g cb) (trip_state w) = [IDLE; QUERY_PUBLISHING_INITIAL_POSE])
      as -> by (unfold trip_state; by rewrite Heq).
    wp_ops; try ends. all: eapply wp_mono; [apply startQueryLeg_ends|].
    intros [a|e] w' out Ho; [|apply ends_throw]. cbv beta iota. wp_ops. intros _. apply Ho. eauto.
Qed.

Section Refinement.
Context {Laws : RouteMapLaws Mp}.

Lemma step_ends l i w : inv w → wp (handle i) w (ends_in l) → trip_state (step i w) ∈ l.
Proof. intros Hw Hwp. apply Hwp. by apply handle_returns. Qed.

Lemma step_startTrip_protocol w :
  inv w → trip_state (step StartTrip w) ∈ allowed StartTrip (trip_state w).
Proof.
  intros Hw. destruct (decide (trip_state w = ROUTES_READY)) as [Hst|Hne].
  - destruct (startTrip_ready w Hw Hst) as (p & pl & _ & _ & _ & Hwp).
    rewrite Hst. cbn [allowed]. unfold step, trip_state, wp in *. cbn [handle].
    destruct Hwp as (_ & _ & _ & t & ->). by left.
  - assert (allowed StartTrip (trip_state w) = [trip_state w]) as -> by by destruct (trip_state w).
    unfold step. cbn [handle]. unfold final. rewrite startTrip_refused by done. by left.
Qed.

Lemma step_move_protocol w :
  inv w → trip_state (step Move w) ∈ allowed Move (trip_state w).
Proof.
  intros Hw. destruct (decide (trip_state w = WAITING_FOR_MOVE)) as [Hst|Hne].
  - destruct (move_waiting w Hw Hst) as (r & pl & gl & _ & _ & _ & Hwp).
    rewrite Hst. cbn [allowed]. unfold step, trip_state, wp in *. cbn [handle].
    destruct Hwp as (_ & _ & (t & ->) & _). by left.
  - assert (allowed Move (trip_state w) = [trip_state w]) as -> by by destruct (trip_state w).
    apply (step_ends _ Move); [done|]. cbn [handle]. unfold move, trip_state in *. wp_ops. ends.
Qed.

Lemma step_goToPickup_protocol w :
  inv w → trip_state (step GoToPickup w) ∈ allowed GoToPickup (trip_state w).
Proof.
  intros Hw. apply (step_ends _ GoToPickup); [done|]. cbn [handle]. unfold goToPickup, trip_state.
  destruct (state_ (status_ (ctrl w))) eqn:E; cbn [allowed]; wp_ops; ends.
Qed.

(** The operator's single move command starts the drive that is due. *)
Lemma handleMoveCommand_eq w :
  handleMoveCommand w =
    if decide (trip_state w = WAITING_FOR_PICKUP_START) then goToPickup w
    else if decide (trip_state w = WAITING_FOR_MOVE) then move w
    else (Ret false, w, []).
Proof.
  unfold handleMoveCommand, get_s, trip_state, mbind at 1, M_bind at 1. cbn.
  destruct (decide _); [by destruct (goToPickup w) as [[? ?] ?]|].
  destruct (decide _); [by destruct (move w) as [[? ?] ?]|done].
Qed.

Lemma step_moveCommand_protocol w :
  inv w → trip_state (step MoveCommand w) ∈ allowed MoveCommand (trip_state w).
Proof.
  intros Hw. unfold step. cbn [handle]. unfold final. rewrite handleMoveCommand_eq.
  destruct (decide _) as [Hs|Hs]; [|destruct (decide _) as [Hs'|Hs']].
  - pose proof (step_goToPickup_protocol w Hw) as Hp. rewrite Hs in *. exact Hp.
  - pose proof (step_move_protocol w Hw) as Hp. rewrite Hs' in *. exact Hp.
  - destruct (trip_state w) eqn:E; cbn; rewrite ?E; try done; by left.
Qed.

(** Every step of the controller is one the specification permits. *)
Lemma step_protocol i w : inv w → trip_state (step i w) ∈ allowed i (trip_state w).
Proof.
  intros Hw. destruct i.
  8: by apply step_startTrip_protocol. 10: by apply step_move_protocol.
  9: by apply step_moveCommand_protocol.
  7: apply step_ends; [done|apply queryEta_ends].
  7: by apply step_goToPickup_protocol.
  all: apply step_ends; [done|]; cbn [handle]; unfold on_loc_state, injectEta, on_route_state,
    on_mode_state, onRouteReceived, onEngaged, setCurrentGps, cancel; cbn [allowed].
  1-5: wp_ops; ends.
  - unfold trip_state.
    destruct (state_ (status_ (ctrl w))) eqn:E; cbn [allowed]; wp_ops; ends.
  - wp_ops; ends.
  - wp_ops; ends.
  - apply wp_bind. eapply wp_mono; [apply tick_ends|].
    intros [[]|e] w' out Ho; [|apply ends_throw]. intros _. apply Ho. eauto.
Qed.

Lemma run_protocol l w : inv w → allowed_run l (trip_state w) (trip_state (run l w)).
Proof.
  revert w. induction l as [|i l IH]; intros w Hw; [constructor|].
  econstructor; [by apply step_protocol|]. apply IH. by apply inv_step.
Qed.
End Refinement.
End Protocol.
