(* ===== verification/TripQueries.v ===== *)
(** * TripQueries: every query is answered once

    Bookkeeping of the replies of [queryEta]: each reply is paid for by exactly one query that was
    asked, and a query is answered, pending, or dropped by [cancel].  A query under way ends within
    ten ticks that come late enough for the state's timeout. *)

From S2P Require Export TripProtocol.
Import TripState.

(** ** Counting *)

Definition reply_to (k : nat) (o : Output) : bool :=
  match o with QueryReply k' _ => bool_decide (k' = k) | _ => false end.
Definition replies (k : nat) (out : list Output) : nat := length (filter (reply_to k) out).
Definition asks (k : nat) (i : Input) : nat :=
  match i with QueryEta _ _ _ (Some k') => if bool_decide (k' = k) then 1 else 0 | _ => 0 end.
Definition asked (k : nat) (l : list Input) : nat := sum_list_with (asks k) l.

Lemma replies_app k out out' : replies k (out ++ out') = (replies k out + replies k out')%nat.
Proof. unfold replies. by rewrite filter_app, length_app. Qed.

Lemma replies_cons k o out :
  replies k (o :: out) = ((if reply_to k o then 1 else 0) + replies k out)%nat.
Proof.
  unfold replies. rewrite filter_cons. by destruct (reply_to k o).
Qed.

Lemma replies_io k out : Forall is_io out → replies k out = 0%nat.
Proof.
  unfold replies. induction 1 as [|o out Ho _ IH]; [done|]. rewrite filter_cons_False; [done|].
  intros Hr. by destruct o.
Qed.

Section Queries.
Context {Mp : Type} `{RouteMap Mp} `{Clocks} `{AutowareMsgs}.
Implicit Types (w : World Mp) (c : TripController).

Definition pending_c (k : nat) (c : TripController) : nat :=
  match query_cb_ c with Some k' => if bool_decide (k' = k) then 1 else 0 | None => 0 end.
Definition pending (k : nat) (w : World Mp) : nat := pending_c k (ctrl w).

(** What cancellations drop. *)
Definition drops (k : nat) (i : Input) (w : World Mp) : nat :=
  match i with Cancel => pending k w | _ => 0 end.
Fixpoint dropped (k : nat) (l : list Input) (w : World Mp) : nat :=
  match l with
  | [] => 0
  | i :: l' => drops k i w + dropped k l' (step i w)
  end.

(** ** Operations that keep the books *)

(** What is answered plus what is pending afterwards is what was pending. *)
Definition conserves {A} (op : Op Mp A) : Prop := ∀ k w,
  wp op w (λ _ w' out, (replies k out + pending k w')%nat = pending k w).

Lemma conserves_ret {A} (a : A) : conserves (mret a).
Proof. by intros k w. Qed.
Lemma conserves_bind {A B} (m : Op Mp A) (f : A → Op Mp B) :
  conserves m → (∀ a, conserves (f a)) → conserves (m ≫= f).
Proof.
  intros Hm Hf k w. apply wp_bind. eapply wp_mono; [apply Hm|]. intros [a|e] w' out Hk; [|done].
  cbv beta iota. eapply wp_mono; [apply (Hf a k)|]. intros o w'' out' Hk'. cbv beta in *.
  rewrite replies_app. lia.
Qed.
Lemma conserves_get_c {A} (f : TripController → A) : conserves (get_c f).
Proof. by intros k w. Qed.
Lemma conserves_get_s {A} (f : TripStatus → A) : conserves (get_s f).
Proof. by intros k w. Qed.
Lemma conserves_gets {A} (f : World Mp → A) : conserves (gets f).
Proof. by intros k w. Qed.
Lemma conserves_set_s f : conserves (set_s f).
Proof. by intros k w. Qed.
Lemma conserves_set_c f : (∀ c, query_cb_ (f c) = query_cb_ c) → conserves (set_c f).
Proof.
  intros Hf k w. apply wp_set_c. unfold pending, pending_c. cbn. by rewrite Hf.
Qed.
Lemma conserves_on_map {A} (f : Mp → outcome A * Mp) : conserves (on_map f).
Proof. intros k w. by apply wp_on_map_any. Qed.
Lemma conserves_lift {A} (o : outcome A) : conserves (lift o).
Proof. by intros k w. Qed.
Lemma conserves_elapsed t : conserves (elapsed_ms t).
Proof. by intros k w. Qed.
Lemma conserves_emit o : (∀ k, reply_to k o = false) → conserves (emit o).
Proof.
  intros Ho k w. apply wp_emit. unfold replies. rewrite filter_cons_False; [done|].
  intros Hr. by rewrite Ho in Hr.
Qed.
Lemma conserves_when b op : conserves op → conserves (when b op).
Proof. destruct b; [done|]. intros _. apply conserves_ret. Qed.
Lemma conserves_transitionTo s : conserves (transitionTo s).
Proof.
  intros k w. apply wp_transitionTo; intros _; [done|]. unfold change_out.
  by destruct (on_state_change_ (ctrl w)).
Qed.
Lemma conserves_quiet op : quiet op → conserves op.
Proof.
  intros Hq k w. eapply wp_mono; [apply Hq|]. intros o w' out (_ & _ & Hio & _ & t & Hc).
  rewrite replies_io by done. unfold pending. by rewrite Hc.
Qed.
Lemma conserves_doPublishInitialPose x y z qz qw :
  conserves (doPublishInitialPose x y z qz qw).
Proof. by intros k w. Qed.
Lemma conserves_doPublishGoal x y z qz qw : conserves (doPublishGoal x y z qz qw).
Proof. by intros k w. Qed.

(** Decomposes an operation into its primitives. *)
Ltac conserve :=
  repeat first
    [ progress cbv beta iota
    | lazymatch goal with
      | |- conserves (_ ≫= _) => apply conserves_bind; [|intros ?]
      | |- conserves (mret _) => apply conserves_ret
      | |- conserves (get_c _) => apply conserves_get_c
      | |- conserves (get_s _) => apply conserves_get_s
      | |- conserves (gets _) => apply conserves_gets
      | |- conserves (set_s _) => apply conserves_set_s
      | |- conserves (set_c _) => apply conserves_set_c; intros ?; reflexivity
      | |- conserves (on_map _) => apply conserves_on_map
      | |- conserves (lift _) => apply conserves_lift
      | |- conserves (elapsed_ms _) => apply conserves_elapsed
      | |- conserves (emit _) => apply conserves_emit; intros ?; reflexivity
      | |- conserves (when _ _) => apply conserves_when
      | |- conserves (doPublishGoal _ _ _ _ _) => apply conserves_doPublishGoal
      | |- conserves (transitionTo _) => apply conserves_transitionTo
      | |- conserves (if ?b then _ else _) => destruct b
      | |- conserves (match ?x with _ => _ end) => destruct x
      end
    | solve [eauto with agent] ].

(** The two operations that answer: the callback is called and forgotten. *)
Ltac answered :=
  unfold pending, pending_c, change_out; cbn;
  repeat match goal with E : query_cb_ _ = _ |- _ => rewrite E; clear E end;
  repeat (case_match || rewrite replies_app || rewrite replies_cons); cbn;
  repeat match goal with |- context [bool_decide ?P] => destruct (bool_decide P) end;
  try done.

Lemma conserves_failQuery reason : conserves (failQuery reason).
Proof. intros k w. unfold failQuery. wp_ops; answered. Qed.

Lemma conserves_finishTripLeg : conserves finishTripLeg.
Proof. intros k w. unfold finishTripLeg. wp_ops; answered. Qed.
Hint Resolve conserves_failQuery conserves_finishTripLeg : agent.

Lemma conserves_startQueryLeg f t : conserves (startQueryLeg f t).
Proof. unfold startQueryLeg, resolve_from. conserve. Qed.
Hint Resolve conserves_startQueryLeg : agent.

Lemma conserves_finishQueryLeg : conserves finishQueryLeg.
Proof. unfold finishQueryLeg, finishPickupLeg. conserve. Qed.
Hint Resolve conserves_finishQueryLeg : agent.

Lemma conserves_fail_after limit reason : conserves (fail_after limit reason).
Proof. unfold fail_after. conserve. Qed.
Hint Resolve conserves_fail_after conserves_quiet : agent.

Lemma conserves_tick a b : conserves (tick a b).
Proof.
  unfold tick. apply conserves_bind; [apply conserves_get_s|]. intros st.
  destruct st; cbv beta iota.
  all: unfold tick_initializing, tick_query_localisation, tick_query_goal, tick_query_route,
    tick_query_eta, tick_localisation, tick_engaging, tick_driving, tick_running; conserve.
Qed.

Lemma conserves_move : conserves move.
Proof. unfold move. conserve. Qed.
Lemma conserves_goToPickup : conserves goToPickup.
Proof. unfold goToPickup. conserve. Qed.
Hint Resolve conserves_move conserves_goToPickup conserves_tick : agent.

(** Every input but a query and a cancellation. *)
Lemma conserves_handle i :
  match i with QueryEta _ _ _ _ | Cancel => True | _ => conserves (handle i) end.
Proof.
  destruct i; try exact I; cbn [handle].
  all: unfold on_loc_state, injectEta, on_route_state, on_mode_state, onRouteReceived, onEngaged,
    setCurrentGps, startTrip, handleMoveCommand; conserve.
Qed.

Lemma conserves_boot : conserves boot_op.
Proof. unfold boot_op, setStateChangeCallback, setArrivalCallbacks, initializeInMap. conserve. Qed.

(** A refused query is answered at once. *)
Lemma rejectQuery_books cb msg k w :
  wp (rejectQuery cb msg) w (λ _ w' out,
    w' = w ∧ (replies k out = match cb with Some k' => if bool_decide (k' = k) then 1 else 0
                                          | None => 0 end)%nat).
Proof.
  unfold rejectQuery. destruct cb as [k'|]; wp_ops; [|done]. split; [done|].
  rewrite replies_app, replies_cons. cbn. by destruct (bool_decide _).
Qed.

Section Books.
Context {Laws : RouteMapLaws Mp}.

(** An accepted query replaces no pending one: none is pending in [IDLE]. *)
Lemma queryEta_books tf s g cb k w :
  inv w →
  wp (queryEta tf s g cb) w (λ _ w' out,
    (replies k out + pending k w')%nat = (asks k (QueryEta tf s g cb) + pending k w)%nat).
Proof.
  intros [_ [_ Hs]]. unfold queryEta.
  assert (Hrej : ∀ msg, wp (rejectQuery cb msg) w (λ _ w' out,
    (replies k out + pending k w')%nat = (asks k (QueryEta tf s g cb) + pending k w)%nat)).
  { intros msg. eapply wp_mono; [apply (rejectQuery_books cb msg k)|].
    by intros o w' out [-> ->]. }
  apply wp_bind. eapply wp_get_s; [reflexivity|]. cbv beta iota.
  destruct (decide _) as [Hne|Heq%dec_stable]; [apply Hrej|].
  rewrite Heq in Hs. destruct Hs as [Hcb _].
  apply wp_bind. apply wp_mono with (P := λ o w' out, (∃ a, o = Ret a) ∧ w' = w ∧ out = []).
  { unfold getCurrentVehiclePose. wp_ops; eauto. }
  intros o w' out [[v ->] [-> ->]]. destruct v as [pose|]; [|apply Hrej].
  apply wp_bind, wp_set_c. cbv beta iota. apply wp_bind.
  eapply wp_mono; [apply (conserves_startQueryLeg pose s k)|].
  intros [a|e] w' out Hk; cbv beta iota in *; [apply wp_ret|]; rewrite ?app_nil_r; cbn [app].
  all: rewrite Hk; unfold pending, pending_c, asks; cbn; rewrite Hcb; lia.
Qed.

Lemma cancel_books k w :
  wp (handle Cancel) w (λ _ w' out, replies k out = 0%nat ∧ pending k w' = 0%nat).
Proof.
  cbn [handle]. unfold cancel. wp_ops; (split; [|done]); rewrite ?replies_app; [|done].
  match goal with Hp : is_publication _ |- _ => apply publication_io in Hp end.
  cbn. by rewrite replies_io.
Qed.

(** One input: what is asked and what was pending is answered, still pending, or dropped. *)
Lemma step_books i k w :
  inv w →
  (asks k i + pending k w =
   replies k (outputs (handle i) w) + pending k (step i w) + drops k i w)%nat.
Proof.
  intros Hw. pose proof (conserves_handle i) as Hc. destruct i.
  7: pose proof (queryEta_books tf start_g goal_g cb k w Hw) as Hq; unfold wp in Hq;
     unfold step; cbn [handle drops]; lia.
  11: { assert (Hwp : wp (handle Cancel) w (λ _ w' out, replies k out = 0%nat ∧ pending k w' = 0%nat)).
        { apply cancel_books. }
        destruct Hwp as [-> Hp]. unfold step. rewrite Hp. cbn [asks drops]. lia. }
  all: specialize (Hc k w); unfold wp in Hc; cbn [asks drops]; unfold step; lia.
Qed.

Lemma run_books l k w :
  inv w →
  (asked k l + pending k w =
   replies k (run_outputs l w) + pending k (run l w) + dropped k l w)%nat.
Proof.
  revert w. induction l as [|i l IH]; intros w Hw; [cbn; lia|].
  pose proof (step_books i k w Hw). pose proof (IH _ (inv_step i w Hw)).
  cbn [asked sum_list_with run_outputs dropped]. rewrite replies_app.
  change (run (i :: l) w) with (run l (step i w)). unfold asked in *. lia.
Qed.
End Books.
End Queries.
