(* ===== verification/TripPacing.v ===== *)
(** * TripPacing: how often the trip controller repeats itself

    In five states the controller repeats a message or a service request until Autoware reacts.
    The time of the last repetition, [last_publish_time_], is only ever set to a later reading of
    the clock while the state stays, and reset when a state is entered. *)

From S2P Require Export TripInvariant.
Import TripState.

(** How long a waiting state leaves between two publications of its request, in ms. *)
Definition republish_period (s : TripState.t) : option Z :=
  match s with
  | INITIALIZING_IN_MAP | QUERY_WAITING_LOCALISATION | WAITING_LOCALISATION => Some 1000
  | QUERY_WAITING_ROUTE | ENGAGING => Some 2000
  | _ => None
  end.
Definition waiting (s : TripState.t) : Prop := is_Some (republish_period s).

Section Pacing.
Context {Mp : Type} `{RouteMap Mp} `{Clocks} `{AutowareMsgs}.
Implicit Types (w : World Mp) (i : Input).

(** ** Ticks *)

(** A tick that stays in the state: it published nothing and the time is the old one, or the
    period was over and the time is a reading made since. *)
Definition paced (p : Z) w w' (out : list Output) : Prop :=
  (reads w ≤ reads w')%nat ∧
  ((Forall (λ o, ¬ is_io o) out ∧ last_publish_time_ (ctrl w') = last_publish_time_ (ctrl w)) ∨
   (p ≤ to_ms (steady_at (reads w) - last_publish_time_ (ctrl w)) ∧
    ∃ n, (reads w < n < reads w')%nat ∧ last_publish_time_ (ctrl w') = steady_at n)).

Lemma republish_paced p op w :
  quiet op → wp (republish p op) w (λ o w' out,
    o = Ret () ∧ trip_state w' = trip_state w ∧ paced p w w' out).
Proof.
  intros Hq. unfold republish, elapsed_ms, paced. wp_ops.
  - eapply wp_mono; [apply Hq|]. intros o w' out (-> & _ & _ & Hr & t & Hc). cbv beta iota.
    cbn in Hr. wp_ops. unfold trip_state. cbn. rewrite Hc. split_and!; [done|done|lia|].
    right. split; [lia|]. exists (reads w'). split; [lia|done].
  - split_and!; [done|done|cbn; lia|]. left. split; [by constructor|done].
Qed.

(** A timeout that does not fire is silent; one that does leaves the waiting states. *)
Lemma fail_after_paced limit reason p w w0 out :
  trip_state w ≠ IDLE → paced p w0 w out →
  wp (fail_after limit reason) w (λ o w' out',
    trip_state w' = trip_state w → paced p w0 w' (out ++ out')).
Proof.
  intros Hne (Hr & Hp). unfold fail_after, elapsed_ms. wp_ops.
  - apply wp_mono with (P := λ _ w' _, trip_state w' = IDLE).
    + unfold failQuery. by wp_ops.
    + intros o w' out' Hi Hs. congruence.
  - rewrite app_nil_r. split; [cbn; lia|]. cbn. destruct Hp as [Hp|(? & n & ? & ?)]; [by left|right].
    split; [done|]. exists n. split; [lia|done].
Qed.

Lemma tick_paced a b w p :
  republish_period (trip_state w) = Some p →
  trip_state (step (Tick a b) w) = trip_state w →
  paced p w (step (Tick a b) w) (outputs (handle (Tick a b)) w).
Proof.
  intros Hp. unfold step.
  assert (Hpub : ∀ (op : Op Mp unit) (limit : Z) reason, quiet op → trip_state w ≠ IDLE →
    wp (republish p op) w (λ o w1 out,
      match o with
      | Ret _ => wp (fail_after limit reason) w1 (λ _ w' out',
                   trip_state w' = trip_state w → paced p w w' (out ++ out'))
      | Throw _ => trip_state w1 = trip_state w → paced p w w1 out
      end)).
  { intros op limit reason Hq Hne. eapply wp_mono; [by apply republish_paced|].
    intros o w' out (-> & Hs & Hpc). cbv beta iota. rewrite <- Hs.
    apply fail_after_paced; [by rewrite Hs|done]. }
  assert (Hpub' : ∀ (op : Op Mp unit), quiet op →
    wp (republish p op) w (λ _ w' out, trip_state w' = trip_state w → paced p w w' out)).
  { intros op Hq. eapply wp_mono; [by apply republish_paced|]. by intros o w' out (_ & _ & Hpc) _. }
  assert (Htick : wp (tick a b) w (λ _ w' out, trip_state w' = trip_state w → paced p w w' out)).
  { unfold tick. apply wp_bind. eapply wp_get_s; [reflexivity|]. cbv beta iota. unfold trip_state in *.
    destruct (state_ (status_ (ctrl w))) eqn:E; try done; injection Hp as <-; cbv beta iota.
    all: unfold tick_initializing, tick_query_localisation, tick_query_route, tick_localisation,
      tick_engaging; wp_ops.
    all: try (unfold trip_state; cbn; intros Hbad; discriminate Hbad).
    1,4,5: by apply Hpub'; auto with agent.
    all: by apply Hpub; auto with agent. }
  change (trip_state (final (tick a b;; mret true) w) = trip_state w →
    paced p w (final (tick a b;; mret true) w) (outputs (tick a b;; mret true) w)).
  to_wp (tick (Mp := Mp) a b;; mret true) w. apply wp_bind. eapply wp_mono; [exact Htick|].
  intros [[]|e] w' out Ho; cbv beta iota; [wp_ops; by rewrite app_nil_r|done].
Qed.

(** ** Everything else

    [restful op]: the clock advances, and [op] ends outside the waiting states, or in the state it
    began in with the time of the last publication kept. *)
Definition rests w w' : Prop :=
  (reads w ≤ reads w')%nat ∧
  (waiting (trip_state w') →
   trip_state w' = trip_state w ∧ last_publish_time_ (ctrl w') = last_publish_time_ (ctrl w)).
Definition restful {A} (op : Op Mp A) : Prop := ∀ w, rests w (final op w).

Lemma rests_trans w1 w2 w3 : rests w1 w2 → rests w2 w3 → rests w1 w3.
Proof.
  intros [Hr1 Hk1] [Hr2 Hk2]. split; [lia|]. intros Hw.
  destruct (Hk2 Hw) as [Hs Hl]. rewrite Hs in Hw. destruct (Hk1 Hw). split; congruence.
Qed.

Lemma restful_same {A} (op : Op Mp A) :
  (∀ w, ctrl (final op w) = ctrl w ∧ (reads w ≤ reads (final op w))%nat) → restful op.
Proof. intros Hs w. destruct (Hs w) as [Hc Hr]. split; [done|]. unfold trip_state. by rewrite Hc. Qed.

Lemma restful_bind {A B} (m : Op Mp A) (f : A → Op Mp B) :
  restful m → (∀ a, restful (f a)) → restful (m ≫= f).
Proof.
  intros Hm Hf w. change (wp (m ≫= f) w (λ _ w' _, rests w w')). apply wp_bind.
  specialize (Hm w). unfold wp. destruct (result m w) as [a|e]; [|done].
  eapply rests_trans; [exact Hm|apply Hf].
Qed.

Lemma restful_set_c f :
  (∀ c, state_ (status_ (f c)) = IDLE ∨
        state_ (status_ (f c)) = state_ (status_ c) ∧ last_publish_time_ (f c) = last_publish_time_ c) →
  restful (set_c f).
Proof.
  intros Hf w. split; [done|]. unfold trip_state, waiting. cbn.
  destruct (Hf (ctrl w)) as [->|[-> ->]]; [by intros [? ?]|done].
Qed.
Lemma restful_set_s f : (∀ s, state_ (f s) = state_ s) → restful (set_s f).
Proof. intros Hf. apply restful_set_c. intros c. right. split; [apply Hf|done]. Qed.

Lemma restful_transitionTo next : ¬ waiting next → restful (transitionTo next).
Proof.
  intros Hn w. change (wp (transitionTo next) w (λ _ w' _, rests w w')).
  apply wp_transitionTo; intros _; [by split|]. split; [cbn; lia|]. unfold trip_state. cbn. done.
Qed.

Lemma restful_on_map {A} (f : Mp → outcome A * Mp) : restful (on_map f).
Proof. apply restful_same. intros w. unfold final, on_map. by destruct (f (lanelet_map_ w)). Qed.
End Pacing.

Ltac restful_by :=
  repeat first
    [ progress cbv beta iota
    | lazymatch goal with
      | |- restful (_ ≫= _) => apply restful_bind; [|intros ?]
      | |- restful (on_map _) => apply restful_on_map
      | |- restful (transitionTo _) => apply restful_transitionTo; by intros [? ?]
      | |- restful (set_s _) => apply restful_set_s; reflexivity
      | |- restful (set_c _) =>
        apply restful_set_c; intros ?; first [by left | by right]
      | |- restful (when ?b _) => destruct b
      | |- restful (if ?b then _ else _) => destruct b
      | |- restful (match ?x with _ => _ end) => destruct x
      | |- restful (when true ?m) => change (restful m)
      | |- restful _ => apply restful_same; intros ?; split; [reflexivity|cbn; lia]
      end ].

Section Spacing.
Context {Mp : Type} `{RouteMap Mp} `{Clocks} `{AutowareMsgs}.
Implicit Types (w : World Mp) (i : Input).

Lemma restful_startQueryLeg f t : restful (Mp := Mp) (startQueryLeg f t).
Proof. unfold startQueryLeg, resolve_from, failQuery. restful_by. Qed.

Lemma handle_rests i w :
  (∀ a b, i ≠ Tick a b) → waiting (trip_state w) → rests w (step i w).
Proof.
  intros Ht Hw. unfold step.
  assert (Hmove : ∀ op : Op Mp bool, (i = MoveCommand ∧ op = handleMoveCommand ∨
                                      i = Move ∧ op = move) → rests w (final op w)).
  { intros op Hop. change (wp op w (λ _ w' _, rests w w')). unfold trip_state in Hw.
    assert (state_ (status_ (ctrl w)) ≠ WAITING_FOR_PICKUP_START) by (by intros E; rewrite E in Hw; destruct Hw).
    assert (state_ (status_ (ctrl w)) ≠ WAITING_FOR_MOVE) by (by intros E; rewrite E in Hw; destruct Hw).
    destruct Hop as [[_ ->]|[_ ->]]; unfold handleMoveCommand, goToPickup, move; wp_ops; by split. }
  destruct i; cbn [handle]; try (by eapply Hmove; auto); try (exfalso; by eapply Ht).
  all: clear Hmove Ht Hw; revert w; match goal with |- ∀ w, rests w (final ?op w) => change (restful op) end.
  all: unfold on_loc_state, injectEta, on_route_state, on_mode_state, onRouteReceived, onEngaged,
    queryEta, rejectQuery, getCurrentVehiclePose, startTrip, goToPickup,
    cancel, setCurrentGps, doPublishInitialPose, doPublishGoal.
  all: restful_by; try apply restful_startQueryLeg.
Qed.
(** The last repetition was recorded at or after the clock reading [n]. *)
Definition published_since (n : nat) w : Prop :=
  (n < reads w)%nat ∧ ∃ n', (n ≤ n')%nat ∧ last_publish_time_ (ctrl w) = steady_at n'.

Lemma step_published i w n p :
  republish_period (trip_state w) = Some p → trip_state (step i w) = trip_state w →
  published_since n w → published_since n (step i w).
Proof.
  intros Hp Hs (Hn & n' & Hle & Hl). unfold published_since.
  assert (Hcase : (∃ a b, i = Tick a b) ∨ ∀ a b, i ≠ Tick a b)
    by (destruct i; first [by right | by left; eauto]).
  destruct Hcase as [(a & b & ->)|Ht].
  - destruct (tick_paced a b w p Hp Hs) as (Hr & [[_ ->]|(_ & m & Hm & ->)]); (split; [lia|]).
    + by exists n'.
    + exists m. split; [lia|done].
  - destruct (handle_rests i w Ht) as [Hr Hk]; [by exists p|]. split; [lia|].
    destruct Hk as [_ ->]; [rewrite Hs; by exists p|]. by exists n'.
Qed.

Lemma run_published l w n s p :
  republish_period s = Some p →
  (∀ k, trip_state (run (take k l) w) = s) →
  published_since n w → published_since n (run l w).
Proof.
  intros Hp. revert w. induction l as [|i l IH]; intros w Hs Hn; [done|].
  apply (IH (step i w)).
  - intros k. apply (Hs (S k)).
  - pose proof (Hs 0%nat : trip_state w = s) as Hw.
    eapply (step_published i w n p); [by rewrite Hw|rewrite Hw; exact (Hs 1%nat)|done].
Qed.

(** A tick that publishes and stays records a reading of the clock made after its first. *)
Lemma publishing_tick a b w p :
  republish_period (trip_state w) = Some p → trip_state (step (Tick a b) w) = trip_state w →
  Exists is_io (outputs (handle (Tick a b)) w) →
  p ≤ to_ms (steady_at (reads w) - last_publish_time_ (ctrl w)) ∧
  ∃ n, (reads w < n < reads (step (Tick a b) w))%nat ∧
    last_publish_time_ (ctrl (step (Tick a b) w)) = steady_at n.
Proof.
  intros Hp Hs Hio. destruct (tick_paced a b w p Hp Hs) as (_ & [[Hno _]|Hpub]); [|done].
  exfalso. apply Exists_exists in Hio as (o & Ho & Hio). rewrite Forall_forall in Hno.
  exact (Hno o Ho Hio).
Qed.

(** C34: while the controller waits in a state it repeats its request no faster than the period of
    the state.  Between two ticks that publish or ask for a service, with any inputs in between that
    leave the state as it is, at least the period passes: 1 s for an initial pose, 2 s for a goal or
    an engagement, from the reading that follows the first to the one at the beginning of the second.
    Entering a state resets the time of the last publication to the epoch of the clock, so that the
    first tick in it publishes at once, on a machine up for longer than the period: nothing is said
    of what was sent on the way into the state. *)
Theorem repetitions_spaced a b a' b' w l p :
  let s := trip_state w in
  let w1 := step (Tick a b) w in
  let w2 := run l w1 in
  republish_period s = Some p →
  Exists is_io (outputs (handle (Tick a b)) w) →
  (∀ k, trip_state (run (take k l) w1) = s) →
  Exists is_io (outputs (handle (Tick a' b')) w2) → trip_state (step (Tick a' b') w2) = s →
  ∃ n, (reads w < n < reads w1)%nat ∧ last_publish_time_ (ctrl w1) = steady_at n ∧
    p ≤ to_ms (steady_at (reads w2) - steady_at n).
Proof.
  intros s w1 w2 Hp Hio1 Hs Hio2 Hs2. assert (Hs1 : trip_state w1 = s) by apply (Hs 0%nat).
  assert (Hsw2 : trip_state w2 = s).
  { rewrite <- (Hs (length l)). by rewrite firstn_all. }
  destruct (publishing_tick a b w p Hp Hs1 Hio1) as (_ & n & Hn & Hl). fold w1 in Hn, Hl.
  exists n. split_and!; [lia..|done|].
  assert (Hpub : published_since n w2).
  { eapply run_published; [exact Hp|exact Hs|]. split; [lia|by exists n]. }
  destruct Hpub as (_ & n' & Hle & Hl').
  destruct (publishing_tick a' b' w2 p) as [He _]; [by rewrite Hsw2|by rewrite Hs2, Hsw2|done|].
  rewrite Hl' in He. etrans; [exact He|]. apply to_ms_le. pose proof (steady_le n n' Hle). lia.
Qed.
End Spacing.
