(* ===== verification/TripLiveness.v ===== *)
(** * TripLiveness: a query does not hang

    While a query is under way the controller is on one of two legs and in one of five states of
    the leg; [qrank] counts what is left.  No input takes it up, and a tick that comes later than
    the state's timeout takes it down.  So ten late ticks end any query. *)

From S2P Require Export TripQueries.
Import TripState.

(** ** The rank *)

Definition state_rank (s : TripState.t) : nat :=
  match s with
  | QUERY_PUBLISHING_INITIAL_POSE => 5
  | QUERY_WAITING_LOCALISATION => 4
  | QUERY_PUBLISHING_GOAL => 3
  | QUERY_WAITING_ROUTE => 2
  | QUERY_READING_ETA => 1
  | _ => 0
  end.

Definition qrank (c : TripController) : nat :=
  match state_rank (state_ (status_ c)) with
  | O => O
  | n => n + (if decide (current_leg_ c = QueryLeg.PICKUP) then 5 else 0)
  end.

Lemma qrank_le c : (qrank c ≤ 10)%nat.
Proof. unfold qrank. destruct (state_ _); cbn; repeat case_decide; lia. Qed.

Lemma qrank_zero c : qrank c = 0%nat ↔ is_query (state_ (status_ c)) = false.
Proof. unfold qrank. by destruct (state_ (status_ c)). Qed.

Section Liveness.
Context {Mp : Type} `{RouteMap Mp} `{Clocks} `{AutowareMsgs}.
Implicit Types (w : World Mp) (c : TripController).

(** The clock reading the next handler starts from has passed every timeout of the state. *)
Definition late (w : World Mp) : bool :=
  let e := to_ms (steady_at (reads w) - state_entered_at_ (ctrl w)) in
  let t := timings_ (ctrl w) in
  (loc_timeout_ms t <=? e) && (route_timeout_ms t <=? e) && (eta_settle_ms t <=? e).

Fixpoint late_ticks (l : list Input) (w : World Mp) : nat :=
  match l with
  | [] => 0
  | i :: l' =>
    (match i with Tick _ _ => if late w then 1 else 0 | _ => 0 end) + late_ticks l' (step i w)
  end.

(** An operation that, if it returns, leaves at most [n]. *)
Definition ranked {A} (n : nat) : outcome A → World Mp → list Output → Prop :=
  λ o w' _, (∃ a, o = Ret a) → (qrank (ctrl w') ≤ n)%nat.

Lemma ranked_throw {A} n (e : exn) w out : ranked (A := A) n (Throw e) w out.
Proof. by intros [a ?]. Qed.

Lemma ranked_le {A} n n' (o : outcome A) w out out' :
  (n ≤ n')%nat → ranked n o w out → ranked n' o w out'.
Proof. intros Hle Ho Ha. specialize (Ho Ha). lia. Qed.

Ltac rank_of :=
  lazymatch goal with
  | |- ranked _ (Throw _) _ _ => apply ranked_throw
  | |- ranked _ (Ret _) _ _ =>
    intros _; unfold qrank; cbn;
    repeat match goal with E : state_ _ = _ |- _ => progress rewrite E
                         | E : current_leg_ _ = _ |- _ => progress rewrite E end;
    cbn -[Nat.sub]; repeat case_decide; repeat case_match; first [done | congruence | lia]
  end.

Lemma failQuery_rank reason w : wp (failQuery reason) w (ranked 0).
Proof. unfold failQuery. wp_ops; rank_of. Qed.

Lemma startQueryLeg_rank f t w :
  current_leg_ (ctrl w) = QueryLeg.TRIP → wp (startQueryLeg f t) w (ranked 5).
Proof.
  intros Hl.
  assert (Hf : ∀ reason w', wp (failQuery reason) w' (ranked 5)).
  { intros reason w'. eapply wp_mono; [apply failQuery_rank|]. intros o w'' out.
    apply ranked_le. lia. }
  unfold startQueryLeg. apply wp_bind.
  apply wp_mono with (P := λ _ w' _, ctrl w' = ctrl w).
  { unfold resolve_from. wp_ops.
    destruct (stoll _); [|done]. by apply wp_on_map_any. }
  intros [[fl|]|e] w1 out1 Hc; cbv beta iota.
  3: apply ranked_throw.
  2: wp_ops; apply Hf.
  apply wp_bind, wp_on_map_any. intros [[tl|]|e] m'; cbv beta iota.
  3: apply ranked_throw.
  2: apply wp_bind, wp_on_map_any; intros [near|e] m''; [apply Hf|apply ranked_throw].
  wp_ops; intros _; unfold qrank; rewrite decide_False by (cbn; congruence); cbn; [|lia].
  rewrite Hsame. cbn. lia.
Qed.

Lemma finishQueryLeg_rank w :
  state_ (status_ (ctrl w)) = QUERY_READING_ETA →
  wp finishQueryLeg w (ranked (qrank (ctrl w) - 1)).
Proof.
  intros Hs. unfold finishQueryLeg, finishPickupLeg, finishTripLeg. wp_ops; try rank_of.
  destruct (stoll _); [|apply ranked_throw]. wp_ops.
  eapply wp_mono; [by apply startQueryLeg_rank|]. intros o w' out.
  apply ranked_le. unfold qrank. rewrite Hs.
  match goal with E : current_leg_ _ = _ |- _ => rewrite E end.
  rewrite decide_True by done. cbn. lia.
Qed.

(** A quiet operation keeps the rank and the time in the state. *)
Lemma quiet_rank op w (Q : outcome unit → World Mp → list Output → Prop) :
  quiet op →
  (∀ w' out, qrank (ctrl w') = qrank (ctrl w) → (late w = true → late w' = true) →
     timings_ (ctrl w') = timings_ (ctrl w) → Q (Ret ()) w' out) → wp op w Q.
Proof.
  intros Hq HQ. eapply wp_mono; [apply Hq|]. intros o w' out (-> & _ & _ & Hr & t & Hc).
  apply HQ; rewrite ?Hc; [done| |done]. unfold late. rewrite Hc. cbn.
  apply steady_le in Hr.
  assert (Hms := to_ms_le (steady_at (reads w) - state_entered_at_ (ctrl w))
    (steady_at (reads w') - state_entered_at_ (ctrl w))).
  rewrite !andb_true_iff, !Z.leb_le. lia.
Qed.

(** Failing after a timeout of the state: a late one fails. *)
Lemma fail_after_rank limit reason w :
  (late w = true → limit ≤ to_ms (steady_at (reads w) - state_entered_at_ (ctrl w))) →
  wp (fail_after limit reason) w (ranked (qrank (ctrl w) - (if late w then qrank (ctrl w) else 0))).
Proof.
  intros Hlim. unfold fail_after, elapsed_ms. wp_ops.
  - eapply wp_mono; [apply failQuery_rank|]. intros o w' out. apply ranked_le. lia.
  - intros _. cbn. destruct (late w); [|lia]. specialize (Hlim eq_refl). lia.
Qed.

Lemma late_limits w : late w = true →
  let e := to_ms (steady_at (reads w) - state_entered_at_ (ctrl w)) in
  let t := timings_ (ctrl w) in
  loc_timeout_ms t ≤ e ∧ route_timeout_ms t ≤ e ∧ eta_settle_ms t ≤ e.
Proof. unfold late. rewrite !andb_true_iff, !Z.leb_le. tauto. Qed.

(** A waiting state: publish again, then fail if it is late. *)
Lemma wait_rank op limit reason w (out : list Output → list Output) :
  quiet op → qrank (ctrl w) ≠ 0%nat →
  (∀ w', late w' = true → timings_ (ctrl w') = timings_ (ctrl w) →
     limit ≤ to_ms (steady_at (reads w') - state_entered_at_ (ctrl w'))) →
  wp op w (λ o s' t,
    match o with
    | Ret _ => wp (fail_after limit reason) s' (λ o' s'' t',
        ranked (qrank (ctrl w) - (if late w then 1 else 0)) o' s'' (out (t ++ t')))
    | Throw e => ranked (A := unit) (qrank (ctrl w) - (if late w then 1 else 0)) (Throw e) s' (out t)
    end).
Proof.
  intros Hq Hne Hlim. apply quiet_rank; [done|]. intros w' t Hr Hl Ht. cbv beta iota.
  eapply wp_mono; [apply fail_after_rank; by intros; apply Hlim|].
  intros o w'' t'. apply ranked_le. rewrite Hr.
  destruct (late w); [rewrite Hl by done|destruct (late w')]; lia.
Qed.

(** Every tick keeps the rank, and a late one lowers it. *)
Lemma tick_rank a b w :
  qrank (ctrl w) ≠ 0%nat →
  wp (tick a b) w (ranked (qrank (ctrl w) - (if late w then 1 else 0))).
Proof.
  intros Hq. unfold tick. apply wp_bind. eapply wp_get_s; [reflexivity|]. cbv beta iota.
  destruct (state_ (status_ (ctrl w))) eqn:E; try (by destruct Hq; unfold qrank; rewrite E).
  all: unfold tick_query_localisation, tick_query_goal, tick_query_route, tick_query_eta, elapsed_ms.
  - unfold publish_start. wp_ops. rank_of.
  - wp_ops; [|rank_of]. apply wait_rank; [auto with agent|done|].
    intros w' Hl <-. by apply late_limits.
  - unfold publish_goal. wp_ops. rank_of.
  - wp_ops; [|rank_of]. apply wait_rank; [auto with agent|done|].
    intros w' Hl <-. by apply late_limits.
  - wp_ops.
    1,2: eapply wp_mono; [by apply finishQueryLeg_rank|]; intros o w' out; apply ranked_le;
      unfold qrank; cbn; destruct (late w); lia.
    intros _. cbn. destruct (late w) eqn:Hl; [|lia]. apply late_limits in Hl as (_ & _ & Hl). lia.
Qed.

Section Bounded.
Context {Laws : RouteMapLaws Mp}.

Lemma step_ranked i n w : inv w → wp (handle i) w (ranked n) → (qrank (ctrl (step i w)) ≤ n)%nat.
Proof. intros Hw Hwp. apply Hwp. by apply handle_returns. Qed.

(** While a query is under way no input takes the rank up. *)
Lemma step_rank i w :
  inv w → qrank (ctrl w) ≠ 0%nat →
  (qrank (ctrl (step i w)) ≤
   qrank (ctrl w) - match i with Tick _ _ => if late w then 1 else 0 | _ => 0 end)%nat.
Proof.
  intros Hw Hq. assert (Hst : is_query (trip_state w) = true).
  { destruct (is_query _) eqn:E; [done|]. by apply qrank_zero in E. }
  assert (Hkeep : ∀ w' : World Mp, state_ (status_ (ctrl w')) = state_ (status_ (ctrl w)) →
    current_leg_ (ctrl w') = current_leg_ (ctrl w) → (qrank (ctrl w') ≤ qrank (ctrl w) - 0)%nat).
  { intros w' Hs Hl. unfold qrank. rewrite Hs, Hl. lia. }
  destruct i.
  8: { unfold step. cbn [handle]. unfold final. rewrite startTrip_refused; [by apply Hkeep|done|].
       by intros Hr; rewrite Hr in Hst. }
  all: apply step_ranked; [done|]; cbn [handle]; unfold on_loc_state, injectEta, on_route_state,
    on_mode_state, onRouteReceived, onEngaged, goToPickup, move, handleMoveCommand, cancel,
    setCurrentGps; unfold trip_state in Hst.
  13: { apply wp_bind. eapply wp_mono; [by apply tick_rank|].
        intros [[]|e] w' out Ho; [|apply ranked_throw]. intros _. apply Ho. eauto. }
  7: { unfold queryEta. apply wp_bind. eapply wp_get_s; [reflexivity|]. cbv beta iota.
       rewrite decide_True by by intros Hi; rewrite Hi in Hst.
       eapply wp_mono; [apply (rejectQuery_books cb _ 0)|]. intros o w' out [-> _] _. by apply Hkeep. }
  all: wp_ops;
    repeat match goal with Hn : ¬ (_ ≠ _) |- _ => apply dec_stable in Hn end;
    try (exfalso; match goal with E : state_ _ = _ |- _ => by rewrite E in Hst end);
    intros _; first [by apply Hkeep | unfold qrank; cbn; lia].
Qed.

(** Ten late ticks, however the other inputs fall between them, end a query. *)
Lemma late_ticks_end_query l w :
  inv w → (qrank (ctrl w) ≤ late_ticks l w)%nat →
  ∃ l1 l2, l = l1 ++ l2 ∧ is_query (trip_state (run l1 w)) = false.
Proof.
  revert w. induction l as [|i l IH]; intros w Hw Hn.
  { exists [], []. split; [done|]. apply qrank_zero. cbn in Hn. cbn. lia. }
  destruct (decide (qrank (ctrl w) = 0%nat)) as [Hz|Hnz].
  { exists [], (i :: l). split; [done|]. by apply qrank_zero. }
  pose proof (step_rank i w Hw Hnz) as Hs. cbn [late_ticks] in Hn.
  destruct (IH (step i w)) as (l1 & l2 & -> & Hq); [by apply inv_step|destruct i; lia|].
  by exists (i :: l1), l2.
Qed.
End Bounded.
End Liveness.
