(* ===== verification/TripJourney.v ===== *)
(** * TripJourney: from query to drop-off

    What a cooperative environment gets: the two-leg query returns the ETAs that were measured, and
    the trip it prepares is driven to its end, each arrival and each change of state being told to
    the observers once and in order. *)

From S2P Require Export TripLiveness.
Import TripState.

(** ** What the observers hear *)
Inductive Event : Type :=
  | Changed (prev next : TripState.t)
  | ArrivedAtPickup
  | ArrivedAtDropoff
  | Replied (cb : nat) (r : EtaQueryResult).

Definition event (o : Output) : option Event :=
  match o with
  | StateChange a b _ => Some (Changed a b)
  | PickupArrived => Some ArrivedAtPickup
  | DropoffArrived => Some ArrivedAtDropoff
  | QueryReply k r => Some (Replied k r)
  | _ => None
  end.
Definition events (out : list Output) : list Event := omap event out.

Lemma events_app out out' : events (out ++ out') = events out ++ events out'.
Proof. apply omap_app. Qed.

Lemma events_io out : Forall is_io out → events out = [].
Proof. induction 1 as [|o out Ho _ IH]; [done|]. cbn. by destruct o. Qed.

Lemma events_publication out : is_publication out → events out = [].
Proof. intros Hp. by apply events_io, publication_io. Qed.

Section Journey.
Context {Mp : Type} `{RouteMap Mp} `{Clocks} `{AutowareMsgs}.
Implicit Types (w : World Mp) (c : TripController).

(** The observers [AutowareController] registers at boot. *)
Definition registered (w : World Mp) : Prop :=
  on_state_change_ (ctrl w) = true ∧ on_pickup_arrived_ (ctrl w) = true ∧
  on_dropoff_arrived_ (ctrl w) = true.

(** [w] hears the inputs [l], ending in [w'], and its observers hear [ev]. *)
Definition hears (l : list Input) (w : World Mp) (w' : World Mp) (ev : list Event) : Prop :=
  run l w = w' ∧ events (run_outputs l w) = ev.

Lemma hears_nil w : hears [] w w [].
Proof. done. Qed.

Lemma hears_cons i l w w1 w2 ev1 ev2 :
  hears [i] w w1 ev1 → hears l w1 w2 ev2 → hears (i :: l) w w2 (ev1 ++ ev2).
Proof.
  intros [<- <-] [<- <-]. split; [done|]. cbn. by rewrite app_nil_r, events_app.
Qed.

Lemma hears_step (P : World Mp → Prop) i w ev :
  wp (handle i) w (λ _ w' out, P w' ∧ events out = ev) →
  ∃ w', hears [i] w w' ev ∧ P w'.
Proof.
  intros [HP Hev]. exists (step i w). split; [|done]. split; [done|]. cbn. by rewrite app_nil_r.
Qed.

(** ** The drive *)

(** Where the drive is: state, which leg is engaged, the route state last heard. *)
Record at_stage (s : TripState.t) (pickup : option bool) (route : option Z) (w : World Mp) : Prop :=
  mkStage {
    stage_state : trip_state w = s;
    stage_pickup : ∀ b, pickup = Some b → engaging_for_pickup_ (ctrl w) = b;
    stage_route : current_route_state_ (ctrl w) = route;
    stage_loc : current_loc_state_ (ctrl w) = Some LIS_INITIALIZED;
    stage_registered : registered w
  }.

(** Symbolic execution of one input at a known stage. *)
Ltac at_the Hst :=
  let Hs := fresh "Hs" in let Hp := fresh "Hp" in let Hr := fresh "Hr" in
  let Hl := fresh "Hl" in let Ho := fresh "Ho" in
  destruct Hst as [Hs Hp Hr Hl Ho]; destruct Ho as (Ho1 & Ho2 & Ho3); unfold trip_state in Hs.

Ltac stage_done :=
  split;
  [ split; unfold trip_state, registered; cbn;
    solve [auto | intros ? [= <-]; auto | repeat split; auto]
  | repeat match goal with Hp : is_publication _ |- _ => apply events_publication in Hp end;
    unfold change_out, trip_state; cbn;
    repeat match goal with E : on_state_change_ _ = true |- _ => rewrite E; clear E end;
    repeat match goal with E : state_ _ = _ |- _ => rewrite E; clear E end;
    rewrite ?events_app; cbn;
    repeat match goal with E : events _ = [] |- _ => rewrite E; clear E end; reflexivity ].

Ltac at_stage_of Hst :=
  apply hears_step; at_the Hst; cbn [handle];
  unfold handleMoveCommand, goToPickup, tick, onEngaged, on_route_state, publish_init,
    tick_localisation, tick_driving, tick_running.

Lemma goToPickup_stage p r w :
  at_stage WAITING_FOR_PICKUP_START p r w →
  ∃ w', hears [MoveCommand] w w' [Changed WAITING_FOR_PICKUP_START PUBLISHING_INITIAL_POSE] ∧
        at_stage PUBLISHING_INITIAL_POSE p None w'.
Proof. intros Hst. at_stage_of Hst. wp_ops. stage_done. Qed.

Lemma tick_pose_stage a b p r w :
  at_stage PUBLISHING_INITIAL_POSE p r w →
  ∃ w', hears [Tick a b] w w' [Changed PUBLISHING_INITIAL_POSE WAITING_LOCALISATION] ∧
        at_stage WAITING_LOCALISATION p r w'.
Proof. intros Hst. at_stage_of Hst. wp_ops. stage_done. Qed.

Lemma tick_localised_stage a b p r w :
  at_stage WAITING_LOCALISATION p r w →
  ∃ w', hears [Tick a b] w w' [Changed WAITING_LOCALISATION ENGAGING] ∧
        at_stage ENGAGING p r w'.
Proof.
  intros Hst. at_stage_of Hst.
  assert (localized (ctrl w) = true) by (unfold localized; by apply bool_decide_eq_true_2).
  wp_ops. stage_done.
Qed.

Lemma engaged_stage (pickup : bool) r w :
  at_stage ENGAGING (Some pickup) r w →
  let next := if pickup then DRIVING_TO_PICKUP else RUNNING in
  ∃ w', hears [Engaged] w w' [Changed ENGAGING next] ∧ at_stage next (Some pickup) r w'.
Proof.
  intros Hst. at_stage_of Hst. specialize (Hp pickup eq_refl). destruct pickup; wp_ops; stage_done.
Qed.

Lemma arrived_stage s p r w :
  at_stage s p r w →
  ∃ w', hears [RouteStateMsg RS_ARRIVED] w w' [] ∧ at_stage s p (Some RS_ARRIVED) w'.
Proof. intros Hst. at_stage_of Hst. wp_ops. stage_done. Qed.

Lemma tick_pickup_stage a b p w :
  at_stage DRIVING_TO_PICKUP p (Some RS_ARRIVED) w →
  ∃ w', hears [Tick a b] w w' [ArrivedAtPickup; Changed DRIVING_TO_PICKUP WAITING_FOR_MOVE] ∧
        at_stage WAITING_FOR_MOVE p None w'.
Proof.
  intros Hst. at_stage_of Hst.
  assert (route_is RS_ARRIVED (ctrl w) = true)
    by (unfold route_is; by apply bool_decide_eq_true_2).
  wp_ops. stage_done.
Qed.

Lemma tick_dropoff_stage a b p w :
  at_stage RUNNING p (Some RS_ARRIVED) w →
  ∃ w', hears [Tick a b] w w' [ArrivedAtDropoff; Changed RUNNING COMPLETED] ∧
        at_stage COMPLETED p None w'.
Proof.
  intros Hst. at_stage_of Hst.
  assert (route_is RS_ARRIVED (ctrl w) = true)
    by (unfold route_is; by apply bool_decide_eq_true_2).
  wp_ops. stage_done.
Qed.

Section Driven.
Context {Laws : RouteMapLaws Mp}.

Lemma startTrip_stage w :
  inv w → at_stage ROUTES_READY None (current_route_state_ (ctrl w)) w →
  ∃ w', hears [StartTrip] w w' [Changed ROUTES_READY WAITING_FOR_PICKUP_START] ∧
        at_stage WAITING_FOR_PICKUP_START (Some true) None w'.
Proof.
  intros Hw Hst. apply hears_step. destruct Hst as [Hs _ _ Hl (Ho1 & Ho2 & Ho3)].
  destruct (startTrip_ready w Hw Hs) as (p & pl & _ & _ & _ & Hwp).
  eapply wp_mono; [exact Hwp|]. intros o w' out (_ & -> & _ & t & Hc).
  assert (trip_state w' = WAITING_FOR_PICKUP_START) as Hs' by (unfold trip_state; by rewrite Hc).
  split.
  - split; [done|..]; unfold registered; rewrite Hc; cbn; try done. by intros b [= <-].
  - unfold told. rewrite Ho1, Hs, Hs'. done.
Qed.

Lemma move_stage r w :
  inv w → at_stage WAITING_FOR_MOVE None r w →
  ∃ w', hears [MoveCommand] w w' [Changed WAITING_FOR_MOVE ENGAGING] ∧
        at_stage ENGAGING (Some false) None w'.
Proof.
  intros Hw Hst. apply hears_step. destruct Hst as [Hs _ _ Hl (Ho1 & Ho2 & Ho3)].
  destruct (move_waiting w Hw Hs) as (h & pl & gl & _ & _ & _ & Hwp).
  assert (Hm : wp (handle MoveCommand) w = wp move w).
  { cbn [handle]. unfold wp, result, final, outputs. rewrite handleMoveCommand_eq.
    by rewrite decide_False, decide_True by congruence. }
  rewrite Hm. eapply wp_mono; [exact Hwp|]. intros o w' out (_ & _ & (t & Hc) & t' & ->).
  assert (trip_state w' = ENGAGING) as Hs' by (unfold trip_state; by rewrite Hc).
  split.
  - split; [done|..]; unfold registered; rewrite Hc; cbn; try done. by intros b [= <-].
  - rewrite events_app. unfold told. rewrite Ho1, Hs, Hs'. done.
Qed.

Lemma forget_pickup s p r w : at_stage s p r w → at_stage s None r w.
Proof. intros []. by split. Qed.

Lemma hears_inv l w w' ev : inv w → hears l w w' ev → inv w'.
Proof. intros Hw [<- _]. by apply inv_run. Qed.

(** The inputs of a trip without incident, from the accepted request on. *)
Definition drive (a b : bool) : list Input :=
  [StartTrip; MoveCommand; Tick a b; Tick a b; Engaged; RouteStateMsg RS_ARRIVED; Tick a b;
   MoveCommand; Engaged; RouteStateMsg RS_ARRIVED; Tick a b].

Definition drive_events : list Event :=
  [Changed ROUTES_READY WAITING_FOR_PICKUP_START;
   Changed WAITING_FOR_PICKUP_START PUBLISHING_INITIAL_POSE;
   Changed PUBLISHING_INITIAL_POSE WAITING_LOCALISATION;
   Changed WAITING_LOCALISATION ENGAGING; Changed ENGAGING DRIVING_TO_PICKUP;
   ArrivedAtPickup; Changed DRIVING_TO_PICKUP WAITING_FOR_MOVE;
   Changed WAITING_FOR_MOVE ENGAGING; Changed ENGAGING RUNNING;
   ArrivedAtDropoff; Changed RUNNING COMPLETED].

Lemma drive_completes a b w :
  inv w → at_stage ROUTES_READY None (current_route_state_ (ctrl w)) w →
  ∃ w', hears (drive a b) w w' drive_events ∧ at_stage COMPLETED None None w'.
Proof.
  intros Hw Hst.
  destruct (startTrip_stage w Hw Hst) as (w1 & Hh1 & Hs1).
  destruct (goToPickup_stage _ _ _ Hs1) as (w2 & Hh2 & Hs2).
  destruct (tick_pose_stage a b _ _ _ Hs2) as (w3 & Hh3 & Hs3).
  destruct (tick_localised_stage a b _ _ _ Hs3) as (w4 & Hh4 & Hs4).
  destruct (engaged_stage _ _ _ Hs4) as (w5 & Hh5 & Hs5).
  destruct (arrived_stage _ _ _ _ Hs5) as (w6 & Hh6 & Hs6).
  destruct (tick_pickup_stage a b _ _ Hs6) as (w7 & Hh7 & Hs7).
  assert (inv w7) as Hw7 by eauto 10 using hears_inv.
  destruct (move_stage _ _ Hw7 (forget_pickup _ _ _ _ Hs7)) as (w8 & Hh8 & Hs8).
  destruct (engaged_stage _ _ _ Hs8) as (w9 & Hh9 & Hs9).
  destruct (arrived_stage _ _ _ _ Hs9) as (w10 & Hh10 & Hs10).
  destruct (tick_dropoff_stage a b _ _ Hs10) as (w11 & Hh11 & Hs11).
  exists w11. split; [|by apply forget_pickup in Hs11].
  pose proof (hears_cons _ _ _ _ _ _ _ Hh1 (hears_cons _ _ _ _ _ _ _ Hh2
    (hears_cons _ _ _ _ _ _ _ Hh3 (hears_cons _ _ _ _ _ _ _ Hh4 (hears_cons _ _ _ _ _ _ _ Hh5
    (hears_cons _ _ _ _ _ _ _ Hh6 (hears_cons _ _ _ _ _ _ _ Hh7 (hears_cons _ _ _ _ _ _ _ Hh8
    (hears_cons _ _ _ _ _ _ _ Hh9 (hears_cons _ _ _ _ _ _ _ Hh10 Hh11)))))))))) as Hall.
  exact Hall.
Qed.
End Driven.
End Journey.
