(* ===== verification/TripEta.v ===== *)
(** * TripEta: the answer of a successful query

    The two legs of [queryEta], run by an environment that localises the vehicle, sets the route
    and reports an ETA.  The reply carries the two reported ETAs and the lanes the map gave. *)

From S2P Require Export TripJourney.
Import TripState.

Section Eta.
Context {Mp : Type} `{RouteMap Mp} `{Clocks} `{AutowareMsgs}.
Implicit Types (w : World Mp) (c : TripController).

(** ** One leg *)

(** What a leg leaves alone between its start and its ETA. *)
Definition leg_data (c : TripController) :=
  (start_lanelet_id_ (status_ c), goal_lanelet_id_ (status_ c), current_leg_ c,
   query_start_gps_ c, query_goal_gps_ c, query_cb_ c, query_result_ c,
   (pickup_route_ c, trip_route_ c, on_state_change_ c, current_loc_state_ c)).

Record on_leg (s : TripState.t) (d : TripController) (m : Mp) (w : World Mp) : Prop := mkOnLeg {
  leg_state : trip_state w = s;
  leg_same : leg_data (ctrl w) = leg_data d;
  leg_map : lanelet_map_ w = m
}.

(** The observers are there and the vehicle is localised. *)
Definition attended (c : TripController) : Prop :=
  on_state_change_ c = true ∧ current_loc_state_ c = Some LIS_INITIALIZED.

Lemma attended_same c d : leg_data c = leg_data d → attended d → attended c.
Proof.
  unfold leg_data, attended. intros Heq [Ho Hl]. injection Heq. intros. split; congruence.
Qed.

Ltac leg_step Hd Hst :=
  let Hs := fresh "Hs" in let Hm := fresh "Hm" in let Hsame := fresh "Hleg" in
  let Ha := fresh "Ha" in
  apply hears_step; destruct Hst as [Hs Hsame Hm];
  pose proof (attended_same _ _ Hsame Hd) as Ha; destruct Ha as [Ho Hl];
  unfold trip_state in Hs; cbn [handle];
  unfold tick, on_route_state, injectEta, tick_query_localisation, tick_query_goal,
    tick_query_route, publish_start, publish_goal.

Ltac heard :=
  repeat match goal with Hp : is_publication _ |- _ => apply events_publication in Hp end;
  unfold change_out, trip_state; cbn;
  repeat match goal with E : on_state_change_ _ = true |- _ => rewrite E; clear E end;
  repeat match goal with E : state_ _ = _ |- _ => rewrite E; clear E end;
  rewrite ?events_app; cbn;
  repeat match goal with E : events _ = [] |- _ => rewrite E; clear E end; reflexivity.

Ltac leg_done := split; [split; try done; unfold trip_state; cbn; auto|heard].

Lemma leg_pose a b d m w :
  attended d → on_leg QUERY_PUBLISHING_INITIAL_POSE d m w →
  ∃ w', hears [Tick a b] w w' [Changed QUERY_PUBLISHING_INITIAL_POSE QUERY_WAITING_LOCALISATION] ∧
        on_leg QUERY_WAITING_LOCALISATION d m w'.
Proof. intros Hd Hst. leg_step Hd Hst. wp_ops. leg_done. Qed.

Lemma leg_localised a b d m w :
  attended d → on_leg QUERY_WAITING_LOCALISATION d m w →
  ∃ w', hears [Tick a b] w w' [Changed QUERY_WAITING_LOCALISATION QUERY_PUBLISHING_GOAL] ∧
        on_leg QUERY_PUBLISHING_GOAL d m w'.
Proof.
  intros Hd Hst. leg_step Hd Hst.
  assert (localized (ctrl w) = true) by (unfold localized; by apply bool_decide_eq_true_2).
  wp_ops. leg_done.
Qed.

Lemma leg_goal a b d m w :
  attended d → on_leg QUERY_PUBLISHING_GOAL d m w →
  ∃ w', hears [Tick a b] w w' [Changed QUERY_PUBLISHING_GOAL QUERY_WAITING_ROUTE] ∧
        on_leg QUERY_WAITING_ROUTE d m w'.
Proof. intros Hd Hst. leg_step Hd Hst. wp_ops. leg_done. Qed.

Lemma leg_route_set a b d m w :
  attended d → on_leg QUERY_WAITING_ROUTE d m w →
  ∃ w', hears [RouteStateMsg RS_SET; Tick a b] w w'
          [Changed QUERY_WAITING_ROUTE QUERY_READING_ETA] ∧
        on_leg QUERY_READING_ETA d m w'.
Proof.
  intros Hd Hst.
  assert (∃ w1, hears [RouteStateMsg RS_SET] w w1 [] ∧
            (on_leg QUERY_WAITING_ROUTE d m w1 ∧ current_route_state_ (ctrl w1) = Some RS_SET))
    as (w1 & Hh1 & Hst1 & Hr).
  { leg_step Hd Hst. wp_ops. split; [|done]. by repeat split. }
  assert (∃ w2, hears [Tick a b] w1 w2 [Changed QUERY_WAITING_ROUTE QUERY_READING_ETA] ∧
            on_leg QUERY_READING_ETA d m w2) as (w2 & Hh2 & Hst2).
  { leg_step Hd Hst1.
    assert (route_is RS_SET (ctrl w1) = true) by (unfold route_is; by apply bool_decide_eq_true_2).
    wp_ops. leg_done. }
  exists w2. split; [|done]. exact (hears_cons _ _ _ _ _ _ _ Hh1 Hh2).
Qed.

Lemma leg_eta_heard x t d m w :
  attended d → on_leg QUERY_READING_ETA d m w →
  ∃ w', hears [EtaMsg x t] w w' [] ∧
    (on_leg QUERY_READING_ETA d m w' ∧
     eta_received_ (ctrl w') = true ∧ eta_distance_m_ (ctrl w') = x ∧ eta_seconds_ (ctrl w') = t).
Proof. intros Hd Hst. leg_step Hd Hst. wp_ops. by repeat split. Qed.

(** The inputs of one leg, up to its ETA. *)
Definition leg_inputs (a b : bool) (x t : double) : list Input :=
  [Tick a b; Tick a b; Tick a b; RouteStateMsg RS_SET; Tick a b; EtaMsg x t].
Definition leg_events : list Event :=
  [Changed QUERY_PUBLISHING_INITIAL_POSE QUERY_WAITING_LOCALISATION;
   Changed QUERY_WAITING_LOCALISATION QUERY_PUBLISHING_GOAL;
   Changed QUERY_PUBLISHING_GOAL QUERY_WAITING_ROUTE;
   Changed QUERY_WAITING_ROUTE QUERY_READING_ETA].

Lemma hears_app l l' w w1 w2 ev ev' :
  hears l w w1 ev → hears l' w1 w2 ev' → hears (l ++ l') w w2 (ev ++ ev').
Proof.
  revert w ev. induction l as [|i l IH]; intros w ev [<- <-] Hh'; [exact Hh'|].
  cbn [run_outputs app]. rewrite events_app, <- (assoc_L (++)).
  apply (hears_cons i (l ++ l') w (step i w)).
  - split; [done|]. cbn. by rewrite app_nil_r.
  - by apply IH.
Qed.

Lemma leg_completes a b x t d m w :
  attended d → on_leg QUERY_PUBLISHING_INITIAL_POSE d m w →
  ∃ w', hears (leg_inputs a b x t) w w' leg_events ∧
    (on_leg QUERY_READING_ETA d m w' ∧
     eta_received_ (ctrl w') = true ∧ eta_distance_m_ (ctrl w') = x ∧ eta_seconds_ (ctrl w') = t).
Proof.
  intros Hd Hs0.
  destruct (leg_pose a b _ _ _ Hd Hs0) as (w1 & Hh1 & Hs1).
  destruct (leg_localised a b _ _ _ Hd Hs1) as (w2 & Hh2 & Hs2).
  destruct (leg_goal a b _ _ _ Hd Hs2) as (w3 & Hh3 & Hs3).
  destruct (leg_route_set a b _ _ _ Hd Hs3) as (w4 & Hh4 & Hs4).
  destruct (leg_eta_heard x t _ _ _ Hd Hs4) as (w5 & Hh5 & Hs5).
  exists w5. split; [|exact Hs5].
  exact (hears_cons _ _ _ _ _ _ _ Hh1 (hears_cons _ _ _ _ _ _ _ Hh2
    (hears_cons _ _ _ _ _ _ _ Hh3 (hears_app _ _ _ _ _ _ _ Hh4 Hh5)))).
Qed.
(** ** The three steps around the legs *)

(** The controller data of a leg, up to what [on_leg] compares. *)
Definition leg_start (d : TripController) (from to_ : Z) (leg : QueryLeg.t) (s g : GPSCoordinate)
    (cb : option nat) (r : EtaQueryResult) (p : option HeldRoute) : Prop :=
  leg_data d = (to_string from, to_string to_, leg, s, g, cb, r,
                (p, None, true, Some LIS_INITIALIZED)).

Lemma leg_start_attended d from to_ leg s g cb r p :
  leg_start d from to_ leg s g cb r p → attended d.
Proof.
  unfold leg_start, leg_data, attended. intros Heq. injection Heq. intros. split; congruence.
Qed.

Lemma query_starts tf s g cb w vl pl m1 m2 :
  trip_state w = IDLE → attended (ctrl w) →
  gps_out_of_range (rm_localToGps (lanelet_map_ w) tf) = false →
  rm_findNearestLane (rm_localToGps (lanelet_map_ w) tf) (lanelet_map_ w) = (Ret (Some vl), m1) →
  rm_findNearestConnectedLane s (lane_id vl) true m1 = (Ret (Some pl), m2) →
  ∃ w' d, hears [QueryEta (Some tf) s g cb] w w' [Changed IDLE QUERY_PUBLISHING_INITIAL_POSE] ∧
    on_leg QUERY_PUBLISHING_INITIAL_POSE d m2 w' ∧
    leg_start d (lane_id vl) (lane_id pl) QueryLeg.PICKUP s g cb EtaQueryResult_default None.
Proof.
  intros Hs [Ho Hl] Hrange Hnear Hconn. unfold trip_state in Hs.
  assert (∃ w', hears [QueryEta (Some tf) s g cb] w w' [Changed IDLE QUERY_PUBLISHING_INITIAL_POSE] ∧
    (trip_state w' = QUERY_PUBLISHING_INITIAL_POSE ∧ lanelet_map_ w' = m2 ∧
     leg_start (ctrl w') (lane_id vl) (lane_id pl) QueryLeg.PICKUP s g cb
       EtaQueryResult_default None)) as (w' & Hh & Hs' & Hm' & Hd').
  { apply hears_step. cbn [handle]. unfold queryEta, getCurrentVehiclePose. wp_ops.
    unfold startQueryLeg, resolve_from. wp_ops.
    eapply wp_on_map; [exact Hnear|]. cbv beta iota. wp_ops. eapply wp_on_map; [exact Hconn|]. cbv beta iota. wp_ops.
    split; [|heard]. split; [done|]. split; [done|].
    unfold leg_start, leg_data. cbn. by rewrite Ho, Hl. }
  exists w', (ctrl w'). split; [done|]. split; [by split|done].
Qed.

(** The ETA of the first leg starts the second. *)
Lemma next_leg_starts a b d m w from pl gl m3 s g cb r x t :
  leg_start d from (lane_id pl) QueryLeg.PICKUP s g cb r None →
  on_leg QUERY_READING_ETA d m w → eta_received_ (ctrl w) = true →
  eta_distance_m_ (ctrl w) = x → eta_seconds_ (ctrl w) = t → is_int64 (lane_id pl) →
  lane_settled m pl → rm_findNearestConnectedLane g (lane_id pl) true m = (Ret (Some gl), m3) →
  ∃ w' d' p, hears [Tick a b] w w' [Changed QUERY_READING_ETA QUERY_PUBLISHING_INITIAL_POSE] ∧
    on_leg QUERY_PUBLISHING_INITIAL_POSE d' m3 w' ∧
    leg_start d' (lane_id pl) (lane_id gl) QueryLeg.TRIP s g cb
      (r <| pickup_leg_ := mkLegEta true x t (to_string from) (to_string (lane_id pl)) "" |>) (Some p) ∧
    held_distance_m_ p = x ∧ held_eta_seconds_ p = t.
Proof.
  intros Hd [Hs Hleg Hm] He Hx Ht Hi Hset Hconn. unfold trip_state in Hs.
  unfold leg_start in Hd. rewrite <- Hleg in Hd. clear Hleg d. unfold leg_data in Hd.
  injection Hd. intros Hl Ho Htr Hp Hr Hcb Hqg Hqs Hcl Hgi Hsi. clear Hd.
  assert (∃ w', hears [Tick a b] w w' [Changed QUERY_READING_ETA QUERY_PUBLISHING_INITIAL_POSE] ∧
    (trip_state w' = QUERY_PUBLISHING_INITIAL_POSE ∧ lanelet_map_ w' = m3 ∧
     ∃ p, leg_start (ctrl w') (lane_id pl) (lane_id gl) QueryLeg.TRIP s g cb
       (r <| pickup_leg_ := mkLegEta true x t (to_string from) (to_string (lane_id pl)) "" |>)
       (Some p) ∧ held_distance_m_ p = x ∧ held_eta_seconds_ p = t))
    as (w' & Hh & Hs' & Hm' & p & Hd' & Hp').
  { apply hears_step. cbn [handle]. unfold tick, tick_query_eta, finishQueryLeg, finishPickupLeg.
    wp_ops. rewrite Hgi, stoll_to_string by done. cbv beta iota. wp_ops.
    unfold startQueryLeg, resolve_from. wp_ops.
    rewrite Hgi, stoll_to_string by done. cbv beta iota.
    eapply wp_on_map; [cbn; rewrite Hm; exact Hset|]. cbv beta iota. wp_ops. rewrite Hqg.
    eapply wp_on_map; [exact Hconn|]. cbv beta iota. wp_ops.
    split; [|heard]. split; [done|]. split; [done|].
    eexists. split; [unfold leg_start, leg_data; cbn|].
    - rewrite Hr, Hqs, Hqg, Hcb, Ho, Hl, Htr. unfold leg_eta. cbn. by rewrite Hx, Ht, Hsi, Hgi.
    - by rewrite <- Hx, <- Ht. }
  exists w', (ctrl w'), p. split; [done|]. split; [by split|done].
Qed.

(** The ETA of the second leg is answered. *)
Lemma query_answered a b d m w from to_ s g k r p x t :
  leg_start d from to_ QueryLeg.TRIP s g (Some k) r p →
  on_leg QUERY_READING_ETA d m w → eta_received_ (ctrl w) = true →
  eta_distance_m_ (ctrl w) = x → eta_seconds_ (ctrl w) = t →
  ∃ w', hears [Tick a b] w w'
      [Replied k (r <| trip_leg_ := mkLegEta true x t (to_string from) (to_string to_) "" |>
                    <| success_ := true |>);
       Changed IDLE ROUTES_READY] ∧
    (trip_state w' = ROUTES_READY ∧ pickup_route_ (ctrl w') = p ∧ query_cb_ (ctrl w') = None ∧
     ∃ tr, trip_route_ (ctrl w') = Some tr ∧ held_distance_m_ tr = x ∧ held_eta_seconds_ tr = t ∧
           held_goal_gps_ tr = g).
Proof.
  intros Hd [Hs Hleg Hm] He Hx Ht. unfold trip_state in Hs.
  unfold leg_start in Hd. rewrite <- Hleg in Hd. clear Hleg d. unfold leg_data in Hd.
  injection Hd. intros Hl Ho Htr Hp Hr Hcb Hqg Hqs Hcl Hgi Hsi. clear Hd.
  apply hears_step. cbn [handle]. unfold tick, tick_query_eta, finishQueryLeg, finishTripLeg.
  wp_ops. split.
  - repeat split; try done. eexists. split; [done|]. by rewrite <- Hx, <- Ht.
  - unfold change_out, trip_state. cbn. rewrite Ho. cbn. unfold leg_eta. cbn.
    rewrite Hr, Hx, Ht, Hsi, Hgi. by simplify_eq.
Qed.
(** ** The whole query *)

Definition query_inputs (a b : bool) (tf : LocalCoordinate) (s g : GPSCoordinate) (k : nat)
    (x1 t1 x2 t2 : double) : list Input :=
  QueryEta (Some tf) s g (Some k) :: leg_inputs a b x1 t1 ++ Tick a b ::
  leg_inputs a b x2 t2 ++ [Tick a b].

Definition query_events (k : nat) (r : EtaQueryResult) : list Event :=
  Changed IDLE QUERY_PUBLISHING_INITIAL_POSE :: leg_events ++
  Changed QUERY_READING_ETA QUERY_PUBLISHING_INITIAL_POSE :: leg_events ++
  [Replied k r; Changed IDLE ROUTES_READY].

(** The reply: two successful legs, end to end. *)
Definition query_answer (vl pl gl : LaneInfo) (x1 t1 x2 t2 : double) : EtaQueryResult :=
  mkEtaQueryResult true
    (mkLegEta true x1 t1 (to_string (lane_id vl)) (to_string (lane_id pl)) "")
    (mkLegEta true x2 t2 (to_string (lane_id pl)) (to_string (lane_id gl)) "") "" d0.

Section Whole.
Context {Laws : RouteMapLaws Mp}.

Lemma query_completes a b tf s g k w vl pl gl m1 m2 m3 x1 t1 x2 t2 :
  inv w → trip_state w = IDLE → attended (ctrl w) →
  gps_out_of_range (rm_localToGps (lanelet_map_ w) tf) = false →
  rm_findNearestLane (rm_localToGps (lanelet_map_ w) tf) (lanelet_map_ w) = (Ret (Some vl), m1) →
  rm_findNearestConnectedLane s (lane_id vl) true m1 = (Ret (Some pl), m2) →
  rm_findNearestConnectedLane g (lane_id pl) true m2 = (Ret (Some gl), m3) →
  ∃ w' p r, hears (query_inputs a b tf s g k x1 t1 x2 t2) w w'
      (query_events k (query_answer vl pl gl x1 t1 x2 t2)) ∧
    trip_state w' = ROUTES_READY ∧
    pickup_route_ (ctrl w') = Some p ∧ held_distance_m_ p = x1 ∧ held_eta_seconds_ p = t1 ∧
    trip_route_ (ctrl w') = Some r ∧ held_distance_m_ r = x2 ∧ held_eta_seconds_ r = t2.
Proof.
  intros Hw Hs Hatt Hrange Hnear Hconn1 Hconn2.
  destruct (query_starts tf s g (Some k) w vl pl m1 m2) as (w1 & d1 & Hh1 & Hs1 & Hd1); [done..|].
  destruct (leg_completes a b x1 t1 d1 m2 w1) as (w2 & Hh2 & Hs2 & He2 & Hx2 & Ht2);
    [by eapply leg_start_attended|done|].
  destruct (rm_nearest_spec (lanelet_map_ w) (rm_localToGps (lanelet_map_ w) tf) (proj1 Hw))
    as (o & m & Heq & Hm1 & _ & Ho). rewrite Hnear in Heq. injection Heq as <- <-.
  destruct (rm_connected_spec m1 s vl Hm1) as (o & m & Heq & Hm2 & _ & Ho2);
    [by apply Ho|]. rewrite Hconn1 in Heq. injection Heq as <- <-.
  destruct (Ho2 pl eq_refl) as (Hset & Hint & _).
  destruct (next_leg_starts a b d1 m2 w2 (lane_id vl) pl gl m3 s g (Some k)
    EtaQueryResult_default x1 t1) as (w3 & d2 & p & Hh3 & Hs3 & Hd2 & Hp1 & Hp2); [done..|].
  destruct (leg_completes a b x2 t2 d2 m3 w3) as (w4 & Hh4 & Hs4 & He4 & Hx4 & Ht4);
    [by eapply leg_start_attended|done|].
  destruct (query_answered a b d2 m3 w4 _ _ s g k _ _ x2 t2 Hd2 Hs4 He4 Hx4 Ht4)
    as (w5 & Hh5 & Hs5 & Hpr & _ & r & Hr & Hr1 & Hr2 & _).
  exists w5, p, r. split; [|by rewrite Hpr].
  exact (hears_cons _ _ _ _ _ _ _ Hh1 (hears_app _ _ _ _ _ _ _ Hh2 (hears_cons _ _ _ _ _ _ _ Hh3
    (hears_app _ _ _ _ _ _ _ Hh4 Hh5)))).
Qed.
End Whole.
End Eta.
