(* ===== verification/NodeTheorems.v ===== *)
(** * NodeTheorems: the properties of the node

    Commands are answered in the order they were given and no call twice, queries when the trip
    controller is done with them; the trip controller sees the
    commands in that order and the node passes on what it does; before [initialize]'s handler has
    run everything is refused; a node constructed from the map files never throws. *)

From S2P Require Export TripQueries NodeFacts.
Import Controller.

Section Theorems.
Context {Mp : Type} `{RouteMap Mp} `{Clocks} `{AutowareMsgs} {Laws : RouteMapLaws Mp}.
Implicit Types (n : Node Mp) (c : TripController).

(** ** Answers *)

Definition answered (e : Event) : option nat :=
  match e with Answer k _ | StatusAnswer k _ => Some k | _ => None end.
Definition asks_for (a : Action) : option nat :=
  match a with
  | CallStartTrip cb | CallMove cb | CallGoToPickup cb | CallHandleMoveCommand cb
  | CallGetTripStatus cb => cb
  | _ => None
  end.

Lemma omap_none {A B C} (f : B → option C) (g : A → list B) (l : list A) :
  (∀ a, omap f (g a) = []) → omap f (l ≫= g) = [].
Proof. intros Hg. induction l as [|a l IH]; [done|]. cbn. by rewrite omap_app, Hg. Qed.

Lemma react_no_answer n o : omap answered (react n o) = [].
Proof.
  destruct o; cbn; try done; unfold onTripStateChanged; rewrite ?omap_app; repeat case_match; done.
Qed.

Lemma job_answered n c j : omap answered (job_answer n c j) = option_list (job_cb j).
Proof. by destruct j as [|[]|[]|[]|[]| |[]| | |]. Qed.
Lemma refusal_answered j : omap answered (refusal j) = option_list (job_cb j).
Proof. by destruct j as [|[]|[]|[]|[]| |[]| |? ? []|]. Qed.

Lemma posted_asks a n : is_post a → omap job_cb (posted a n) = option_list (asks_for a).
Proof.
  destruct a as [|[]|[]|[]|[]| |[]|? ? ?|?|?| |?|?]; intros Ha; try done; cbn; by case_match.
Qed.

Lemma act_cases (P : Action → Prop) :
  (∀ a, is_post a → P a) → P CallInitialize → (∀ env, P (RunNext env)) → ∀ a, P a.
Proof. intros Hp Hi Hr []; try (by apply Hp); [exact Hi|apply Hr]. Qed.

Lemma omap_cons_app {A B} (f : A → option B) a l : omap f (a :: l) = option_list (f a) ++ omap f l.
Proof. cbn. by destruct (f a). Qed.

Lemma act_answers a n :
  node_inv n →
  omap answered (outputs (act a) n) ++ omap job_cb (strand_ (final (act a) n)) =
  omap job_cb (strand_ n) ++ option_list (asks_for a).
Proof.
  intros Hn. revert a. apply act_cases; [intros a Ha| |intros env].
  - destruct (act_posts a n Ha) as (_ & -> & _ & _ & ->). by rewrite omap_app, posted_asks.
  - destruct (initialize_posts n) as (-> & _ & -> & _). by rewrite omap_app.
  - rewrite app_nil_r.
    destruct (strand_ n) as [|j q] eqn:Hs; [|destruct (io_thread_ n) eqn:Hi].
    1,3: unfold outputs, final; rewrite run_next_idle by tauto; cbn -[omap]; by rewrite Hs.
    rewrite omap_cons_app.
    destruct (run_next_ran env n j q Hn Hs Hi)
      as [_ [(-> & -> & ->)|[(_ & _ & -> & ->)|(c & _ & _ & _ & -> & ->)]]].
    + by rewrite omap_none by (intros; apply react_no_answer).
    + by rewrite refusal_answered.
    + by rewrite omap_app, omap_none, job_answered by (intros; apply react_no_answer).
Qed.

(** ** Answers to queries

    A query is answered when the trip controller is done with it, so these answers are counted, one
    callback at a time. *)

Definition eta_call (a : Action) : option nat :=
  match a with CallQueryEta _ _ cb => cb | _ => None end.
Definition eta_job (j : Job) : option nat :=
  match j with JQueryEta _ _ cb => cb | _ => None end.
Definition eta_answer (e : Event) : option nat :=
  match e with EtaAnswer k _ => Some k | _ => None end.
(** How often the callback [k] occurs. *)
Definition occurs {A} (f : A → option nat) (k : nat) (l : list A) : nat :=
  length (filter (λ a, f a = Some k) l).

(** The query the trip controller holds is for [k]. *)
Definition query_held (k : nat) n : nat :=
  match trip_ctrl_ n with Some c => pending_c k c | None => 0 end.
(** A cancellation and a second initialisation forget the query the trip controller holds. *)
Definition forgets (k : nat) (a : Action) n : nat :=
  match a, strand_ n with
  | RunNext _, (JCancel | JInitialize) :: _ => if io_thread_ n then query_held k n else 0
  | _, _ => 0
  end.
Fixpoint forgotten (k : nat) (l : list Action) n : nat :=
  match l with
  | [] => 0
  | a :: l' => forgets k a n + forgotten k l' (final (act a) n)
  end.

Lemma occurs_app {A} (f : A → option nat) k l l' :
  occurs f k (l ++ l') = (occurs f k l + occurs f k l')%nat.
Proof. unfold occurs. by rewrite filter_app, length_app. Qed.
Lemma occurs_cons {A} (f : A → option nat) k a l :
  occurs f k (a :: l) = (occurs f k [a] + occurs f k l)%nat.
Proof. by rewrite <- (occurs_app f k [a] l). Qed.
Lemma occurs_none {A} (f : A → option nat) k l : Forall (λ a, f a = None) l → occurs f k l = 0%nat.
Proof.
  unfold occurs. induction 1 as [|a l Ha _ IH]; [done|].
  rewrite filter_cons_False; [done|]. by rewrite Ha.
Qed.

Lemma react_answers k n (out : list Output) : occurs eta_answer k (out ≫= react n) = replies k out.
Proof.
  induction out as [|o out IH]; [done|]. cbn [mbind list_bind].
  rewrite occurs_app, IH, replies_cons. f_equal.
  destruct o as [| | | |p q st| | |k' r]; try done.
  - rewrite occurs_none; [done|]. cbn. unfold onTripStateChanged.
    repeat (apply Forall_app; split); repeat case_match; by repeat constructor.
  - by cbn; destruct (arrival_callback_ n).
  - by cbn; destruct (arrival_callback_ n).
  - unfold occurs. cbn [react]. rewrite filter_cons. cbn [eta_answer reply_to].
    destruct (decide (Some k' = Some k)), (bool_decide_reflect (k' = k)); naive_solver.
Qed.

Lemma job_answer_eta k n c j : occurs eta_answer k (job_answer n c j) = 0%nat.
Proof. by destruct j as [|[]|[]|[]|[]| |[]| | |]. Qed.
Lemma refusal_eta k j : occurs eta_answer k (refusal j) = occurs eta_job k [j].
Proof.
  destruct j as [|[]|[]|[]|[]| |[]| |? ? [k'|]|]; try done. cbn [refusal].
  unfold occurs. rewrite !filter_cons. cbn. by destruct (decide _).
Qed.
Lemma job_inputs_asked k env n j : asked k (job_inputs env n j) = occurs eta_job k [j].
Proof.
  destruct j as [| | | | | | | |s g cb|m]; try done.
  - unfold asked. cbn [job_inputs]. rewrite sum_list_with_app. by repeat case_match.
  - unfold asked, occurs. cbn [job_inputs]. rewrite filter_cons. cbn.
    destruct cb as [k'|]; [|by rewrite decide_False].
    destruct (decide (Some k' = Some k)), (bool_decide_reflect (k' = k)); naive_solver.
  - by destruct m.
Qed.
Lemma job_inputs_dropped k env n j (w : World Mp) :
  dropped k (job_inputs env n j) w = match j with JCancel => pending k w | _ => 0 end%nat.
Proof.
  destruct j as [| | | | | | | |s g cb|m]; try done; [|by destruct m].
  cbn [job_inputs]. by repeat case_match.
Qed.
Lemma boot_no_reply k (w : World Mp) :
  query_cb_ (ctrl w) = None →
  replies k (outputs boot_op w) = 0%nat ∧ pending k (final boot_op w) = 0%nat.
Proof.
  intros Hq. pose proof (conserves_boot k w) as Hc. unfold wp in Hc.
  assert (Hp : pending k w = 0%nat) by (unfold pending, pending_c; by rewrite Hq).
  rewrite Hp in Hc. lia.
Qed.

Lemma posted_eta k a n : is_post a → occurs eta_job k (posted a n) = occurs eta_call k [a].
Proof.
  destruct a; intros Ha; try done; cbn [posted].
  all: try by case_match. unfold occurs. rewrite !filter_cons. cbn. by destruct (decide _).
Qed.

Lemma query_put k (w : World Mp) n : query_held k (put_world w n) = pending k w.
Proof. done. Qed.
Lemma strand_put (w : World Mp) n : strand_ (put_world w n) = strand_ n.
Proof. done. Qed.

Lemma act_queries k a n :
  node_inv n →
  (occurs eta_call k [a] + occurs eta_job k (strand_ n) + query_held k n =
   occurs eta_answer k (outputs (act a) n) + occurs eta_job k (strand_ (final (act a) n)) +
   query_held k (final (act a) n) + forgets k a n)%nat.
Proof.
  intros Hn. revert a. apply act_cases; [intros a Ha| |intros env].
  - destruct (act_posts a n Ha) as (_ & -> & Hcore & _ & ->). injection Hcore as Hc _ _ _.
    unfold query_held. rewrite Hc, occurs_app, posted_eta by done.
    assert (forgets k a n = 0%nat) as -> by by destruct a; try done; destruct (strand_ n) as [|[]].
    cbn. lia.
  - destruct (initialize_posts n) as (-> & Hcore & -> & _).
    assert (Hc : trip_ctrl_ (final (act CallInitialize) n) = trip_ctrl_ n) by by injection Hcore.
    unfold query_held. rewrite Hc, occurs_app.
    change (occurs eta_call k [CallInitialize]) with 0%nat.
    change (occurs eta_job k [JInitialize]) with 0%nat.
    change (occurs eta_answer k []) with 0%nat. cbn [forgets]. lia.
  - change (occurs eta_call k [RunNext env]) with 0%nat.
    assert (Hidle : strand_ n = [] ∨ io_thread_ n = false →
      (occurs eta_job k (strand_ n) + query_held k n =
       occurs eta_answer k (outputs (act (RunNext env)) n) +
       occurs eta_job k (strand_ (final (act (RunNext env)) n)) +
       query_held k (final (act (RunNext env)) n) + forgets k (RunNext env) n)%nat).
    { intros Hi. assert (forgets k (RunNext env) n = 0%nat) as ->.
      { unfold forgets. by destruct Hi as [->| ->]; [|destruct (strand_ n) as [|[]]]. }
      unfold outputs, final. rewrite run_next_idle by done. cbn [fst snd].
      change (occurs eta_answer k []) with 0%nat. lia. }
    destruct (strand_ n) as [|j q] eqn:Hs; [by apply Hidle; left|].
    destruct (io_thread_ n) eqn:Hi; [|by apply Hidle; right]. clear Hidle.
    rewrite occurs_cons. unfold forgets. rewrite Hs, Hi.
    destruct (run_next_ran env n j q Hn Hs Hi)
      as [_ [(-> & -> & ->)|[(Hj & Hc & -> & ->)|(c & Hj & Hc & _ & -> & ->)]]].
    + rewrite react_answers.
      destruct (boot_no_reply k (fresh (n <| strand_ := q |>))) as [-> Hp]; [done|].
      rewrite query_put, strand_put, Hp. change (occurs eta_job k [JInitialize]) with 0%nat.
      change (strand_ (n <| strand_ := q |>)) with q. lia.
    + rewrite refusal_eta. change (query_held k (n <| strand_ := q |>)) with (query_held k n).
      assert (query_held k n = 0%nat) as -> by (unfold query_held; by rewrite Hc).
      change (strand_ (n <| strand_ := q |>)) with q. destruct j; lia.
    + rewrite occurs_app, react_answers, job_answer_eta.
      assert (Hw : inv (world (n <| strand_ := q |>) c)).
      { unfold node_inv in Hn. by rewrite Hc in Hn. }
      pose proof (run_books (job_inputs env (n <| strand_ := q |>) j) k _ Hw) as Hb.
      rewrite job_inputs_asked, job_inputs_dropped in Hb.
      change (pending k (world (n <| strand_ := q |>) c)) with (pending_c k c) in Hb.
      assert (query_held k n = pending_c k c) as -> by (unfold query_held; by rewrite Hc).
      rewrite query_put, strand_put. change (strand_ (n <| strand_ := q |>)) with q.
      destruct j; try done; lia.
Qed.

(** C36: every command is answered once.  For every schedule of a node around a well-formed map
    the callbacks of the commands other than queryEta answered so far, then those whose handlers are
    still on the strand, are the callbacks of the calls made, in order.  A callback given to queryEta
    has been answered, is on the strand, is held by the trip controller while the query runs, or was
    forgotten by a cancelTrip or a second initialize that found it there: as often, all together, as
    it was given. *)
Theorem commands_answered_in_order m hz l :
  rm_inv m →
  let n0 := Node_new m hz in
  omap answered (trace l n0) ++ omap job_cb (strand_ (after l n0)) = omap asks_for l ∧
  ∀ k, occurs eta_call k l =
       (occurs eta_answer k (trace l n0) + occurs eta_job k (strand_ (after l n0)) +
        query_held k (after l n0) + forgotten k l n0)%nat.
Proof.
  intros Hm.
  assert (Hgen : ∀ n, node_inv n →
    omap answered (trace l n) ++ omap job_cb (strand_ (after l n)) =
    omap job_cb (strand_ n) ++ omap asks_for l ∧
    ∀ k, (occurs eta_call k l + occurs eta_job k (strand_ n) + query_held k n =
          occurs eta_answer k (trace l n) + occurs eta_job k (strand_ (after l n)) +
          query_held k (after l n) + forgotten k l n)%nat).
  { induction l as [|a l IH]; intros n Hn.
    { split; [by rewrite app_nil_r|]. intros k. cbn. lia. }
    destruct (IH (final (act a) n)) as [Hord Hq]; [by apply act_ok|].
    change (after (a :: l) n) with (after l (final (act a) n)). cbn [trace forgotten]. split.
    - rewrite omap_app, <- app_assoc, Hord, app_assoc, act_answers by done.
      by rewrite omap_cons_app, <- app_assoc.
    - intros k. rewrite occurs_cons, occurs_app. specialize (Hq k).
      pose proof (act_queries k a n Hn). lia. }
  destruct (Hgen (Node_new m hz)) as [Hord Hq].
  { split; [done|]. intros msg Hin. by apply elem_of_nil in Hin. }
  split; [by rewrite Hord|]. intros k. rewrite <- Hq. cbn. lia.
Qed.

(** ** Refusals before initialization *)

(** Before [initialize]'s handler has run, the handler of a command answers false, a status
    query gets the default status and an ETA query the error "not initialized"; the node is
    otherwise unchanged and nothing is published. *)
Theorem refused_before_initialize n env j q :
  trip_ctrl_ n = None → strand_ n = j :: q → io_thread_ n = true →
  j ≠ JInitialize → (∀ msg, j ≠ JMessage msg) →
  run_next env n = (Ret (), n <| strand_ := q |>, refusal j) ∧
  (∀ k, job_cb j = Some k → refusal j = [Answer k false] ∨
                            refusal j = [StatusAnswer k TripStatus_default]).
Proof.
  intros Hc Hs Hi Hj Hm. split.
  - change (run_next env n) with (act (RunNext env) n).
    rewrite (run_next_run env n j q Hs Hi). by apply run_job_early.
  - intros k. destruct j as [|cb|cb|cb|cb| |cb| |s g cb|msg]; cbn; intros Hk; try done; subst; auto.
Qed.

(** ** The node runs the trip controller on the commands given *)

Inductive command : Type :=
  | CStartTrip
  | CMove
  | CGoToPickup
  | CMoveCommand
  | CCancel
  | CQueryEta (start_gps goal_gps : GPSCoordinate) (callback : option nat).

Definition action_command (a : Action) : option command :=
  match a with
  | CallStartTrip _ => Some CStartTrip
  | CallMove _ => Some CMove
  | CallGoToPickup _ => Some CGoToPickup
  | CallHandleMoveCommand _ => Some CMoveCommand
  | CallCancelTrip => Some CCancel
  | CallQueryEta s g cb => Some (CQueryEta s g cb)
  | _ => None
  end.
Definition job_command (j : Job) : option command :=
  match j with
  | JStartTrip _ => Some CStartTrip
  | JMove _ => Some CMove
  | JGoToPickup _ => Some CGoToPickup
  | JHandleMove _ => Some CMoveCommand
  | JCancel => Some CCancel
  | JQueryEta s g cb => Some (CQueryEta s g cb)
  | _ => None
  end.
Definition input_command (i : Input) : option command :=
  match i with
  | StartTrip => Some CStartTrip
  | Move => Some CMove
  | GoToPickup => Some CGoToPickup
  | MoveCommand => Some CMoveCommand
  | TripController.Cancel => Some CCancel
  | QueryEta _ s g cb => Some (CQueryEta s g cb)
  | _ => None
  end.

(** What the outside sees whatever callbacks are registered: ROS and the ETA answers. *)
Definition seen (e : Event) : option Output :=
  match e with
  | Ros o => Some o
  | EtaAnswer k r => Some (QueryReply k r)
  | _ => None
  end.
Definition visible (o : Output) : option Output :=
  match o with StateChange _ _ _ | PickupArrived | DropoffArrived => None | o => Some o end.

Lemma react_seen n (l : list Output) : omap seen (l ≫= react n) = omap visible l.
Proof.
  induction l as [|o l IH]; [done|]. cbn [mbind list_bind]. rewrite omap_app, omap_cons_app.
  f_equal; [|exact IH].
  destruct o; cbn; try done; unfold onTripStateChanged; rewrite ?omap_app; by repeat case_match.
Qed.

Lemma job_answer_seen n c j : omap seen (job_answer n c j) = [].
Proof. by destruct j as [|[]|[]|[]|[]| |[]| | |]. Qed.

Lemma job_inputs_command env n j :
  omap input_command (job_inputs env n j) = option_list (job_command j).
Proof.
  destruct j as [| | | | | | | |s g cb|m]; try done; [|by destruct m].
  cbn [job_inputs]. rewrite omap_app. by repeat case_match.
Qed.

Lemma posted_command a n :
  is_post a → omap job_command (posted a n) = option_list (action_command a).
Proof. destruct a; intros Ha; try done; cbn; by case_match. Qed.

Lemma posted_no_init a n : JInitialize ∉ posted a n.
Proof. destruct a; cbn; try case_match; set_solver. Qed.

Lemma run_outputs_app (l l' : list Input) (w : World Mp) :
  run_outputs (l ++ l') w = run_outputs l w ++ run_outputs l' (run l w).
Proof. revert w. induction l as [|i l IH]; intros w; [done|]. cbn. by rewrite IH, app_assoc. Qed.

(** The node has given the trip controller [li]; [tr] is what happened, [cmds] what was asked. *)
Definition tracks m n (tr : list Event) (cmds : list command) : Prop :=
  match trip_ctrl_ n with
  | None => lanelet_map_ n = m ∧ clock_reads n = 0%nat ∧ tr = [] ∧
            ∃ q, strand_ n = JInitialize :: q ∧ JInitialize ∉ q ∧ omap job_command q = cmds
  | Some c =>
    JInitialize ∉ strand_ n ∧
    ∃ li, world n c = run li (boot TripTimings_default m) ∧
          omap seen tr =
          omap visible (outputs boot_op (mkWorld (TripController_init TripTimings_default) m 0) ++
                        run_outputs li (boot TripTimings_default m)) ∧
          omap input_command li ++ omap job_command (strand_ n) = cmds
  end.

Lemma tracks_put m (w : World Mp) n tr cmds li :
  JInitialize ∉ strand_ n → w = run li (boot TripTimings_default m) →
  omap seen tr =
    omap visible (outputs boot_op (mkWorld (TripController_init TripTimings_default) m 0) ++
                  run_outputs li (boot TripTimings_default m)) →
  omap input_command li ++ omap job_command (strand_ n) = cmds →
  tracks m (put_world w n) tr cmds.
Proof. intros Hni Hw Htr Hcmd. split; [exact Hni|]. exists li. by rewrite world_put. Qed.

Lemma tracks_post m n tr cmds a :
  is_post a → tracks m n tr cmds →
  tracks m (final (act a) n) (tr ++ outputs (act a) n) (cmds ++ option_list (action_command a)).
Proof.
  intros Ha. destruct (act_posts a n Ha) as (_ & -> & Hcore & _ & Hs). rewrite app_nil_r.
  unfold core in Hcore. injection Hcore as Hc Hmap Hk _.
  unfold tracks. rewrite Hs, Hc, Hmap, Hk. pose proof (posted_no_init a n) as Hno.
  destruct (trip_ctrl_ n) as [c|].
  - intros [Hq (li & Hw & Htr & Hcmd)]. split; [set_solver|]. exists li.
    unfold world in *. rewrite Hmap, Hk. do 2 (split; [done|]).
    by rewrite omap_app, posted_command, app_assoc, Hcmd.
  - intros (Hm & Hk0 & Htr & q & Hq & Hni & Hcmd). do 3 (split; [done|]).
    exists (q ++ posted a n). rewrite Hq. split; [done|]. split; [set_solver|].
    by rewrite omap_app, posted_command, Hcmd.
Qed.

Lemma tracks_run m n tr cmds env :
  node_inv n → tracks m n tr cmds →
  tracks m (final (act (RunNext env)) n) (tr ++ outputs (act (RunNext env)) n) cmds.
Proof.
  intros Hn Ht. destruct (strand_ n) as [|j q] eqn:Hs; [|destruct (io_thread_ n) eqn:Hi].
  1,3: unfold outputs, final; rewrite run_next_idle by tauto; by rewrite app_nil_r.
  unfold tracks in Ht.
  destruct (run_next_ran env n j q Hn Hs Hi)
    as [_ [(-> & -> & ->)|[(Hj & Hc & _)|(c & Hj & Hc & _ & -> & ->)]]].
  - destruct (trip_ctrl_ n) as [c|] eqn:Hc; rewrite Hs in Ht; [set_solver|].
    destruct Ht as (Hm & Hk & -> & q' & [= <-] & Hni & Hcmd).
    assert (fresh (n <| strand_ := q |>) =
            mkWorld (TripController_init TripTimings_default) m 0) as ->.
    { unfold fresh. cbn. by rewrite Hm, Hk. }
    apply (tracks_put m _ _ _ _ []); [done..| |done].
    by rewrite app_nil_l, react_seen, app_nil_r.
  - rewrite Hc, Hs in Ht. destruct Ht as (_ & _ & _ & q' & [= -> <-] & _). done.
  - rewrite Hc, Hs in Ht. destruct Ht as [Hni (li & Hw & Htr & Hcmd)].
    change (world (n <| strand_ := q |>) c) with (world n c). rewrite Hw.
    apply (tracks_put m _ _ _ _ (li ++ job_inputs env (n <| strand_ := q |>) j)).
    + cbn. set_solver.
    + symmetry. apply run_inputs_app.
    + by rewrite run_outputs_app, !omap_app, react_seen, job_answer_seen, app_nil_r, Htr, omap_app,
        app_assoc.
    + by rewrite omap_app, job_inputs_command, <- app_assoc, <- omap_cons_app.
Qed.

(** C35: the node implements the trip controller.  Once [initialize] has been called, whatever
    calls, timer ticks, messages and handler runs follow, the trip controller is the one booted on
    the node's map and run on some list of inputs; the commands among them, then those still on
    the strand, are the commands given, in order; and what the node published and which ETA
    answers it gave are what that run outputs. *)
Theorem node_refines_trip m hz l :
  rm_inv m → CallInitialize ∉ l →
  let n := after (CallInitialize :: l) (Node_new m hz) in
  let tr := trace (CallInitialize :: l) (Node_new m hz) in
  match trip_ctrl_ n with
  | None => tr = [] ∧ ∃ q, strand_ n = JInitialize :: q ∧ omap job_command q = omap action_command l
  | Some c =>
    ∃ li, world n c = run li (boot TripTimings_default m) ∧
          omap seen tr =
          omap visible (outputs boot_op (mkWorld (TripController_init TripTimings_default) m 0) ++
                        run_outputs li (boot TripTimings_default m)) ∧
          omap input_command li ++ omap job_command (strand_ n) = omap action_command l
  end.
Proof.
  intros Hm Hl.
  assert (Hgen : ∀ n tr cmds, node_inv n → tracks m n tr cmds →
    tracks m (after l n) (tr ++ trace l n) (cmds ++ omap action_command l)).
  { induction l as [|a l IH]; intros n tr cmds Hn Ht; [by rewrite !app_nil_r|].
    cbn [trace]. rewrite omap_cons_app, !app_assoc.
    change (after (a :: l) n) with (after l (final (act a) n)).
    apply IH; [set_solver|by apply act_ok|]. revert Hl. pattern a. apply act_cases.
    - intros a' Ha' _. by apply tracks_post.
    - set_solver.
    - intros env _. rewrite app_nil_r. by apply tracks_run. }
  set (n0 := Node_new m hz). set (n1 := final (act CallInitialize) n0).
  assert (Hn0 : node_inv n0) by (split; [done|set_solver]).
  destruct (initialize_posts n0) as (Ho & Hcore & Hs & _).
  specialize (Hgen n1 [] [] ltac:(by apply act_ok)).
  assert (Ht : tracks m n1 [] []).
  { unfold core in Hcore. injection Hcore as Hc Hmap Hk _. unfold tracks.
    change (trip_ctrl_ n1 = None) in Hc. change (lanelet_map_ n1 = m) in Hmap.
    change (clock_reads n1 = 0%nat) in Hk. rewrite Hc. do 3 (split; [done|]). exists [].
    split; [exact Hs|]. split; [set_solver|done]. }
  specialize (Hgen Ht). unfold tracks in Hgen. cbn zeta. cbn [trace].
  change (after (CallInitialize :: l) n0) with (after l n1). fold n1. rewrite Ho.
  rewrite !app_nil_l in *. destruct (trip_ctrl_ (after l n1)); [by destruct Hgen|].
  destruct Hgen as (_ & _ & -> & q & Hq & _ & Hcmd). split; [done|]. by exists q.
Qed.
End Theorems.

(** ** Construction from the map files *)
Section FromFiles.
#[local] Arguments String.append !s1 s2 / : simpl nomatch.
Context `{Lanelet2Laws} `{YamlCpp} `{Clocks} `{AutowareMsgs}.

Lemma new_node_inv exists_ dirs path hz n :
  AutowareController_new exists_ dirs path hz = Ret n →
  node_inv n ∧ tick_hz_ n = hz.
Proof.
  unfold AutowareController_new. destruct (map_paths path) as [dir osm].
  rewrite outcome_bind_Ret. intros (info & _ & Hn). apply outcome_bind_Ret in Hn as (m & Hm & Hn).
  destruct (map_new_wf _ _ _ _ _ _ _ _ Hm) as (Hwf & _).
  assert (Hnone : ∀ msg, JMessage msg ∉ []) by (intros msg; apply not_elem_of_nil).
  destruct (has_start info); [|by injection Hn as <-].
  destruct (setDefaultStart_wf (info_start_name info)
    (mkGPS (start_lat info) (start_lon info)) m Hwf) as (m' & Hs & Hwf' & _).
  rewrite Hs in Hn. by injection Hn as <-.
Qed.

Lemma after_hz (l : list Action) n : node_inv n → tick_hz_ (after l n) = tick_hz_ n.
Proof.
  revert n. induction l as [|a l IH]; intros n Hn; [done|].
  destruct (act_ok a n Hn) as (Hn' & _ & Hhz). rewrite <- Hhz. by apply IH.
Qed.

(** A node constructed from the map files never throws.  Whatever is called, ticks, arrives or
    runs, in any order, each action returns and the trip is never in state FAILED, provided the
    tick frequency gives the timer a period. *)
Theorem agent_from_files exists_ dirs path hz n period_ms l a :
  AutowareController_new exists_ dirs path hz = Ret n →
  d_to_int (ddiv (d_of_Z 1000) hz) = Ret period_ms →
  result (act a) (after l n) = Ret () ∧
  state_ (getTripStatusSync (after l n)) ≠ TripState.FAILED.
Proof.
  intros Hn Hhz. destruct (new_node_inv _ _ _ _ _ Hn) as [Hinv Hhz'].
  pose proof (node_inv_after l n Hinv) as Hl. split.
  - apply (act_ok a _ Hl) with (p := period_ms). by rewrite after_hz, Hhz'.
  - unfold getTripStatusSync. unfold node_inv in Hl.
    destruct (trip_ctrl_ (after l n)) as [c|]; [|done].
    intros Hf. destruct Hl as [_ [_ Hst]]. cbn in Hst. by rewrite Hf in Hst.
Qed.

(** Which files a map path stands for.  A path to an .osm file is the map itself, configured
    by its directory ("." without a separator); any other path is the directory of both. *)
Theorem map_path_forms d f :
  find_last_of "/" f = None →
  map_paths (d +:+ "/" +:+ f +:+ ".osm") = (d, d +:+ "/" +:+ f +:+ ".osm") ∧
  map_paths (f +:+ ".osm") = (".", f +:+ ".osm") ∧
  (∀ p, (∀ q, p ≠ q +:+ ".osm") → map_paths p = (p, p +:+ "/lanelet2_map.osm")).
Proof.
  intros Hf.
  assert (Hosm : ∀ s, let p := s +:+ ".osm" in
    bool_decide (4 ≤ String.length p)%nat &&
    bool_decide (substr (String.length p - 4) 4 p = ".osm") = true).
  { intros s. cbn zeta. rewrite string_length_app. cbn [String.length].
    replace (String.length s + 4 - 4)%nat with (String.length s) by lia.
    pose proof (substr_suffix s ".osm") as Hsuf. cbn [String.length] in Hsuf. rewrite Hsuf.
    rewrite !bool_decide_eq_true_2; [done|done|lia]. }
  assert (Hnone : find_last_of "/" (f +:+ ".osm") = None) by (by apply find_last_of_none_app).
  assert (Hassoc : d +:+ "/" +:+ f +:+ ".osm" = (d +:+ String "/" f) +:+ ".osm").
  { induction d as [|a d IH]; cbn; [done|]. by f_equal. }
  split; [|split].
  - unfold map_paths. rewrite Hassoc, Hosm. rewrite <- Hassoc.
    change ("/" +:+ f +:+ ".osm") with (String "/" (f +:+ ".osm")).
    by rewrite find_last_of_app, substr_prefix.
  - unfold map_paths. by rewrite Hosm, Hnone.
  - intros p Hp. unfold map_paths. cbn zeta.
    destruct (bool_decide (4 ≤ String.length p)%nat) eqn:Hlen; [|done]. cbn [andb].
    rewrite bool_decide_eq_false_2; [done|]. apply bool_decide_eq_true in Hlen. intros Hs.
    apply (Hp (substr 0 (String.length p - 4) p)). rewrite <- Hs.
    replace 4%nat with (String.length p - (String.length p - 4))%nat at 3 by lia.
    symmetry. apply substr_split. lia.
Qed.
End FromFiles.
