(* ===== verification/StreamTheorems.v ===== *)
(** * StreamTheorems: the properties of the gateway stream

    Events leave in the order they were reported and survive reconnections, a broken connection
    costs at most the one event being written, connections are two seconds apart, commands for
    another vehicle have no effect, and the watchdog gives up exactly the silent connections. *)

From S2P Require Export StreamClient.
Import Stream.

(** Run a step of a thread on every shape of the connection. *)
Ltac step_cases :=
  unfold run_with_reconnect, open_stream, writer_step, writer_ends, watchdog_step, reader_step,
    read_command, dispatch, call_handler, finish_stream, set_handlers, shutdown, on_connection;
  wp_steps.

Section Theorems.
Context {T E L : Type} `{ITripManager T} `{IEtaProvider E} `{ILocationProvider L}.
Implicit Types c : StreamClient T E L.

Lemma thread_ended_spec c :
  thread_ended c = true ↔ connection c = None ∧ reconnect c = ThreadEnded.
Proof. unfold thread_ended. repeat case_match; naive_solver. Qed.

(** ** What is reported, held and taken *)

(** The event a report puts on the queue; none when the provider it asks is gone. *)
Definition event_of (r : Report) c : option VehicleEvent :=
  match r with
  | RTripInitAck => Some (TripInitAck true "accepted")
  | RTripCancelAck b m => Some (TripCancelAck b m)
  | ROrderUpdateLocationAck b m => Some (OrderUpdateLocationAck b m)
  | RLocation lat lon => Some (LocationEvent (vin_ c) lat lon)
  | REtaProvider =>
    (λ e, let d := GetEta e in
          EtaEvent (vin_ c) (eta_request_id d) (time_seconds d) (fare d) "COMPLETED")
    <$> eta_provider_ c
  | REta _ t f =>
    (λ e, EtaEvent (vin_ c) (eta_request_id (GetEta e)) t f "COMPLETED") <$> eta_provider_ c
  | RStatus s => Some (StatusEvent (vin_ c) (GetActiveTripId (trip_manager_ c)) s)
  | RArrive =>
    let d := GetArriveData (trip_manager_ c) in
    Some (ArriveEvent (vin_ c) (arrive_trip_id d) (arrive_latitude d) (arrive_longitude d))
  | RLocationProvider =>
    (λ l, let d := GetCurrentLocation l in LocationEvent (vin_ c) (latitud d) (loc_longitude d))
    <$> location_provider_ c
  end.

Lemma report_enqueues r c :
  report r c = match event_of r c with
               | Some ev => (Ret (), c <| write_queue_ ::= λ q, q ++ [ev] |>, [])
               | None => (Throw UndefinedBehaviour, c, [])
               end.
Proof. destruct c as [tm [ep|] [lp|] vin hd rid sd q conn rc], r; done. Qed.

Definition queued (a : StreamAction) c : list VehicleEvent :=
  match a with DoReport r => option_list (event_of r c) | _ => [] end.
Fixpoint reported (l : list StreamAction) c : list VehicleEvent :=
  match l with [] => [] | a :: l' => queued a c ++ reported l' (final (act a) c) end.

(** The event the writer has taken from the queue and not yet written. *)
Definition held c : list VehicleEvent :=
  match connection c with
  | Some k => match writer k with Writing ev => [ev] | _ => [] end
  | None => []
  end.
Definition taken (e : Effect) : option VehicleEvent :=
  match e with Sent ev | WriteFailed ev => Some ev | _ => None end.

Definition lost (e : Effect) : option VehicleEvent :=
  match e with WriteFailed ev => Some ev | _ => None end.
Definition connected (e : Effect) : option unit :=
  match e with Connect => Some () | _ => None end.

(** A connection that may still fail a write. *)
Definition live c : nat :=
  match connection c with
  | Some k => match writer k with WriterDone => 0 | _ => 1 end
  | None => 0
  end.

Ltac connection_facts :=
  unfold held, live; cbn;
  repeat match goal with Hk : ?x = _ |- context [?x] => rewrite Hk; cbn end.

(** An action other than a report. *)
Definition takes c : outcome unit → StreamClient T E L → list Effect → Prop := λ _ c' out,
  omap taken out ++ held c' ++ write_queue_ c' = held c ++ write_queue_ c ∧
  (length (omap lost out) + live c' ≤ live c + length (omap connected out))%nat.

Lemma act_takes a c : (∀ r, a ≠ DoReport r) → wp (act a) c (takes c).
Proof.
  intros Hr. destruct a as [r|now|ok|now|read|now| |]; [by destruct (Hr r)|..]; cbn [act].
  all: step_cases; unfold takes; connection_facts; (split; [done|lia]).
Qed.

Lemma act_budget a c :
  omap taken (outputs (act a) c) ++ held (final (act a) c) ++ write_queue_ (final (act a) c) =
    (held c ++ write_queue_ c) ++ queued a c ∧
  (length (omap lost (outputs (act a) c)) + live (final (act a) c) ≤
   live c + length (omap connected (outputs (act a) c)))%nat.
Proof.
  destruct a as [r|now|ok|now|read|now| |];
    [|rewrite app_nil_r; by apply act_takes..].
  unfold outputs, final. cbn [act queued]. rewrite report_enqueues.
  destruct (event_of r c) as [ev|]; cbn [option_list fst snd].
  - split; [by rewrite <- app_assoc|]. unfold live. cbn. lia.
  - rewrite app_nil_r. split; [done|]. cbn. lia.
Qed.

(** C37: no event is dropped or overtaken before it reaches a connection.  For every interleaving
    of the client's threads from its construction, the events handed to [Write], then the one the
    writer holds, then the queue, are the events reported, in order; this holds across lost
    connections. *)
Theorem stream_preserves_order l tm ep lp vin id :
  let c0 := StreamClient_new tm ep lp vin id in
  omap taken (trace l c0) ++ held (after l c0) ++ write_queue_ (after l c0) = reported l c0.
Proof.
  assert (Hgen : ∀ c, omap taken (trace l c) ++ held (after l c) ++ write_queue_ (after l c) =
                      (held c ++ write_queue_ c) ++ reported l c).
  { induction l as [|a l IH]; intros c; [by rewrite app_nil_r|].
    cbn [trace reported]. rewrite omap_app, <- app_assoc.
    change (after (a :: l) c) with (after l (final (act a) c)). rewrite IH, app_assoc.
    destruct (act_budget a c) as [-> _]. by rewrite <- app_assoc. }
  intros c0. by rewrite Hgen.
Qed.

(** A broken connection loses at most one event.  In every interleaving there are at most as
    many failed writes as connections opened. *)
Theorem stream_loses_one_per_connection l tm ep lp vin id :
  let tr := trace l (StreamClient_new (T := T) (E := E) (L := L) tm ep lp vin id) in
  (length (omap lost tr) ≤ length (omap connected tr))%nat.
Proof.
  assert (Hgen : ∀ c, (length (omap lost (trace l c)) ≤
                       live c + length (omap connected (trace l c)))%nat).
  { induction l as [|a l IH]; intros c; [cbn; lia|].
    cbn [trace]. rewrite !omap_app, !length_app.
    destruct (act_budget a c) as [_ Hb]. specialize (IH (final (act a) c)). lia. }
  intros tr. specialize (Hgen (StreamClient_new tm ep lp vin id)). unfold live in Hgen.
  cbn in Hgen. exact Hgen.
Qed.

(** ** Connections in time *)

(** The time a step reads off the clock. *)
Definition clock_reading (a : StreamAction) : option Z :=
  match a with Open now | WatchdogStep now | FinishStream now => Some now | _ => None end.
(** In [l] the clock goes from [t] to [t'] and not back. *)
Fixpoint elapses (t : Z) (l : list StreamAction) (t' : Z) : Prop :=
  match l with
  | [] => t ≤ t'
  | a :: l => t ≤ default t (clock_reading a) ∧ elapses (default t (clock_reading a)) l t'
  end.

(** The time before which the client opens no further connection, when the clock shows [t]. *)
Definition next_open (t : Z) c : Z :=
  match connection c, reconnect c with
  | Some _, _ => t + 2000000000
  | None, Pausing until => t `max` until
  | None, _ => t
  end.

(** A step at [t'] after one at [t]: a client shut down connects no more; one that is not connects
    no earlier than [next_open]. *)
Definition paced (t t' : Z) c : outcome unit → StreamClient T E L → list Effect → Prop :=
  λ _ c' out,
  (shutdown_ c = true → shutdown_ c' = true) ∧
  (shutdown_ c' = true → omap connected out = []) ∧
  (shutdown_ c' = false →
   (omap connected out = [] ∧ next_open t c ≤ next_open t' c') ∨
   (omap connected out = [()] ∧ next_open t c ≤ t' ∧ t' + 2000000000 ≤ next_open t' c')).

Lemma act_paced a c t :
  t ≤ default t (clock_reading a) → wp (act a) c (paced t (default t (clock_reading a)) c).
Proof.
  intros Ht. destruct a as [r|now|ok|now|read|now| |]; 
    cbn [act clock_reading from_option] in *; unfold id in *.
  1: unfold wp, paced, final, outputs, result; rewrite report_enqueues;
    case_match; (split_and!; [done..|]); left; (split; [done|]); unfold next_open; cbn;
    repeat case_match; lia.
  all: step_cases; unfold paced, next_open; connection_facts;
    (split_and!; [by intros; simplify_eq/=..|]).
  all: intros Hs; rewrite ?Hs; try discriminate; simplify_eq/=; repeat case_match;
    first [left; split; [done|lia] | right; split; [done|lia]].
Qed.

Lemma elapses_le l t t' : elapses t l t' → t ≤ t'.
Proof. revert t. induction l as [|a l IH]; intros t; cbn; [done|]. intros [? ?%IH]. lia. Qed.

(** Connections are two seconds apart. *)
Lemma connections_apart l t t' c :
  elapses t l t' →
  let n := length (omap connected (trace l c)) in
  (shutdown_ c = true → n = 0%nat) ∧
  (n ≠ 0%nat → next_open t c + 2000000000 * (Z.of_nat n - 1) ≤ t').
Proof.
  revert t c. induction l as [|a l IH]; intros t c; [done|]. intros [Ht Hl].
  destruct (act_paced a c t Ht) as (Hkeep & Hsd & Hp).
  destruct (IH _ (final (act a) c) Hl) as [Hs Hn]. cbn [trace]. rewrite omap_app, length_app.
  destruct (shutdown_ (final (act a) c)) eqn:Hc'.
  - rewrite (Hsd eq_refl), (Hs eq_refl). done.
  - split; [intros Hc; by specialize (Hkeep Hc)|].
    destruct (Hp eq_refl) as [[-> Hle]|(-> & Hle & Hle')];
      cbn [length]; [intros Hne; specialize (Hn Hne); lia|].
    intros _. destruct (decide (length (omap connected (trace l (final (act a) c))) = 0%nat))
      as [->|Hne]; [|specialize (Hn Hne); lia].
    pose proof (elapses_le _ _ _ Hl). lia.
Qed.

(** C40: the events lost are bounded by time.  While the clock goes from [t] to [t'], in every
    interleaving of the client's threads from its construction, at most one connection is opened
    and one more for each two seconds, and no more writes fail than connections are opened. *)
Theorem stream_loss_bounded l t t' tm ep lp vin id :
  elapses t l t' →
  let tr := trace l (StreamClient_new (T := T) (E := E) (L := L) tm ep lp vin id) in
  (length (omap lost tr) ≤ length (omap connected tr))%nat ∧
  Z.of_nat (length (omap connected tr)) ≤ 1 + (t' - t) / 2000000000.
Proof.
  intros Hl tr. split; [apply stream_loses_one_per_connection|].
  destruct (connections_apart l t t' (StreamClient_new tm ep lp vin id) Hl) as [_ Hn].
  fold tr in Hn. pose proof (elapses_le _ _ _ Hl).
  enough (Z.of_nat (length (omap connected tr)) - 1 ≤ (t' - t) / 2000000000) by lia.
  apply Z.div_le_lower_bound; [lia|].
  destruct (decide (length (omap connected tr) = 0%nat)) as [->|Hne]; [lia|].
  specialize (Hn Hne). unfold next_open in Hn. cbn in Hn. lia.
Qed.

(** ** Progress *)

Lemma writer_sends c k ev q :
  connection c = Some k → writer k = Waiting → stream_dead k = false → shutdown_ c = false →
  write_queue_ c = ev :: q →
  outputs (act (WriterStep true)) c = [] ∧
  outputs (act (WriterStep true)) (final (act (WriterStep true)) c) = [Sent ev] ∧
  final (act (WriterStep true)) (final (act (WriterStep true)) c) = c <| write_queue_ := q |>.
Proof.
  destruct c as [tm ep lp vin hd rid sd q0 conn rc], k as [dead rr w wd rd]. cbn -[act].
  by intros -> -> -> -> ->.
Qed.

(** A healthy connection delivers the queue.  While writes succeed, two turns of the writer
    per queued event send every event, in order, and leave the queue empty and the writer ready. *)
Theorem writer_drains_queue c k :
  connection c = Some k → writer k = Waiting → stream_dead k = false → shutdown_ c = false →
  let l := replicate (2 * length (write_queue_ c)) (WriterStep true) in
  trace l c = Sent <$> write_queue_ c ∧
  write_queue_ (after l c) = [] ∧ connection (after l c) = Some k.
Proof.
  remember (write_queue_ c) as q eqn:Hq. symmetry in Hq. revert c Hq.
  induction q as [|ev q IH]; intros c Hq Hk Hw Hd Hs; [done|].
  cbn [length]. replace (2 * S (length q))%nat with (S (S (2 * length q))) by lia.
  destruct (writer_sends c k ev q Hk Hw Hd Hs Hq) as (Ho1 & Ho2 & Hf).
  cbn [replicate trace]. rewrite Ho1, Ho2, Hf.
  set (c' := c <| write_queue_ := q |>) in *.
  set (l := replicate _ _). destruct (IH c' eq_refl Hk Hw Hd Hs) as (Ht & Hq' & Hc').
  assert (after (WriterStep true :: WriterStep true :: l) c = after l c') as ->.
  { rewrite <- Hf. done. }
  cbn zeta in *. fold l in Ht, Hq', Hc'. by rewrite Ht.
Qed.

(** C39: the client reconnects.  Once a connection is dead and its watchdog's deadline has passed
    (or the watchdog is done), the end of the stream lets every thread end, and two seconds later,
    not before, a new connection opens; the queue is kept. *)
Theorem broken_stream_reopens c k d now early now' :
  connection c = Some k → shutdown_ c = false → stream_dead k = true →
  watchdog k ∈ [WatchdogDone; Checking d; Sleeping d] → d ≤ now →
  early < now + 2000000000 ≤ now' →
  let c' := after [ReaderStep None; WriterStep false; WatchdogStep now; WatchdogStep now;
                   FinishStream now; Open early; Open now'] c in
  connection (after [ReaderStep None; WriterStep false; WatchdogStep now; WatchdogStep now;
                     FinishStream now; Open early] c) = None ∧
  connection c' = Some (mkConnection false false Waiting (Checking (now' + 8000000000)) true) ∧
  write_queue_ c' = write_queue_ c.
Proof.
  destruct c as [tm ep lp vin hd rid sd q conn rc], k as [dead rr w wd rd]. cbn -[act after].
  intros -> -> -> Hwd Hd [He Hn'].
  assert (Hnow : (now <? d) = false) by (apply Z.ltb_ge; lia).
  apply Z.ltb_lt in He. apply Z.ltb_ge in Hn'.
  rewrite !elem_of_cons, elem_of_nil in Hwd.
  destruct Hwd as [->|[->|[->|[]]]]; destruct rd, w, rr; cbv -[Z.ltb Z.add];
    rewrite ?Hnow, ?He, ?Hn'; done.
Qed.

(** ** Commands *)

(** A command that names another vehicle has no effect: nothing is dispatched, no id changes,
    no event is queued; only the watchdog learns that the gateway is alive. *)
Theorem foreign_command_ignored c cmd :
  command_vin cmd ≠ vin_ c →
  act (ReaderStep (Some cmd)) c =
  (Ret (), match connection c with
           | Some k => if reading k then
                         c <| connection := Some (k <| read_received := true |>) |> else c
           | None => c
           end, []).
Proof.
  intros Hv. destruct c as [tm ep lp vin hd rid sd q [[dead rr w wd [|]]|] rc]; [|done..].
  cbn [vin_] in Hv. cbn -[decide command_vin].
  unfold reader_step, read_command, on_connection, gets, modify, mbind, M_bind.
  cbn -[decide command_vin]. destruct (decide (command_vin cmd ≠ vin)); [done|contradiction].
Qed.

(** What a command for this vehicle does.  A TripInit sets both the active trip id and the
    request id to its request id, a TripMove sets the active trip id, and both, like a location
    request and a cancellation, reach the handler; a park or status request is dropped. *)
Theorem own_command_dispatched c k cmd :
  connection c = Some k → reading k = true → handlers_ c = true → command_vin cmd = vin_ c →
  let c' := final (act (ReaderStep (Some cmd))) c in
  write_queue_ c' = write_queue_ c ∧
  match cmd with
  | TripInit r => outputs (act (ReaderStep (Some cmd))) c = [Handler cmd] ∧
                  trip_manager_ c' = SetActiveTripId (init_id r) (trip_manager_ c) ∧
                  current_request_id_ c' = init_id r
  | TripMove _ id => outputs (act (ReaderStep (Some cmd))) c = [Handler cmd] ∧
                     trip_manager_ c' = SetActiveTripId id (trip_manager_ c) ∧
                     current_request_id_ c' = current_request_id_ c
  | OrderUpdateLocation _ | TripCancel _ _ =>
    outputs (act (ReaderStep (Some cmd))) c = [Handler cmd] ∧
    trip_manager_ c' = trip_manager_ c ∧ current_request_id_ c' = current_request_id_ c
  | TripPark _ | OrderUpdateStatus _ | NoCommand =>
    outputs (act (ReaderStep (Some cmd))) c = [] ∧
    trip_manager_ c' = trip_manager_ c ∧ current_request_id_ c' = current_request_id_ c
  end.
Proof.
  intros Hc Hr Hh Hv. cbn zeta. cbn [act].
  destruct c as [tm ep lp vin hd rid sd q conn rc], k as [dead rr w wd rd].
  cbn -[act reader_step] in *. subst.
  unfold final, outputs, reader_step, read_command, on_connection, gets, modify, mbind, M_bind.
  cbn -[decide command_vin].
  destruct (decide (command_vin cmd ≠ command_vin cmd)); [done|]. by destruct cmd.
Qed.

(** ** The watchdog *)

(** The watchdog gives up exactly the silent connections.  If a command has been read it never
    cancels; if none has, two turns after its deadline it has cancelled and declared the stream
    dead. *)
Theorem watchdog_cancels_silent_stream c k d now :
  connection c = Some k → watchdog k ∈ [Checking d; Sleeping d] →
  if read_received k then
    outputs (act (WatchdogStep now)) c = [] ∧
    stream_dead <$> connection (final (act (WatchdogStep now)) c) = Some (stream_dead k)
  else
    d ≤ now →
    trace [WatchdogStep now; WatchdogStep now] c = [TryCancel] ∧
    stream_dead <$> connection (after [WatchdogStep now; WatchdogStep now] c) = Some true.
Proof.
  destruct c as [tm ep lp vin hd rid sd q conn rc], k as [dead rr w wd rd]. cbn -[act after trace].
  intros -> Hwd. rewrite !elem_of_cons, elem_of_nil in Hwd. destruct rr.
  - destruct Hwd as [->|[->|[]]]; cbv -[Z.ltb];
      by destruct sd, (now <? d).
  - intros Hd. assert (Hnow : (now <? d) = false) by (apply Z.ltb_ge; lia).
    destruct Hwd as [->|[->|[]]]; destruct sd; cbv -[Z.ltb]; rewrite ?Hnow; done.
Qed.

(** Once a command has been read only a failed write cancels the connection; in particular
    [shutdown] does not, so its join waits for the gateway to end the stream. *)
Theorem established_stream_cancelled_by_failed_write c k a :
  connection c = Some k → read_received k = true → TryCancel ∈ outputs (act a) c →
  a = WriterStep false ∧ ∃ ev, writer k = Writing ev.
Proof.
  intros Hk Hr. destruct a as [r|now|ok|now|read|now| |]; cbn [act].
  1: unfold outputs; rewrite report_enqueues; case_match; by rewrite elem_of_nil.
  all: match goal with |- _ ∈ outputs ?m _ → _ => to_wp m c end; step_cases;
    cbn [app]; rewrite ?elem_of_cons, ?elem_of_nil; intros Hin; simplify_eq;
    try (rewrite Hr in *; done); naive_solver.
Qed.
End Theorems.
