(* ===== verification/AppTheorems.v ===== *)
(** * AppTheorems: the properties of the wired application

    Every action of the running application is a schedule of its node, so the node's guarantees
    carry over; what the gateway is told of a trip, and how its commands reach the trip
    controller. *)

From S2P Require Export NodeTheorems BridgeFacts App StreamTheorems.
Import Controller Stream Location App.

Section Theorems.
Context {Mp : Type} `{RouteMap Mp} `{Clocks} `{AutowareMsgs} {Laws : RouteMapLaws Mp}.
Implicit Types (h : AppHandles Mp) (n : Node Mp).

(** ** The application drives its node *)

(** The node is in order: its invariant, and a timer period. *)
Definition node_ok n : Prop :=
  node_inv n ∧ ∃ p, d_to_int (ddiv (d_of_Z 1000) (tick_hz_ n)) = Ret p.

(** A computation of the application is, for its node, a schedule; a safe one returns, too. *)
Definition drives {A} (op : AppOp Mp A) : Prop := ∀ h, node_ok (controller_ h) →
  wp op h (λ _ h' _, ∃ l, controller_ h' = Controller.after l (controller_ h)).
Definition safe {A} (op : AppOp Mp A) : Prop := ∀ h, node_ok (controller_ h) →
  wp op h (λ o h' _, (∃ a, o = Ret a) ∧ ∃ l, controller_ h' = Controller.after l (controller_ h)).

Lemma safe_drives {A} (op : AppOp Mp A) : safe op → drives op.
Proof. intros Hop h Hh. eapply wp_mono; [by apply Hop|]. by intros o h' t [_ Hl]. Qed.

Lemma node_ok_after l n : node_ok n → node_ok (Controller.after l n).
Proof.
  intros [Hn Hp]. split; [by apply node_inv_after|]. revert n Hn Hp.
  induction l as [|a l IH]; intros n Hn Hp; [done|].
  destruct (act_ok a n Hn) as (Hn' & _ & Hhz). change (Controller.after (a :: l) n) with
    (Controller.after l (final (Controller.act a) n)). apply IH; [done|]. by rewrite Hhz.
Qed.

Lemma app_safe_ret {A} (a : A) : safe (mret a).
Proof. intros h _. split; [by eexists|by exists []]. Qed.

Lemma schedule_trans n l n' l' n'' :
  n' = Controller.after l n → n'' = Controller.after l' n' → n'' = Controller.after (l ++ l') n.
Proof. intros -> ->. symmetry. apply run_inputs_app. Qed.

Lemma drives_bind {A B} (m : AppOp Mp A) (f : A → AppOp Mp B) :
  drives m → (∀ a, drives (f a)) → drives (m ≫= f).
Proof.
  intros Hm Hf h Hh. apply wp_bind. eapply wp_mono; [by apply Hm|].
  intros [a|e] h' t [l Hl]; [|by exists l]. eapply wp_mono; [apply Hf|].
  - rewrite Hl. by apply node_ok_after.
  - intros o h'' t' [l' Hl']. eexists. by eapply schedule_trans.
Qed.

Lemma app_safe_bind {A B} (m : AppOp Mp A) (f : A → AppOp Mp B) :
  safe m → (∀ a, safe (f a)) → safe (m ≫= f).
Proof.
  intros Hm Hf h Hh. apply wp_bind. eapply wp_mono; [by apply Hm|].
  intros o h' t [[a ->] [l Hl]]. eapply wp_mono; [apply Hf|].
  - rewrite Hl. by apply node_ok_after.
  - intros o h'' t' [Ho [l' Hl']]. split; [done|]. eexists. by eapply schedule_trans.
Qed.

Lemma safe_gets {A} (f : AppHandles Mp → A) : safe (gets f).
Proof. intros h _. split; [by eexists|by exists []]. Qed.
Lemma safe_emit e : safe (emit e).
Proof. intros h _. split; [by eexists|by exists []]. Qed.

Lemma safe_controller (a : Action) : safe (on_controller (Controller.act a)).
Proof.
  intros h [Hn [p Hp]]. destruct (act_ok a _ Hn) as (_ & Hr & _). specialize (Hr p Hp).
  unfold wp, result, final, outputs, on_controller in *.
  destruct (Controller.act a (controller_ h)) as [[o n'] out] eqn:Ha. cbn in Hr. subst o. cbn.
  split; [by eexists|]. exists [a]. cbn. unfold final. by rewrite Ha.
Qed.

(** Actions of the client that follow no pointer to the eta or the location provider. *)
Definition follows_no_pointer (a : StreamAction) : Prop :=
  match a with DoReport (REtaProvider | REta _ _ _ | RLocationProvider) => False | _ => True end.

Lemma client_returns {T E L} `{ITripManager T} `{IEtaProvider E} `{ILocationProvider L}
    (a : StreamAction) (c : StreamClient T E L) :
  follows_no_pointer a → result (Stream.act a) c = Ret ().
Proof.
  intros Ha. destruct a as [r|now|ok|now|read| | |]; cbn [Stream.act].
  1: by destruct r.
  all: match goal with |- result ?m ?x = _ => change (wp m x (λ o _ _, o = Ret ())) end;
    by step_cases.
Qed.

Lemma drives_client_with st (a : StreamAction) : drives (on_client_with st (Stream.act a)).
Proof.
  intros h _. unfold wp, result, final, outputs, on_client_with.
  destruct (Stream.act a _) as [[[] c'] out]; by exists [].
Qed.
Lemma safe_client_with st (a : StreamAction) :
  follows_no_pointer a → safe (on_client_with st (Stream.act a)).
Proof.
  intros Ha h _. pose proof (client_returns a (refresh st (stream_client_ h)) Ha) as Hr.
  unfold wp, result, final, outputs, on_client_with in *.
  destruct (Stream.act a _) as [[o c'] out]. cbn in Hr. subst o. cbn.
  split; [by eexists|by exists []].
Qed.
Lemma on_client_run (a : StreamAction) h :
  follows_no_pointer a →
  let c := refresh (getTripStatusSync (controller_ h)) (stream_client_ h) in
  result (on_client (Stream.act a)) h = Ret (outputs (Stream.act a) c) ∧
  final (on_client (Stream.act a)) h = h <| stream_client_ := final (Stream.act a) c |> ∧
  outputs (on_client (Stream.act a)) h = StreamEffect <$> outputs (Stream.act a) c.
Proof.
  intros Ha. cbn zeta. pose proof (client_returns a (refresh (getTripStatusSync (controller_ h))
    (stream_client_ h)) Ha) as Hr.
  unfold on_client, on_client_with, gets, result, final, outputs, mbind, M_bind in *.
  destruct (Stream.act a _) as [[o c'] out]. cbn in Hr. by subst o.
Qed.

Lemma safe_client (a : StreamAction) : follows_no_pointer a → safe (on_client (Stream.act a)).
Proof. intros Ha. apply app_safe_bind; [apply safe_gets|]. intros. by apply safe_client_with. Qed.

Lemma safe_location a : safe (on_location (FrameBridge.act (Ops := LocationBridge_ops) a)).
Proof.
  intros h _. destruct (bridge_act_ok (Ops := LocationBridge_ops) a (location_bridge_ h))
    as (b' & t & Heq & _).
  unfold wp, result, final, outputs, on_location. rewrite Heq.
  split; [by eexists|by exists []].
Qed.

Lemma drives_for_each {A} (f : A → AppOp Mp unit) l : (∀ a, drives (f a)) → drives (for_each f l).
Proof.
  intros Hf. induction l as [|a l IH]; [apply safe_drives, app_safe_ret|]. by apply drives_bind.
Qed.
Lemma safe_for_each {A} (f : A → AppOp Mp unit) l : (∀ a, safe (f a)) → safe (for_each f l).
Proof. intros Hf. induction l as [|a l IH]; [apply app_safe_ret|]. by apply app_safe_bind. Qed.

Lemma keeps_for_each {A} (P : AppHandles Mp → Prop) (f : A → AppOp Mp unit) l :
  (∀ a, keeps P (f a)) → keeps P (for_each f l).
Proof. intros Hf. induction l as [|a l IH]; [apply keeps_ret|]. by apply keeps_bind. Qed.

(** The closures' calls and reports are actions of the components. *)
Lemma safe_call a : safe (call (Controller.act a)).
Proof. apply app_safe_bind; [apply safe_controller|]. intros. apply app_safe_ret. Qed.
Lemma safe_send r : follows_no_pointer (DoReport r) → safe (send (report r)).
Proof.
  intros Hr. apply app_safe_bind; [by apply (safe_client (DoReport r))|]. intros. apply app_safe_ret.
Qed.
Lemma drives_send r : drives (send (report r)).
Proof.
  apply drives_bind; [|intros; apply safe_drives, app_safe_ret].
  apply drives_bind; [apply safe_drives, safe_gets|]. intros. apply (drives_client_with _ (DoReport r)).
Qed.

Lemma safe_effect e : safe (handle_effect e).
Proof.
  destruct e as [| | | | | |cmd]; try apply app_safe_ret.
  destruct cmd as [r|v i|v|v|v|v i|]; cbn; try apply app_safe_ret.
  - apply (safe_call (CallQueryEta _ _ _)).
  - apply (safe_call (CallHandleMoveCommand _)).
  - apply app_safe_bind; [by apply (safe_send (ROrderUpdateLocationAck _ _))|].
    intros _. apply (safe_call (CallGetTripStatus _)).
  - apply app_safe_bind; [apply (safe_call CallCancelTrip)|]. intros _.
    apply app_safe_bind; [by apply (safe_send (RTripCancelAck _ _))|]. intros _.
    by apply (safe_send (RStatus _)).
Qed.

(** The event after which the application follows the pointer to the eta provider. *)
Definition answers_query (e : Event) : bool :=
  match e with EtaAnswer cb r => bool_decide (cb = eta_callback) && success_ r | _ => false end.

Lemma safe_event e : answers_query e = false → safe (handle_event e).
Proof.
  intros He. destruct e as [o|cb ok|cb st|cb r|prev next st|k|line]; cbn; try apply app_safe_ret.
  - repeat case_match; try apply app_safe_ret; apply safe_emit.
  - case_match; [|apply app_safe_ret]. by apply (safe_send (RLocation _ _)).
  - case_match; [|apply app_safe_ret]. unfold on_eta. cbn in He.
    rewrite bool_decide_eq_true_2 in He by done. cbn in He. rewrite He. apply safe_emit.
  - (* the reports and the flag leave the node alone *)
    destruct next; apply app_safe_ret.
Qed.

Lemma drives_event e : drives (handle_event e).
Proof.
  destruct (answers_query e) eqn:He; [|by apply safe_drives, safe_event].
  destruct e as [o|cb ok|cb st|cb r|prev next st|k|line]; try done. cbn.
  case_match; [|apply safe_drives, app_safe_ret]. unfold on_eta.
  case_match; [apply safe_drives, safe_emit|].
  apply drives_bind; [apply (drives_send (REta (total_distance r) (total_eta r) (trip_fare r)))|]. intros _.
  apply safe_drives, (safe_call (CallStartTrip _)).
Qed.

Lemma drives_node a : drives (node_step a).
Proof.
  apply drives_bind; [apply safe_drives, safe_controller|]. intros.
  apply drives_for_each, drives_event.
Qed.

Lemma safe_act a :
  match a with NodeTimer | NodeMessage _ | NodeRun _ => False | _ => True end → safe (App.act a).
Proof.
  destruct a as [|m|env|a| |now st|]; try done; intros _.
  - destruct a as [r|now|ok|now|read| | |]; [apply app_safe_ret|..];
      (apply app_safe_bind; [by apply safe_client|]; intros; apply safe_for_each, safe_effect).
  - apply safe_location.
  - apply app_safe_bind; [apply safe_gets|]. intros h. apply safe_location.
  - apply safe_location.
Qed.

Lemma drives_act a : drives (App.act a).
Proof.
  destruct a as [|m|env|a| |now st|]; try (by apply safe_drives, safe_act); apply drives_node.
Qed.

Lemma drives_after l h :
  node_ok (controller_ h) →
  ∃ l', controller_ (App.after l h) = Controller.after l' (controller_ h).
Proof.
  revert h. induction l as [|a l IH]; intros h Hh; [by exists []|].
  destruct (drives_act a h Hh) as [l1 Hl1].
  destruct (IH (final (App.act a) h)) as [l2 Hl2]; [rewrite Hl1; by apply node_ok_after|].
  exists (l1 ++ l2). change (App.after (a :: l) h) with (App.after l (final (App.act a) h)).
  rewrite Hl2, Hl1. symmetry. apply run_inputs_app.
Qed.

(** ** What the gateway is told *)

(** The events a state change puts on the queue, and the flag it sends to the location bridge. *)
Definition told (next : TripState.t) (vin : string) (trip_id : Z) (at_ : GPSCoordinate) :
    list VehicleEvent :=
  let arrive := ArriveEvent vin trip_id (latitude at_) (longitude at_) in
  match next with
  | TripState.WAITING_FOR_MOVE =>
    [TripInitAck true "accepted"; arrive; StatusEvent vin trip_id "ARRIVED_AT_PICKUP"]
  | TripState.RUNNING => [StatusEvent vin trip_id "IN_PROGRESS"]
  | TripState.COMPLETED => [arrive; StatusEvent vin trip_id "COMPLETED"]
  | TripState.FAILED => [StatusEvent vin trip_id "ERROR"]
  | _ => []
  end.
Definition streams (next : TripState.t) : list bool :=
  match next with
  | TripState.WAITING_FOR_MOVE => [false]
  | TripState.DRIVING_TO_PICKUP => [true]
  | _ => []
  end.

(** The streaming flags sent to the location bridge whose handlers have not run. *)
Definition flags_posted h : list bool :=
  FrameBridge.messages_queued (FrameBridge.strand_ (location_bridge_ h)).

(** The eta provider the client points to has not been destroyed. *)
Definition eta_alive (c : Client) : bool := bool_decide (is_Some (eta_provider_ c)).

(** The application's state up to what the adapters cache of the controller. *)
Definition same_client (c c' : Client) : Prop :=
  vin_ c' = vin_ c ∧ active_trip_id_ (trip_manager_ c') = active_trip_id_ (trip_manager_ c) ∧
  current_request_id_ c' = current_request_id_ c ∧ connection c' = connection c ∧
  eta_alive c' = eta_alive c.

Lemma trip_state_callback_told next st h :
  wp (App.trip_state_callback next st) h (λ o h' out,
    o = Ret () ∧ out = [] ∧ controller_ h' = controller_ h ∧
    same_client (stream_client_ h) (stream_client_ h') ∧
    write_queue_ (stream_client_ h') = write_queue_ (stream_client_ h) ++
      told next (vin_ (stream_client_ h)) (active_trip_id_ (trip_manager_ (stream_client_ h)))
           (current_gps_ st) ∧
    flags_posted h' = flags_posted h ++ streams next).
Proof.
  unfold flags_posted, FrameBridge.messages_queued.
  destruct h as [n [tm [ep|] lp vin hd rid sd q conn] [ls sq po tp wg io]]; destruct next;
    (split; [reflexivity|]); (split; [reflexivity|]); (split; [reflexivity|]);
    (split; [by repeat split|]); split; lazy -[app omap list_omap]; rewrite ?omap_app, ?app_nil_r, <- ?app_assoc; reflexivity.
Qed.

(** ** What can go wrong

    Following the pointer to a destroyed provider is undefined.  No other step is. *)

Definition node_events (out : list AppEffect) : list Event :=
  omap (λ x, match x with NodeEvent e => Some e | _ => None end) out.

Lemma node_events_app out out' : node_events (out ++ out') = node_events out ++ node_events out'.
Proof. apply omap_app. Qed.
Lemma node_events_own (out : list Event) : node_events (NodeEvent <$> out) = out.
Proof. induction out as [|e out IH]; [done|]. cbn. f_equal. exact IH. Qed.
Lemma node_events_other {A} (tag : A → AppEffect) (out : list A) :
  (∀ x e, tag x ≠ NodeEvent e) → node_events (tag <$> out) = [].
Proof.
  intros Htag. induction out as [|x out IH]; [done|]. cbn. specialize (Htag x).
  destruct (tag x) as [e| | |]; [by destruct (Htag e)|exact IH..].
Qed.

(** A computation that emits no event of the node and leaves the client its eta provider. *)
Definition mute {A} (op : AppOp Mp A) : Prop := ∀ h, wp op h (λ _ h' out,
  node_events out = [] ∧ eta_alive (stream_client_ h') = eta_alive (stream_client_ h)).

Lemma mute_ret {A} (a : A) : mute (mret a).
Proof. done. Qed.
Lemma mute_bind {A B} (m : AppOp Mp A) (f : A → AppOp Mp B) :
  mute m → (∀ a, mute (f a)) → mute (m ≫= f).
Proof.
  intros Hm Hf h. apply wp_bind. eapply wp_mono; [apply Hm|]. intros [a|e] h' t [Hn He]; [|done].
  eapply wp_mono; [apply Hf|]. intros o h'' t' [Hn' He']. rewrite node_events_app, Hn, Hn'.
  split; [done|congruence].
Qed.
Lemma mute_for_each {A} (f : A → AppOp Mp unit) l : (∀ a, mute (f a)) → mute (for_each f l).
Proof. intros Hf. induction l as [|a l IH]; [apply mute_ret|]. by apply mute_bind. Qed.

Lemma client_keeps_provider {T E L} `{ITripManager T} `{IEtaProvider E} `{ILocationProvider L}
    (a : StreamAction) (c : StreamClient T E L) :
  eta_provider_ (final (Stream.act a) c) = eta_provider_ c.
Proof.
  destruct a as [r|now|ok|now|read| | |]; cbn [Stream.act].
  1: unfold final; rewrite report_enqueues; by case_match.
  all: match goal with |- eta_provider_ (final ?m ?x) = ?v =>
         change (wp m x (λ _ c' _, eta_provider_ c' = v)) end; by step_cases.
Qed.

Lemma mute_client_with st a : mute (on_client_with st (Stream.act a)).
Proof.
  intros h. pose proof (client_keeps_provider a (refresh st (stream_client_ h))) as Hk.
  unfold wp, result, final, outputs, on_client_with in *.
  destruct (Stream.act a _) as [[[] c'] out]; cbn [fst snd] in Hk |- *;
    (split; [by apply node_events_other|]); unfold eta_alive; cbn; rewrite Hk; cbn;
    by destruct (eta_provider_ (stream_client_ h)).
Qed.
Lemma mute_client a : mute (on_client (Stream.act a)).
Proof. apply mute_bind; [done|]. intros. apply mute_client_with. Qed.
Lemma mute_send r : mute (send (report r)).
Proof. apply mute_bind; [apply (mute_client (DoReport r))|]. done. Qed.
Lemma mute_send_at st r : mute (send_at st (report r)).
Proof. apply mute_bind; [apply (mute_client_with st (DoReport r))|]. done. Qed.
Lemma mute_location op : mute (on_location op).
Proof.
  intros h. unfold wp, result, final, outputs, on_location.
  destruct (op (location_bridge_ h)) as [[o b] out]. cbn.
  split; [by apply node_events_other|done].
Qed.
(** The node's public methods only post. *)
Lemma mute_call (a : Action) :
  match a with RunNext _ => False | _ => True end → mute (call (Controller.act a)).
Proof.
  intros Ha h. apply wp_bind. unfold wp, result, final, outputs, on_controller.
  assert (Hout : (Controller.act a (controller_ h)).2 = []).
  { change (wp (Controller.act a) (controller_ h) (λ _ _ out, out = [])).
    destruct a as [|cb|cb|cb|cb| |cb|s g cb|b|b| |m|env]; try done; cbn [Controller.act];
      unfold initialize, timer_fires, message_arrives, Controller.post; wp_steps; try case_match; done. }
  destruct (Controller.act a (controller_ h)) as [[[] n] out]; cbn in Hout; by subst.
Qed.

Lemma mute_effect e : mute (handle_effect e).
Proof.
  destruct e as [| | | | | |cmd]; try apply mute_ret.
  destruct cmd as [r|v i|v|v|v|v i|]; cbn; try apply mute_ret.
  - by apply (mute_call (CallQueryEta _ _ _)).
  - by apply (mute_call (CallHandleMoveCommand _)).
  - apply mute_bind; [apply (mute_send (ROrderUpdateLocationAck _ _))|].
    intros _. by apply (mute_call (CallGetTripStatus _)).
  - apply mute_bind; [by apply (mute_call CallCancelTrip)|]. intros _.
    apply mute_bind; [apply (mute_send (RTripCancelAck _ _))|]. intros _.
    apply (mute_send (RStatus _)).
Qed.

Lemma mute_reaction e : mute (handle_event e).
Proof.
  destruct e as [o|cb ok|cb st|cb r|prev next st|k|line]; cbn; try apply mute_ret.
  - repeat case_match; try apply mute_ret; done.
  - case_match; [|apply mute_ret]. apply (mute_send (RLocation _ _)).
  - case_match; [|apply mute_ret]. unfold on_eta. case_match; [done|].
    apply mute_bind; [apply (mute_send (REta (total_distance r) (total_eta r) (trip_fare r)))|].
    intros _. by apply (mute_call (CallStartTrip _)).
  - intros h. eapply wp_mono; [apply (trip_state_callback_told next st)|].
    by intros o h' out (_ & -> & _ & (_ & _ & _ & _ & Ha) & _).
Qed.

(** The reaction to an event is undefined if it asks a provider that is gone. *)
Lemma event_result e h :
  result (handle_event e) h =
  if answers_query e && negb (eta_alive (stream_client_ h)) then Throw UndefinedBehaviour
  else Ret ().
Proof.
  destruct h as [n [tm [ep|] lp vin hd rid sd q conn] b];
    destruct e as [o|cb ok|cb st|cb r|prev next st|k|line]; cbn [answers_query andb]; try done.
  all: unfold handle_event.
  1,5: by repeat case_match.
  1,4: by case_match.
  2,4: by destruct next.
  all: unfold on_eta; destruct (decide (cb = eta_callback)) as [Hcb|Hcb];
    [rewrite bool_decide_eq_true_2 by done|by rewrite bool_decide_eq_false_2 by done].
  all: by destruct (success_ r).
Qed.

Lemma events_result l h :
  result (for_each handle_event l) h =
  if existsb answers_query l && negb (eta_alive (stream_client_ h)) then Throw UndefinedBehaviour
  else Ret ().
Proof.
  revert h. induction l as [|e l IH]; intros h; [done|]. cbn [for_each existsb].
  pose proof (event_result e h) as He.
  destruct (answers_query e && negb (eta_alive (stream_client_ h))) eqn:Hb.
  - rewrite (result_bind_throw _ _ _ _ He). apply andb_true_iff in Hb as [-> ->]. done.
  - rewrite (result_bind _ _ _ _ He), IH.
    destruct (mute_reaction e h) as [_ Ha]. rewrite Ha.
    apply andb_false_iff in Hb as [->|Hb]; [done|]. by rewrite Hb, !andb_false_r.
Qed.

(** An action that answers a query successfully. *)
Definition answers (out : list AppEffect) : bool := existsb answers_query (node_events out).

Lemma on_controller_run na h evs :
  result (on_controller (Controller.act na)) h = Ret evs →
  let h' := final (on_controller (Controller.act na)) h in
  outputs (on_controller (Controller.act na)) h = NodeEvent <$> evs ∧
  stream_client_ h' = stream_client_ h ∧ location_bridge_ h' = location_bridge_ h.
Proof.
  unfold result, outputs, final, on_controller.
  destruct (Controller.act na (controller_ h)) as [[[[]|e] n'] out]; cbn; [|done].
  by intros [= <-].
Qed.

Lemma act_outcome a h :
  node_ok (controller_ h) →
  result (App.act a) h =
    (if answers (outputs (App.act a) h) && negb (eta_alive (stream_client_ h))
     then Throw UndefinedBehaviour else Ret ()) ∧
  eta_alive (stream_client_ (final (App.act a) h)) = eta_alive (stream_client_ h).
Proof.
  intros Hh.
  assert (Hquiet : safe (App.act a) → mute (App.act a) →
    result (App.act a) h =
    (if answers (outputs (App.act a) h) && negb (eta_alive (stream_client_ h))
     then Throw UndefinedBehaviour else Ret ()) ∧
    eta_alive (stream_client_ (final (App.act a) h)) = eta_alive (stream_client_ h)).
  { intros Hs Hq. destruct (Hs h Hh) as [[[] Hr] _], (Hq h) as [Hn He].
    split; [|done]. unfold answers. rewrite Hn. exact Hr. }
  assert (Hnode : ∀ na, result (node_step na) h =
    (if answers (outputs (node_step na) h) && negb (eta_alive (stream_client_ h))
     then Throw UndefinedBehaviour else Ret ()) ∧
    eta_alive (stream_client_ (final (node_step na) h)) = eta_alive (stream_client_ h)).
  { intros na. destruct (safe_controller na h Hh) as [[evs Hr] _].
    unfold node_step. rewrite (result_bind _ _ _ _ Hr), (final_bind _ _ _ _ Hr).
    destruct (on_controller_run na h evs Hr) as [Hout [Hc _]].
    set (h1 := final (on_controller _) h) in *.
    destruct (mute_for_each handle_event evs mute_reaction h1) as [Hq He].
    rewrite He, Hc, events_result, Hc. split; [|done].
    rewrite (outputs_bind _ _ _ _ Hr). fold h1. unfold answers.
    by rewrite node_events_app, Hout, node_events_own, Hq, app_nil_r. }
  destruct a as [|m|env|a| |now st|]; try (apply Hnode).
  - apply Hquiet; [by apply safe_act|]. destruct a as [r|t|ok|t|read| | |]; [apply mute_ret|..];
      (apply mute_bind; [apply mute_client|]; intros; apply mute_for_each, mute_effect).
  - apply Hquiet; [by apply safe_act|]. apply mute_location.
  - apply Hquiet; [by apply safe_act|]. apply mute_bind; [done|]. intros. apply mute_location.
  - apply Hquiet; [by apply safe_act|]. apply mute_location.
Qed.

Lemma eta_alive_after l h :
  node_ok (controller_ h) →
  eta_alive (stream_client_ (App.after l h)) = eta_alive (stream_client_ h).
Proof.
  revert h. induction l as [|a l IH]; intros h Hh; [done|].
  change (App.after (a :: l) h) with (App.after l (final (App.act a) h)).
  destruct (act_outcome a h Hh) as [_ <-]. apply IH.
  destruct (drives_act a h Hh) as [l1 ->]. by apply node_ok_after.
Qed.

(** Reacting to a list of events of which one matters. *)
Definition quiet_event (e : Event) : Prop := ∀ h, handle_event e h = (Ret (), h, []).

Lemma for_each_quiet l h : Forall quiet_event l → for_each handle_event l h = (Ret (), h, []).
Proof.
  intros Hl. induction Hl as [|e l He _ IH]; [done|].
  cbn [for_each]. unfold mbind, M_bind. by rewrite He, IH.
Qed.

Lemma for_each_one l1 e l2 h :
  Forall quiet_event l1 → Forall quiet_event l2 → result (handle_event e) h = Ret () →
  for_each handle_event (l1 ++ e :: l2) h =
  (Ret (), final (handle_event e) h, outputs (handle_event e) h).
Proof.
  intros H1l H2l Hr. induction H1l as [|e' l1 He' _ IH]; cbn [app for_each]; unfold mbind, M_bind.
  - rewrite (run_split (handle_event e) h), Hr, for_each_quiet by done. by rewrite app_nil_r.
  - by rewrite He', IH.
Qed.

(** Where the vehicle is, as the node sees it on a tick. *)
Definition position_on_tick (env : Surroundings) n c : GPSCoordinate :=
  match tf env with
  | None => current_gps_ (status_ c)
  | Some loc =>
    let g := rm_localToGps (lanelet_map_ n) loc in
    if gps_out_of_range g then current_gps_ (status_ c) else g
  end.

(** The state an arrival in [s] leads to. *)
Definition arrival_of (s : TripState.t) : option TripState.t :=
  match s with
  | TripState.DRIVING_TO_PICKUP => Some TripState.WAITING_FOR_MOVE
  | TripState.RUNNING => Some TripState.COMPLETED
  | _ => None
  end.

Lemma tick_arrival a b (w : World Mp) next :
  arrival_of (state_ (status_ (ctrl w))) = Some next → route_is RS_ARRIVED (ctrl w) = true →
  on_state_change_ (ctrl w) = true →
  wp (handle (Tick a b)) w (λ _ w' out, ∃ pre st,
    out = pre ++ [StateChange (state_ (status_ (ctrl w))) next st] ∧
    (pre = [] ∨ pre = [PickupArrived] ∨ pre = [DropoffArrived]) ∧
    current_gps_ st = current_gps_ (status_ (ctrl w)) ∧
    state_ (status_ (ctrl w')) = next).
Proof.
  intros Hn Hr Hs. cbn [handle].
  destruct (state_ (status_ (ctrl w))) eqn:Hst; try done; injection Hn as <-;
    unfold tick, tick_driving, tick_running, when, trip_state; wp_ops;
    unfold change_out, trip_state; cbn; rewrite ?Hs;
    match goal with Hc : state_ (status_ (ctrl w)) = _ |- _ => rewrite ?Hc end;
    first [eexists [PickupArrived], _; split; [reflexivity|]
          |eexists [DropoffArrived], _; split; [reflexivity|]
          |eexists [], _; split; [reflexivity|]]; by eauto.
Qed.

(** The events of one state change: the callback's, among the log lines. *)
Lemma react_change n pre prev next st :
  trip_state_callback_ n = true → (pre = [] ∨ pre = [PickupArrived] ∨ pre = [DropoffArrived]) →
  ∃ l1 l2, (pre ++ [StateChange prev next st]) ≫= react n =
             l1 ++ TripStateChanged prev next st :: l2 ∧
           Forall quiet_event l1 ∧ Forall quiet_event l2.
Proof.
  intros Hcb Hpre. rewrite bind_app. cbn [mbind list_bind react]. rewrite Hcb, app_nil_r.
  unfold onTripStateChanged. cbn [app].
  set (l2 := (if decide (next = TripState.FAILED) then _ else _) ++ _).
  exists ((pre ≫= react n) ++ [Log (name prev +:+ " -> " +:+ name next)]), l2.
  split; [by rewrite <- app_assoc|]. split.
  - apply Forall_app. split; [|by repeat constructor].
    destruct Hpre as [->|[->| ->]]; cbn; [constructor|..];
      destruct (arrival_callback_ n); by repeat constructor.
  - subst l2. rewrite !Forall_app. repeat case_decide; by repeat constructor.
Qed.

(** The trip controller once the vehicle's position is stored, before the tick. *)
Lemma tick_inputs env n c :
  let tick := Tick (mode_ready env) (engage_ready env) in
  ∃ w1, run (job_inputs env n JTick) (world n c) = step tick w1 ∧
        run_outputs (job_inputs env n JTick) (world n c) = outputs (handle tick) w1 ∧
        ctrl w1 = c <| status_ ::= λ s, s <| current_gps_ := position_on_tick env n c |> |>.
Proof.
  assert (Hsame : c = c <| status_ ::= λ s, s <| current_gps_ := current_gps_ (status_ c) |> |>)
    by (by destruct c as [? ? ? ? ? ? ? []]).
  unfold job_inputs, position_on_tick. destruct (tf env) as [loc|]; cbn zeta;
    [destruct (gps_out_of_range _)|].
  1,3: exists (world n c); split; [done|]; split; [apply app_nil_r|exact Hsame].
  eexists. split; [reflexivity|]. split; [apply app_nil_r|done].
Qed.

(** An arrival is reported to the gateway.  When the tick finds the route's goal reached while
    driving to the pickup, the queue gains the acknowledgement of the trip, the arrival with the
    active trip id at the vehicle's position, and the status ARRIVED_AT_PICKUP, in that order, and
    location streaming is switched off; at the destination, the arrival and COMPLETED. *)
Theorem arrival_reported h env q c next :
  node_inv (controller_ h) →
  trip_ctrl_ (controller_ h) = Some c → strand_ (controller_ h) = JTick :: q →
  io_thread_ (controller_ h) = true → trip_state_callback_ (controller_ h) = true →
  on_state_change_ c = true → route_is RS_ARRIVED c = true →
  arrival_of (state_ (status_ c)) = Some next →
  let h' := final (App.act (NodeRun env)) h in
  state_ (getTripStatusSync (controller_ h')) = next ∧
  write_queue_ (stream_client_ h') = write_queue_ (stream_client_ h) ++
    told next (vin_ (stream_client_ h)) (active_trip_id_ (trip_manager_ (stream_client_ h)))
         (position_on_tick env (controller_ h) c) ∧
  flags_posted h' = flags_posted h ++ streams next.
Proof.
  intros Hinv Hc Hs Hi Hcb Hsc Hr Hn.
  destruct (run_next_ran env (controller_ h) JTick q Hinv Hs Hi) as [Hok Hcases].
  destruct Hcases as [(Hj & _)|[(_ & Hnone & _)|(c' & _ & Hc' & _ & Hn' & Hout)]];
    [done|congruence|].
  assert (c' = c) as -> by congruence.
  match type of Hn' with _ = put_world _ ?n => set (n0 := n) in * end.
  destruct (tick_inputs env n0 c) as (w1 & Hrun & Houts & Hw1). rewrite Hrun in Hn'.
  rewrite Houts in Hout. cbn [job_answer job_cb] in Hout. rewrite app_nil_r in Hout.
  destruct (tick_arrival (mode_ready env) (engage_ready env) w1 next)
    as (pre & st & Hpre & Hcases & Hgps & Hst); [by rewrite Hw1..|].
  rewrite Hpre in Hout.
  destruct (react_change n0 pre (state_ (status_ (ctrl w1))) next st Hcb Hcases)
    as (l1 & l2 & Hl & Hl1 & Hl2).
  rewrite Hl in Hout.
  assert (Hstep : on_controller (Controller.act (RunNext env)) h =
    (Ret (l1 ++ TripStateChanged (state_ (status_ (ctrl w1))) next st :: l2),
     h <| controller_ := put_world (step (Tick (mode_ready env) (engage_ready env)) w1) n0 |>,
     NodeEvent <$> (l1 ++ TripStateChanged (state_ (status_ (ctrl w1))) next st :: l2))).
  { unfold on_controller, result, final, outputs in *.
    destruct (Controller.act (RunNext env) (controller_ h)) as [[o n'] out].
    cbn in Hok, Hn', Hout. by subst. }
  set (h1 := h <| controller_ := _ |>) in Hstep.
  destruct (trip_state_callback_told next st h1) as (Hr1 & _ & Hctl & _ & Hq & Hp).
  assert (Hfin : final (App.act (NodeRun env)) h = final (App.trip_state_callback next st) h1).
  { unfold App.act, node_step, final at 1, mbind, M_bind. rewrite Hstep.
    by rewrite for_each_one. }
  cbn zeta. rewrite Hfin, Hctl, Hq, Hp, Hgps, Hw1. split; [exact Hst|]. done.
Qed.

(** What the server learns of a request.  A successful query queues one ETA event, with the
    summed duration of both legs and the fare of the trip leg under the current request id, and
    asks the node to start the trip, provided the eta provider the client points to is alive:
    otherwise the answer is undefined behaviour, before anything is queued or asked.  A failed
    query is only logged: nothing is queued for the server and nothing is asked of the node. *)
Theorem eta_reported_and_started h r :
  let h' := final (handle_event (EtaAnswer eta_callback r)) h in
  (if success_ r then
     if negb (eta_alive (stream_client_ h)) then
       result (handle_event (EtaAnswer eta_callback r)) h = Throw UndefinedBehaviour ∧
       strand_ (controller_ h') = strand_ (controller_ h) ∧
       write_queue_ (stream_client_ h') = write_queue_ (stream_client_ h)
     else
     strand_ (controller_ h') = strand_ (controller_ h) ++ [JStartTrip (Some start_callback)] ∧
     write_queue_ (stream_client_ h') = write_queue_ (stream_client_ h) ++
       [EtaEvent (vin_ (stream_client_ h)) (current_request_id_ (stream_client_ h))
          (dadd (leg_eta_seconds_ (pickup_leg_ r)) (leg_eta_seconds_ (trip_leg_ r)))
          (dadd (dadd (d_of_Z 5)
                      (dmul (ddiv (leg_distance_m_ (trip_leg_ r)) (d_of_Z 1000)) (d_of_Z 2)))
                (dmul (ddiv (leg_eta_seconds_ (trip_leg_ r)) (d_of_Z 60)) (dlit 5 10)))
          "COMPLETED"]
   else h' = h ∧ outputs (handle_event (EtaAnswer eta_callback r)) h =
                 [LogError ("[AutowareApp] queryEta failed: " +:+ error_message_ r)]).
Proof.
  destruct h as [n [tm [ep|] lp vin hd rid sd q conn] b]; cbn zeta; unfold handle_event;
    rewrite decide_True by done; unfold on_eta; destruct (success_ r) eqn:Hs; cbn [negb]; by split.
Qed.

Lemma queryEta_refused tf s g k (w : World Mp) :
  state_ (status_ (ctrl w)) ≠ TripState.IDLE →
  ∃ r, TripController.queryEta tf s g (Some k) w = (Ret false, w, [QueryReply k r]) ∧
       success_ r = false.
Proof.
  intros Hst. eexists. unfold TripController.queryEta, get_s, gets, mbind, M_bind.
  rewrite decide_True by done. split; [reflexivity|done].
Qed.

(** The handler of a query during a trip: the refusal is answered, and the answer only logged. *)
Lemma refused_query_run (n0 : Node Mp) c1 lb c env s g :
  trip_ctrl_ n0 = Some c → strand_ n0 = [] → io_thread_ n0 = true →
  state_ (status_ c) ≠ TripState.IDLE →
  final (App.act (NodeRun env))
    (mkAppHandles (n0 <| strand_ := [JQueryEta s g (Some eta_callback)] |>) c1 lb) =
  mkAppHandles n0 c1 lb.
Proof.
  intros Hc Hs Hi Hst. set (job := JQueryEta s g (Some eta_callback)).
  set (h1 := mkAppHandles (n0 <| strand_ := [job] |>) c1 lb).
  destruct (queryEta_refused (tf env) s g eta_callback (world n0 c) Hst) as (r & Href & Hfail).
  assert (Hn0 : n0 <| strand_ := [] |> = n0) by (rewrite <- Hs; by destruct n0).
  assert (Hrun : on_controller (Controller.act (RunNext env)) h1 =
    (Ret [EtaAnswer eta_callback r], mkAppHandles n0 c1 lb, [NodeEvent (EtaAnswer eta_callback r)])).
  { unfold on_controller. change (controller_ h1) with (n0 <| strand_ := [job] |>).
    rewrite (run_next_run env _ job []) by done. cbn [run_job job].
    change (set strand_ _ (set strand_ _ n0)) with (n0 <| strand_ := [] |>). rewrite Hn0.
    unfold queryEtaImpl, gets, mbind, M_bind, on_trip. rewrite !Hc, Href.
    cbn -[put_world]. by rewrite put_self. }
  change (App.act (NodeRun env)) with
    (events ← on_controller (Mp := Mp) (Controller.act (RunNext env)); for_each handle_event events).
  assert (Hr : result (on_controller (Controller.act (RunNext env))) h1 =
               Ret [EtaAnswer eta_callback r]) by (unfold result; by rewrite Hrun).
  rewrite (final_bind _ _ _ _ Hr).
  unfold final at 2. rewrite Hrun. cbn [for_each fst snd].
  unfold handle_event. rewrite decide_True by done. unfold on_eta. by rewrite Hfail.
Qed.

(** C38: a trip request during a trip, on an idle strand, is refused by the node, but its id replaces
    the id of the trip under way: the trip controller is untouched and no event is queued, while the
    active trip id and the request id are those of the refused request. *)
Theorem refused_request_renames_trip h env k c req :
  connection (stream_client_ h) = Some k → reading k = true →
  handlers_ (stream_client_ h) = true → init_vin req = vin_ (stream_client_ h) →
  trip_ctrl_ (controller_ h) = Some c → strand_ (controller_ h) = [] →
  io_thread_ (controller_ h) = true → state_ (status_ c) ≠ TripState.IDLE →
  let h' := App.after [ClientStep (ReaderStep (Some (TripInit req))); NodeRun env] h in
  trip_ctrl_ (controller_ h') = Some c ∧
  write_queue_ (stream_client_ h') = write_queue_ (stream_client_ h) ∧
  GetActiveTripId (trip_manager_ (stream_client_ h')) = init_id req ∧
  current_request_id_ (stream_client_ h') = init_id req.
Proof.
  intros Hk Hrd Hh Hv Hc Hs Hi Hst. cbn zeta.
  set (cmd := TripInit req) in *. set (a := ReaderStep (Some cmd)).
  set (c0 := refresh (getTripStatusSync (controller_ h)) (stream_client_ h)).
  set (c1 := final (Stream.act a) c0).
  destruct (own_command_dispatched c0 k cmd Hk Hrd Hh Hv) as (Hq & Hout & Htm & Hid).
  set (job := JQueryEta (mkGPS (req_start_lat req) (req_start_long req))
                        (mkGPS (req_end_lat req) (req_end_long req)) (Some eta_callback)).
  set (h1 := mkAppHandles ((controller_ h) <| strand_ := [job] |>) c1 (location_bridge_ h)).
  assert (H1s : final (App.act (ClientStep a)) h = h1).
  { destruct (on_client_run a h I) as (Hr & Hf & _).
    change (App.act (ClientStep a)) with
      (effects ← on_client (Mp := Mp) (Stream.act a); for_each handle_effect effects).
    rewrite (final_bind _ _ _ _ Hr), Hf. fold c0. fold a in Hout. rewrite Hout. fold c1.
    transitivity (mkAppHandles
      ((controller_ h) <| strand_ := strand_ (controller_ h) ++ [job] |>) c1 (location_bridge_ h));
      [done|by rewrite Hs]. }
  assert (H2s : final (App.act (NodeRun env)) h1 =
                mkAppHandles (controller_ h) c1 (location_bridge_ h)) by by apply (refused_query_run _ _ _ c).
  change (App.after _ h) with (final (App.act (NodeRun env)) (final (App.act (ClientStep a)) h)).
  rewrite H1s, H2s. split; [exact Hc|]. split; [exact Hq|]. split; [|exact Hid].
  exact (f_equal active_trip_id_ Htm).
Qed.
End Theorems.

(** ** From the map files *)
Section Started.
Context `{Lanelet2Laws} `{YamlCpp} `{Clocks} `{AutowareMsgs}.

Lemma initialize_period (n : Node LaneletMap) :
  result (Controller.act CallInitialize) n = Ret () →
  ∃ p, d_to_int (ddiv (d_of_Z 1000) (tick_hz_ n)) = Ret p.
Proof.
  unfold Controller.act, initialize, result, post, modify, gets, lift, mbind, M_bind. cbn.
  destruct (d_to_int _) as [p|e]; [by exists p|done].
Qed.

(** The node of an application that has started is in order; the return of startAutowareApp
    leaves its client without an eta provider. *)
Lemma body_node_ok exists_ dirs path radius h0 :
  startAutowareApp_body exists_ dirs path radius = Ret h0 →
  node_ok (controller_ h0) ∧ eta_alive (stream_client_ h0) = true.
Proof.
  unfold startAutowareApp_body. rewrite outcome_bind_Ret. intros (n & Hn & Hw).
  destruct (new_node_inv _ _ _ _ _ Hn) as [Hinv Hhz]. set (h1 := AppHandles_new n) in *.
  assert (Hok : node_ok n).
  { split; [done|]. apply initialize_period.
    destruct (result (Controller.act CallInitialize) n) as [[]|e] eqn:Hr; [done|].
    assert (Hthrow : result (wire (Mp := LaneletMap)) h1 = Throw e).
    { unfold wire. apply result_bind_throw. unfold call. apply result_bind_throw.
      unfold result, on_controller in *. change (controller_ h1) with n.
      change initialize with (Controller.act (Mp := LaneletMap) CallInitialize).
      destruct (Controller.act CallInitialize n) as [[o n'] t]. cbn in Hr. by subst o. }
    unfold result in Hthrow. destruct (wire h1) as [[o h1'] t]. cbn in Hthrow. by subst o. }
  assert (Hwire : drives (wire (Mp := LaneletMap)) ∧ mute (wire (Mp := LaneletMap))).
  { split.
    - apply safe_drives. apply app_safe_bind; [apply (safe_call CallInitialize)|intros _].
      apply app_safe_bind; [|intros _; apply (safe_call (CallSetTripStateCallback _))].
      apply app_safe_bind; [by apply (safe_client SetHandlers)|]. intros. apply app_safe_ret.
    - apply mute_bind; [by apply (mute_call CallInitialize)|intros _].
      apply mute_bind; [|intros _; by apply (mute_call (CallSetTripStateCallback _))].
      apply mute_bind; [apply (mute_client SetHandlers)|]. intros. apply mute_ret. }
  destruct Hwire as [Hd Hq]. destruct (Hd h1 Hok) as [l0 Hl0], (Hq h1) as [_ Ha].
  unfold final in Hl0, Ha. destruct (wire h1) as [[[[]|e] h1'] t]; [|done]. injection Hw as <-.
  cbn in Hl0, Ha. rewrite Hl0. split; [by apply node_ok_after|by rewrite Ha].
Qed.

Lemma started_node_ok exists_ dirs path radius h0 :
  startAutowareApp exists_ dirs path radius = Ret h0 →
  node_ok (controller_ h0) ∧ eta_alive (stream_client_ h0) = false.
Proof.
  unfold startAutowareApp. rewrite outcome_bind_Ret. intros (h & Hh & [= <-]).
  split; [|done]. apply (body_node_ok _ _ _ _ _ Hh).
Qed.

Lemma node_ok_not_failed (n : Node LaneletMap) :
  node_ok n → state_ (getTripStatusSync n) ≠ TripState.FAILED.
Proof.
  intros [Hn _]. unfold getTripStatusSync, node_inv in *.
  destruct (trip_ctrl_ n) as [c|]; [|done]. intros Hf.
  destruct Hn as [_ [_ Hst]]. cbn in Hst. by rewrite Hf in Hst.
Qed.

(** With the adapters alive the application never throws.  Before startAutowareApp returns (or if it
    kept the adapters), whatever way the timer, the messages, the node's handlers, the client's
    threads and the location bridge interleave, each action returns, and the trip is never
    FAILED. *)
Theorem agent_never_throws exists_ dirs path radius h0 l a :
  startAutowareApp_body exists_ dirs path radius = Ret h0 →
  let h := App.after l h0 in
  result (App.act a) h = Ret () ∧
  state_ (getTripStatusSync (controller_ h)) ≠ TripState.FAILED.
Proof.
  intros [Hh0 Ha]%body_node_ok. cbn zeta.
  assert (Hh : node_ok (controller_ (App.after l h0))).
  { destruct (drives_after l h0 Hh0) as [l' ->]. by apply node_ok_after. }
  split; [|by apply node_ok_not_failed].
  destruct (act_outcome a _ Hh) as [-> _].
  by rewrite (eta_alive_after l h0 Hh0), Ha, andb_false_r.
Qed.
End Started.
