(* ===== verification/AppReports.v ===== *)
(** * AppReports: what the gateway is told of the node

    The closures of the application turn the node's events into reports, flags and logged lines.
    Here the whole of that translation is stated for every step of the node at once, including the
    step that follows the dangling eta provider. *)

From S2P Require Export AppTheorems.
Import Controller Stream Location App.

Section Reports.
Context {Mp : Type} `{RouteMap Mp} `{Clocks} `{AutowareMsgs} {Laws : RouteMapLaws Mp}.
Implicit Types (h : AppHandles Mp) (c : Client) (e : Event).

(** The events an event of the node puts on the client's queue. *)
Definition reports_of c e : list VehicleEvent :=
  match e with
  | EtaAnswer cb r =>
    if decide (cb = eta_callback) then
      if success_ r
      then [EtaEvent (vin_ c) (current_request_id_ c) (total_eta r) (trip_fare r) "COMPLETED"]
      else []
    else []
  | StatusAnswer cb st =>
    if decide (cb = location_callback)
    then [LocationEvent (vin_ c) (latitude (current_gps_ st)) (longitude (current_gps_ st))]
    else []
  | TripStateChanged _ next st =>
    told next (vin_ c) (active_trip_id_ (trip_manager_ c)) (current_gps_ st)
  | _ => []
  end.

(** The flags it sends to the location bridge. *)
Definition flags_of e : list bool :=
  match e with TripStateChanged _ next _ => streams next | _ => [] end.

(** The lines it logs. *)
Definition errors_of e : list string :=
  match e with
  | EtaAnswer cb r =>
    if decide (cb = eta_callback) then
      if success_ r then [] else ["[AutowareApp] queryEta failed: " +:+ error_message_ r]
    else []
  | Answer cb false =>
    if decide (cb = start_callback) then ["[AutowareApp] startTrip rejected"]
    else if decide (cb = move_callback) then ["[AutowareApp] move rejected"]
    else []
  | _ => []
  end.
Definition logged (out : list AppEffect) : list string :=
  omap (λ x, match x with LogError line => Some line | _ => None end) out.

(** Reacting to events [l] from [h]: what the client and the location bridge gain. *)
Record reacted (l : list Event) h h' (out : list AppEffect) : Prop := {
  reacted_client : same_client (stream_client_ h) (stream_client_ h');
  reacted_queue :
    write_queue_ (stream_client_ h') =
    write_queue_ (stream_client_ h) ++ (l ≫= reports_of (stream_client_ h));
  reacted_flags : flags_posted h' = flags_posted h ++ (l ≫= flags_of);
  reacted_errors : logged out = l ≫= errors_of;
  reacted_quiet : node_events out = []
}.

(** A successful estimate for a client whose eta provider is gone. *)
Definition follows_dangling e (alive : bool) : Prop :=
  match e with
  | EtaAnswer cb r => cb = eta_callback ∧ success_ r = true ∧ alive = false
  | _ => False
  end.
(** What is left of the events when the reaction to them ends with [o]. *)
Definition left_over (rest : list Event) (alive : bool) (o : outcome unit) : Prop :=
  match rest with
  | [] => o = Ret ()
  | e :: _ => o = Throw UndefinedBehaviour ∧ follows_dangling e alive
  end.
Definition reacts (l : list Event) h : outcome unit → AppHandles Mp → list AppEffect → Prop :=
  λ o h' out, ∃ now rest, l = now ++ rest ∧ reacted now h h' out ∧
    left_over rest (eta_alive (stream_client_ h)) o.

Lemma reports_same c c' e : same_client c c' → reports_of c' e = reports_of c e.
Proof. intros (Hv & Ht & Hr & _). unfold reports_of. by rewrite Hv, Ht, Hr. Qed.

Lemma reacts_all l h h' out : reacted l h h' out → reacts l h (Ret ()) h' out.
Proof. intros Hr. exists l, []. by rewrite app_nil_r. Qed.

Lemma handle_event_reacts e h : wp (handle_event e) h (reacts [e] h).
Proof.
  destruct e as [o|cb ok|cb st|cb r|prev next st|k|line].
  all: try by (apply reacts_all; split; cbn; rewrite ?app_nil_r).
  - unfold handle_event. destruct ok; [|destruct (decide (cb = start_callback)) eqn:Ecb;
      [|destruct (decide (cb = move_callback)) eqn:Emv]];
      (apply reacts_all; split; cbn; rewrite ?Ecb, ?Emv, ?app_nil_r; done).
  - unfold handle_event. destruct (decide (cb = location_callback)) as [Hcb|Hcb].
    + destruct h as [n [tm [ep|] lp vin hd rid sd q conn] b]; apply reacts_all; split; cbn;
        rewrite ?decide_True by done; rewrite ?app_nil_r; done.
    + apply reacts_all; split; cbn; rewrite ?decide_False by done; rewrite ?app_nil_r; done.
  - unfold handle_event, on_eta. destruct (decide (cb = eta_callback)) as [Hcb|Hcb].
    + destruct h as [n [tm [ep|] lp vin hd rid sd q conn] b];
        destruct (success_ r) eqn:Hs; cbn [negb].
      3: { exists [], [EtaAnswer cb r]. split; [done|]. split; [|done].
           split; cbn; rewrite ?app_nil_r; done. }
      all: apply reacts_all; split; cbn; rewrite ?decide_True by done; rewrite ?Hs, ?app_nil_r; done.
    + apply reacts_all. split; cbn; rewrite ?decide_False by done; rewrite ?app_nil_r; done.
  - eapply wp_mono; [apply (trip_state_callback_told next st)|].
    intros o h' out (-> & -> & _ & Hc & Hq & Hf). apply reacts_all.
    split; cbn; rewrite ?app_nil_r; done.
Qed.

Lemma logged_app out out' : logged (out ++ out') = logged out ++ logged out'.
Proof. apply omap_app. Qed.

Lemma logged_events (l : list Event) : logged (NodeEvent <$> l) = [].
Proof. by induction l. Qed.
Lemma logged_lines (l : list string) : logged ((λ line, LogError line) <$> l) = l.
Proof. induction l as [|x l IH]; [done|]. cbn. by f_equal. Qed.
Lemma node_events_lines (l : list string) : node_events ((λ line, LogError line) <$> l) = [].
Proof. by induction l. Qed.

Lemma for_each_reacts l h : wp (for_each handle_event l) h (reacts l h).
Proof.
  revert h. induction l as [|e l IH]; intros h.
  { apply reacts_all. by split; cbn; rewrite ?app_nil_r. }
  cbn [for_each]. apply wp_bind. eapply wp_mono; [apply handle_event_reacts|].
  intros o h1 out1 (now1 & rest1 & Hl & Hre1 & Hleft).
  destruct rest1 as [|e1 rest1]; cbn in Hleft.
  - subst o. rewrite app_nil_r in Hl. subst now1. destruct Hre1 as [Hc Hq Hf He Hn].
    eapply wp_mono; [apply IH|]. intros o h2 out2 (now & rest & -> & [Hc2 Hq2 Hf2 He2 Hn2] & Hleft).
    exists (e :: now), rest. split; [done|]. split.
    + split.
      * destruct Hc as (? & ? & ? & ? & ?), Hc2 as (? & ? & ? & ? & ?).
        by repeat split; etransitivity.
      * rewrite Hq2, Hq, <- app_assoc. f_equal. cbn. rewrite app_nil_r. f_equal.
        apply list_bind_ext; [|done]. intros e'. by apply reports_same.
      * rewrite Hf2, Hf, <- app_assoc. cbn. by rewrite app_nil_r.
      * rewrite logged_app, He, He2. cbn. by rewrite app_nil_r.
      * by rewrite node_events_app, Hn, Hn2.
    + destruct Hc as (_ & _ & _ & _ & Ha). by rewrite Ha in Hleft.
  - destruct Hleft as [-> Hd]. destruct now1 as [|x now1]; injection Hl as -> Hl.
    + by exists [], (e1 :: l).
    + exfalso. by destruct now1.
Qed.

(** C12: what the gateway is told of the node, and what it is not.  Take any step of the node (a turn
    of its strand, a message or its timer) and the events it emits.  Up to the first event whose
    reaction is undefined, they are translated one by one, in order: the queue to the gateway gains
    the reports for each change of the trip state, the ETA of a successful estimate under the
    current request id and the location of an answered location request; the location bridge gains
    its flags; failed estimates and refused commands become lines of the log only.  Nothing else is
    reported, and the ids do not change meanwhile.  The reaction is undefined just for a successful
    estimate whose provider is gone: the step ends there, with nothing of that event reported; any
    other step returns with every event translated. *)
Theorem node_events_reported h (a : AppAction) :
  node_ok (controller_ h) →
  match a with NodeTimer | NodeMessage _ | NodeRun _ => True | _ => False end →
  let h' := final (App.act a) h in
  let out := outputs (App.act a) h in
  ∃ now rest, node_events out = now ++ rest ∧
    write_queue_ (stream_client_ h') =
      write_queue_ (stream_client_ h) ++ (now ≫= reports_of (stream_client_ h)) ∧
    flags_posted h' = flags_posted h ++ (now ≫= flags_of) ∧
    logged out = now ≫= errors_of ∧
    same_client (stream_client_ h) (stream_client_ h') ∧
    match rest with
    | [] => result (App.act a) h = Ret ()
    | EtaAnswer cb r :: _ =>
      result (App.act a) h = Throw UndefinedBehaviour ∧
      cb = eta_callback ∧ success_ r = true ∧ eta_provider_ (stream_client_ h) = None
    | _ => False
    end.
Proof.
  intros Hok Ha h' out.
  assert (Hstep : ∀ na, wp (node_step na) h (λ o h' out, ∃ now rest, node_events out = now ++ rest ∧
    reacted now h h' ((λ line, LogError line) <$> logged out) ∧
    left_over rest (eta_alive (stream_client_ h)) o)).
  { intros na. unfold node_step. destruct (safe_controller na h Hok) as [[evs Hr] _].
    destruct (on_controller_run na h evs Hr) as [Hout Hcl].
    apply wp_bind. unfold wp at 1. rewrite Hr, Hout.
    set (h1 := final (on_controller _) h) in *. eapply wp_mono; [apply for_each_reacts|].
    intros o h2 out2 (now & rest & -> & [Hc Hq Hf He Hn] & Hleft). exists now, rest.
    rewrite node_events_app, node_events_own, Hn, app_nil_r, logged_app, logged_events.
    destruct Hcl as [Hcl Hlb]. unfold flags_posted in Hf. rewrite Hcl in *. rewrite Hlb in Hf.
    split; [done|]. split; [|done]. split; try done.
    - by rewrite logged_lines.
    - by rewrite node_events_lines. }
  assert (Hwp : wp (App.act a) h (λ o h' out, ∃ now rest, node_events out = now ++ rest ∧
    reacted now h h' ((λ line, LogError line) <$> logged out) ∧
    left_over rest (eta_alive (stream_client_ h)) o)).
  { destruct a as [|m|env|a| |t st|]; try done; apply Hstep. }
  destruct Hwp as (now & rest & Hev & [Hc Hq Hf He _] & Hleft). exists now, rest.
  rewrite logged_lines in He. do 5 (split; [done|]).
  destruct rest as [|e rest]; [done|]. destruct Hleft as [Hr Hd]. destruct e; try done.
  destruct Hd as (-> & Hs & Halive). split_and!; try done.
  unfold eta_alive in Halive. by destruct (eta_provider_ _).
Qed.
End Reports.
