(* ===== verification/BridgeTheorems.v ===== *)
(** * BridgeTheorems: what every frame bridge guarantees

    Proved once against [BridgeOps] and [BridgeLaws]; the bridges inherit it through their
    instances. *)

From S2P Require Export BridgeFacts.
Import FrameBridge.

(** ** The guarantees *)
Section Guarantees.
Context {St Env Msg Frame Topic : Type} {Ops : BridgeOps St Env Msg Frame} {topic : Msg → Topic}
  `{EqDecision Topic} {Laws : BridgeLaws Ops Topic topic}.
Implicit Types (b : Bridge St Msg) (l : list (BridgeAction Env Msg))
  (t : list (BridgeEvent Env Msg Frame)).

(** The events of a bridge from its construction with state [s0]. *)
Definition history l (s0 : St) : list (BridgeEvent Env Msg Frame) :=
  outputs (act_all l) (Bridge_new s0).
Definition bridge_after l (s0 : St) : Bridge St Msg :=
  final (act_all (Ops := Ops) l) (Bridge_new s0).

Lemma run_from_start l s0 : run_spec l (Bridge_new s0) (bridge_after l s0) (history l s0).
Proof.
  unfold bridge_after, history, final, outputs.
  destruct (act_all_ok l (Bridge_new s0)) as (b' & t & -> & Hspec). done.
Qed.

Lemma replay_view t s s' :
  same_view s s' → same_view (replay t s) (handle_all (messages_handled t) s').
Proof.
  revert s s'. induction t as [|[e m|e f|e] t IH]; intros s s' Hs; cbn [replay]; [done| | |].
  - change (messages_handled (Handled e m :: t)) with ((e, m) :: messages_handled t).
    rewrite handle_all_cons. apply IH. cbn. by rewrite Hs.
  - change (messages_handled (Published e f :: t)) with (messages_handled t).
    apply IH. by rewrite refresh_same_view.
  - change (messages_handled (Silent e :: t)) with (messages_handled t).
    apply IH. by rewrite refresh_same_view.
Qed.

Lemma published_frame l s0 t1 e f t2 :
  history l s0 = t1 ++ Published e f :: t2 →
  bridge_frame e (wrap 64 (Z.of_nat (length (frames_published t1))))
    (bridge_refresh e (handle_all (messages_handled t1) s0)) = Some f.
Proof.
  intros Ht. destruct (run_from_start l s0) as [Hc _ _ _ _ _ _ _ _ _]. rewrite Ht in Hc.
  apply consistent_app in Hc as [_ [Hf _]]. cbn [frame_seq_ body Bridge_new] in Hf.
  rewrite u64_succ_iter in Hf by lia. by rewrite <- (replay_view t1 s0 s0).
Qed.

(** C18: a frame shows the newest message of every topic, and nothing else.  Whatever arrives and
    however arrivals, timer and strand interleave, the k-th frame published (from 0) carries the
    sequence number k modulo 2^64 and is the frame of the state built by the handlers run before
    it; the handlers of messages that a later one of their topic replaced can be left out. *)
Theorem frame_shows_latest_messages l s0 t1 e f t2 :
  history l s0 = t1 ++ Published e f :: t2 →
  bridge_frame e (wrap 64 (Z.of_nat (length (frames_published t1))))
    (bridge_refresh e (handle_all (latest (topic := topic) (messages_handled t1)) s0)) = Some f.
Proof. intros Ht. rewrite <- handle_all_latest. by eapply published_frame. Qed.

(** Frames agree when the newest messages agree.  Two runs of a bridge, with whatever number of
    messages in whatever order and whatever frames in between, publish the same frame up to its
    sequence number once the last message handled of each topic is the same in both. *)
Theorem frame_determined_by_latest l l' s0 t1 t1' e f f' t2 t2' :
  history l s0 = t1 ++ Published e f :: t2 →
  history l' s0 = t1' ++ Published e f' :: t2' →
  (∀ k : Topic, last_message (topic := topic) k (messages_handled t1) =
                last_message (topic := topic) k (messages_handled t1')) →
  ∃ s, bridge_frame e (wrap 64 (Z.of_nat (length (frames_published t1)))) s = Some f ∧
       bridge_frame e (wrap 64 (Z.of_nat (length (frames_published t1')))) s = Some f'.
Proof.
  intros Ht Ht' Hk. eexists. split; [by eapply published_frame|].
  rewrite (handle_all_same_latest _ _ s0 Hk). by eapply published_frame.
Qed.

(** No message is lost or reordered.  The messages whose handlers have run, followed by those
    still on the strand, are the messages that arrived, in order. *)
Theorem messages_handled_in_order l s0 :
  (messages_handled (history l s0)).*2 ++ messages_queued (strand_ (bridge_after l s0)) =
  messages_posted l.
Proof. by destruct (run_from_start l s0) as [_ _ _ Hm _ _ _ _ _ _]. Qed.

(** ** The timer and shutdown *)
Lemma tokens_one l s0 : undisturbed l → tokens (bridge_after l s0) = 1%nat.
Proof.
  intros Hl. destruct (run_from_start l s0) as [_ _ _ _ Ht _ _ _ _ _]. by rewrite Ht.
Qed.
Lemma running_undisturbed l s0 : undisturbed l → io_running (bridge_after l s0) = true.
Proof.
  intros Hl. destruct (run_from_start l s0) as [_ _ _ _ _ _ Hr _ _ _]. by apply Hr.
Qed.

Lemma act_all_app l l' b b' t :
  act_all (Ops := Ops) l b = (Ret (), b', t) →
  act_all (Ops := Ops) (l ++ l') b =
  (let '(o, b'', t') := act_all (Ops := Ops) l' b' in (o, b'', t ++ t')).
Proof.
  revert b t. induction l as [|a l IH]; intros b t; cbn [app act_all].
  - intros [= <- <-]. by destruct (act_all l' b) as [[? ?] ?].
  - unfold mbind, M_bind. destruct (act a b) as [[[[]|] b1] t1]; [|done].
    destruct (act_all l b1) as [[o b2] t2] eqn:Heq. intros [= -> -> <-].
    rewrite (IH _ _ Heq). destruct (act_all l' b') as [[? ?] ?]. by rewrite app_assoc.
Qed.

(** Turns of the io thread empty the strand: a task posts no other. *)
Lemma strand_drained (es : list Env) b b' t :
  act_all (Ops := Ops) (StrandRuns <$> es) b = (Ret (), b', t) →
  (tokens b ≤ 1)%nat → (strand_ b ≠ [] → io_running b = true) →
  (length (strand_ b) ≤ length es)%nat → strand_ b' = [].
Proof.
  revert b t. induction es as [|e es IH]; intros b t Heq Htok Hio Hlen; cbn in Hlen.
  { injection Heq as -> _. destruct (strand_ b'); [done|cbn in Hlen; lia]. }
  destruct (bridge_act_ok (Ops := Ops) (StrandRuns e) b)
    as (b1 & t1 & Hact & [_ _ _ _ Ht _ Hq _] & _ & Hr & _).
  change (act_all (StrandRuns <$> e :: es) b)
    with ((act (StrandRuns e) ;; act_all (StrandRuns <$> es)) b) in Heq.
  unfold mbind, M_bind in Heq. rewrite Hact in Heq.
  destruct (act_all_ok (Ops := Ops) (StrandRuns <$> es) b1) as (b2 & t2 & Hall & _).
  rewrite Hall in Heq. injection Heq as -> _. specialize (Hq Htok). specialize (Ht Htok).
  destruct (strand_ b) as [|tk q] eqn:Hb.
  - assert (Hq1 : strand_ b1 = []) by (rewrite Hq; by destruct (io_running b)).
    apply (IH _ _ Hall); [lia|by rewrite Hq1|rewrite Hq1; cbn; lia].
  - rewrite Hio in Hq, Hr by done. cbn in Hq, Hlen.
    apply (IH _ _ Hall); [lia| |rewrite Hq; lia]. intros Hne.
    destruct (io_running b1); [done|]. by destruct (Hr eq_refl eq_refl).
Qed.

(** The timer is pending whenever the strand of a bridge that was not shut down is empty. *)
Lemma tick_from_rest b e :
  strand_ b = [] → tokens b = 1%nat → io_running b = true →
  outputs (act_all (Ops := Ops) [TimerExpires; StrandRuns e]) b =
  [match bridge_frame e (frame_seq_ b) (bridge_refresh e (body b)) with
   | Some f => Published e f
   | None => Silent e
   end].
Proof.
  destruct b as [s n q [] wg io]; unfold tokens; cbn; intros -> ? ->; [|done].
  unfold outputs. cbn [act_all]. unfold act. run_bridge. by destruct (bridge_frame _ _ _).
Qed.

Lemma undisturbed_runs (es : list Env) : undisturbed (StrandRuns (Msg := Msg) <$> es).
Proof. intros Hin. by apply list_elem_of_fmap in Hin as (? & ? & _). Qed.

Lemma omap_none_runs (es : list Env) :
  omap (λ a : BridgeAction Env Msg, match a with MessagePosted m => Some m | _ => None end)
    (StrandRuns <$> es) = [].
Proof. by induction es. Qed.

(** A bridge keeps publishing.  Wherever a bridge that was not shut down stands, once the io
    thread has worked off the strand, the timer expires and the thread takes one more turn, a frame
    has been published last, if the bridge always has one. *)
Theorem bridge_keeps_publishing l s0 (es : list Env) (e : Env) :
  (∀ n s, is_Some (bridge_frame e n s)) → undisturbed l → length es = length (strand_ (bridge_after l s0)) →
  ∃ f, last (outputs (act_all (Ops := Ops) ((StrandRuns <$> es) ++ [TimerExpires; StrandRuns e]))
                     (bridge_after l s0)) = Some (Published e f).
Proof.
  intros Hsome Hl Hlen. pose proof (tokens_one l s0 Hl) as Htok.
  pose proof (running_undisturbed l s0 Hl) as Hio.
  set (b := bridge_after l s0) in *.
  destruct (act_all_ok (Ops := Ops) (StrandRuns <$> es) b) as (b' & t & Heq & Hspec).
  pose proof (undisturbed_runs es) as Hu.
  destruct Hspec as [_ _ _ _ Ht _ Hr _ _ _].
  assert (Hq : strand_ b' = []) by (eapply strand_drained; [done|lia|done|lia]).
  unfold outputs at 1. rewrite (act_all_app _ _ _ _ _ Heq), run_split. cbn [snd].
  rewrite tick_from_rest; [|done|rewrite Ht by (done || lia); done|by apply Hr].
  destruct (Hsome (frame_seq_ b') (bridge_refresh e (body b'))) as [f ->].
  exists f. by rewrite last_snoc.
Qed.

(** C19: every arrival reaches the next frame.  Let messages arrive, the timer expire and the io
    thread run in any way; let the thread then work off its strand, the timer expire and the thread
    take one more turn.  By then the handlers of exactly the messages that arrived have run, in the
    order of arrival, and the last thing to happen is a tick with the next sequence number modulo
    2^64 that shows the newest arrival of every topic (a frame, unless the bridge has none to
    show). *)
Theorem next_frame_shows_all_arrivals l s0 (es : list Env) (e : Env) :
  undisturbed l → length es = length (strand_ (bridge_after l s0)) →
  let t := history (l ++ (StrandRuns <$> es)) s0 in
  (messages_handled t).*2 = messages_posted l ∧
  last (history (l ++ (StrandRuns <$> es) ++ [TimerExpires; StrandRuns e]) s0) =
  Some match bridge_frame e (wrap 64 (Z.of_nat (length (frames_published t))))
               (bridge_refresh e (handle_all (latest (topic := topic) (messages_handled t)) s0)) with
       | Some f => Published e f
       | None => Silent e
       end.
Proof.
  intros Hl Hlen t. set (l1 := l ++ (StrandRuns <$> es)) in *.
  assert (Hu : undisturbed l1).
  { unfold undisturbed, l1. rewrite elem_of_app. intros [?|?]; [done|by eapply undisturbed_runs]. }
  pose proof (run_from_start l1 s0) as Hrun. destruct Hrun as [_ Hb Hn Hm _ _ _ _ _ _].
  fold t in Hb, Hn, Hm.
  assert (Hsplit : act_all (Ops := Ops) l1 (Bridge_new s0) = (Ret (), bridge_after l1 s0, t)).
  { destruct (act_all_ok (Ops := Ops) l1 (Bridge_new s0)) as (b' & t' & Heq & _).
    unfold t, history, bridge_after, final, outputs. by rewrite Heq. }
  assert (Hq : strand_ (bridge_after l1 s0) = []).
  { destruct (act_all_ok (Ops := Ops) l (Bridge_new s0)) as (b & t1 & Heq & _).
    assert (Hbl : bridge_after l s0 = b) by (unfold bridge_after, final; by rewrite Heq).
    pose proof Hsplit as Hruns'. unfold l1 in Hruns' at 1.
    rewrite (act_all_app _ _ _ _ _ Heq) in Hruns'. rewrite Hbl in Hlen.
    destruct (act_all (StrandRuns <$> es) b) as [[o b'] t'] eqn:Hruns. injection Hruns' as -> <- _.
    pose proof (tokens_one l s0 Hl). pose proof (running_undisturbed l s0 Hl). rewrite Hbl in *.
    eapply strand_drained; [exact Hruns|lia|done|lia]. }
  rewrite Hq, app_nil_r in Hm. split.
  { rewrite Hm. cbn. unfold messages_posted, l1. rewrite omap_app.
    rewrite (omap_none_runs es). by rewrite app_nil_r. }
  rewrite app_assoc. fold l1. unfold history at 1, outputs.
  rewrite (act_all_app _ _ _ _ _ Hsplit), run_split. cbn [snd].
  rewrite tick_from_rest by (done || by apply tokens_one || by apply running_undisturbed).
  rewrite last_snoc, Hn, u64_succ_iter, <- handle_all_latest, Hb by done.
  cbn [Bridge_new body frame_seq_]. by rewrite (replay_view t s0 s0).
Qed.

Lemma shutdown_waiting b :
  timer_pending b = true →
  act (Ops := Ops) ShutdownCalled b =
  (Ret (), b <| strand_ := strand_ b ++ [TimerExpired true] |> <| timer_pending := false |>
             <| work_guard_ := false |>, []).
Proof. destruct b as [s n q tp wg io]. cbn. intros ->. unfold act. run_bridge. by destruct q. Qed.

Lemma act_all_cons a l b b1 t1 :
  act (Ops := Ops) a b = (Ret (), b1, t1) →
  final (act_all (Ops := Ops) (a :: l)) b = final (act_all (Ops := Ops) l) b1 ∧
  outputs (act_all (Ops := Ops) (a :: l)) b = t1 ++ outputs (act_all (Ops := Ops) l) b1.
Proof.
  intros Heq. unfold final, outputs. cbn [act_all]. unfold mbind, M_bind. rewrite Heq.
  by destruct (act_all l b1) as [[? ?] ?].
Qed.

(** A pending wait is cancelled: nothing is published any more, and the thread ends. *)
Lemma shutdown_in_time l s0 (b := bridge_after l s0) :
  undisturbed l → timer_pending b = true →
  (∀ l', undisturbed l' →
         frames_published (outputs (act_all (Ops := Ops) (ShutdownCalled :: l')) b) = []) ∧
  (∀ es, (length (strand_ b) < length es)%nat →
         io_running (final (act_all (Ops := Ops) (ShutdownCalled :: (StrandRuns <$> es))) b)
         = false).
Proof.
  intros Hl Htp. pose proof (tokens_one l s0 Hl) as Htok.
  pose proof (running_undisturbed l s0 Hl) as Hio. fold b in Htok, Hio.
  unfold tokens in Htok. rewrite Htp in Htok.
  pose proof (shutdown_waiting b Htp) as Hact. set (b1 := set _ _ _) in Hact.
  assert (Htok1 : tokens b1 = 0%nat).
  { unfold b1, tokens, ticks_queued in *. cbn. rewrite omap_app, length_app. cbn. lia. }
  split.
  - intros l' Hl'. rewrite (proj2 (act_all_cons _ l' _ _ _ Hact)). cbn.
    destruct (act_all_ok (Ops := Ops) l' b1) as (b2 & t & Heq & [_ _ _ _ _ _ _ Hs _ _]).
    unfold outputs. rewrite Heq. by apply Hs.
  - intros es Hlen. rewrite (proj1 (act_all_cons _ _ _ _ _ Hact)).
    destruct (act_all_ok (Ops := Ops) (StrandRuns <$> es) b1) as (b2 & t & Heq & Hspec).
    unfold final. rewrite Heq. cbn [fst snd].
    destruct Hspec as [_ _ _ _ Ht _ _ _ Hg He]. pose proof (undisturbed_runs es) as Hu.
    assert (Hq : strand_ b2 = []).
    { eapply strand_drained; [done|lia|done|]. unfold b1. cbn. rewrite length_app. cbn. lia. }
    specialize (Ht Hu). rewrite Htok1 in Ht. unfold tokens in Ht.
    apply He; [destruct es; [cbn in Hlen; lia|done]|done| |by rewrite Hg].
    destruct (timer_pending b2); [lia|done].
Qed.

(** A wait that has expired is not: the thread never ends. *)
Lemma shutdown_too_late l s0 l' (b := bridge_after l s0) :
  undisturbed l → timer_pending b = false → undisturbed l' →
  io_running (final (act_all (Ops := Ops) (ShutdownCalled :: l')) b) = true.
Proof.
  intros Hl Htp Hl'. pose proof (tokens_one l s0 Hl) as Htok.
  pose proof (running_undisturbed l s0 Hl) as Hio. fold b in Htok, Hio.
  unfold tokens in Htok. rewrite Htp in Htok.
  destruct (bridge_act_ok (Ops := Ops) ShutdownCalled b) as (b1 & t1 & Heq & Hspec & _ & Hrun & _).
  destruct Hspec as [_ _ _ _ Ht _ _ _].
  rewrite (proj1 (act_all_cons _ _ _ _ _ Heq)).
  destruct (act_all_ok (Ops := Ops) l' b1) as (b2 & t & Heq2 & [_ _ _ _ _ _ Hr _ _ _]).
  unfold final. rewrite Heq2. cbn [fst snd]. apply Hr; [done|lia|].
  destruct (io_running b1); [done|]. destruct (Hrun Hio eq_refl) as (_ & ? & _). lia.
Qed.

(** C17: shutdown returns exactly when it finds the timer waiting.  If the wait is pending it is
    cancelled: whatever runs afterwards publishes no frame, and the io thread ends as soon as it
    has worked off the strand, so that the join returns.  If the wait has just expired and its
    handler is still on the strand, there is nothing to cancel: the handler starts the timer again
    and the io thread never ends. *)
Theorem shutdown_joins_iff_timer_waits l s0 :
  undisturbed l →
  let b := bridge_after l s0 in
  (timer_pending b = true →
   (∀ l', undisturbed l' →
          frames_published (outputs (act_all (Ops := Ops) (ShutdownCalled :: l')) b) = []) ∧
   (∀ es, (length (strand_ b) < length es)%nat →
          io_running (final (act_all (Ops := Ops) (ShutdownCalled :: (StrandRuns <$> es))) b)
          = false)) ∧
  (timer_pending b = false →
   ∀ l', undisturbed l' →
         io_running (final (act_all (Ops := Ops) (ShutdownCalled :: l')) b) = true).
Proof.
  intros Hl b. split; [by apply shutdown_in_time|]. intros Htp l'. by apply shutdown_too_late.
Qed.
End Guarantees.
