(* ===== verification/ClusterFrames.v ===== *)
(** * ClusterFrames: what the frames of the cluster bridge show *)

From S2P Require Export BridgeTheorems ClusterBridge.
Import FrameBridge.
#[export] Existing Instances Cluster.ClusterBridge_ops Cluster.ClusterBridge_laws.

Section ClusterFrames.
Context `{AutowareMsgs}.
Implicit Types (objs : list PredictedObject) (groups : list TrafficLightGroup)
  (s : Cluster.FrameState).

(** The objects that carry a classification, with the first label. *)
Definition classified objs : list (PredictedObject * Z) :=
  omap (λ o, match classification o with c :: _ => Some (o, label c) | [] => None end) objs.
Definition is_pedestrian (ol : PredictedObject * Z) : Prop := ol.2 = OC_PEDESTRIAN.
Definition is_vehicle (ol : PredictedObject * Z) : Prop := Cluster.is_vehicle ol.2 = true.
(** Not known to be less likely than one half. *)
Definition likely (ol : PredictedObject * Z) : Prop :=
  fltb (existence_probability ol.1) (flit 1 2) = false.
#[local] Instance is_pedestrian_dec ol : Decision (is_pedestrian ol) := Z.eq_dec _ _.
#[local] Instance is_vehicle_dec ol : Decision (is_vehicle ol) := decide (_ = true).
#[local] Instance likely_dec ol : Decision (likely ol) := decide (_ = false).

Definition to_surround (ol : PredictedObject * Z) : vehicle_frame.SurroundObject :=
  let p := position (initial_pose ol.1) in
  vehicle_frame.mkSurroundObject (d_to_f (pt_x p)) (d_to_f (pt_y p))
    (d_to_f (initial_twist_x ol.1)) (d_to_f (initial_twist_y ol.1))
    (Cluster.surround_type ol.2).

Lemma u32_succ_wrap n : u32_succ (wrap 32 n) = wrap 32 (n + 1).
Proof. unfold u32_succ, wrap. by rewrite Zplus_mod_idemp_l. Qed.

Lemma pedestrian_no_vehicle : Cluster.is_vehicle OC_PEDESTRIAN = false.
Proof.
  pose proof OC_distinct as Hd. unfold Cluster.is_vehicle. apply bool_decide_eq_false.
  rewrite !NoDup_cons, !not_elem_of_cons in Hd. intuition congruence.
Qed.

Lemma filter_pedestrian ol l :
  filter is_pedestrian (ol :: l) =
  if decide (ol.2 = OC_PEDESTRIAN) then ol :: filter is_pedestrian l else filter is_pedestrian l.
Proof. rewrite filter_cons. unfold is_pedestrian at 1. by repeat case_decide. Qed.
Lemma filter_vehicle ol l :
  filter is_vehicle (ol :: l) =
  if Cluster.is_vehicle ol.2 then ol :: filter is_vehicle l else filter is_vehicle l.
Proof.
  rewrite filter_cons. unfold is_vehicle at 1.
  case_decide as Hv; [by rewrite Hv | by apply not_true_is_false in Hv as ->].
Qed.
Lemma filter_likely ol l :
  filter likely (ol :: l) =
  if fltb (existence_probability ol.1) (flit 1 2) then filter likely l else ol :: filter likely l.
Proof.
  rewrite filter_cons. unfold likely at 1.
  case_decide as Hv; [by rewrite Hv | by apply not_false_is_true in Hv as ->].
Qed.

Lemma count_objects_spec objs (o p v : Z) :
  Cluster.count_objects objs (wrap 32 o, wrap 32 p, wrap 32 v) =
  (wrap 32 (o + Z.of_nat (length (classified objs))),
   wrap 32 (p + Z.of_nat (length (filter is_pedestrian (classified objs)))),
   wrap 32 (v + Z.of_nat (length (filter is_vehicle (classified objs))))).
Proof.
  revert o p v. induction objs as [|obj objs IH]; intros o p v.
  { cbn. by rewrite !Z.add_0_r. }
  cbn [Cluster.count_objects]. unfold classified. cbn [omap list_omap].
  fold (classified objs). destruct (classification obj) as [|c cs]; [apply IH|].
  rewrite filter_vehicle, filter_pedestrian, !u32_succ_wrap. cbn [snd].
  destruct (Cluster.is_vehicle (label c)) eqn:Hv;
    (destruct (decide (label c = OC_PEDESTRIAN)) as [Hp|Hp];
     [try (by rewrite Hp, pedestrian_no_vehicle in Hv)|]);
    (rewrite IH; cbn [length]; rewrite ?Nat2Z.inj_succ; unfold Z.succ;
     rewrite <- ?Z.add_assoc, ?(Z.add_comm 1); done).
Qed.

Lemma surrounds_spec objs acc :
  Cluster.surrounds objs acc = acc ++ (to_surround <$> filter likely (classified objs)).
Proof.
  revert acc. induction objs as [|obj objs IH]; intros acc; [by rewrite app_nil_r|].
  cbn [Cluster.surrounds]. unfold classified. cbn [omap list_omap]. fold (classified objs).
  destruct (classification obj) as [|c cs]; [apply IH|]. rewrite filter_likely. cbn [fst].
  destruct (fltb _ _); rewrite IH; [done|]. cbn. by rewrite <- app_assoc.
Qed.

(** C21: the cluster frame after an objects message.  Only classified objects count, by their first
    label: the counts are those of the message modulo 2^32, the objects shown are the likely ones
    in the order of the message, labelled PEDESTRIAN, VEHICLE or UNKNOWN.  The number of all
    obstacles is kept in the state but the frame says 0. *)
Theorem cluster_frame_counts_objects objs s now seq :
  let s' := Cluster.handler (Cluster.Objects objs) s in
  let f := Cluster.buildFrame now seq s' in
  let adas := vehicle_frame.vf_adas f in
  vehicle_frame.as_pedestrian_count adas =
    wrap 32 (Z.of_nat (length (filter is_pedestrian (classified objs)))) ∧
  vehicle_frame.as_vehicle_count adas =
    wrap 32 (Z.of_nat (length (filter is_vehicle (classified objs)))) ∧
  vehicle_frame.vf_surround_objects f = to_surround <$> filter likely (classified objs) ∧
  Cluster.obstacle_count s' = wrap 32 (Z.of_nat (length (classified objs))) ∧
  vehicle_frame.as_obstacle_count adas = 0.
Proof.
  pose proof (count_objects_spec objs 0 0 0) as Hc.
  cbn [Cluster.handler]. unfold Cluster.onObjectsImpl, Cluster.onSurroundObjectsImpl.
  change (0, 0, 0) with (wrap 32 0, wrap 32 0, wrap 32 0). rewrite Hc, (surrounds_spec objs []).
  done.
Qed.

(** ** Traffic lights of the cluster *)
Definition has_color (c : Z) (e : TrafficLightElement) : bool := bool_decide (color e = c).
Definition all_elements groups : list TrafficLightElement := groups ≫= tl_elements.

Lemma scan_elements_spec l r g y :
  Cluster.scan_elements l (r, g, y) =
  (r || existsb (has_color TLE_RED) l, g || existsb (has_color TLE_GREEN) l,
   y || existsb (has_color TLE_AMBER) l).
Proof.
  revert r g y. induction l as [|e l IH]; intros r g y; cbn; [by rewrite !orb_false_r|].
  rewrite IH, !orb_assoc. unfold has_color.
  by repeat case_bool_decide; repeat case_decide; rewrite ?orb_true_r, ?orb_false_r.
Qed.
Lemma scan_groups_spec groups r g y :
  Cluster.scan_groups groups (r, g, y) =
  (r || existsb (has_color TLE_RED) (all_elements groups),
   g || existsb (has_color TLE_GREEN) (all_elements groups),
   y || existsb (has_color TLE_AMBER) (all_elements groups)).
Proof.
  revert r g y. induction groups as [|gr groups IH]; intros r g y; cbn;
    [by rewrite !orb_false_r|].
  rewrite scan_elements_spec, IH, !existsb_app. by rewrite !orb_assoc.
Qed.

Lemma shows_color c groups :
  existsb (has_color c) (all_elements groups) = true ↔
  ∃ g e, g ∈ groups ∧ e ∈ tl_elements g ∧ color e = c.
Proof.
  rewrite existsb_exists. unfold all_elements, has_color. split.
  - intros (e & He & Hc%bool_decide_eq_true). apply list_elem_of_In in He.
    apply list_elem_of_bind in He as (g & ? & ?). eauto.
  - intros (g & e & Hg & He & Hc). exists e. split; [|by apply bool_decide_eq_true].
    apply list_elem_of_In, list_elem_of_bind. eauto.
Qed.

(** The lights of the cluster frame after a traffic light message.  A colour is lit exactly
    when some element of some group of the message has it, whatever was lit before. *)
Theorem cluster_frame_shows_lights groups s now seq :
  let adas := vehicle_frame.vf_adas
                (Cluster.buildFrame now seq (Cluster.handler (Cluster.TrafficSignals groups) s)) in
  let shown c := ∃ g e, g ∈ groups ∧ e ∈ tl_elements g ∧ color e = c in
  (vehicle_frame.as_traffic_light_red adas = true ↔ shown TLE_RED) ∧
  (vehicle_frame.as_traffic_light_green adas = true ↔ shown TLE_GREEN) ∧
  (vehicle_frame.as_traffic_light_yellow adas = true ↔ shown TLE_AMBER).
Proof.
  cbn [Cluster.handler]. unfold Cluster.onTrafficSignalsImpl. rewrite scan_groups_spec.
  cbn. auto using shows_color.
Qed.
End ClusterFrames.
