(* ===== verification/FrameTheorems.v ===== *)
(** * FrameTheorems: what the trip, perception and planning frames show *)

From S2P Require Export ClusterFrames PlanningBridge TripBridge PerceptionBridge.
Import FrameBridge.
#[export] Existing Instances
  Planning.PlanningBridge_ops Planning.PlanningBridge_laws
  TripFrames.TripBridge_ops TripFrames.TripBridge_laws
  Perception.PerceptionBridge_ops Perception.PerceptionBridge_laws.

(** ** Trip *)
Section TripFramesShown.
Context `{AutowareMsgs}.
Implicit Types (hist : list (TripFrames.Surroundings * TripFrames.Msg)).

(** When the last heartbeat was handled. *)
Definition last_heartbeat hist (constructed_at : Z) : Z :=
  match last_message (topic := TripFrames.topic) 3%nat hist with
  | Some (e, _) => TripFrames.now e
  | None => constructed_at
  end.

Lemma last_message_snoc k hist em :
  last_message (topic := TripFrames.topic) k (hist ++ [em]) =
  if decide (TripFrames.topic em.2 = k) then Some em
  else last_message (topic := TripFrames.topic) k hist.
Proof.
  unfold last_message. rewrite filter_app. cbn. unfold filter at 2. cbn.
  case_decide; [by rewrite last_snoc | by rewrite app_nil_r].
Qed.

Lemma heartbeat_recorded hist t0 :
  TripFrames.last_heartbeat_time_ (handle_all hist (TripFrames.TripBody_new t0)) =
  last_heartbeat hist t0.
Proof.
  unfold last_heartbeat. induction hist as [|[e m] hist IH] using rev_ind; [done|].
  rewrite handle_all_app, last_message_snoc. cbn.
  by destruct m.
Qed.

(** C23: the trip frame shows the trip controller.  Every frame published carries the state (through
    toTripState), the lanes, the positions and the distance of the controller's status at that
    tick; the goal's latitude and longitude are never filled in; and it reports the system alive
    exactly when less than a second has passed since the last heartbeat handled, counting from the
    construction while none was. *)
Theorem trip_frame_shows_status l t0 t1 e f t2 :
  history l (TripFrames.TripBody_new t0) = t1 ++ Published e f :: t2 →
  let st := TripFrames.status e in
  vehicle_frame.tf_trip_state f = TripFrames.toTripState (state_ st) ∧
  vehicle_frame.tf_start_lanelet_id f = start_lanelet_id_ st ∧
  vehicle_frame.tf_goal_lanelet_id f = goal_lanelet_id_ st ∧
  (vehicle_frame.tf_start_x f, vehicle_frame.tf_start_y f, vehicle_frame.tf_start_z f) =
    (start_x_ st, start_y_ st, start_z_ st) ∧
  (vehicle_frame.tf_goal_x f, vehicle_frame.tf_goal_y f, vehicle_frame.tf_goal_z f) =
    (goal_x_ st, goal_y_ st, goal_z_ st) ∧
  vehicle_frame.tf_goal_distance_m f = goal_distance_m_ st ∧
  (vehicle_frame.tf_goal_lat f, vehicle_frame.tf_goal_lon f) = (d0, d0) ∧
  vehicle_frame.tf_system_alive f =
    dltb (TripFrames.seconds (TripFrames.now e - last_heartbeat (messages_handled t1) t0)) d1.
Proof.
  intros Hf%published_frame. injection Hf as <-. cbn. rewrite heartbeat_recorded. done.
Qed.
End TripFramesShown.

(** ** Perception *)
Section PerceptionFramesShown.
Context `{AutowareMsgs} `{Pcl}.
Implicit Types (s : Perception.PerceptionFrameState).

Lemma push_objects_spec objs acc :
  Perception.push_objects objs acc =
  acc ++ imap (λ i ol, Perception.to_object (wrap 32 (Z.of_nat (length acc + i))) ol.2 ol.1)
              (filter likely (classified objs)).
Proof.
  revert acc. induction objs as [|obj objs IH]; intros acc; [by rewrite app_nil_r|].
  cbn [Perception.push_objects]. unfold classified. cbn [omap list_omap].
  fold (classified objs). destruct (classification obj) as [|c cs]; [apply IH|].
  rewrite filter_likely. cbn [fst]. destruct (fltb _ _); [apply IH|].
  rewrite IH, imap_cons, <- app_assoc. cbn [app]. f_equal. rewrite Nat.add_0_r. f_equal.
  apply imap_ext. intros i ol _. rewrite length_app. cbn.
  by replace (length acc + S i)%nat with (length acc + 1 + i)%nat by lia.
Qed.

(** C25: the objects of the perception frame.  They are the classified objects of the last message
    that are not known to be less likely than one half, in order, each converted by itself and
    numbered from 0 (modulo 2^32). *)
Theorem perception_frame_shows_objects objs s now seq :
  vehicle_frame.pe_surrounding_objects
    (Perception.buildFrame now seq (Perception.handler (Perception.Objects objs) s)) =
  imap (λ i ol, Perception.to_object (wrap 32 (Z.of_nat i)) ol.2 ol.1)
       (filter likely (classified objs)).
Proof. apply (push_objects_spec objs []). Qed.

(** ** Traffic lights *)
Lemma max_element_in es e : Perception.max_element es e ∈ e :: es.
Proof.
  revert e. induction es as [|x es IH]; intros e; cbn; [constructor|].
  specialize (IH (if fltb (confidence e) (confidence x) then x else e)).
  apply elem_of_cons in IH as [->|?]; [case_match|]; set_solver.
Qed.
Lemma max_element_max es e :
  (∀ x, x ∈ e :: es → is_nan (confidence x) = false) →
  ∀ x, x ∈ e :: es → dleb (confidence x) (confidence (Perception.max_element es e)) = true.
Proof.
  revert e. induction es as [|y es IH]; intros e Hn x Hx; cbn.
  { apply list_elem_of_singleton in Hx as ->. apply dleb_refl, Hn. constructor. }
  set (b := if fltb (confidence e) (confidence y) then y else e).
  assert (Hb : dleb (confidence e) (confidence b) = true ∧ dleb (confidence y) (confidence b) = true).
  { assert (He : is_nan (confidence e) = false) by (apply Hn; set_solver).
    assert (Hy : is_nan (confidence y) = false) by (apply Hn; set_solver).
    unfold b. change fltb with dltb. destruct (dltb _ _) eqn:Hlt.
    - split; [by apply dltb_leb|by apply dleb_refl].
    - split; [by apply dleb_refl|by apply dltb_false_leb]. }
  assert (Hbn : ∀ x', x' ∈ b :: es → is_nan (confidence x') = false).
  { intros x' [->|?]%elem_of_cons; [unfold b; case_match|]; apply Hn; set_solver. }
  pose proof (IH b Hbn) as Hmax. apply elem_of_cons in Hx as [->|[->|Hx]%elem_of_cons].
  - eapply dleb_trans; [apply Hb|]. apply Hmax. constructor.
  - eapply dleb_trans; [apply Hb|]. apply Hmax. constructor.
  - apply Hmax. by constructor.
Qed.

Definition nonempty (g : TrafficLightGroup) : Prop := tl_elements g ≠ [].
#[local] Instance nonempty_dec g : Decision (nonempty g).
Proof. unfold nonempty. destruct (tl_elements g); [right; by intros Hn|by left]. Defined.

Lemma push_lights_spec groups acc :
  Perception.push_lights groups acc =
  acc ++ (omap (λ g, match tl_elements g with
                     | [] => None
                     | e :: es =>
                       let x := Perception.max_element es e in
                       Some (vehicle_frame.mkTrafficLight (traffic_light_group_id g) (confidence x)
                               (Perception.toTrafficLightColor (color x)))
                     end) groups).
Proof.
  revert acc. induction groups as [|g groups IH]; intros acc; [by rewrite app_nil_r|].
  cbn. destruct (tl_elements g) as [|e es]; [apply IH|]. by rewrite IH, <- app_assoc.
Qed.

(** C22: the traffic lights of the perception frame.  When no confidence is NaN, each group with an
    element is shown once, in order and under its id, by the colour and confidence of one of its
    elements of the highest confidence. *)
Theorem perception_frame_shows_strongest_lights groups s now seq :
  (∀ g e, g ∈ groups → e ∈ tl_elements g → is_nan (confidence e) = false) →
  Forall2 (λ g tl,
    vehicle_frame.tl_traffic_id tl = traffic_light_group_id g ∧
    ∃ x, x ∈ tl_elements g ∧ vehicle_frame.tl_confidence tl = confidence x ∧
         vehicle_frame.tl_color tl = Perception.toTrafficLightColor (color x) ∧
         ∀ y, y ∈ tl_elements g → dleb (confidence y) (confidence x) = true)
    (filter nonempty groups)
    (vehicle_frame.pe_traffic_lights
       (Perception.buildFrame now seq (Perception.handler (Perception.TrafficSignals groups) s))).
Proof.
  intros Hn. cbn. rewrite push_lights_spec. cbn [app].
  induction groups as [|g groups IH]; [constructor|].
  assert (IH' := IH (λ g' e Hg, Hn g' e (list_elem_of_further _ _ _ Hg))). clear IH.
  rewrite filter_cons. cbn. destruct (tl_elements g) as [|e es] eqn:Hg.
  - by rewrite decide_False by (unfold nonempty; rewrite Hg; by intros []).
  - rewrite decide_True by (unfold nonempty; congruence). constructor; [|done].
    split; [done|]. exists (Perception.max_element es e). rewrite Hg.
    split; [apply max_element_in|]. split; [done|]. split; [done|].
    apply max_element_max. intros x Hx. apply (Hn g); [constructor|by rewrite Hg].
Qed.

(** ** Points and cells *)
Definition finite_point (p : PointXYZ) : bool :=
  is_finite p.1.1 && is_finite p.1.2 && is_finite p.2.
Definition to_point (p : PointXYZ) : vehicle_frame.PointCloud :=
  vehicle_frame.mkPointCloud
    (vehicle_frame.mkPose (f_to_d p.1.1) (f_to_d p.1.2) (f_to_d p.2)).

Lemma push_points_spec (l : list PointXYZ) acc :
  Perception.push_points l acc =
  acc ++ (to_point <$> filter (λ p, finite_point p = true) l).
Proof.
  revert acc. induction l as [|[[x y] z] l IH]; intros acc; [by rewrite app_nil_r|].
  cbn [Perception.push_points]. rewrite <- !negb_andb, filter_cons.
  change (is_finite x && is_finite y && is_finite z) with (finite_point (x, y, z)).
  case_decide as Hf; [|apply not_true_is_false in Hf]; rewrite Hf; cbn; rewrite IH;
    [by rewrite <- app_assoc | done].
Qed.
Lemma push_cells_spec (l : list Z) acc :
  Perception.push_cells l acc = acc ++ (Perception.to_cell <$> l).
Proof.
  revert acc. induction l as [|c l IH]; intros acc; [by rewrite app_nil_r|].
  cbn. by rewrite IH, <- app_assoc.
Qed.

(** The points and the grid of the perception frame.  The points are those of the downsampled
    cloud whose three coordinates are finite, in order, and every coordinate shown is finite; the
    grid has the dimensions of the message and one cell per cell of it. *)
Theorem perception_frame_shows_points_and_grid (cloud : PointCloud2) (grid : OccupancyGrid)
    s now seq :
  let s' := Perception.handler (Perception.Grid grid)
              (Perception.handler (Perception.Cloud cloud) s) in
  let f := Perception.buildFrame now seq s' in
  let g := vehicle_frame.pe_occupancy_grid f in
  vehicle_frame.pe_points_cloud f =
    to_point <$> filter (λ p, finite_point p = true)
                   (voxel_filter (flit 2 10) (fromROSMsg cloud)) ∧
  (vehicle_frame.og_width g, vehicle_frame.og_height g) = (width grid, height grid) ∧
  vehicle_frame.og_grid_data g = Perception.to_cell <$> data grid.
Proof. cbn. by rewrite push_points_spec, push_cells_spec. Qed.
End PerceptionFramesShown.

(** ** Planning *)
Section PlanningFramesShown.
Context `{AutowareMsgs}.
Implicit Types (s : Planning.PlanningFrameState).

(** Reading a route back from the frame. *)
Definition read_pose (p : vehicle_frame.Pose) : Point :=
  mkPoint (vehicle_frame.po_x p) (vehicle_frame.po_y p) (vehicle_frame.po_z p).
Definition read_primitive (p : vehicle_frame.LaneletPrimitive) : LaneletPrimitive :=
  mkLaneletPrimitive (vehicle_frame.lp_id p) (vehicle_frame.lp_primitive_type p).
Definition read_segment (sg : vehicle_frame.LaneletSegment) : LaneletSegment :=
  mkLaneletSegment (read_primitive (vehicle_frame.ls_preferred sg))
    (read_primitive <$> vehicle_frame.ls_primitives sg).
Definition read_trajectory_point (p : vehicle_frame.TrajectoryPoint) : Point * float32 :=
  (mkPoint (vehicle_frame.tp_x p) (vehicle_frame.tp_y p) (vehicle_frame.tp_z p),
   vehicle_frame.tp_longitudinal_velocity_mps p).

Lemma push_primitives_spec l acc :
  Planning.push_primitives l acc = acc ++ (Planning.to_primitive <$> l).
Proof.
  revert acc. induction l as [|p l IH]; intros acc; [by rewrite app_nil_r|].
  cbn. by rewrite IH, <- app_assoc.
Qed.
Lemma push_segments_spec l acc :
  read_segment <$> Planning.push_segments l acc = (read_segment <$> acc) ++ l.
Proof.
  revert acc. induction l as [|[[pid pty] prims] l IH]; intros acc; [by rewrite app_nil_r|].
  cbn [Planning.push_segments]. rewrite IH, fmap_app, <- app_assoc. cbn. do 2 f_equal.
  unfold read_segment. cbn. rewrite push_primitives_spec. cbn [app]. f_equal.
  rewrite <- list_fmap_compose. rewrite <- (list_fmap_id prims) at 2.
  apply list_fmap_ext. by intros i [] _.
Qed.
Lemma push_points_read l acc :
  read_trajectory_point <$> Planning.push_points l acc =
  (read_trajectory_point <$> acc) ++
  ((λ p, (position (tp_pose p), longitudinal_velocity_mps p)) <$> l).
Proof.
  revert acc. induction l as [|[[[x y z] o] v] l IH]; intros acc; [by rewrite app_nil_r|].
  cbn [Planning.push_points]. by rewrite IH, fmap_app, <- app_assoc.
Qed.

(** C24: the route and trajectories can be read back from the planning frame.  Decoding the frame
    after a route and the two trajectory messages yields the positions of the route's end points,
    its segments with all their primitives, and the positions and speeds of both trajectories,
    element by element; only orientations are lost. *)
Theorem planning_frame_roundtrip (r : LaneletRoute) (ps lane : list TrajectoryPoint) s now seq :
  let s' := Planning.handler (Planning.LaneTrajectoryMsg lane)
              (Planning.handler (Planning.TrajectoryMsg ps)
                 (Planning.handler (Planning.RouteMsg r) s)) in
  let f := Planning.buildFrame now seq s' in
  let fr := vehicle_frame.pf_full_route f in
  let shown := λ p, (position (tp_pose p), longitudinal_velocity_mps p) in
  read_pose <$> vehicle_frame.fr_start_pose fr = Some (position (start_pose r)) ∧
  read_pose <$> vehicle_frame.fr_goal_pose fr = Some (position (goal_pose r)) ∧
  read_segment <$> vehicle_frame.fr_segments fr = segments r ∧
  read_trajectory_point <$> vehicle_frame.pf_trajectory_points f = shown <$> ps ∧
  read_trajectory_point <$> vehicle_frame.pf_lane_trajectory f = shown <$> lane.
Proof.
  destruct r as [[[] ?] [[] ?] segs]. cbn -[fmap].
  rewrite push_segments_spec, !push_points_read. done.
Qed.
End PlanningFramesShown.
