(* ===== verification/AgentTheorems.v ===== *)
(** * AgentTheorems: the whole agent

    The bridges leave the application alone, the application's guarantees carry over, and the
    histories of the bridges inside the agent are histories of bridges. *)

From S2P Require Export AppTheorems FrameTheorems Agent.
Import FrameBridge Agent.
#[local] Existing Instances App.AppHandles_eta Stream.StreamClient_eta.

Section Theorems.
Context {Mp : Type} `{RouteMap Mp} `{Clocks} `{AutowareMsgs} `{Pcl} {Laws : RouteMapLaws Mp}.
Implicit Types (h : Handles Mp) (l : list AgentAction).

Definition node_of_agent h : Controller.Node Mp := App.controller_ (app h).
Definition status_of_agent h : TripStatus := Controller.getTripStatusSync (node_of_agent h).

(** The events of the agent's node among its outputs. *)
Definition agent_node_events (out : list AgentEffect) : list Controller.Event :=
  omap (λ e, match e with AppOut (App.NodeEvent e) => Some e | _ => None end) out.
Definition agent_answers (out : list AgentEffect) : bool :=
  existsb answers_query (agent_node_events out).

Lemma agent_node_events_app out : agent_node_events (AppOut <$> out) = node_events out.
Proof. induction out as [|e out IH]; [done|]. destruct e; cbn; by f_equal. Qed.
Lemma agent_answers_other {A} (tag : A → AgentEffect) (out : list A) :
  (∀ x e, tag x ≠ AppOut e) → agent_answers (tag <$> out) = false.
Proof.
  intros Htag. unfold agent_answers. induction out as [|x out IH]; [done|]. cbn.
  specialize (Htag x). by destruct (tag x) as [e| | | |]; [destruct (Htag e)|..].
Qed.

Definition agent_eta_alive h : bool := eta_alive (App.stream_client_ (app h)).

(** Whatever the action, the agent's node takes a schedule of its own actions; if the node is in
    order, the action returns unless it answers a query and the eta provider is gone. *)
Lemma agent_drives a h :
  node_ok (node_of_agent h) →
  result (act a) h = (if agent_answers (outputs (act a) h) && negb (agent_eta_alive h)
                      then Throw UndefinedBehaviour else Ret ()) ∧
  agent_eta_alive (final (act a) h) = agent_eta_alive h ∧
  ∃ la, node_of_agent (final (act a) h) = Controller.after la (node_of_agent h).
Proof.
  intros Hh. unfold node_of_agent, agent_eta_alive in *. destruct a as [a|a|a|a|a]; cbn [act].
  - destruct (drives_act a (app h) Hh) as [la Hl], (act_outcome a (app h) Hh) as [Hr He].
    unfold answers in Hr. rewrite <- agent_node_events_app in Hr.
    unfold agent_answers, result, final, outputs, in_app in *.
    destruct (App.act a (app h)) as [[o ha] out]. eauto.
  - destruct (bridge_act_ok (Ops := Cluster.ClusterBridge_ops) a (cluster_bridge_ h))
      as (b' & t & Heq & _).
    unfold result, final, outputs, mbind, M_bind, in_cluster. rewrite Heq. cbn -[agent_answers fmap].
    rewrite app_nil_r, agent_answers_other by done. split; [done|]. split; [|by exists []].
    unfold eta_alive. cbn. by destruct (Stream.eta_provider_ _).
  - destruct (bridge_act_ok (Ops := Planning.PlanningBridge_ops) a (planning_bridge_ h))
      as (b' & t & Heq & _).
    unfold result, final, outputs, in_planning. rewrite Heq. cbn -[agent_answers fmap].
    rewrite agent_answers_other by done. split_and!; [done..|by exists []].
  - destruct (bridge_act_ok (Ops := Perception.PerceptionBridge_ops) a (perception_bridge_ h))
      as (b' & t & Heq & _).
    unfold result, final, outputs, in_perception. rewrite Heq. cbn -[agent_answers fmap].
    rewrite agent_answers_other by done. split_and!; [done..|by exists []].
  - destruct (bridge_act_ok (Ops := TripFrames.TripBridge_ops) a (trip_bridge_ h))
      as (b' & t & Heq & _).
    unfold result, final, outputs, in_trip. rewrite Heq. cbn -[agent_answers fmap].
    rewrite agent_answers_other by done. split_and!; [done..|by exists []].
Qed.

Lemma agent_node_ok l h : node_ok (node_of_agent h) → node_ok (node_of_agent (after l h)).
Proof.
  revert h. induction l as [|a l IH]; intros h Hh; [done|].
  change (after (a :: l) h) with (after l (final (act a) h)). apply IH.
  destruct (agent_drives a h Hh) as (_ & _ & la & ->). by apply node_ok_after.
Qed.

Lemma agent_eta_after l h :
  node_ok (node_of_agent h) → agent_eta_alive (after l h) = agent_eta_alive h.
Proof.
  revert h. induction l as [|a l IH]; intros h Hh; [done|].
  change (after (a :: l) h) with (after l (final (act a) h)).
  destruct (agent_drives a h Hh) as (_ & <- & la & Hla). apply IH.
  rewrite Hla. by apply node_ok_after.
Qed.

(** ** The trip bridge inside the agent *)

(** The trip bridge's own actions in an execution of the agent. *)
Definition trip_actions l : list (BridgeAction TripFrames.Surroundings TripFrames.Msg) :=
  omap (λ a, match a with TripDoes b => Some b | _ => None end) l.
Definition trip_events (t : list AgentEffect) :
    list (BridgeEvent TripFrames.Surroundings TripFrames.Msg vehicle_frame.TripFrame) :=
  omap (λ e, match e with TripOut e => Some e | _ => None end) t.

Lemma trip_events_other {A} (f : A → AgentEffect) (t : list A) :
  (∀ x, match f x with TripOut _ => False | _ => True end) → trip_events (f <$> t) = [].
Proof.
  intros Hf. induction t as [|x t IH]; [done|]. cbn. specialize (Hf x). by destruct (f x).
Qed.
Lemma trip_events_own t : trip_events (TripOut <$> t) = t.
Proof. induction t as [|x t IH]; [done|]. cbn. f_equal. exact IH. Qed.

Lemma trip_bridge_step a h :
  match a with
  | TripDoes b =>
    let r := FrameBridge.act (Ops := TripFrames.TripBridge_ops) b (trip_bridge_ h) in
    trip_bridge_ (final (act a) h) = r.1.2 ∧ trip_events (outputs (act a) h) = r.2
  | _ => trip_bridge_ (final (act a) h) = trip_bridge_ h ∧ trip_events (outputs (act a) h) = []
  end.
Proof.
  destruct a as [a|a|a|a|a]; cbn [act]; unfold final, outputs.
  - unfold in_app. destruct (App.act a (app h)) as [[o ha] out]. cbn.
    split; [done|]. by apply trip_events_other.
  - unfold mbind, M_bind, in_cluster.
    destruct (FrameBridge.act a (cluster_bridge_ h)) as [[[[]|] b] out]; cbn;
      rewrite ?app_nil_r; (split; [done|]); by apply trip_events_other.
  - unfold in_planning. destruct (FrameBridge.act a (planning_bridge_ h)) as [[o b] out]. cbn.
    split; [done|]. by apply trip_events_other.
  - unfold in_perception. destruct (FrameBridge.act a (perception_bridge_ h)) as [[o b] out]. cbn.
    split; [done|]. by apply trip_events_other.
  - unfold in_trip. destruct (FrameBridge.act a (trip_bridge_ h)) as [[o b] out]. cbn.
    split; [done|]. apply trip_events_own.
Qed.

Lemma trip_bridge_runs l h :
  let r := act_all (Ops := TripFrames.TripBridge_ops) (trip_actions l) (trip_bridge_ h) in
  trip_bridge_ (after l h) = r.1.2 ∧ trip_events (trace l h) = r.2.
Proof.
  revert h. induction l as [|a l IH]; intros h; [done|].
  pose proof (trip_bridge_step a h) as Hstep. specialize (IH (final (act a) h)).
  change (after (a :: l) h) with (after l (final (act a) h)).
  cbn [trace]. unfold trip_events in *. rewrite omap_app.
  destruct a as [a|a|a|a|a];
    try (destruct Hstep as [Hb ->]; rewrite Hb in IH; exact IH).
  change (trip_actions (TripDoes a :: l)) with (a :: trip_actions l).
  cbn [act_all]. unfold mbind, M_bind.
  destruct (bridge_act_ok (Ops := TripFrames.TripBridge_ops) a (trip_bridge_ h))
    as (b1 & t1 & Heq & _).
  rewrite Heq in Hstep |- *. destruct Hstep as [Hb ->]. cbn [fst snd] in Hb. rewrite Hb in IH.
  cbn zeta in IH |- *.
  by destruct (act_all _ b1) as [[o b2] t2]; destruct IH as [-> ->].
Qed.

Lemma trip_actions_elem l b : b ∈ trip_actions l → TripDoes b ∈ l.
Proof.
  intros (a & Ha & Hb)%list_elem_of_omap. destruct a as [| | | |a]; try done. by injection Hb as ->.
Qed.

Lemma trip_event_in e t : TripOut e ∈ t → e ∈ trip_events t.
Proof. intros Hin. apply list_elem_of_omap. by exists (TripOut e). Qed.
Lemma trace_app l l' h : trace (l ++ l') h = trace l h ++ trace l' (after l h).
Proof.
  revert h. induction l as [|a l IH]; intros h; [done|]. cbn [Datatypes.app trace]. by rewrite IH, <- app_assoc.
Qed.

(** A trip frame of an agent whose bridges were just built. *)
Lemma trip_frame_of_action l act1 (a : App.AppHandles Mp) t0 e f :
  TripOut (Published e f) ∈ outputs (act act1) (after l (Handles_new a t0)) →
  act1 = TripDoes (StrandRuns e) ∧
  ∃ n b, f = TripFrames.buildFrame (TripFrames.stamp_now e) n
               (TripFrames.frame_state (TripFrames.refresh e b)).
Proof.
  set (h := Handles_new a t0). intros Hin. pose proof (trip_bridge_step act1 (after l h)) as Hstep.
  assert (Hev : Published e f ∈ trip_events (outputs (act act1) (after l h)))
    by (by apply trip_event_in).
  destruct act1 as [b|b|b|b|b]; destruct Hstep as [_ Hout]; rewrite Hout in Hev;
    try by apply elem_of_nil in Hev.
  rewrite (act_published (Ops := TripFrames.TripBridge_ops) b (trip_bridge_ (after l h)) e f Hev) in *.
  split; [done|]. destruct (trip_bridge_runs (l ++ [TripDoes (StrandRuns e)]) h) as [_ Ht].
  assert (Hin' : Published e f ∈ trip_events (trace (l ++ [TripDoes (StrandRuns e)]) h)).
  { rewrite trace_app. apply trip_event_in. rewrite elem_of_app. right.
    cbn [trace]. by rewrite app_nil_r. }
  rewrite Ht in Hin'. apply list_elem_of_split in Hin' as (t1 & t2 & Hsplit).
  pose proof (published_frame (Ops := TripFrames.TripBridge_ops) _
                (TripFrames.TripBody_new t0) t1 e f t2 Hsplit) as Hf.
  injection Hf as <-. eexists _, _. reflexivity.
Qed.

(** ** Stopping *)
Definition stop_run (sched : list (option AgentAction)) (s : Stopping (Mp := Mp)) : Stopping :=
  run_inputs stop_step sched s.

Lemma trip_actions_undisturbed l : TripDoes ShutdownCalled ∉ l → undisturbed (trip_actions l).
Proof. intros Hl Hin%trip_actions_elem. done. Qed.

(** Once shutdown has missed the trip bridge's wait, the thread in stopAutowareApp stays there. *)
Lemma stop_stays h1 sched s :
  (∀ l, TripDoes ShutdownCalled ∉ l → io_running (trip_bridge_ (after l h1)) = true) →
  stop_pc s = 5%nat →
  (∃ l, TripDoes ShutdownCalled ∉ l ∧ stopping s = after l h1) →
  Some (TripDoes ShutdownCalled) ∉ sched → stop_pc (stop_run sched s) = 5%nat.
Proof.
  intros Hrun. revert s. induction sched as [|oa sched IH]; intros s Hpc (l & Hl & Hs) Hsched;
    [done|].
  apply not_elem_of_cons in Hsched as [Ha Hsched].
  change (stop_run (oa :: sched) s) with (stop_run sched (stop_step oa s)).
  destruct oa as [a|]; cbn [stop_step]; [|rewrite Hpc; cbn].
  - apply IH; [done| |done]. exists (l ++ [a]). split.
    + rewrite elem_of_app, list_elem_of_singleton. intros [?|Heq]; [done|]. by rewrite Heq in Ha.
    + cbn. rewrite Hs. unfold after. by rewrite run_inputs_app.
  - rewrite Hs, Hrun by done. cbn. apply IH; [done| |done]. by exists l.
Qed.

(** C13: stopAutowareApp can hang on a bridge whose timer has just expired.  If the trip bridge's
    tick is on its strand when stopAutowareApp calls its shutdown, then, however the threads go on,
    stopAutowareApp waits for that bridge for ever: the cluster bridge, the location bridge and the
    stream client are never shut down. *)
Theorem stop_hangs_on_expired_timer lt t0 (s : Stopping (Mp := Mp)) sched :
  stop_pc s = 4%nat →
  undisturbed lt → trip_bridge_ (stopping s) = bridge_after lt (TripFrames.TripBody_new t0) →
  timer_pending (trip_bridge_ (stopping s)) = false →
  Some (TripDoes ShutdownCalled) ∉ sched →
  stop_pc (stop_run (None :: sched) s) = 5%nat.
Proof.
  intros Hpc Hlt Hb Htp Hsched.
  set (h1 := final (act (TripDoes ShutdownCalled)) (stopping s)).
  assert (Hstep : stop_step None s = mkStopping 5 h1).
  { destruct s as [pc h]. cbn in Hpc. by subst pc. }
  change (stop_run (None :: sched) s) with (stop_run sched (stop_step None s)). rewrite Hstep.
  apply (stop_stays h1); [|done| |done].
  - intros l Hl.
    destruct (trip_bridge_runs (TripDoes ShutdownCalled :: l) (stopping s)) as [Hr _].
    change (after (TripDoes ShutdownCalled :: l) (stopping s)) with (after l h1) in Hr.
    rewrite Hr. rewrite Hb in Htp |- *.
    change (trip_actions (TripDoes ShutdownCalled :: l)) with (ShutdownCalled :: trip_actions l).
    apply (shutdown_too_late (Ops := TripFrames.TripBridge_ops) lt); [done..|].
    by apply trip_actions_undisturbed.
  - exists []. split; [apply not_elem_of_nil|done].
Qed.
End Theorems.

(** ** From the map files *)
Section Started.
Context `{Lanelet2Laws} `{YamlCpp} `{Clocks} `{AutowareMsgs} `{Pcl}.

Lemma started_agent_ok exists_ dirs path radius now h0 :
  startAgent exists_ dirs path radius now = Ret h0 →
  ∃ a, h0 = Handles_new a now ∧ node_ok (node_of_agent h0) ∧ agent_eta_alive h0 = false.
Proof.
  unfold startAgent. rewrite outcome_bind_Ret. intros (a & Ha & [= <-]).
  exists a. split; [done|]. by eapply started_node_ok.
Qed.

(** C8: where the agent goes wrong.  Whatever way the timers, the messages, the node's handlers,
    the client's threads, the location bridge and the io threads of the four frame bridges
    interleave after startAutowareApp has returned, shutdowns included, every action returns, with
    one exception: the handler that answers a query successfully follows the client's pointer to
    the eta provider, which the return of startAutowareApp has destroyed, and is undefined. *)
Theorem whole_agent_outcome exists_ dirs path radius now h0 l a :
  startAgent exists_ dirs path radius now = Ret h0 →
  result (act a) (after l h0) =
  if agent_answers (outputs (act a) (after l h0)) then Throw UndefinedBehaviour else Ret ().
Proof.
  intros (a0 & _ & Hok & He)%started_agent_ok.
  destruct (agent_drives a (after l h0) (agent_node_ok l h0 Hok)) as [-> _].
  by rewrite (agent_eta_after l h0 Hok), He, andb_true_r.
Qed.

(** The states of the controller that a value of the protocol stands for. *)
Definition states_shown_as (v : vehicle_frame.TripState) : list TripState.t :=
  match v with
  | vehicle_frame.TRIP_IDLE =>
    [TripState.IDLE; TripState.INITIALIZING_IN_MAP; TripState.QUERY_PUBLISHING_INITIAL_POSE;
     TripState.QUERY_WAITING_LOCALISATION; TripState.QUERY_READING_ETA; TripState.ROUTES_READY;
     TripState.WAITING_FOR_PICKUP_START; TripState.DRIVING_TO_PICKUP; TripState.WAITING_FOR_MOVE;
     TripState.CANCELLED]
  | vehicle_frame.TRIP_PUBLISHING_INITIAL_POSE => [TripState.PUBLISHING_INITIAL_POSE]
  | vehicle_frame.TRIP_WAITING_LOCALISATION => [TripState.WAITING_LOCALISATION]
  | vehicle_frame.TRIP_PUBLISHING_GOAL => [TripState.QUERY_PUBLISHING_GOAL]
  | vehicle_frame.TRIP_WAITING_ROUTE => [TripState.QUERY_WAITING_ROUTE]
  | vehicle_frame.TRIP_ENGAGING => [TripState.ENGAGING]
  | vehicle_frame.TRIP_RUNNING => [TripState.RUNNING]
  | vehicle_frame.TRIP_COMPLETED => [TripState.COMPLETED]
  | vehicle_frame.TRIP_FAILED => [TripState.FAILED]
  end.

(** C10: what the trip frames of the agent say.  Every trip frame published in any execution from
    startAutowareApp comes from a tick and shows the copy of the controller's status that this tick
    made: its state by the value of the protocol that stands for it, its lanes and its distance.
    The copy is made without a lock.  If no handler of the controller interfered with it, so that it
    is the controller's status at that moment, the frame does not say TRIP_FAILED. *)
Theorem agent_trip_frames_truthful exists_ dirs path radius now h0 l a e f :
  startAgent exists_ dirs path radius now = Ret h0 →
  TripOut (Published e f) ∈ outputs (act a) (after l h0) →
  let st := TripFrames.status e in
  a = TripDoes (StrandRuns e) ∧
  state_ st ∈ states_shown_as (vehicle_frame.tf_trip_state f) ∧
  vehicle_frame.tf_start_lanelet_id f = start_lanelet_id_ st ∧
  vehicle_frame.tf_goal_lanelet_id f = goal_lanelet_id_ st ∧
  vehicle_frame.tf_goal_distance_m f = goal_distance_m_ st ∧
  (st = status_of_agent (after l h0) →
   vehicle_frame.tf_trip_state f ≠ vehicle_frame.TRIP_FAILED).
Proof.
  intros (a0 & -> & Hok & _)%started_agent_ok Hin st.
  destruct (trip_frame_of_action l a a0 now e f Hin) as (-> & n & b & ->). split; [done|]. cbn.
  split; [by destruct (state_ _); cbn; rewrite ?elem_of_cons; eauto 12|].
  do 3 (split; [done|]). intros Hst. fold st.
  assert (state_ st ≠ TripState.FAILED)
    by (rewrite Hst; apply node_ok_not_failed, agent_node_ok, Hok).
  by destruct (state_ st).
Qed.
End Started.
