(* ===== verification/Adapters.v ===== *)
(** * Adapters: what the destroyed adapters cost

    startAutowareApp gives the stream client raw pointers to the eta and the location adapter, of
    which only its locals are owners ([App.destroy_locals]).  The first successful query follows
    one of them.  A trip is started by the very handler that does, after it: so no execution of the
    started agent, short of undefined behaviour, starts a trip. *)

From S2P Require Export TripProtocol AgentTheorems.
Import TripState Controller Stream App.
#[local] Existing Instances App.AppHandles_eta Stream.StreamClient_eta.

(** The states in which no trip has been started. *)
Definition before_trip (s : TripState.t) : bool :=
  match s with
  | IDLE | INITIALIZING_IN_MAP | QUERY_PUBLISHING_INITIAL_POSE | QUERY_WAITING_LOCALISATION
  | QUERY_PUBLISHING_GOAL | QUERY_WAITING_ROUTE | QUERY_READING_ETA | ROUTES_READY => true
  | _ => false
  end.

Lemma allowed_before_trip i s s' :
  i ≠ StartTrip → before_trip s = true → s' ∈ allowed i s → before_trip s' = true.
Proof.
  intros Hi Hs Hin. destruct i; try done; destruct s; try done; cbn in Hin;
    rewrite ?elem_of_cons, ?elem_of_nil in Hin; by destruct_or? Hin; subst.
Qed.

Section Parked.
Context {Mp : Type} `{RouteMap Mp} `{Clocks} `{AutowareMsgs} {Laws : RouteMapLaws Mp}.
Implicit Types (h : AppHandles Mp) (n : Node Mp).

Lemma run_before_trip l w :
  inv w → StartTrip ∉ l → before_trip (trip_state w) = true →
  before_trip (trip_state (run l w)) = true.
Proof.
  revert w. induction l as [|i l IH]; intros w Hw Hl Hs; [done|].
  apply not_elem_of_cons in Hl as [Hi Hl]. apply (IH (step i w)); [|done|].
  - by apply (inv_run [i]).
  - eapply allowed_before_trip; [|exact Hs|by apply step_protocol]. congruence.
Qed.

Lemma boot_before_trip (m : Mp) k :
  before_trip (trip_state (final boot_op
    (mkWorld (TripController_init TripTimings_default) m k))) = true.
Proof.
  match goal with |- before_trip (trip_state (final ?m ?w)) = true =>
    change (wp m w (λ _ w' _, before_trip (trip_state w') = true)) end.
  unfold boot_op, setStateChangeCallback, setArrivalCallbacks, initializeInMap, publish_init.
  wp_ops; unfold trip_state; cbn; try done.
Qed.

(** No trip has been started, and no handler on the strand will start one. *)
Definition parked n : Prop :=
  (∀ c, trip_ctrl_ n = Some c → before_trip (state_ (status_ c)) = true) ∧
  ∀ cb, JStartTrip cb ∉ strand_ n.

Lemma job_starts_nothing env n j : (∀ cb, j ≠ JStartTrip cb) → StartTrip ∉ job_inputs env n j.
Proof.
  intros Hj. destruct j as [|cb| | | | | | |s g cb|m]; cbn; try (by destruct (Hj cb)).
  all: rewrite ?elem_of_app, ?elem_of_cons, ?elem_of_nil; try naive_solver.
  - repeat case_match; rewrite ?elem_of_cons, ?elem_of_nil; naive_solver.
  - destruct m; naive_solver.
Qed.

Lemma parked_act a n :
  node_inv n → (∀ cb, a ≠ CallStartTrip cb) → parked n → parked (final (Controller.act a) n).
Proof.
  intros Hn Ha [Hst Hq]. assert (Hdec : is_post a ∨ a = CallInitialize ∨ ∃ env, a = RunNext env).
  { destruct a; try (by left); right; [by left|right; by eexists]. }
  destruct Hdec as [Hp|[->|[env ->]]].
  - destruct (act_posts a n Hp) as (_ & _ & Hc & _ & Hs). injection Hc as Hc _ _ _.
    split; [by rewrite Hc|]. intros cb. rewrite Hs, elem_of_app. intros [Hin|Hin]; [by apply (Hq cb)|].
    destruct a; cbn in Hin; try case_match; rewrite ?elem_of_cons, ?elem_of_nil in Hin;
      destruct_or? Hin; try done. injection Hin as ->. by eapply Ha.
  - destruct (initialize_posts n) as (_ & Hc & Hs & _). injection Hc as Hc _ _ _.
    split; [intros c Hc'; apply Hst; by rewrite <- Hc|]. intros cb. rewrite Hs, elem_of_app, list_elem_of_singleton.
    intros [Hin|Hin]; [by apply (Hq cb)|done].
  - destruct (strand_ n) as [|j q] eqn:Hs; [|destruct (io_thread_ n) eqn:Hi].
    1,3: unfold final; rewrite run_next_idle by tauto; split; [done|];
      change (∀ cb, JStartTrip cb ∉ strand_ n); by rewrite Hs.
    destruct (run_next_ran env n j q Hn Hs Hi) as [_ Hcases].
    assert (Hq' : ∀ cb, JStartTrip cb ∉ q) by (intros cb Hin; apply (Hq cb); by right).
    destruct Hcases as [(_ & -> & _)|[(_ & Hc & -> & _)|(c & _ & Hc & _ & -> & _)]].
    + split; [|done]. intros c [= <-]. apply boot_before_trip.
    + split; [|done]. cbn. intros c. by rewrite Hc.
    + split; [|done]. intros c' [= <-]. apply run_before_trip.
      * unfold node_inv in Hn. by rewrite Hc in Hn.
      * apply job_starts_nothing. intros cb ->. apply (Hq cb). by left.
      * by apply Hst.
Qed.

(** The application with its eta provider gone and no trip begun. *)
Definition stuck h : Prop :=
  node_ok (controller_ h) ∧ parked (controller_ h) ∧ eta_alive (stream_client_ h) = false.
Lemma keeps_controller a :
  (∀ cb, a ≠ CallStartTrip cb) → keeps stuck (on_controller (Controller.act a)).
Proof.
  intros Ha h (Hok & Hp & He). pose proof (parked_act a _ (proj1 Hok) Ha Hp) as Hp'.
  pose proof (node_ok_after [a] _ Hok) as Hok'. cbn in Hok'.
  unfold wp, final, on_controller in *.
  destruct (Controller.act a (controller_ h)) as [[[] n] out]; by split_and!.
Qed.
Lemma stuck_call a : (∀ cb, a ≠ CallStartTrip cb) → keeps stuck (call (Controller.act a)).
Proof. intros Ha. apply keeps_bind; [by apply keeps_controller|]. intros. apply keeps_ret. Qed.

(** What leaves the node alone and asks no provider. *)
Lemma keeps_quiet {A} (op : AppOp Mp A) :
  mute op → (∀ h, controller_ (final op h) = controller_ h) → keeps stuck op.
Proof.
  intros Hq Hc h (Hok & Hp & He). destruct (Hq h) as [_ He']. unfold wp, stuck.
  by rewrite Hc, He', He.
Qed.
Lemma client_leaves_node st a h :
  controller_ (final (on_client_with st (Stream.act a)) h) = controller_ h.
Proof. unfold final, on_client_with. by destruct (Stream.act a _) as [[[] c] out]. Qed.
Lemma stuck_client a : keeps stuck (on_client (Stream.act a)).
Proof.
  apply keeps_bind; [apply keeps_gets|]. intros st. apply keeps_quiet; [apply mute_client_with|].
  intros h. apply client_leaves_node.
Qed.
Lemma stuck_send r : keeps stuck (send (report r)).
Proof. apply keeps_bind; [apply (stuck_client (DoReport r))|]. intros. apply keeps_ret. Qed.
Lemma stuck_location op : keeps stuck (on_location op).
Proof.
  apply keeps_quiet; [apply mute_location|]. intros h. unfold final, on_location.
  by destruct (op (location_bridge_ h)) as [[o b] out].
Qed.

Lemma stuck_effect e : keeps stuck (handle_effect e).
Proof.
  destruct e as [| | | | | |cmd]; try apply keeps_ret.
  destruct cmd as [r|v i|v|v|v|v i|]; cbn; try apply keeps_ret.
  - by apply (stuck_call (CallQueryEta _ _ _)).
  - by apply (stuck_call (CallHandleMoveCommand _)).
  - apply keeps_bind; [apply (stuck_send (ROrderUpdateLocationAck _ _))|].
    intros _. by apply (stuck_call (CallGetTripStatus _)).
  - apply keeps_bind; [by apply (stuck_call CallCancelTrip)|]. intros _.
    apply keeps_bind; [apply (stuck_send (RTripCancelAck _ _))|]. intros _.
    apply (stuck_send (RStatus _)).
Qed.

(** The answer to a query never gets as far as to start the trip. *)
Lemma stuck_event e : keeps stuck (handle_event e).
Proof.
  destruct e as [o|cb ok|cb st|cb r|prev next st|k|line]; try apply keeps_ret.
  - cbn. repeat case_match; try apply keeps_ret; apply keeps_emit.
  - cbn. case_match; [|apply keeps_ret]. apply (stuck_send (RLocation _ _)).
  - intros h (Hok & Hp & He). unfold wp, stuck.
    destruct (mute_reaction (EtaAnswer cb r) h) as [_ Ha]. rewrite Ha.
    assert (controller_ (final (handle_event (EtaAnswer cb r)) h) = controller_ h) as ->; [|done].
    destruct h as [n [tm [ep|] lp vin hd rid sd q conn] b]; [done|]. unfold handle_event, on_eta.
    case_decide; [|done]. by destruct (success_ r).
  - intros h (Hok & Hp & He). unfold wp, stuck.
    destruct (trip_state_callback_told next st h) as (_ & _ & Hc & (_ & _ & _ & _ & Ha) & _).
    cbn [handle_event]. rewrite Hc. unfold final in *. by rewrite Ha.
Qed.

Lemma keeps_act a : keeps stuck (App.act a).
Proof.
  assert (Hnode : ∀ na, (∀ cb, na ≠ CallStartTrip cb) → keeps stuck (node_step na)).
  { intros na Hna. apply keeps_bind; [by apply keeps_controller|]. intros.
    apply keeps_for_each, stuck_event. }
  destruct a as [|m|env|a| |now st|].
  1-3: by apply Hnode.
  - destruct a as [r|t|ok|t|read| | |]; [apply keeps_ret|..];
      (apply keeps_bind; [apply stuck_client|]; intros; apply keeps_for_each, stuck_effect).
  - apply stuck_location.
  - apply keeps_bind; [apply keeps_gets|]. intros. apply stuck_location.
  - apply stuck_location.
Qed.
End Parked.

Section Agent.
Import Agent.
Context {Mp : Type} `{RouteMap Mp} `{Clocks} `{AutowareMsgs} `{Pcl} {Laws : RouteMapLaws Mp}.
Implicit Types (h : Handles Mp).

Lemma agent_stuck a h : stuck (app h) → stuck (app (final (act a) h)).
Proof.
  intros Hh. destruct a as [a|a|a|a|a]; cbn [act].
  - pose proof (keeps_act a _ Hh) as Hk. unfold wp, final, in_app in *.
    by destruct (App.act a (app h)) as [[o ha] out].
  - destruct Hh as (Hok & Hp & He).
    unfold final, mbind, M_bind, in_cluster. destruct (FrameBridge.act a _) as [[[[]|] b] out].
    2: by split_and!.
    split_and!; [exact Hok|exact Hp|]. unfold eta_alive in *. cbn in *.
    by destruct (Stream.eta_provider_ _).
  - unfold final, in_planning. by destruct (FrameBridge.act a _) as [[o b] out].
  - unfold final, in_perception. by destruct (FrameBridge.act a _) as [[o b] out].
  - unfold final, gets, mbind, M_bind, in_trip. cbn.
    by destruct (FrameBridge.act _ (trip_bridge_ h)) as [[o b] out].
Qed.

Lemma agent_stuck_after l h : stuck (app h) → stuck (app (after l h)).
Proof.
  revert h. induction l as [|a l IH]; intros h Hh; [done|].
  apply (IH (final (act a) h)). by apply agent_stuck.
Qed.
End Agent.

(** ** From the map files *)
Section Started.
Import Agent.
Context `{Lanelet2Laws} `{YamlCpp} `{Clocks} `{AutowareMsgs} `{Pcl}.

Lemma new_node_shape exists_ dirs path hz n :
  AutowareController_new exists_ dirs path hz = Ret n → ∃ m, n = Node_new m hz.
Proof.
  unfold AutowareController_new. destruct (map_paths path) as [dir osm].
  rewrite outcome_bind_Ret. intros (info & _ & Hn). rewrite outcome_bind_Ret in Hn.
  destruct Hn as (m & _ & Hn). case_match.
  - destruct (setDefaultStart _ _ m) as [[[]|e] m']; [|done]. injection Hn as <-. by exists m'.
  - injection Hn as <-. by exists m.
Qed.

Lemma body_parked exists_ dirs path radius h0 :
  startAutowareApp_body exists_ dirs path radius = Ret h0 → parked (controller_ h0).
Proof.
  unfold startAutowareApp_body. rewrite outcome_bind_Ret. intros (n & Hn & Hw).
  apply new_node_shape in Hn as [m ->].
  unfold wire, call, on_controller, initialize, Controller.post, modify, gets, lift, mbind, M_bind
    in Hw. cbn in Hw.
  destruct (d_to_int _) as [p|e]; [|done]. cbn in Hw. injection Hw as <-.
  split; [done|]. cbn. intros cb. by rewrite list_elem_of_singleton.
Qed.

(** Every action of [l], performed from [h] on, returns: no undefined behaviour so far. *)
Fixpoint defined (l : list AgentAction) (h : Handles LaneletMap) : Prop :=
  match l with
  | [] => True
  | a :: l' => result (act a) h = Ret () ∧ defined l' (final (act a) h)
  end.

(** C9: a defined execution of the started agent begins no trip.  Let every action of [l] return,
    whatever the gateway sends and however the threads interleave, and let one more action follow.
    Up to its end, or up to the point where its behaviour is undefined, startTrip has not been
    called (no call of it is on the strand) and the trip controller is in a state before the start
    of a trip.  If that action answers a query successfully, then its behaviour is undefined. *)
Theorem no_trip_begins exists_ dirs path radius now h0 l a :
  startAgent exists_ dirs path radius now = Ret h0 →
  defined l h0 →
  let h := after (l ++ [a]) h0 in
  before_trip (state_ (status_of_agent h)) = true ∧
  (∀ cb, JStartTrip cb ∉ strand_ (node_of_agent h)) ∧
  (agent_answers (outputs (act a) (after l h0)) = true →
   result (act a) (after l h0) = Throw UndefinedBehaviour).
Proof.
  intros Hstart _ h. destruct (started_agent_ok _ _ _ _ _ _ Hstart) as (_ & _ & Hok0 & He0).
  revert Hstart. unfold startAgent. rewrite outcome_bind_Ret. intros (a0 & Ha & [= <-]).
  assert (Hstuck : stuck (app h)).
  { apply agent_stuck_after. destruct (started_node_ok _ _ _ _ _ Ha) as [Hok He].
    split_and!; [exact Hok| |exact He].
    unfold startAutowareApp in Ha. rewrite outcome_bind_Ret in Ha. destruct Ha as (b & Hb & [= <-]).
    apply (body_parked _ _ _ _ _ Hb). }
  destruct Hstuck as (_ & [Hst Hq] & _). split; [|split; [exact Hq|]].
  - unfold status_of_agent, node_of_agent, getTripStatusSync.
    destruct (trip_ctrl_ _) as [c|]; [|done]. by apply Hst.
  - intros Hans. destruct (agent_drives a _ (agent_node_ok l _ Hok0)) as [-> _].
    by rewrite Hans, (agent_eta_after l _ Hok0), He0.
Qed.
End Started.
