(* ===== verification/AgentParts.v ===== *)
(** * AgentParts: the components the agent stops, one by one

    Each of the five bridges inside the agent: the turns of its io thread bring its timer to wait, a
    shutdown called then lets the thread end, and stopAutowareApp goes on; likewise for the threads
    of the stream client. *)

From S2P Require Export AgentTheorems Main.
Import FrameBridge Agent Main.
#[local] Existing Instances App.AppHandles_eta Stream.StreamClient_eta.

(** ** One bridge: before, during and after its shutdown *)
Section Bridges.
Context {St Env Msg Frame : Type} {Ops : BridgeOps St Env Msg Frame}.
Implicit Types (b : Bridge St Msg) (a : BridgeAction Env Msg).

(** Never shut down: one start signal is under way. *)
Definition ticking b : Prop := tokens b = 1%nat ∧ io_running b = true.
(** Its timer waits: shutdown called now is in time. *)
Definition waiting b : Prop := ticking b ∧ timer_pending b = true.
(** Shut down in time. *)
Definition ending b : Prop := tokens b = 0%nat ∧ work_guard_ b = false.

Lemma ticking_act a b :
  a ≠ ShutdownCalled → ticking b → ticking (final (FrameBridge.act (Ops := Ops) a) b).
Proof.
  intros Ha [Ht Hr]. destruct (bridge_act_ok (Ops := Ops) a b)
    as (b' & t & Heq & [_ _ _ _ Htok _ _ _] & _ & Hlive & _).
  unfold final. rewrite Heq. cbn [fst snd]. assert (Ht' : tokens b' = 1%nat).
  { destruct a; try done; rewrite Htok; lia. }
  split; [done|]. destruct (io_running b') eqn:Hr'; [done|].
  destruct (Hlive Hr eq_refl) as (_ & ? & _). lia.
Qed.

Lemma ended_act a b :
  io_running b = false → io_running (final (FrameBridge.act (Ops := Ops) a) b) = false.
Proof.
  intros Hr. destruct (bridge_act_ok (Ops := Ops) a b) as (b' & t & Heq & _ & He & _).
  unfold final. rewrite Heq. by apply He.
Qed.

Lemma shutdown_waits b : waiting b → ending (final (FrameBridge.act (Ops := Ops) ShutdownCalled) b).
Proof.
  intros [[Ht Hr] Hp]. destruct (bridge_act_ok (Ops := Ops) ShutdownCalled b)
    as (b' & t & Heq & [_ _ _ _ Htok _ _ Hg] & _).
  unfold final. rewrite Heq. cbn [fst snd]. split; [|done]. rewrite Htok.
  unfold tokens in Ht. rewrite Hp in Ht. lia.
Qed.

(** [k] turns of the io thread work off [k] tasks. *)
Lemma turns_ticking (es : list Env) b :
  length (strand_ b) = length es → ticking b →
  waiting (final (act_all (Ops := Ops) (StrandRuns <$> es)) b).
Proof.
  intros Hlen [Ht Hr]. destruct (act_all_ok (Ops := Ops) (StrandRuns <$> es) b)
    as (b' & t & Heq & [_ _ _ _ Htok _ Hlive _ _ _]).
  unfold final. rewrite Heq. cbn [fst snd]. pose proof (undisturbed_runs (Msg := Msg) es) as Hu.
  assert (Hq : strand_ b' = []) by (eapply strand_drained; [done|lia|done|lia]).
  specialize (Htok Hu). specialize (Hlive Hu Ht Hr).
  assert (Ht' : tokens b' = 1%nat) by (rewrite Htok; lia).
  split; [done|]. unfold tokens in Ht'. rewrite Hq in Ht'. by destruct (timer_pending b').
Qed.
Lemma turns_ending (es : list Env) b :
  (length (strand_ b) < length es)%nat → ending b →
  io_running (final (act_all (Ops := Ops) (StrandRuns <$> es)) b) = false.
Proof.
  intros Hlen [Ht Hg]. destruct (act_all_ok (Ops := Ops) (StrandRuns <$> es) b)
    as (b' & t & Heq & [_ _ _ _ Htok Hend _ _ Hguard He]).
  unfold final. rewrite Heq. cbn [fst snd]. pose proof (undisturbed_runs (Msg := Msg) es) as Hu.
  destruct (io_running b) eqn:Hr; [|by apply Hend].
  assert (Hq : strand_ b' = []) by (eapply strand_drained; [done|lia|done|lia]).
  specialize (Htok Hu). rewrite Ht in Htok.
  apply He; [destruct es; [cbn in Hlen; lia|done]|done| |by rewrite Hguard]. unfold tokens in Htok.
  destruct (timer_pending b'); [lia|done].
Qed.

Lemma final_act_all_cons a l b :
  final (act_all (Ops := Ops) (a :: l)) b =
  final (act_all (Ops := Ops) l) (final (FrameBridge.act (Ops := Ops) a) b).
Proof.
  destruct (bridge_act_ok (Ops := Ops) a b) as (b' & t & Heq & _).
  rewrite (proj1 (act_all_cons _ l _ _ _ Heq)). unfold final at 3. by rewrite Heq.
Qed.
End Bridges.

(** ** A bridge inside the agent *)
Section Parts.
Context {Mp : Type} `{RouteMap Mp} `{Clocks} `{AutowareMsgs} `{Pcl}.
Implicit Types (h : Handles Mp) (s : Stopping (Mp := Mp)).

(** main calls a shutdown, the thread it waits for takes [n] turns, and main sees it end. *)
Definition stop_schedule (turn : AgentAction) (n : nat) : list (option AgentAction) :=
  None :: (Some <$> replicate n turn) ++ [None].

Section Part.
Context {St Env Msg Frame : Type} {Ops : BridgeOps St Env Msg Frame}.
Context (get : Handles Mp → Bridge St Msg) (turn : AgentAction).
(** A turn of the part's io thread, and what it leaves alone. *)
Context {X : Type} (others : Handles Mp → X).
Context (Hturn : ∀ h, ∃ e,
  get (final (act turn) h) = final (FrameBridge.act (Ops := Ops) (StrandRuns e)) (get h)).
Context (Hothers : ∀ h, others (final (act turn) h) = others h).

Lemma part_turns k h : ∃ es, length es = k ∧
  get (after (replicate k turn) h) =
    final (act_all (Ops := Ops) (StrandRuns <$> es)) (get h) ∧
  others (after (replicate k turn) h) = others h.
Proof.
  revert h. induction k as [|k IH]; intros h; [by exists []|].
  destruct (Hturn h) as [e He]. destruct (IH (final (act turn) h)) as (es & Hl & Hg & Ho).
  exists (e :: es). split; [cbn; lia|].
  change (after (replicate (S k) turn) h) with (after (replicate k turn) (final (act turn) h)).
  split; [|by rewrite Ho, Hothers].
  rewrite Hg, He. symmetry. apply final_act_all_cons.
Qed.

Lemma part_drains h : ticking (get h) → ∃ k,
  waiting (get (after (replicate k turn) h)) ∧ others (after (replicate k turn) h) = others h.
Proof.
  intros Ht. destruct (part_turns (length (strand_ (get h))) h) as (es & Hl & Hg & Ho).
  exists (length (strand_ (get h))). split; [|done]. rewrite Hg. by apply turns_ticking.
Qed.

Lemma part_ends h : ending (get h) → ∃ k,
  io_running (get (after (replicate k turn) h)) = false ∧
  others (after (replicate k turn) h) = others h.
Proof.
  intros He. destruct (part_turns (S (length (strand_ (get h)))) h) as (es & Hl & Hg & Ho).
  exists (S (length (strand_ (get h)))). split; [|done]. rewrite Hg. apply turns_ending; [lia|done].
Qed.

(** stopAutowareApp gets past the shutdown of the part. *)
Context (k : nat) (call : AgentAction).
Context (Hcall : stop_call k = Some call)
  (Hcalled : ∀ h, get (final (act call) h) =
                  final (FrameBridge.act (Ops := Ops) ShutdownCalled) (get h))
  (Hcall_others : ∀ h, others (final (act call) h) = others h)
  (Hjoined : ∀ h, stop_joined k h = negb (io_running (get h))).

Lemma stop_run_app l l' s : stop_run (l ++ l') s = stop_run l' (stop_run l s).
Proof. apply run_inputs_app. Qed.
Lemma stop_run_cons a l s : stop_run (a :: l) s = stop_run l (stop_step a s).
Proof. done. Qed.
Lemma stop_run_threads l s :
  stop_run (Some <$> l) s = mkStopping (stop_pc s) (after l (stopping s)).
Proof. revert s. induction l as [|a l IH]; intros s; [by destruct s|]. cbn. exact (IH _). Qed.

Lemma part_stops s :
  stop_pc s = (2 * k)%nat → waiting (get (stopping s)) →
  ∃ n s', stop_run (stop_schedule turn n) s = s' ∧
    stop_pc s' = (2 * S k)%nat ∧ others (stopping s') = others (stopping s).
Proof.
  intros Hpc Hw. set (h1 := final (act call) (stopping s)).
  assert (Hs1 : stop_step None s = mkStopping (S (2 * k)) h1).
  { unfold stop_step. by rewrite Hpc, Nat.div2_double, Nat.even_mul, Hcall. }
  destruct (part_ends h1) as (n & Hend & Ho).
  { unfold h1. rewrite Hcalled. by apply shutdown_waits. }
  exists n. eexists. split; [reflexivity|]. unfold stop_schedule.
  rewrite stop_run_cons, Hs1, stop_run_app, stop_run_threads. cbn [stop_pc stopping].
  unfold stop_run, run_inputs, stop_step.
  cbn [stop_pc]. rewrite Nat.div2_succ_double, Nat.even_succ, Nat.odd_mul.
  change (Nat.odd 2) with false. cbn [stopping andb]. rewrite Hjoined, Hend.
  cbn [negb stop_pc stopping]. split; [lia|]. rewrite Ho. apply Hcall_others.
Qed.
End Part.

(** ** The five bridges of the agent *)

Definition location_of h : Location.LocationBridge := App.location_bridge_ (app h).

Lemma planning_act b h :
  final (act (PlanningDoes b)) h =
  h <| planning_bridge_ := final (FrameBridge.act (Ops := Planning.PlanningBridge_ops) b)
                             (planning_bridge_ h) |>.
Proof. unfold final. cbn [act]. unfold in_planning. by destruct (FrameBridge.act b _) as [[? ?] ?]. Qed.
Lemma perception_act b h :
  final (act (PerceptionDoes b)) h =
  h <| perception_bridge_ := final (FrameBridge.act (Ops := Perception.PerceptionBridge_ops) b)
                               (perception_bridge_ h) |>.
Proof.
  unfold final. cbn [act]. unfold in_perception. by destruct (FrameBridge.act b _) as [[? ?] ?].
Qed.
Lemma trip_act b h :
  final (act (TripDoes b)) h =
  h <| trip_bridge_ := final (FrameBridge.act (Ops := TripFrames.TripBridge_ops) b)
                         (trip_bridge_ h) |>.
Proof. unfold final. cbn [act]. unfold in_trip. by destruct (FrameBridge.act b _) as [[? ?] ?]. Qed.
Lemma cluster_act b h :
  let h' := final (act (ClusterDoes b)) h in
  cluster_bridge_ h' = final (FrameBridge.act (Ops := Cluster.ClusterBridge_ops) b)
                         (cluster_bridge_ h) ∧
  planning_bridge_ h' = planning_bridge_ h ∧ perception_bridge_ h' = perception_bridge_ h ∧
  trip_bridge_ h' = trip_bridge_ h ∧ location_of h' = location_of h.
Proof.
  unfold final. cbn [act]. unfold mbind, M_bind, in_cluster.
  by destruct (FrameBridge.act b _) as [[[[]|] ?] ?].
Qed.
(** An action of the location bridge. *)
Definition location_action (a : App.AppAction) : Prop :=
  match a with App.LocationTimer | App.LocationRun _ _ | App.LocationShutdown => True | _ => False end.
Definition location_does (a : App.AppAction) h : BridgeAction Location.Reading bool :=
  match a with
  | App.LocationRun now st =>
    StrandRuns {| Location.read_now := now; Location.gps := App.gps_provider st;
                  Location.trip_id := Some (GetActiveTripId (Stream.trip_manager_
                                              (App.stream_client_ (app h)))) |}
  | App.LocationTimer => TimerExpires
  | _ => ShutdownCalled
  end.
Lemma location_act a h :
  location_action a →
  final (act (AppDoes a)) h =
  h <| app ::= λ x, x <| App.location_bridge_ :=
    final (FrameBridge.act (Ops := Location.LocationBridge_ops) (location_does a h))
      (location_of h) |> |>.
Proof.
  intros Ha. unfold final, location_of. cbn [act]. unfold in_app.
  destruct a; try done; cbn [App.act]; unfold App.on_location, gets, mbind, M_bind;
    cbn -[FrameBridge.act];
    by match goal with |- context [FrameBridge.act ?x ?b] =>
         destruct (FrameBridge.act x b) as [[? ?] ?] end.
Qed.

(** The agent before the shutdown number [k] (see [stop_call]): the bridges still to come wait. *)
Record waits (k : nat) h : Prop := {
  waits_planning : (k <= 0)%nat → waiting (planning_bridge_ h);
  waits_perception : (k <= 1)%nat → waiting (perception_bridge_ h);
  waits_trip : (k <= 2)%nat → waiting (trip_bridge_ h);
  waits_cluster : (k <= 3)%nat → waiting (cluster_bridge_ h);
  waits_location : (k <= 4)%nat → waiting (location_of h)
}.

(** No bridge has been shut down. *)
Record ticks h : Prop := {
  ticks_planning : ticking (planning_bridge_ h);
  ticks_perception : ticking (perception_bridge_ h);
  ticks_trip : ticking (trip_bridge_ h);
  ticks_cluster : ticking (cluster_bridge_ h);
  ticks_location : ticking (location_of h)
}.

(** The turns of the io threads. *)
Definition planning_turn : AgentAction := PlanningDoes (StrandRuns 0).
Definition perception_turn : AgentAction := PerceptionDoes (StrandRuns 0).
Definition trip_turn : AgentAction := TripDoes (StrandRuns (TripFrames.mkSurroundings 0 0 TripStatus_default)).
Definition cluster_turn : AgentAction := ClusterDoes (StrandRuns 0).
Definition location_turn : AgentAction := AppDoes (App.LocationRun 0 TripStatus_default).

(** The components a part's turns leave alone. *)
Definition other_parts (k : nat) h :=
  (if decide (k = 0%nat) then None else Some (planning_bridge_ h),
   if decide (k = 1%nat) then None else Some (perception_bridge_ h),
   if decide (k = 2%nat) then None else Some (trip_bridge_ h),
   if decide (k = 3%nat) then None else Some (cluster_bridge_ h),
   if decide (k = 4%nat) then None else Some (location_of h)).

Lemma planning_turned h : ∃ e, planning_bridge_ (final (act planning_turn) h) =
  final (FrameBridge.act (Ops := Planning.PlanningBridge_ops) (StrandRuns e)) (planning_bridge_ h).
Proof. exists 0. unfold planning_turn. by rewrite planning_act. Qed.
Lemma perception_turned h : ∃ e, perception_bridge_ (final (act perception_turn) h) =
  final (FrameBridge.act (Ops := Perception.PerceptionBridge_ops) (StrandRuns e))
    (perception_bridge_ h).
Proof. exists 0. unfold perception_turn. by rewrite perception_act. Qed.
Lemma trip_turned h : ∃ e, trip_bridge_ (final (act trip_turn) h) =
  final (FrameBridge.act (Ops := TripFrames.TripBridge_ops) (StrandRuns e)) (trip_bridge_ h).
Proof. eexists. unfold trip_turn. by rewrite trip_act. Qed.
Lemma cluster_turned h : ∃ e, cluster_bridge_ (final (act cluster_turn) h) =
  final (FrameBridge.act (Ops := Cluster.ClusterBridge_ops) (StrandRuns e)) (cluster_bridge_ h).
Proof. exists 0. apply cluster_act. Qed.
Lemma location_turned h : ∃ e, location_of (final (act location_turn) h) =
  final (FrameBridge.act (Ops := Location.LocationBridge_ops) (StrandRuns e)) (location_of h).
Proof. eexists. unfold location_turn. by rewrite location_act. Qed.

Lemma planning_others b h : other_parts 0 (final (act (PlanningDoes b)) h) = other_parts 0 h.
Proof. by rewrite planning_act. Qed.
Lemma perception_others b h : other_parts 1 (final (act (PerceptionDoes b)) h) = other_parts 1 h.
Proof. by rewrite perception_act. Qed.
Lemma trip_others b h : other_parts 2 (final (act (TripDoes b)) h) = other_parts 2 h.
Proof. by rewrite trip_act. Qed.
Lemma cluster_others b h : other_parts 3 (final (act (ClusterDoes b)) h) = other_parts 3 h.
Proof.
  destruct (cluster_act b h) as (_ & Hp & Hq & Ht & Hl). unfold other_parts.
  by rewrite Hp, Hq, Ht, Hl.
Qed.
Lemma location_others a h :
  location_action a → other_parts 4 (final (act (AppDoes a)) h) = other_parts 4 h.
Proof. intros Ha. by rewrite location_act. Qed.

Lemma location_turn_others h : other_parts 4 (final (act location_turn) h) = other_parts 4 h.
Proof. by apply location_others. Qed.

Lemma after_cons a l h : after (a :: l) h = after l (final (act a) h).
Proof. done. Qed.
Lemma after_app l l' h : after (l ++ l') h = after l' (after l h).
Proof. apply run_inputs_app. Qed.

(** Every bridge can be brought to wait. *)
Lemma ticks_waits h : ticks h → ∃ l,
  Forall (λ a, is_call a = false ∧ from_ros a = false) l ∧ waits 0 (after l h).
Proof.
  intros [Hp Hq Ht Hc Hl].
  destruct (part_drains _ _ _ planning_turned (planning_others _) h Hp) as (n0 & W0 & O0).
  set (h0 := after (replicate n0 _) h) in *. injection O0 as Eq0 Et0 Ec0 El0.
  rewrite <- Eq0 in Hq. rewrite <- Et0 in Ht. rewrite <- Ec0 in Hc. rewrite <- El0 in Hl.
  destruct (part_drains _ _ _ perception_turned (perception_others _) h0 Hq) as (n1 & W1 & O1).
  set (h1 := after (replicate n1 _) h0) in *. injection O1 as Ep1 Et1 Ec1 El1.
  rewrite <- Ep1 in W0. rewrite <- Et1 in Ht. rewrite <- Ec1 in Hc. rewrite <- El1 in Hl.
  destruct (part_drains _ _ _ trip_turned (trip_others _) h1 Ht) as (n2 & W2 & O2).
  set (h2 := after (replicate n2 _) h1) in *. injection O2 as Ep2 Eq2 Ec2 El2.
  rewrite <- Ep2 in W0. rewrite <- Eq2 in W1. rewrite <- Ec2 in Hc. rewrite <- El2 in Hl.
  destruct (part_drains _ _ _ cluster_turned (cluster_others _) h2 Hc) as (n3 & W3 & O3).
  set (h3 := after (replicate n3 _) h2) in *. injection O3 as Ep3 Eq3 Et3 El3.
  rewrite <- Ep3 in W0. rewrite <- Eq3 in W1. rewrite <- Et3 in W2. rewrite <- El3 in Hl.
  destruct (part_drains _ _ _ location_turned location_turn_others h3 Hl) as (n4 & W4 & O4).
  set (h4 := after (replicate n4 _) h3) in *. injection O4 as Ep4 Eq4 Et4 Ec4.
  rewrite <- Ep4 in W0. rewrite <- Eq4 in W1. rewrite <- Et4 in W2. rewrite <- Ec4 in W3.
  exists (replicate n0 planning_turn ++ replicate n1 perception_turn ++ replicate n2 trip_turn ++
          replicate n3 cluster_turn ++ replicate n4 location_turn).
  split; [rewrite !Forall_app; split_and!; by apply Forall_replicate|].
  rewrite !after_app. by split.
Qed.

(** stopAutowareApp gets past the shutdown of the next bridge. *)
Lemma waits_next k s :
  (k < 5)%nat → stop_pc s = (2 * k)%nat → waits k (stopping s) →
  ∃ turn n, is_call turn = false ∧ from_ros turn = false ∧
    stop_pc (stop_run (stop_schedule turn n) s) = (2 * S k)%nat ∧
    waits (S k) (stopping (stop_run (stop_schedule turn n) s)).
Proof.
  intros Hk Hpc [W0 W1 W2 W3 W4].
  destruct k as [|[|[|[|[|k]]]]]; [..|lia].
  - destruct (part_stops _ _ _ planning_turned (planning_others _) 0 _ eq_refl
      (λ h, f_equal planning_bridge_ (planning_act _ h)) (planning_others _) (λ _, eq_refl) s Hpc)
      as (n & s' & Hs' & Hpc' & Ho); [auto|].
    exists planning_turn, n. rewrite Hs'. do 2 (split; [done|]). split; [exact Hpc'|]. injection Ho as Eq Et Ec El.
    split; intros ?; [lia|..]; rewrite ?Eq, ?Et, ?Ec, ?El; auto with lia.
  - destruct (part_stops _ _ _ perception_turned (perception_others _) 1 _ eq_refl
      (λ h, f_equal perception_bridge_ (perception_act _ h)) (perception_others _) (λ _, eq_refl) s
      Hpc) as (n & s' & Hs' & Hpc' & Ho); [auto|].
    exists perception_turn, n. rewrite Hs'. do 2 (split; [done|]). split; [exact Hpc'|]. injection Ho as Ep Et Ec El.
    split; intros ?; [lia|lia|..]; rewrite ?Et, ?Ec, ?El; auto with lia.
  - destruct (part_stops _ _ _ trip_turned (trip_others _) 2 _ eq_refl
      (λ h, f_equal trip_bridge_ (trip_act _ h)) (trip_others _) (λ _, eq_refl) s
      Hpc) as (n & s' & Hs' & Hpc' & Ho); [auto|].
    exists trip_turn, n. rewrite Hs'. do 2 (split; [done|]). split; [exact Hpc'|]. injection Ho as Ep Eq Ec El.
    split; intros ?; [lia..| |]; rewrite ?Ec, ?El; auto with lia.
  - destruct (part_stops _ _ _ cluster_turned (cluster_others _) 3 _ eq_refl
      (λ h, proj1 (cluster_act _ h)) (cluster_others _) (λ _, eq_refl) s
      Hpc) as (n & s' & Hs' & Hpc' & Ho); [auto|].
    exists cluster_turn, n. rewrite Hs'. do 2 (split; [done|]). split; [exact Hpc'|]. injection Ho as Ep Eq Et El.
    split; intros ?; [lia..|]; rewrite ?El; auto with lia.
  - destruct (part_stops _ _ _ location_turned location_turn_others 4 _ eq_refl
      (λ h, f_equal location_of (location_act App.LocationShutdown h I))
      (λ h, location_others App.LocationShutdown h I) (λ _, eq_refl) s
      Hpc) as (n & s' & Hs' & Hpc' & Ho); [auto|].
    exists location_turn, n. rewrite Hs'. do 2 (split; [done|]). split; [exact Hpc'|]. split; lia.
Qed.

(** ** The stream client of the agent *)

(** The steps of the client's threads that hand no command over. *)
Definition winds_down (a : Stream.StreamAction) : Prop :=
  match a with
  | Stream.Shutdown | Stream.ReaderStep None | Stream.WriterStep _ | Stream.WatchdogStep _
  | Stream.FinishStream _ | Stream.Open _ => True
  | _ => False
  end.
Definition client_of h : App.Client := App.stream_client_ (app h).

Definition no_handler (e : Stream.Effect) : Prop :=
  match e with Stream.Handler _ => False | _ => True end.

Lemma winds_down_quiet {T E L} `{ITripManager T} `{IEtaProvider E} `{ILocationProvider L}
    a (c : Stream.StreamClient T E L) :
  winds_down a → Forall no_handler (outputs (Stream.act a) c).
Proof.
  intros Ha. destruct a as [r|t|ok|t|[cmd|]|t| |]; try done; cbn [Stream.act].
  all: match goal with |- Forall _ (outputs ?m ?x) =>
         change (wp m x (λ _ _ out, Forall no_handler out)) end; step_cases; by repeat constructor.
Qed.

Lemma no_handler_ignored (l : list Stream.Effect) (x : App.AppHandles Mp) :
  Forall no_handler l → App.for_each App.handle_effect l x = (Ret (), x, []).
Proof.
  induction 1 as [|e l He _ IH]; [done|]. cbn [App.for_each]. unfold mbind, M_bind.
  destruct e; try done; cbn; by rewrite IH.
Qed.

Lemma client_winds_down a h :
  winds_down a → ∃ st,
  client_of (final (act (AppDoes (App.ClientStep a))) h) =
  final (Stream.act a) (App.refresh st (client_of h)).
Proof.
  intros Ha. exists (status_of_agent h). unfold client_of. cbn [act].
  assert (Happ : app (final (in_app (App.act (App.ClientStep a))) h) =
                 final (App.act (App.ClientStep a)) (app h)).
  { unfold final, in_app. by destruct (App.act _ (app h)) as [[? ?] ?]. }
  rewrite Happ.
  destruct (on_client_run a (app h)) as (Hr & Hf & _); [by destruct a|].
  assert (Hact : App.act (App.ClientStep a) =
    (effects ← App.on_client (Stream.act a); App.for_each App.handle_effect effects))
    by (by destruct a as [r|t|ok|t|[cmd|]|t| |]).
  rewrite Hact, (final_bind _ _ _ _ Hr), Hf. unfold final at 1.
  rewrite no_handler_ignored by (by apply winds_down_quiet). done.
Qed.

(** The turns by which the threads of a client that has been shut down end: if it sleeps, it wakes
    up first. *)
Definition client_turns (c : App.Client) : list Stream.StreamAction :=
  [Stream.ReaderStep None; Stream.WriterStep true; Stream.WriterStep true;
   Stream.WatchdogStep 0; Stream.WatchdogStep 0; Stream.FinishStream 0;
   Stream.Open match Stream.reconnect c with Stream.Pausing until => until | _ => 0 end].

(** Steps of the client that see the controller in the states [sts]. *)
Definition client_run (l : list (Stream.StreamAction * TripStatus)) (c : App.Client) : App.Client :=
  foldl (λ c x, final (Stream.act x.1) (App.refresh x.2 c)) c l.
Definition client_actions (l : list Stream.StreamAction) : list AgentAction :=
  (λ a, AppDoes (App.ClientStep a)) <$> l.

Lemma client_runs l h :
  Forall winds_down l → ∃ sts, length sts = length l ∧
  client_of (after (client_actions l) h) = client_run (zip l sts) (client_of h).
Proof.
  intros Hl. revert h. induction Hl as [|a l Ha _ IH]; intros h; [by exists []|].
  destruct (client_winds_down a h Ha) as [st Hst].
  destruct (IH (final (act (AppDoes (App.ClientStep a))) h)) as (sts & Hlen & Heq).
  exists (st :: sts). split; [cbn; lia|].
  change (after (client_actions (a :: l)) h) with
    (after (client_actions l) (final (act (AppDoes (App.ClientStep a))) h)).
  by rewrite Heq, Hst.
Qed.

Lemma client_run_ends sts c :
  length sts = 8%nat →
  Stream.thread_ended (client_run (zip (Stream.Shutdown :: client_turns c) sts) c) = true.
Proof.
  intros Hlen. destruct sts as [|s1 [|s2 [|s3 [|s4 [|s5 [|s6 [|s7 [|s8 [|]]]]]]]]]; try done.
  destruct c as [tm ep lp vin hd rid sd q [[dead rr w wd rd]|] rc].
  - destruct rd, w as [|ev|], wd as [d|d|], rr, dead; reflexivity.
  - destruct rc as [|t|]; [reflexivity| |reflexivity]. cbv -[Z.ltb]. by rewrite Z.ltb_irrefl.
Qed.

Lemma client_ends h :
  Stream.thread_ended (client_of (after (client_actions (client_turns (client_of h)))
    (final (act (AppDoes (App.ClientStep Stream.Shutdown))) h))) = true.
Proof.
  rewrite <- after_cons.
  destruct (client_runs (Stream.Shutdown :: client_turns (client_of h)) h) as (sts & Hlen & Heq).
  - by repeat constructor.
  - unfold client_actions in *. rewrite fmap_cons in Heq. rewrite Heq. by apply client_run_ends.
Qed.

Lemma stop_shutdown_client h :
  stop_step None (mkStopping 10 h) =
  mkStopping 11 (final (act (AppDoes (App.ClientStep Stream.Shutdown))) h).
Proof. reflexivity. Qed.
Lemma stop_join_client h :
  Stream.thread_ended (client_of h) = true →
  stop_step None (mkStopping 11 h) = mkStopping 12 h.
Proof.
  intros Hc. unfold stop_step. cbn [stop_pc stopping].
  change (Nat.even 11) with false. change (Nat.div2 11) with 5%nat. cbv beta iota zeta.
  unfold stop_joined. fold (client_of h). by rewrite Hc.
Qed.

Lemma stop_client s :
  stop_pc s = 10%nat →
  stop_pc (stop_run (None :: (Some <$> client_actions (client_turns (client_of (stopping s)))) ++
                     [None]) s) = 12%nat.
Proof.
  destruct s as [pc h]. cbn [stop_pc]. intros ->.
  rewrite stop_run_cons, stop_shutdown_client, stop_run_app, stop_run_threads.
  cbn [stop_pc stopping]. rewrite stop_run_cons, stop_join_client by apply client_ends. done.
Qed.
End Parts.
