(* ===== verification/ZenohTheorems.v ===== *)
(** * ZenohTheorems: what subscribers receive

    Each key carries the frames of its bridge and nothing else, in order, numbered from 0: proved
    for a bridge inside the agent in general, then for each. *)

From S2P Require Export Zenoh AgentParts.
Import FrameBridge Agent Zenoh.
#[local] Existing Instances App.AppHandles_eta Stream.StreamClient_eta.

Section Frames.
Context {Mp : Type} `{RouteMap Mp} `{Clocks} `{AutowareMsgs} `{Pcl}.
Implicit Types (h : Handles Mp) (l : list AgentAction) (t : list AgentEffect).

(** ** A bridge inside the agent: its part of an execution *)
Section Part.
Context {St Env Msg Frame : Type} {Ops : BridgeOps St Env Msg Frame}.
Context (get : Handles Mp → Bridge St Msg) (event : AgentEffect → option (BridgeEvent Env Msg Frame)).
Context (own : AgentAction → Handles Mp → list (BridgeAction Env Msg)).
Context (Hstep : ∀ a h,
  get (final (act a) h) = final (act_all (Ops := Ops) (own a h)) (get h) ∧
  omap event (outputs (act a) h) = outputs (act_all (Ops := Ops) (own a h)) (get h)).

Fixpoint own_actions l h : list (BridgeAction Env Msg) :=
  match l with
  | [] => []
  | a :: l' => own a h ++ own_actions l' (final (act a) h)
  end.

Lemma act_all_split (l l' : list (BridgeAction Env Msg)) (b : Bridge St Msg) :
  final (act_all (Ops := Ops) (l ++ l')) b =
    final (act_all (Ops := Ops) l') (final (act_all (Ops := Ops) l) b) ∧
  outputs (act_all (Ops := Ops) (l ++ l')) b =
    outputs (act_all (Ops := Ops) l) b ++
    outputs (act_all (Ops := Ops) l') (final (act_all (Ops := Ops) l) b).
Proof.
  destruct (act_all_ok (Ops := Ops) l b) as (b' & t & Heq & _).
  unfold final, outputs. rewrite (act_all_app _ l' _ _ _ Heq), Heq. cbn [fst snd].
  by destruct (act_all l' b') as [[? ?] ?].
Qed.

Lemma part_runs l h :
  get (after l h) = final (act_all (Ops := Ops) (own_actions l h)) (get h) ∧
  omap event (trace l h) = outputs (act_all (Ops := Ops) (own_actions l h)) (get h).
Proof.
  revert h. induction l as [|a l IH]; intros h; [done|]. cbn [own_actions trace].
  destruct (Hstep a h) as [Hg Ho]. destruct (IH (final (act a) h)) as [Hg' Ho'].
  destruct (act_all_split (own a h) (own_actions l (final (act a) h)) (get h)) as [-> ->].
  rewrite omap_app, Ho, Ho', Hg in *. split; [|done].
  change (after (a :: l) h) with (after l (final (act a) h)). exact Hg'.
Qed.

(** The [k]-th frame of the part was built with the number [k]. *)
Lemma part_numbered {Topic} `{EqDecision Topic} {topic : Msg → Topic} {Laws : BridgeLaws Ops Topic topic}
    (seq : Frame → Z) (s0 : St) l h k f :
  (∀ e n s f', bridge_frame e n s = Some f' → seq f' = n) →
  get h = Bridge_new s0 → frames_published (omap event (trace l h)) !! k = Some f →
  seq f = wrap 64 (Z.of_nat k).
Proof.
  intros Hseq Hnew Hk. destruct (part_runs l h) as [_ Ht]. rewrite Ht, Hnew in Hk.
  apply omap_split in Hk as (t1 & x & t2 & Hsplit & Hx & Hlen).
  destruct x as [? ?|e f'|?]; try done. injection Hx as ->.
  pose proof (published_frame (Laws := Laws) _ s0 t1 e f t2 Hsplit) as Hf.
  unfold frames_published in Hf. rewrite Hlen in Hf. by apply Hseq in Hf.
Qed.
End Part.

(** ** The parts *)
Definition cluster_events t : list (BridgeEvent Z Cluster.Msg vehicle_frame.VehicleFrame) :=
  omap (λ e, match e with ClusterOut e => Some e | _ => None end) t.
Definition planning_events t : list (BridgeEvent Z Planning.Msg vehicle_frame.PlanningFrame) :=
  omap (λ e, match e with PlanningOut e => Some e | _ => None end) t.
Definition perception_events t : list (BridgeEvent Z Perception.Msg vehicle_frame.PerceptionFrame) :=
  omap (λ e, match e with PerceptionOut e => Some e | _ => None end) t.
Definition location_events t : list (BridgeEvent Location.Reading bool Location.LocationJson) :=
  omap (λ e, match e with AppOut (App.LocationEffect e) => Some e | _ => None end) t.

Definition cluster_own (a : AgentAction) h : list (BridgeAction Z Cluster.Msg) :=
  match a with ClusterDoes b => [b] | _ => [] end.
Definition planning_own (a : AgentAction) h : list (BridgeAction Z Planning.Msg) :=
  match a with PlanningDoes b => [b] | _ => [] end.
Definition perception_own (a : AgentAction) h : list (BridgeAction Z Perception.Msg) :=
  match a with PerceptionDoes b => [b] | _ => [] end.
Definition trip_own (a : AgentAction) h :
    list (BridgeAction TripFrames.Surroundings TripFrames.Msg) :=
  match a with TripDoes b => [b] | _ => [] end.

Lemma act_all_one {St Env Msg Frame} {Ops : BridgeOps St Env Msg Frame} a (b : Bridge St Msg) :
  final (act_all (Ops := Ops) [a]) b = final (FrameBridge.act (Ops := Ops) a) b ∧
  outputs (act_all (Ops := Ops) [a]) b = outputs (FrameBridge.act (Ops := Ops) a) b.
Proof.
  destruct (bridge_act_ok (Ops := Ops) a b) as (b' & t & Heq & _).
  destruct (act_all_cons a [] _ _ _ Heq) as [-> ->]. unfold final, outputs. rewrite Heq.
  cbn. by rewrite app_nil_r.
Qed.

(** What each kind of action changes and lets out. *)
Lemma act_effects a h :
  match a with
  | AppDoes b => ∃ x out, final (act a) h = h <| app := x |> ∧ outputs (act a) h = AppOut <$> out
  | ClusterDoes b =>
    let m := FrameBridge.act (Ops := Cluster.ClusterBridge_ops) b in
    ∃ x, final (act a) h = h <| cluster_bridge_ := final m (cluster_bridge_ h) |> <| app := x |> ∧
         outputs (act a) h = ClusterOut <$> outputs m (cluster_bridge_ h)
  | PlanningDoes b =>
    let m := FrameBridge.act (Ops := Planning.PlanningBridge_ops) b in
    final (act a) h = h <| planning_bridge_ := final m (planning_bridge_ h) |> ∧
    outputs (act a) h = PlanningOut <$> outputs m (planning_bridge_ h)
  | PerceptionDoes b =>
    let m := FrameBridge.act (Ops := Perception.PerceptionBridge_ops) b in
    final (act a) h = h <| perception_bridge_ := final m (perception_bridge_ h) |> ∧
    outputs (act a) h = PerceptionOut <$> outputs m (perception_bridge_ h)
  | TripDoes b =>
    let m := FrameBridge.act (Ops := TripFrames.TripBridge_ops) b in
    final (act a) h = h <| trip_bridge_ := final m (trip_bridge_ h) |> ∧
    outputs (act a) h = TripOut <$> outputs m (trip_bridge_ h)
  end.
Proof.
  destruct a as [a|a|a|a|a]; cbn [act]; unfold final, outputs.
  - unfold in_app. destruct (App.act a (app h)) as [[o x] out]. by exists x, out.
  - unfold mbind, M_bind, in_cluster.
    destruct (bridge_act_ok (Ops := Cluster.ClusterBridge_ops) a (cluster_bridge_ h))
      as (b & t & -> & _). cbn. rewrite app_nil_r. by eexists.
  - unfold in_planning. by destruct (FrameBridge.act a (planning_bridge_ h)) as [[o b] out].
  - unfold in_perception. by destruct (FrameBridge.act a (perception_bridge_ h)) as [[o b] out].
  - unfold in_trip. by destruct (FrameBridge.act a (trip_bridge_ h)) as [[o b] out].
Qed.

(** The same, seen from one of the bridges. *)
Ltac seen_from_part a h own :=
  pose proof (act_effects a h) as He; destruct a as [b|b|b|b|b]; cbn [own]; cbv zeta in He;
  repeat match type of He with _ ∧ _ => destruct He as [-> ->] | ∃ _, _ => destruct He as [? He] end;
  match goal with
  | |- context [act_all (Ops := ?O) [?x]] =>
    match goal with |- _ ∧ _ = outputs _ ?p =>
      destruct (act_all_one (Ops := O) x p) as [-> ->]; split; [done|by apply omap_tagged] end
  | |- _ => split; [done|by apply omap_untagged]
  end.

Lemma cluster_step a h :
  cluster_bridge_ (final (act a) h) =
    final (act_all (Ops := Cluster.ClusterBridge_ops) (cluster_own a h)) (cluster_bridge_ h) ∧
  cluster_events (outputs (act a) h) =
    outputs (act_all (Ops := Cluster.ClusterBridge_ops) (cluster_own a h)) (cluster_bridge_ h).
Proof. unfold cluster_events. seen_from_part a h cluster_own. Qed.
Lemma planning_step a h :
  planning_bridge_ (final (act a) h) =
    final (act_all (Ops := Planning.PlanningBridge_ops) (planning_own a h)) (planning_bridge_ h) ∧
  planning_events (outputs (act a) h) =
    outputs (act_all (Ops := Planning.PlanningBridge_ops) (planning_own a h)) (planning_bridge_ h).
Proof. unfold planning_events. seen_from_part a h planning_own. Qed.
Lemma perception_step a h :
  perception_bridge_ (final (act a) h) =
    final (act_all (Ops := Perception.PerceptionBridge_ops) (perception_own a h))
      (perception_bridge_ h) ∧
  perception_events (outputs (act a) h) =
    outputs (act_all (Ops := Perception.PerceptionBridge_ops) (perception_own a h))
      (perception_bridge_ h).
Proof. unfold perception_events. seen_from_part a h perception_own. Qed.
Lemma trip_step a h :
  trip_bridge_ (final (act a) h) =
    final (act_all (Ops := TripFrames.TripBridge_ops) (trip_own a h)) (trip_bridge_ h) ∧
  trip_events (outputs (act a) h) =
    outputs (act_all (Ops := TripFrames.TripBridge_ops) (trip_own a h)) (trip_bridge_ h).
Proof. unfold trip_events. seen_from_part a h trip_own. Qed.

(** ** The session *)
Context `{!Serializers}.

Lemma received_publish k p v s :
  received k (publish p v s) = received k s ++ (if decide (key p = k) then [v] else []).
Proof.
  unfold received, publish. cbn. rewrite filter_app, fmap_app. f_equal.
  rewrite filter_cons, filter_nil. cbn. by case_decide.
Qed.

(** What one key gets from an execution: the serialized frames of one bridge. *)
Lemma received_after {Env Msg Frame} (event : AgentEffect → option (BridgeEvent Env Msg Frame))
    (serialize : Frame → string) k p s t :
  (∀ e s', received k (on_session p e s') =
           received k s' ++ (serialize <$> frames_published (option_list (event e)))) →
  received k (foldl (λ s e, on_session p e s) s t) =
  received k s ++ (serialize <$> frames_published (omap event t)).
Proof.
  intros He. revert s. induction t as [|e t IH]; intros s; cbn; [by rewrite app_nil_r|].
  rewrite IH, He, <- app_assoc. f_equal. unfold frames_published.
  destruct (event e) as [[]|]; cbn; done.
Qed.

(** The frames carry the numbers 0, 1, 2, ... modulo 2^64. *)
Definition numbered {Frame} (seq : Frame → Z) (l : list Frame) : Prop :=
  ∀ k f, l !! k = Some f → seq f = wrap 64 (Z.of_nat k).
End Frames.

Section Started.
Context `{Lanelet2} `{YamlCpp} `{Clocks} `{AutowareMsgs} `{Pcl} `{!Serializers}.

(** C11: what the subscribers receive.  In any execution of the started agent, with the frames of the
    five bridges interleaved in any way, a subscriber to a bridge's key gets that bridge's frames
    and no other samples, each serialized, in the order of their publication; on the four keys with
    protobuf frames the [k]-th of them carries the number [k] modulo 2^64, so that a gap or a
    duplicate can be told. *)
Theorem subscribers_receive exists_ dirs yaml_path radius now h l s0 :
  startAgent exists_ dirs yaml_path radius now = Ret h →
  let t := trace l h in
  let s := session_after t s0 in
  let vehicle := frames_published (cluster_events t) in
  let planning := frames_published (planning_events t) in
  let perception := frames_published (perception_events t) in
  let trip := frames_published (trip_events t) in
  received "autoware/cluster" s =
    received "autoware/cluster" s0 ++ (serialize_vehicle <$> vehicle) ∧
  received "autoware/planning" s =
    received "autoware/planning" s0 ++ (serialize_planning <$> planning) ∧
  received "autoware/perception" s =
    received "autoware/perception" s0 ++ (serialize_perception <$> perception) ∧
  received "autoware/trip" s = received "autoware/trip" s0 ++ (serialize_trip <$> trip) ∧
  received "autoware/location" s =
    received "autoware/location" s0 ++ (dump <$> frames_published (location_events t)) ∧
  numbered vehicle_frame.vf_seq vehicle ∧ numbered vehicle_frame.pf_seq planning ∧
  numbered vehicle_frame.pe_seq perception ∧ numbered vehicle_frame.tf_seq trip.
Proof.
  unfold startAgent. rewrite outcome_bind_Ret. intros (x & _ & [= <-]). cbv zeta.
  unfold session_after. cbn [declare_publishers ZenohPublisher_new].
  split_and!.
  1: refine (received_after _ serialize_vehicle _ _ _ _ _).
  2: refine (received_after _ serialize_planning _ _ _ _ _).
  3: refine (received_after _ serialize_perception _ _ _ _ _).
  4: refine (received_after _ serialize_trip _ _ _ _ _).
  5: refine (received_after _ dump _ _ _ _ _).
  1-5: intros [[| |[]|]|[]|[]|[]|[]] s'; cbn [on_session];
    unfold broadcast_vehicle, broadcast_planning, broadcast_perception, broadcast_trip,
      broadcast_location;
    rewrite ?received_publish; cbn; by rewrite ?app_nil_r.
  - intros k f. eapply (part_numbered cluster_bridge_ _ cluster_own cluster_step); [|done].
    by intros ? ? ? ? [= <-].
  - intros k f. eapply (part_numbered planning_bridge_ _ planning_own planning_step); [|done].
    by intros ? ? ? ? [= <-].
  - intros k f. eapply (part_numbered perception_bridge_ _ perception_own perception_step); [|done].
    by intros ? ? ? ? [= <-].
  - intros k f. eapply (part_numbered trip_bridge_ _ trip_own trip_step); [|done].
    by intros ? ? ? ? [= <-].
Qed.
End Started.
