(* ===== verification/AgentKeeps.v ===== *)
(** * AgentKeeps: what no thread of the agent undoes

    No thread but main's shuts a bridge down, an io thread that has ended does not start again, and
    a client that has been shut down opens no connection. *)

From S2P Require Export AgentParts.
Import FrameBridge Agent Main.
#[local] Existing Instances App.AppHandles_eta Stream.StreamClient_eta.

Section Parts.
Context {Mp : Type} `{RouteMap Mp} `{Clocks} `{AutowareMsgs} `{Pcl}.
Implicit Types (h : Handles Mp) (s : Stopping (Mp := Mp)).

(** ** Threads other than main's shut no bridge down *)

(** What every part of the application's actions keeps, its actions keep. *)
Section AppKeeps.
Context (P : App.AppHandles Mp → Prop) (sd : bool)
  (Hctl : ∀ op, keeps P (App.on_controller op))
  (Hcl : ∀ st a, keeps P (App.on_client_with st (Stream.act a)))
  (Hflag : ∀ b, keeps P (App.on_location (Location.setStreamingEnabled b)))
  (Hloc : ∀ b, (b = ShutdownCalled → sd = true) →
               keeps P (App.on_location (FrameBridge.act (Ops := Location.LocationBridge_ops) b))).

Lemma part_keeps_client a : keeps P (App.on_client (Stream.act a)).
Proof. apply keeps_bind; [apply keeps_gets|]. intros. apply Hcl. Qed.
Lemma part_keeps_call op : keeps P (App.call op).
Proof. apply keeps_bind; [apply Hctl|]. intros. apply keeps_ret. Qed.
Lemma part_keeps_send r : keeps P (App.send (Stream.report r)).
Proof. apply keeps_bind; [apply (part_keeps_client (Stream.DoReport r))|]. intros. apply keeps_ret. Qed.
Lemma keeps_send_at st r : keeps P (App.send_at st (Stream.report r)).
Proof. apply keeps_bind; [apply (Hcl st (Stream.DoReport r))|]. intros. apply keeps_ret. Qed.

Lemma part_keeps_event e : keeps P (App.handle_event e).
Proof.
  destruct e as [o|cb ok|cb st|cb r|prev next st|k|line]; cbn; try apply keeps_ret.
  - repeat case_match; try apply keeps_ret; apply keeps_emit.
  - case_match; [apply (part_keeps_send (Stream.RLocation _ _))|apply keeps_ret].
  - case_match; [|apply keeps_ret]. unfold App.on_eta. case_match; [apply keeps_emit|].
    apply keeps_bind; [|intros _; apply part_keeps_call].
    apply (part_keeps_send (Stream.REta (App.total_distance r) (App.total_eta r) (App.trip_fare r))).
  - pose proof (keeps_send_at st Stream.RArrive) as Harrive.
    pose proof (λ line, keeps_send_at st (Stream.RStatus line)) as Hstatus.
    pose proof (keeps_send_at st Stream.RTripInitAck) as Hack.
    unfold App.trip_state_callback. destruct next; try apply keeps_ret.
    + exact (Hflag true).
    + apply keeps_bind; [exact Hack|intros _]. apply keeps_bind; [exact Harrive|intros _].
      apply keeps_bind; [exact (Hstatus "ARRIVED_AT_PICKUP")|intros _]. exact (Hflag false).
    + exact (Hstatus "IN_PROGRESS").
    + apply keeps_bind; [exact Harrive|intros _]. exact (Hstatus "COMPLETED").
    + exact (Hstatus "ERROR").
Qed.
Lemma part_keeps_effect e : keeps P (App.handle_effect e).
Proof.
  destruct e as [| | | | | |cmd]; try apply keeps_ret.
  destruct cmd as [r|v i|v|v|v|v i|]; cbn; try apply keeps_ret; try apply part_keeps_call.
  - apply keeps_bind; [apply (part_keeps_send (Stream.ROrderUpdateLocationAck _ _))|]. intros.
    apply part_keeps_call.
  - apply keeps_bind; [apply part_keeps_call|intros _].
    apply keeps_bind; [apply (part_keeps_send (Stream.RTripCancelAck _ _))|intros _].
    apply (part_keeps_send (Stream.RStatus _)).
Qed.

Lemma keeps_app a : (a = App.LocationShutdown → sd = true) → keeps P (App.act a).
Proof.
  intros Ha. assert (Hnode : ∀ na, keeps P (App.node_step na)).
  { intros na. apply keeps_bind; [apply Hctl|]. intros. apply keeps_for_each, part_keeps_event. }
  destruct a as [|m|env|a| |now st|]; try apply Hnode.
  - destruct a as [r|t|ok|t|read|t| |]; [apply keeps_ret|..];
      (apply keeps_bind; [apply part_keeps_client|]; intros; apply keeps_for_each, part_keeps_effect).
  - by apply Hloc.
  - apply keeps_bind; [apply keeps_gets|]. intros. by apply Hloc.
  - apply Hloc. intros _. by apply Ha.
Qed.
End AppKeeps.

(** A property of the location bridge that its actions and its flags keep. *)
Lemma part_keeps_location (Q : Location.LocationBridge → Prop) sd a :
  (∀ b x, (b = ShutdownCalled → sd = true) → Q x →
          Q (final (FrameBridge.act (Ops := Location.LocationBridge_ops) b) x)) →
  (∀ f x, Q x → Q (x <| strand_ ::= λ q, q ++ [Handle f] |>)) →
  (a = App.LocationShutdown → sd = true) →
  keeps (λ x, Q (App.location_bridge_ x)) (App.act (Mp := Mp) a).
Proof.
  intros Hact Hpost Ha. apply (keeps_app _ sd); [| | | |exact Ha].
  - intros op x Hx. unfold wp, final, App.on_controller.
    by destruct (op (App.controller_ x)) as [[[] ?] ?].
  - intros st op x Hx. unfold wp, final, App.on_client_with.
    by destruct (Stream.act op _) as [[[] ?] ?].
  - intros f x Hx. apply (Hpost f _ Hx).
  - intros b Hb x Hx. specialize (Hact b _ Hb Hx). unfold wp, final, App.on_location in *.
    by destruct (FrameBridge.act b (App.location_bridge_ x)) as [[? ?] ?].
Qed.

Lemma post_ticking f (x : Location.LocationBridge) :
  ticking x → ticking (x <| strand_ ::= λ q, q ++ [Handle f] |>).
Proof.
  intros [Ht Hr]. split; [|exact Hr]. unfold tokens in *.
  change (strand_ (set _ _ _)) with (strand_ x ++ [Handle f]).
  rewrite ticks_queued_app, Nat.add_0_r. exact Ht.
Qed.

Lemma location_keeps_ticking a :
  a ≠ App.LocationShutdown → keeps (λ x, ticking (App.location_bridge_ x)) (App.act (Mp := Mp) a).
Proof.
  intros Ha. apply (part_keeps_location _ false); [|apply post_ticking|by intros ->].
  intros b x Hb. apply ticking_act. intros ->. by specialize (Hb eq_refl).
Qed.
Lemma location_keeps_ended a :
  keeps (λ x, io_running (App.location_bridge_ x) = false) (App.act (Mp := Mp) a).
Proof.
  by apply (part_keeps_location (λ x, io_running x = false) true); [intros; apply ended_act|..].
Qed.

(** A client that has been shut down and whose thread has ended. *)
Definition closed (c : App.Client) : Prop :=
  Stream.shutdown_ c = true ∧ Stream.thread_ended c = true.

Lemma client_keeps (Q : App.Client → Prop) a :
  (∀ st a c, Q c → Q (final (Stream.act a) (App.refresh st c))) →
  keeps (λ x, Q (App.stream_client_ x)) (App.act (Mp := Mp) a).
Proof.
  intros HQ. apply (keeps_app _ true); [| | | |done].
  - intros op x Hx. unfold wp, final, App.on_controller.
    by destruct (op (App.controller_ x)) as [[[] ?] ?].
  - intros st b x Hx. specialize (HQ st b _ Hx). unfold wp, final, App.on_client_with in *.
    by destruct (Stream.act b _) as [[[] ?] ?].
  - intros b x Hx. exact Hx.
  - intros b _ x Hx. unfold wp, final, App.on_location.
    by destruct (FrameBridge.act b (App.location_bridge_ x)) as [[? ?] ?].
Qed.

Lemma act_shutdown {T E L} `{ITripManager T} `{IEtaProvider E} `{ILocationProvider L}
    a (c : Stream.StreamClient T E L) :
  Stream.shutdown_ c = true →
  Stream.shutdown_ (final (Stream.act a) c) = true ∧
  (Stream.thread_ended c = true → Stream.thread_ended (final (Stream.act a) c) = true).
Proof.
  intros Hs. destruct a as [r|t|ok|t|read|t| |]; cbn [Stream.act].
  1: unfold final; rewrite report_enqueues; by case_match.
  all: match goal with |- Stream.shutdown_ (final ?m ?x) = _ ∧ (?P → Stream.thread_ended _ = _) =>
         change (wp m x (λ _ c' _, Stream.shutdown_ c' = true ∧ (P → Stream.thread_ended c' = true)))
       end; unfold Stream.thread_ended; step_cases; cbn; try congruence;
    (split; [first [done|congruence]|]); intros Hc;
    repeat match goal with
           | E : ?x = _ |- context [?x] => rewrite E
           | E : ?x = _, F : context [?x] |- _ => rewrite E in F
           end; done.
Qed.
Lemma ticks_act a h : is_call a = false → ticks h → ticks (final (act a) h).
Proof.
  intros Ha [Hp Hq Ht Hc Hl]. destruct a as [a|b|b|b|b].
  - assert (Hloc : ticking (location_of (final (act (AppDoes a)) h))).
    { assert (Hne : a ≠ App.LocationShutdown) by (by intros ->).
      pose proof (location_keeps_ticking a Hne (app h) Hl) as Hk. unfold wp, final in *. cbn [act].
      unfold in_app. by destruct (App.act a (app h)) as [[? ?] ?]. }
    assert (Hsame : ∀ h', h' = final (act (AppDoes a)) h →
      planning_bridge_ h' = planning_bridge_ h ∧ perception_bridge_ h' = perception_bridge_ h ∧
      trip_bridge_ h' = trip_bridge_ h ∧ cluster_bridge_ h' = cluster_bridge_ h).
    { intros h' ->. unfold final. cbn [act]. unfold in_app.
      by destruct (App.act a (app h)) as [[? ?] ?]. }
    destruct (Hsame _ eq_refl) as (E1 & E2 & E3 & E4). split; [by rewrite E1|by rewrite E2|
      by rewrite E3|by rewrite E4|exact Hloc].
  - destruct (cluster_act b h) as (E1 & E2 & E3 & E4 & E5).
    split; rewrite ?E1, ?E2, ?E3, ?E4, ?E5; try done. apply ticking_act; [by intros ->|done].
  - rewrite planning_act. split; try done. apply ticking_act; [by intros ->|done].
  - rewrite perception_act. split; try done. apply ticking_act; [by intros ->|done].
  - rewrite trip_act. split; try done. apply ticking_act; [|done]. by destruct b.
Qed.

(** ** What stopAutowareApp leaves behind *)

(** The threads that have ended when the thread in stopAutowareApp is at [pc]. *)
Record stopped (pc : nat) h : Prop := {
  stopped_planning : (2 <= pc)%nat → io_running (planning_bridge_ h) = false;
  stopped_perception : (4 <= pc)%nat → io_running (perception_bridge_ h) = false;
  stopped_trip : (6 <= pc)%nat → io_running (trip_bridge_ h) = false;
  stopped_cluster : (8 <= pc)%nat → io_running (cluster_bridge_ h) = false;
  stopped_location : (10 <= pc)%nat → io_running (location_of h) = false;
  stopped_client : (11 <= pc)%nat → Stream.shutdown_ (client_of h) = true;
  stopped_stream : (12 <= pc)%nat → Stream.thread_ended (client_of h) = true
}.

Lemma app_of_act a h : app (final (act (AppDoes a)) h) = final (App.act a) (app h).
Proof.
  unfold final. cbn [act]. unfold in_app. by destruct (App.act a (app h)) as [[? ?] ?].
Qed.
Lemma bridges_of_act a h :
  planning_bridge_ (final (act (AppDoes a)) h) = planning_bridge_ h ∧
  perception_bridge_ (final (act (AppDoes a)) h) = perception_bridge_ h ∧
  trip_bridge_ (final (act (AppDoes a)) h) = trip_bridge_ h ∧
  cluster_bridge_ (final (act (AppDoes a)) h) = cluster_bridge_ h.
Proof.
  unfold final. cbn [act]. unfold in_app. by destruct (App.act a (app h)) as [[? ?] ?].
Qed.

Lemma refresh_closing st (c : App.Client) :
  Stream.shutdown_ (App.refresh st c) = Stream.shutdown_ c ∧
  Stream.thread_ended (App.refresh st c) = Stream.thread_ended c.
Proof. done. Qed.

Lemma client_stays_closing a h :
  Stream.shutdown_ (client_of h) = true →
  Stream.shutdown_ (client_of (final (act a) h)) = true ∧
  (Stream.thread_ended (client_of h) = true →
   Stream.thread_ended (client_of (final (act a) h)) = true).
Proof.
  intros Hs. destruct a as [a|b|b|b|b].
  - unfold client_of in *. rewrite app_of_act.
    assert (Hsd : keeps (λ x, Stream.shutdown_ (App.stream_client_ x) = true)
                    (App.act (Mp := Mp) a)).
    { apply (client_keeps (λ c, Stream.shutdown_ c = true)). intros st b c Hc.
      by apply act_shutdown. }
    assert (Hcl : keeps (λ x, closed (App.stream_client_ x)) (App.act (Mp := Mp) a)).
    { apply client_keeps. intros st b c [Hc1 Hc2].
      destruct (act_shutdown b (App.refresh st c)) as [Hs' Hn']; [exact Hc1|].
      split; [exact Hs'|]. apply Hn', Hc2. }
    split; [apply (Hsd _ Hs)|]. intros Hn. exact (proj2 (Hcl (app h) (conj Hs Hn))).
  - unfold final. cbn [act]. unfold mbind, M_bind, in_cluster.
    by destruct (FrameBridge.act b _) as [[[[]|] ?] ?].
  - by rewrite planning_act.
  - by rewrite perception_act.
  - by rewrite trip_act.
Qed.

Lemma stopped_act a pc h : stopped pc h → stopped pc (final (act a) h).
Proof.
  intros [S1 S2 S3 S4 S5 S6 S7].
  assert (Hclient : ((11 <= pc)%nat → Stream.shutdown_ (client_of (final (act a) h)) = true) ∧
                    ((12 <= pc)%nat → Stream.thread_ended (client_of (final (act a) h)) = true)).
  { split; intros Hpc; apply client_stays_closing; auto with lia. }
  destruct Hclient as [C1 C2]. destruct a as [a|b|b|b|b].
  - destruct (bridges_of_act a h) as (E1 & E2 & E3 & E4).
    split; rewrite ?E1, ?E2, ?E3, ?E4; auto. intros Hpc. unfold location_of in *.
    rewrite app_of_act. apply location_keeps_ended. auto.
  - destruct (cluster_act b h) as (E1 & E2 & E3 & E4 & E5).
    split; rewrite ?E1, ?E2, ?E3, ?E4, ?E5; auto. intros Hpc. by apply ended_act; auto.
  - split; auto; rewrite ?planning_act; auto. intros Hpc. apply ended_act; auto.
  - split; auto; rewrite ?perception_act; auto. intros Hpc. apply ended_act; auto.
  - split; auto; rewrite ?trip_act; auto. intros Hpc. apply ended_act; auto.
Qed.

Lemma stopped_step oa s :
  (stop_pc s <= 12)%nat → stopped (stop_pc s) (stopping s) →
  (stop_pc (stop_step oa s) <= 12)%nat ∧
  stopped (stop_pc (stop_step oa s)) (stopping (stop_step oa s)).
Proof.
  destruct oa as [a|]; [split; [done|by apply stopped_act]|].
  destruct s as [pc h]. cbn [stop_pc stopping]. intros Hpc Hst.
  assert (Hcall : ∀ a, (pc = 10%nat → a = AppDoes (App.ClientStep Stream.Shutdown)) →
            stop_pc (mkStopping (Mp := Mp) pc h) = pc → Nat.even pc = true →
            stopped (S pc) (final (act a) h)).
  { intros a Ha _ He. pose proof (stopped_act a pc h Hst) as [S1 S2 S3 S4 S5 S6 S7].
    split; intros Hle; try (apply S1 || apply S2 || apply S3 || apply S4 || apply S5 || apply S7);
      try (destruct (decide (pc = 1%nat)) as [->|]; [done|]; destruct (decide (pc = 3%nat)) as [->|];
           [done|]; destruct (decide (pc = 5%nat)) as [->|]; [done|];
           destruct (decide (pc = 7%nat)) as [->|]; [done|];
           destruct (decide (pc = 9%nat)) as [->|]; [done|];
           destruct (decide (pc = 11%nat)) as [->|]; [done|]; lia).
    destruct (decide (pc = 10%nat)) as [->|]; [|apply S6; lia].
    rewrite Ha by done. destruct (client_winds_down Stream.Shutdown h I) as [st ->]. done. }
  unfold stop_step. cbn [stop_pc stopping].
  do 13 (destruct pc as [|pc]; [first
    [ cbn -[act]; split; [lia|by apply Hcall]
    | cbn -[act]; case_match; [|done]; split; [cbn; lia|];
      destruct Hst as [S1 S2 S3 S4 S5 S6 S7]; split; cbn [stop_pc stopping]; intros ?;
      first [by apply negb_true_iff | done | auto with lia]
    | done ]|]).
  lia.
Qed.
End Parts.
