(* ===== verification/MainTheorems.v ===== *)
(** * MainTheorems: the life of the process

    main returns only after the signal and with every thread of the agent's bridges and of its
    stream client ended; and as long as main has not begun to stop the agent, it can return,
    whatever the threads have done before. *)

From S2P Require Export AgentKeeps.
Import FrameBridge Agent Main.
#[local] Existing Instances App.AppHandles_eta Stream.StreamClient_eta.

Section Parts.
Context {Mp : Type} `{RouteMap Mp} `{Clocks} `{AutowareMsgs} `{Pcl}.
Implicit Types (h : Handles Mp) (s : Stopping (Mp := Mp)).

(** ** The process *)
Implicit Types (p : Process Mp).

Lemma process_after_app l l' p : process_after (l ++ l') p = process_after l' (process_after l p).
Proof. apply run_inputs_app. Qed.
Lemma process_after_cons a l p : process_after (a :: l) p = process_after l (process_step a p).
Proof. done. Qed.

Definition free (a : AgentAction) : Prop := is_call a = false ∧ from_ros a = false.

Lemma process_threads l p :
  Forall free l →
  process_after (Thread <$> l) p =
  p <| app_handles := mkStopping (stop_pc (app_handles p)) (after l (stopping (app_handles p))) |>.
Proof.
  intros Hl. revert p. induction Hl as [|a l [Ha Hr] _ IH]; intros p.
  { by destruct p as [? ? ? ? []]. }
  rewrite fmap_cons, process_after_cons. cbn [process_step]. rewrite Ha, Hr. cbn [orb andb].
  by rewrite IH.
Qed.

Lemma stop_step_bound s : (stop_pc (stop_step None s) ≤ S (stop_pc s))%nat.
Proof.
  unfold stop_step. destruct (Nat.even _); [destruct (stop_call _)|destruct (stop_joined _ _)];
    cbn; lia.
Qed.

(** main's turns in stopAutowareApp are those of [stop_run]. *)
Lemma main_turn_stops p :
  stage p = InStop → (stop_pc (app_handles p) < 12)%nat →
  main_turn p = p <| app_handles ::= stop_step None |>.
Proof. intros Hs Hpc. unfold main_turn. by rewrite Hs, (proj2 (Nat.ltb_lt _ _) Hpc). Qed.

Definition main_round (l : list AgentAction) : list ProcessAction :=
  MainTurn :: (Thread <$> l) ++ [MainTurn].

Lemma process_round l p :
  stage p = InStop → (stop_pc (app_handles p) ≤ 10)%nat → Forall free l →
  process_after (main_round l) p =
  p <| app_handles := stop_run (None :: (Some <$> l) ++ [None]) (app_handles p) |>.
Proof.
  intros Hs Hpc Hl. unfold main_round. rewrite process_after_cons. cbn [process_step].
  rewrite main_turn_stops by (done || lia).
  pose proof (stop_step_bound (app_handles p)) as Hb. set (p1 := set app_handles _ _).
  rewrite process_after_app, process_threads by done. set (p2 := set app_handles _ _).
  rewrite process_after_cons. cbn [process_step].
  assert (Hs2 : stage p2 = InStop) by exact Hs.
  assert (Hpc2 : (stop_pc (app_handles p2) < 12)%nat) by (cbn -[stop_step]; lia).
  rewrite main_turn_stops by done.
  rewrite stop_run_cons, stop_run_app, stop_run_threads, stop_run_cons. done.
Qed.

Lemma rounds_pass k p :
  stage p = InStop → stop_pc (app_handles p) = (2 * (5 - k))%nat → (k ≤ 5)%nat →
  waits (5 - k) (stopping (app_handles p)) →
  ∃ l s, process_after l p = p <| app_handles := s |> ∧ stop_pc s = 10%nat.
Proof.
  revert p. induction k as [|k IH]; intros p Hs Hpc Hk Hw.
  { exists [], (app_handles p). split; [by destruct p|]. rewrite Hpc. lia. }
  destruct (waits_next (5 - S k) (app_handles p)) as (turn & n & Ha & Hr & Hpc' & Hw');
    [lia|done|done|].
  set (l1 := replicate n turn).
  assert (Hround : process_after (main_round l1) p =
                   p <| app_handles := stop_run (stop_schedule turn n) (app_handles p) |>).
  { apply process_round; [done|lia|]. by apply Forall_replicate. }
  replace (S (5 - S k)) with (5 - k)%nat in * by lia.
  set (s1 := stop_run (stop_schedule turn n) (app_handles p)) in *.
  destruct (IH (p <| app_handles := s1 |>)) as (l2 & s & Hl2 & Hend);
    [exact Hs|exact Hpc'|lia|exact Hw'|].
  exists (main_round l1 ++ l2), s. split; [|done].
  by rewrite process_after_app, Hround, Hl2.
Qed.

(** main has not begun to stop the agent. *)
Definition polls p : Prop := stage p = Polling ∧ stop_pc (app_handles p) = 0%nat.

Lemma process_stage a p : stage (process_step a p) = Polling → stage p = Polling.
Proof.
  destruct a as [| | |a]; cbn; repeat case_match; try done. unfold main_turn, join_ros.
  destruct (stage p) eqn:Hs; repeat case_match; cbn; congruence.
Qed.

Lemma polling_ticks l p :
  polls p → ticks (stopping (app_handles p)) → stage (process_after l p) = Polling →
  polls (process_after l p) ∧ ticks (stopping (app_handles (process_after l p))).
Proof.
  intros Hp Ht. revert p Hp Ht. induction l as [|a l IH]; intros p Hp Ht Hend; [done|].
  rewrite process_after_cons in *. apply IH; [| |exact Hend].
  - split.
    + clear IH Hp Ht. revert Hend. generalize (process_step a p).
      induction l as [|a' l IHl]; intros q Hq; [done|]. eapply process_stage, IHl, Hq.
    + destruct Hp as [Hs Hpc], a as [| | |a]; cbn [process_step]; try done.
      * unfold main_turn. rewrite Hs. by case_match.
      * by case_match.
      * by case_match.
  - destruct Hp as [Hs Hpc], a as [| | |a]; cbn [process_step]; try done.
    + unfold main_turn. rewrite Hs. by case_match.
    + by case_match.
    + destruct (is_call a) eqn:Ha; [done|]. cbn [orb].
      case_match; [done|]. by apply ticks_act.
Qed.
End Parts.

(** ** From the map files *)
Section Started.
Context `{Lanelet2Laws} `{YamlCpp} `{Clocks} `{AutowareMsgs} `{Pcl}.

Lemma bridge_new_ticks {St Msg : Type} (s : St) : ticking (Bridge_new (Msg := Msg) s).
Proof. done. Qed.

Lemma started_location exists_ dirs path radius (x : App.AppHandles LaneletMap) :
  App.startAutowareApp exists_ dirs path radius = Ret x →
  App.location_bridge_ x = Location.LocationBridge_new.
Proof.
  unfold App.startAutowareApp, App.startAutowareApp_body. rewrite outcome_bind_Ret.
  intros (y & Hy & [= <-]). rewrite outcome_bind_Ret in Hy. destruct Hy as (n & _ & Hw).
  unfold App.wire, App.call, App.on_controller, Controller.initialize, Controller.post, modify, gets,
    lift, mbind, M_bind in Hw. cbn in Hw.
  destruct (d_to_int _) as [p|e]; [|done]. cbn in Hw. by injection Hw as <-.
Qed.

Lemma main_started exists_ d1 d2 d3 now p :
  main_start exists_ d1 d2 d3 now = Ret p →
  polls p ∧ ticks (stopping (app_handles p)) ∧ g_shutdown_requested p = false ∧
  ros_ok p = true ∧ ros_thread_ p = true.
Proof.
  unfold main_start, startAgent. rewrite outcome_bind_Ret. intros (h & Hh & [= <-]).
  rewrite outcome_bind_Ret in Hh. destruct Hh as (x & Hx & [= <-]).
  split_and!; try done. apply started_location in Hx.
  split; try apply bridge_new_ticks. unfold location_of. cbn. rewrite Hx. apply bridge_new_ticks.
Qed.

(** Where main is, and what must have happened. *)
Record main_inv (l : list ProcessAction) (p : Process LaneletMap) : Prop := {
  inv_signal : g_shutdown_requested p = true → SignalArrives ∈ l;
  inv_polling : stage p ≠ Polling → g_shutdown_requested p = true;
  inv_stop : (stop_pc (app_handles p) <= 12)%nat ∧
             stopped (stop_pc (app_handles p)) (stopping (app_handles p));
  inv_returned : stage p = Returned →
                 ros_thread_ p = false ∧ stop_pc (app_handles p) = 12%nat
}.

Lemma main_inv_step l a p : main_inv l p → main_inv (l ++ [a]) (process_step a p).
Proof.
  intros [Hsig Hpoll [Hpc Hst] Hret].
  assert (Hsig' : g_shutdown_requested p = true → SignalArrives ∈ l ++ [a])
    by (intros; apply elem_of_app; auto).
  destruct a as [| | |a]; cbn [process_step].
  - split; cbn; auto. intros _. apply elem_of_app. right. by left.
  - unfold main_turn. destruct (stage p) eqn:Hs.
    + destruct (g_shutdown_requested p) eqn:Hg; split; cbn; auto; try congruence.
    + destruct (Nat.ltb _ 12) eqn:Hlt.
      * split; cbn -[stop_step]; auto; [by apply stopped_step|congruence].
      * apply Nat.ltb_ge in Hlt. unfold join_ros. destruct (ros_thread_ p) eqn:Hr; split; cbn; auto;
          try congruence; intros _; split; [done|lia].
    + split; auto; congruence.
  - destruct (ros_ok p); split; cbn; auto. intros Hs. by destruct (Hret Hs).
  - case_match; split; cbn -[stop_step]; auto. by apply stopped_step.
Qed.

Lemma main_inv_after l p : main_inv [] p → main_inv l (process_after l p).
Proof.
  intros Hp. induction l as [|a l IH] using rev_ind; [done|].
  rewrite process_after_app. by apply main_inv_step.
Qed.

Lemma main_started_inv exists_ d1 d2 d3 now p :
  main_start exists_ d1 d2 d3 now = Ret p → main_inv [] p.
Proof.
  intros Hp. destruct (main_started _ _ _ _ _ _ Hp) as ([Hs Hpc] & _ & Hg & _).
  split; try congruence. rewrite Hpc. split; [lia|]. split; lia.
Qed.

(** C14: what is left when main returns.  In every execution of the process main returns only after
    SIGINT or SIGTERM has arrived; by then rclcpp::spin has returned, the io threads of the five
    bridges have ended, and the stream client is shut down, its thread ended and no connection open. *)
Theorem main_returns_stopped exists_ d1 d2 d3 now p0 l :
  main_start exists_ d1 d2 d3 now = Ret p0 →
  let p := process_after l p0 in
  let h := stopping (app_handles p) in
  stage p = Returned →
  SignalArrives ∈ l ∧ ros_thread_ p = false ∧
  io_running (planning_bridge_ h) = false ∧ io_running (perception_bridge_ h) = false ∧
  io_running (trip_bridge_ h) = false ∧ io_running (cluster_bridge_ h) = false ∧
  io_running (location_of h) = false ∧
  Stream.shutdown_ (client_of h) = true ∧ Stream.connection (client_of h) = None ∧
  Stream.reconnect (client_of h) = Stream.ThreadEnded.
Proof.
  intros Hp%main_started_inv p h Hs.
  destruct (main_inv_after l p0 Hp) as [Hsig Hpoll [_ Hst] Hret]. fold p in Hsig, Hpoll, Hst, Hret.
  destruct (Hret Hs) as [Hr Hpc]. rewrite Hpc in Hst. destruct Hst as [S1 S2 S3 S4 S5 S6 S7].
  split; [apply Hsig, Hpoll; congruence|]. split; [done|].
  rewrite <- thread_ended_spec. split_and!;
    [apply S1|apply S2|apply S3|apply S4|apply S5|apply S6|apply S7]; lia.
Qed.

(** C15: main can always return.  Whatever has happened before the signal, some turns of the threads
    lead from its arrival to the return of main: no state that the agent reaches while main polls
    keeps stopAutowareApp from ending (only a timer that expires at the wrong moment does). *)
Theorem main_can_return exists_ d1 d2 d3 now p0 l :
  main_start exists_ d1 d2 d3 now = Ret p0 →
  stage (process_after l p0) = Polling →
  ∃ l', stage (process_after (l ++ SignalArrives :: l') p0) = Returned.
Proof.
  intros Hp Hs. destruct (main_started _ _ _ _ _ _ Hp) as (Hpolls & Hticks & _).
  destruct (polling_ticks l p0 Hpolls Hticks Hs) as [[_ Hpc] Ht].
  set (p := process_after l p0) in *.
  destruct (ticks_waits _ Ht) as (turns & Hfree & Hw).
  set (p1 := p <| g_shutdown_requested := true |> <| ros_ok := false |> <| stage := InStop |>).
  assert (Hp1 : process_after [SignalArrives; MainTurn] p = p1).
  { change (main_turn (signalHandler p) = p1). unfold main_turn.
    change (stage (signalHandler p)) with (stage p). by rewrite Hs. }
  set (p2 := p1 <| app_handles := mkStopping 0 (after turns (stopping (app_handles p1))) |>).
  assert (Hp2 : process_after (Thread <$> turns) p1 = p2).
  { rewrite process_threads by exact Hfree. unfold p2.
    change (stop_pc (app_handles p1)) with (stop_pc (app_handles p)). by rewrite Hpc. }
  destruct (rounds_pass 5 p2) as (rounds & s & Hp3 & Hten); [done|done|lia|exact Hw|].
  set (p3 := p2 <| app_handles := s |>) in *.
  set (ends := client_turns (client_of (stopping s))).
  set (p4 := p3 <| app_handles :=
    stop_run (None :: (Some <$> client_actions ends) ++ [None]) s |>).
  assert (Hp4 : process_after (main_round (client_actions ends)) p3 = p4).
  { apply process_round; [done| |by repeat constructor]. change (stop_pc s <= 10)%nat. lia. }
  exists (MainTurn :: (Thread <$> turns) ++ rounds ++
          main_round (client_actions ends) ++ [SpinReturns; MainTurn]).
  rewrite process_after_app. fold p.
  change (SignalArrives :: MainTurn :: ?l) with ([SignalArrives; MainTurn] ++ l).
  rewrite process_after_app, Hp1, process_after_app, Hp2, process_after_app, Hp3, process_after_app, Hp4.
  rewrite process_after_cons, process_after_cons. cbn [process_after run_inputs process_step].
  change (ros_ok p4) with false. cbv iota. unfold main_turn.
  change (stage (set ros_thread_ _ p4)) with InStop. cbv iota.
  change (app_handles (set ros_thread_ _ p4)) with
    (stop_run (None :: (Some <$> client_actions ends) ++ [None]) s).
  by rewrite (stop_client s Hten).
Qed.
End Started.
