(* ===== verification/Fixture.v ===== *)
(** * Fixture: one concrete environment

    A two-lane map, an identity projection, a clock and the documented message constants, on which
    the witnesses of the theorems evaluate.  Lane 10 leads to lane 20; lane 30 is a crosswalk. *)

From S2P Require Export LaneletMapFacts TripInvariant.

(** ** The map *)

Definition pt (x y : Z) : BasicPoint3d := mkPoint3d (dlit x 10) (dlit y 10) d0.

Definition lane10 : ConstLanelet :=
  mkLanelet 10 (Some "road") [pt 1391 351; pt 1392 351; pt 1393 351].
Definition lane20 : ConstLanelet :=
  mkLanelet 20 None [pt 1393 351; pt 1394 352; pt 1395 353].
Definition lane30 : ConstLanelet :=
  mkLanelet 30 (Some "crosswalk") [pt 1392 351; pt 1392 352].
Definition fixture_layer : list ConstLanelet := [lane10; lane20; lane30].

(** x is the longitude and y the latitude; distances along the road are not measured. *)
Definition fixture_lanelet2 : Lanelet2 := {|
  InvalId := 0;
  MGRSProjector := unit;
  setMGRSCode _ := ();
  proj_forward _ g alt := mkPoint3d (longitude g) (latitude g) alt;
  proj_reverse _ p := mkGPS (py p) (px p);
  load _ _ := fixture_layer;
  RoutingGraph := list ConstLanelet;
  build layer := layer;
  reachableSet layer ll _ := filter (λ r, ll_id ll ≤ ll_id r) layer;
  following layer ll := filter (λ r, ll_id r = ll_id ll + 10) layer;
  previous layer ll := filter (λ r, ll_id ll = ll_id r + 10) layer;
  left_of _ _ := None;
  right_of _ _ := None;
  getRoute _ from to := if ll_id from <=? ll_id to then Some [from; to] else None;
  uninitialised_point := mkPoint3d S754_nan S754_nan S754_nan;
  d_sin x := x;
  d_cos _ := d1;
  d_atan2 _ _ := d0;
  d_pi := dlit 314159265358979 100000000000000
|}.
#[local] Existing Instance fixture_lanelet2.

Lemma fixture_laws : Lanelet2Laws.
Proof.
  split.
  - intros path p. split.
    + change (NoDup [10; 20; 30]). apply (bool_decide_unpack _). vm_compute. exact I.
    + intros ll Hin. cbn [load fixture_lanelet2] in Hin. unfold fixture_layer in Hin.
      unfold is_int64, int64_min, int64_max. cbn [InvalId fixture_lanelet2].
      repeat (apply elem_of_cons in Hin as [->|Hin]; [cbn; lia|]). by apply elem_of_nil in Hin.
  - intros layer ll r radius _ Hr. by apply list_elem_of_filter in Hr as [_ ?].
Qed.

Definition fixture_map : LaneletMap :=
  match LaneletMap_new (λ _, true) [] "/maps/lanelet2_map.osm" (d_of_Z 35) (d_of_Z 139) d0 d0 with
  | Ret m => m
  | Throw _ => mkLaneletMap d0 d0 d0 d0 () None None [] 0 None
  end.

(** The map as main() leaves it: the default start is set. *)
Definition fixture_started : LaneletMap :=
  (setDefaultStart "depot" (mkGPS (dlit 351 10) (dlit 1391 10)) fixture_map).2.

Lemma fixture_map_wf : map_wf fixture_map.
Proof.
  pose proof fixture_laws.
  by apply (map_new_wf (λ _, true) [] "/maps/lanelet2_map.osm" (d_of_Z 35) (d_of_Z 139) d0 d0
              fixture_map).
Qed.

Lemma fixture_started_wf : map_wf fixture_started.
Proof.
  unfold fixture_started.
  destruct (setDefaultStart_wf "depot" (mkGPS (dlit 351 10) (dlit 1391 10)) fixture_map
    fixture_map_wf) as (m' & -> & Hwf & _). exact Hwf.
Qed.

(** ** The clock: one reading every [period] ns *)
#[refine] Definition fixture_clock (period : N) : Clocks := {|
  steady_at n := Z.of_nat n * Z.of_N period;
  ros_at n := Z.of_nat n * Z.of_N period
|}.
Proof. intros n. lia. Defined.

(** The vehicle stands at the depot; it is asked to fetch on lane 10 and deliver on lane 20. *)
Definition depot_tf : LocalCoordinate := mkLocal (dlit 1391 10) (dlit 351 10) d0.
Definition pickup_gps : GPSCoordinate := mkGPS (dlit 351 10) (dlit 1392 10).
Definition goal_gps : GPSCoordinate := mkGPS (dlit 352 10) (dlit 1394 10).
