(* ===== verification/TripTheorems.v ===== *)
(** * TripTheorems: the properties of the trip controller

    Each theorem is about every reachable state of the controller on any lane map that keeps the
    contract of [RouteMap]; the witnesses evaluate it on the two-lane map of [Fixture]. *)

From S2P Require Export TripEta Fixture.
Import TripState.

(** ** Engagement *)
Section Engagement.
Context {Mp : Type} `{RouteMap Mp} `{Clocks} `{AutowareMsgs}.

Definition no_request (o : Output) : Prop := o ≠ SendModeRequest.

Lemma no_request_failQuery reason : emits no_request (failQuery (Mp := Mp) reason).
Proof. unfold failQuery. emits_by done. Qed.
Lemma no_request_startQueryLeg f t : emits no_request (startQueryLeg (Mp := Mp) f t).
Proof.
  unfold startQueryLeg, resolve_from. emits_by done. all: apply no_request_failQuery.
Qed.
Lemma no_request_finishQueryLeg : emits no_request (finishQueryLeg (Mp := Mp)).
Proof.
  unfold finishQueryLeg, finishPickupLeg, finishTripLeg. emits_by done.
  apply no_request_startQueryLeg.
Qed.

Hint Resolve no_request_failQuery no_request_startQueryLeg no_request_finishQueryLeg : agent.

Ltac no_request_by := emits_by ltac:(done); auto with agent.

Lemma no_request_tick a b w :
  trip_state w ≠ ENGAGING → wp (tick (Mp := Mp) a b) w (λ _ _ out, Forall no_request out).
Proof.
  intros Hs. unfold trip_state in Hs.
  unfold tick. apply wp_bind. eapply wp_get_s; [reflexivity|]. cbv beta iota.
  assert (Hop : ∀ op : Op Mp unit, emits no_request op →
    wp op w (λ _ _ t', Forall no_request ([] ++ t'))) by (intros op Hop; apply Hop).
  destruct (state_ (status_ (ctrl w))); try done; apply Hop; cbv beta iota.
  all: unfold tick_initializing, tick_query_localisation, tick_query_goal, tick_query_route,
    tick_query_eta, tick_localisation, tick_driving, tick_running, fail_after, republish,
    publish_init, publish_start, publish_goal, doPublishInitialPose, doPublishGoal, elapsed_ms.
  all: no_request_by.
Qed.

Lemma no_request_handle i w :
  match i with Tick _ _ => trip_state w ≠ ENGAGING | _ => True end →
  Forall no_request (outputs (handle (Mp := Mp) i) w).
Proof.
  intros Hi. destruct i; cbn [handle].
  14: { to_wp (tick (Mp := Mp) mode_ready engage_ready;; mret true) w. apply wp_bind.
        eapply wp_mono; [apply (no_request_tick mode_ready engage_ready w Hi)|].
        intros [a|e] w' out Ho; [|done]. cbv beta iota. wp_ops. by rewrite app_nil_r. }
  all: clear Hi; revert w; match goal with |- ∀ w, Forall ?P (outputs ?op w) => change (emits P op) end.
  all: unfold on_loc_state, injectEta, on_route_state, on_mode_state, onRouteReceived, onEngaged,
    queryEta, rejectQuery, getCurrentVehiclePose, startTrip, handleMoveCommand, goToPickup, move,
    cancel, setCurrentGps, publish_goal, doPublishInitialPose, doPublishGoal.
  all: no_request_by.
Qed.
End Engagement.

Section Theorems.
Context {Mp : Type} `{RouteMap Mp} `{Clocks} `{AutowareMsgs} {Laws : RouteMapLaws Mp}.
Implicit Types (w : World Mp) (c : TripController).

(** C1: no exception escapes a handler.  Whatever the program has been through since boot, the
    next message, command or tick is handled to its end: no std::stoll fails, no lane is missing. *)
Theorem trip_no_exception i w : reachable w → ∃ b, result (handle i) w = Ret b.
Proof. intros Hw. by apply handle_returns, reachable_inv. Qed.

(** C2: the controller refines the abstract state machine [allowed]: from boot, after any list of
    inputs, the state is one the specification permits. *)
Theorem trip_refines_protocol timings m l :
  rm_inv m →
  allowed_run l (trip_state (boot timings m)) (trip_state (run l (boot timings m))).
Proof. intros Hm. by apply run_protocol, inv_boot. Qed.

(** C3: what the machine holds.  FAILED and CANCELLED are never entered; with the routes ready and
    during the whole trip both routes are banked, the pickup lane and the destination lane are
    resolved 64-bit lanes and the destination is reachable from the pickup; in IDLE no route is
    banked and no reply is owed. *)
Theorem trip_holds_routes w :
  reachable w →
  trip_state w ≠ FAILED ∧ trip_state w ≠ CANCELLED ∧
  (phase (trip_state w) = PReady ∨ phase (trip_state w) = PTrip →
   ∃ pl gl p r, banked (ctrl w) (lanelet_map_ w) pl gl p r) ∧
  (trip_state w = IDLE →
   pickup_route_ (ctrl w) = None ∧ trip_route_ (ctrl w) = None ∧ query_cb_ (ctrl w) = None).
Proof.
  intros Hw. apply reachable_inv in Hw as [_ [_ Hs]]. unfold trip_state.
  destruct (phase (state_ (status_ (ctrl w)))) eqn:Hph; try done.
  all: split_and!; [intros E; by rewrite E in Hph..| |intros E; rewrite E in Hph; try done].
  all: try (intros [?|?]; congruence).
  - by destruct Hs as (? & ? & ?).
  - intros _. by destruct Hs as [_ Hs].
  - intros _. destruct Hs as (_ & pl & gl & p & r & Hb & _). eauto.
Qed.

(** C4: every query is answered at most once, and exactly once unless it is cancelled: of the
    queries asked with callback [k], each is answered, still pending at the end, or was pending
    when the trip was cancelled. *)
Theorem query_answered_once timings m l k :
  rm_inv m →
  let w0 := boot timings m in
  asked k l = (replies k (run_outputs l w0) + pending k (run l w0) + dropped k l w0)%nat.
Proof.
  intros Hm w0. pose proof (inv_boot timings m Hm) as Hw. rewrite <- (run_books l k w0 Hw).
  unfold pending, pending_c, w0. rewrite boot_no_query. lia.
Qed.

(** C6: a query under way ends.  Among any inputs, once ten ticks have come later than the
    timeouts of the state they found, the query has left its states (routes ready, failed or
    cancelled). *)
Theorem query_terminates l w :
  reachable w → (10 ≤ late_ticks l w)%nat →
  ∃ l1 l2, l = l1 ++ l2 ∧ is_query (trip_state (run l1 w)) = false.
Proof.
  intros Hw Hl. apply late_ticks_end_query; [by apply reachable_inv|].
  pose proof (qrank_le (ctrl w)). lia.
Qed.

(** C5: a successful query reports what was measured.  If the map has a lane for the vehicle, one
    for the pickup reachable from it and one for the destination reachable from the pickup, and
    each leg is localised, routed and gets an ETA, the reply has the two reported distances and
    times, the lanes of the legs meet at the pickup, and both ETAs are banked. *)
Theorem query_reports_measured_etas a b tf s g k w vl pl gl m1 m2 m3 x1 t1 x2 t2 :
  reachable w → trip_state w = IDLE → attended (ctrl w) →
  gps_out_of_range (rm_localToGps (lanelet_map_ w) tf) = false →
  rm_findNearestLane (rm_localToGps (lanelet_map_ w) tf) (lanelet_map_ w) = (Ret (Some vl), m1) →
  rm_findNearestConnectedLane s (lane_id vl) true m1 = (Ret (Some pl), m2) →
  rm_findNearestConnectedLane g (lane_id pl) true m2 = (Ret (Some gl), m3) →
  ∃ w' p r, hears (query_inputs a b tf s g k x1 t1 x2 t2) w w'
      (query_events k (query_answer vl pl gl x1 t1 x2 t2)) ∧
    trip_state w' = ROUTES_READY ∧
    pickup_route_ (ctrl w') = Some p ∧ held_distance_m_ p = x1 ∧ held_eta_seconds_ p = t1 ∧
    trip_route_ (ctrl w') = Some r ∧ held_distance_m_ r = x2 ∧ held_eta_seconds_ r = t2.
Proof. intros Hw. by apply query_completes, reachable_inv. Qed.

(** C7: a prepared trip is driven to its end.  From ROUTES_READY, with the observers registered
    and the vehicle localised, the accepted request, two move commands, two engagements and two
    arrivals take the trip to COMPLETED, and the observers hear each change of state and each
    arrival once, in order. *)
Theorem trip_driven_to_completion a b w :
  reachable w → at_stage ROUTES_READY None (current_route_state_ (ctrl w)) w →
  ∃ w', hears (drive a b) w w' drive_events ∧ trip_state w' = COMPLETED.
Proof.
  intros Hw Hst. destruct (drive_completes a b w) as (w' & Hh & [Hs _ _ _ _]); [|done|by exists w'].
  by apply reachable_inv.
Qed.

(** The request to start is accepted whenever the routes are ready, and fixes the start of
    the trip to the lane and position of the banked pickup route. *)
Theorem startTrip_accepts w :
  reachable w → trip_state w = ROUTES_READY →
  ∃ p pl, pickup_route_ (ctrl w) = Some p ∧ lane_id pl = held_goal_lane_id_ p ∧
    result startTrip w = Ret true ∧ trip_state (final startTrip w) = WAITING_FOR_PICKUP_START ∧
    start_lanelet_id_ (status_ (ctrl (final startTrip w))) = to_string (held_goal_lane_id_ p) ∧
    start_x_ (status_ (ctrl (final startTrip w))) = local_x (local pl) ∧
    start_y_ (status_ (ctrl (final startTrip w))) = local_y (local pl) ∧
    start_gps_ (status_ (ctrl (final startTrip w))) = held_goal_gps_ p.
Proof.
  intros Hw Hs. apply reachable_inv in Hw.
  destruct (startTrip_ready w Hw Hs) as (p & pl & Hp & _ & Hid & Hwp).
  destruct Hwp as (Hr & _ & _ & t & Hc). exists p, pl. unfold trip_state. rewrite Hc.
  rewrite <- Hid. by split_and!.
Qed.

(** At the pickup point the move command never fails: a lane for the destination is still
    reachable, its pose is published as the goal (before anything is announced) and the trip leg
    is to be engaged, any arrival of the pickup leg being forgotten. *)
Theorem move_accepts w :
  reachable w → trip_state w = WAITING_FOR_MOVE →
  ∃ r gl t, trip_route_ (ctrl w) = Some r ∧ result move w = Ret true ∧
    trip_state (final move w) = ENGAGING ∧
    engaging_for_pickup_ (ctrl (final move w)) = false ∧
    current_route_state_ (ctrl (final move w)) = None ∧
    goal_lanelet_id_ (status_ (ctrl (final move w))) = to_string (lane_id gl) ∧
    goal_gps_ (status_ (ctrl (final move w))) = held_goal_gps_ r ∧
    ∃ rest, outputs move w =
      PublishGoal {| ps_header := {| frame_id := "map"; stamp := t |};
        ps_pose := {| position := mkPoint (local_x (local gl)) (local_y (local gl)) (local_z (local gl));
                      orientation := mkQuaternion d0 d0 (ori_z (lane_orientation gl))
                                                  (ori_w (lane_orientation gl)) |} |} :: rest.
Proof.
  intros Hw Hs. apply reachable_inv in Hw.
  destruct (move_waiting w Hw Hs) as (r & pl & gl & Hr & _ & _ & Hwp).
  destruct Hwp as (Hres & _ & (t & Hc) & t' & Hout). exists r, gl, t'. unfold trip_state.
  rewrite Hc. split_and!; try done. rewrite Hout. by eexists.
Qed.

(** C31: cancelling, in any state: the trip is idle with the status, the routes, the query and the
    engagement reset, and the vehicle is put back at the default start.  The reset comes before the
    transition, so nothing but that pose is sent: neither the observer of state changes nor the
    caller of a pending query hears of the cancellation. *)
Theorem cancel_resets_silently w :
  let w' := final cancel w in
  result cancel w = Ret () ∧ status_ (ctrl w') = TripStatus_default ∧
  pickup_route_ (ctrl w') = None ∧ trip_route_ (ctrl w') = None ∧
  query_cb_ (ctrl w') = None ∧ querying_ (ctrl w') = false ∧
  engaging_for_pickup_ (ctrl w') = false ∧ current_route_state_ (ctrl w') = None ∧
  outputs cancel w =
    match rm_getDefaultStart (lanelet_map_ w) with
    | Some p => [PublishInitialPose
        {| pwc_header := {| frame_id := "map"; stamp := ros_at (reads w) |};
           pwc_pose := {| position := mkPoint (local_x (start_local p)) (local_y (start_local p))
                                        (local_z (start_local p));
                          orientation := mkQuaternion d0 d0 (ori_z (start_orientation p))
                                           (ori_w (start_orientation p)) |};
           pwc_covariance := pose_covariance |}]
    | None => []
    end.
Proof.
  cbv zeta.
  to_wp (cancel (Mp := Mp)) w.
  unfold cancel, doPublishInitialPose.
  wp_ops; by split_and!.
Qed.

(** The commands that answer whether they were accepted, [startTrip] aside. *)
Definition answers (i : Input) : Prop :=
  match i with QueryEta _ _ _ _ | GoToPickup | MoveCommand | Move => True | _ => False end.

(** A refused query or move command changes nothing: state, routes, map and clocks are as they
    were, and all that is sent is the refusal to the caller of the query. *)
Theorem refusal_changes_nothing i w :
  reachable w → answers i → result (handle i) w = Ret false →
  step i w = w ∧ Forall (λ o, ∃ k r, o = QueryReply k r ∧ success_ r = false) (outputs (handle i) w).
Proof.
  intros Hw Hi. apply reachable_inv in Hw.
  assert (Hmv : wp move w (λ o w' out, o = Ret false → w' = w ∧ out = [])).
  { destruct (decide (trip_state w = WAITING_FOR_MOVE)) as [Hs|Hs]; unfold trip_state in Hs.
    - destruct (move_waiting w Hw Hs) as (r & pl & gl & _ & _ & _ & Hwp).
      eapply wp_mono; [exact Hwp|]. by intros o w' out [-> _].
    - unfold move. by wp_ops. }
  assert (Hpk : wp goToPickup w (λ o w' out, o = Ret false → w' = w ∧ out = [])).
  { unfold goToPickup. by wp_ops. }
  assert (Hgoal : wp (handle i) w (λ o w' out, o = Ret false →
    w' = w ∧ Forall (λ o, ∃ k r, o = QueryReply k r ∧ success_ r = false) out)); [|exact Hgoal].
  assert (Hmono : ∀ op : Op Mp bool, wp op w (λ o w' out, o = Ret false → w' = w ∧ out = []) →
    wp op w (λ o w' out, o = Ret false →
      w' = w ∧ Forall (λ o, ∃ k r, o = QueryReply k r ∧ success_ r = false) out)).
  { intros op Hop. eapply wp_mono; [exact Hop|]. intros o w' out Ho Hr.
    by destruct (Ho Hr) as [-> ->]. }
  destruct i; try done; cbn [handle].
  - unfold queryEta, rejectQuery, getCurrentVehiclePose. wp_ops; try done.
    all: try (intros _; split; [done|]; cbn; repeat constructor; by eexists _, _).
    all: eapply wp_mono with (P := λ _ _ _, True); [done|]; intros [a|e] w' out _; cbv beta iota;
      [wp_ops|]; done.
  - by apply Hmono.
  - apply Hmono. unfold wp, result, final, outputs in *. rewrite handleMoveCommand_eq.
    repeat case_decide; done.
  - by apply Hmono.
Qed.

(** A refused request to start is not harmless.  While the trip leg is being engaged it is
    refused, yet it turns the engagement into one of the pickup leg: the confirmation that would
    have started the trip leg now sends the vehicle "driving to pickup" again. *)
Theorem refused_start_swaps_leg w :
  reachable w → trip_state w = ENGAGING → engaging_for_pickup_ (ctrl w) = false →
  result startTrip w = Ret false ∧ trip_state (step Engaged w) = RUNNING ∧
  trip_state (step Engaged (step StartTrip w)) = DRIVING_TO_PICKUP.
Proof.
  intros Hw Hs Hp. apply reachable_inv in Hw. unfold trip_state in Hs.
  assert (Hne : trip_state w ≠ ROUTES_READY) by (unfold trip_state; congruence).
  assert (Heq := startTrip_refused w Hw Hne).
  assert (Hst : step StartTrip w = w <| ctrl ::= λ c, c <| engaging_for_pickup_ := true |>
    <| current_route_state_ := None |> |>) by (unfold step, final; cbn [handle]; by rewrite Heq).
  split; [unfold result; by rewrite Heq|]. rewrite Hst. clear Hst Heq. split.
  all: unfold step at 1; cbn [handle]; unfold onEngaged.
  all: match goal with |- trip_state (final ?m ?w1) = _ => to_wp m w1 end; by wp_ops.
Qed.

(** Nor does it spare an arrival: refused between the arrival at the destination and the tick
    that would have noticed it, it makes that tick keep RUNNING. *)
Theorem refused_start_loses_arrival a b w :
  reachable w → trip_state w = RUNNING → current_route_state_ (ctrl w) = Some RS_ARRIVED →
  result startTrip w = Ret false ∧ trip_state (step (Tick a b) w) = COMPLETED ∧
  trip_state (step (Tick a b) (step StartTrip w)) = RUNNING.
Proof.
  intros Hw Hs Hr. apply reachable_inv in Hw. unfold trip_state in Hs.
  assert (Hne : trip_state w ≠ ROUTES_READY) by (unfold trip_state; congruence).
  assert (Heq := startTrip_refused w Hw Hne).
  assert (Hst : step StartTrip w = w <| ctrl ::= λ c, c <| engaging_for_pickup_ := true |>
    <| current_route_state_ := None |> |>) by (unfold step, final; cbn [handle]; by rewrite Heq).
  split; [unfold result; by rewrite Heq|]. rewrite Hst. clear Hst Heq. split.
  all: unfold step at 1; cbn [handle]; unfold tick, tick_running, when.
  all: match goal with |- trip_state (final ?m ?w1) = _ => to_wp m w1 end.
  - assert (route_is RS_ARRIVED (ctrl w) = true) by (unfold route_is; by apply bool_decide_eq_true_2).
    by wp_ops.
  - by wp_ops.
Qed.

(** C33: engagement is asked for at one point only: on a tick, while ENGAGING, with both services
    ready and autonomous mode not known to be unavailable. *)
Theorem engagement_only_when_engaging i w :
  SendModeRequest ∈ outputs (handle i) w →
  i = Tick true true ∧ trip_state w = ENGAGING ∧ current_mode_state_ (ctrl w) ≠ Some false.
Proof.
  intros Hin. assert (Hex : ¬ Forall no_request (outputs (handle i) w)).
  { intros Hf. rewrite Forall_forall in Hf. by apply (Hf _ Hin). }
  destruct i; try (exfalso; apply Hex; by apply no_request_handle).
  destruct (decide (trip_state w = ENGAGING)) as [Hs|Hs];
    [|exfalso; apply Hex; by apply no_request_handle].
  clear Hex. revert Hin. to_wp (handle (Mp := Mp) (Tick mode_ready engage_ready)) w. cbn [handle].
  unfold trip_state in Hs. unfold tick, tick_engaging, republish, doEngage, elapsed_ms.
  destruct mode_ready, engage_ready; wp_ops; intros Hin;
    first [done | by apply elem_of_nil in Hin].
Qed.

(** C32: a route that does not come is given up in time.  A tick that finds the route still not set
    once the timeout has passed ends the query: the caller gets a failure, the controller is idle
    with nothing banked -- and no change of state is announced. *)
Theorem route_timeout_fails_query a b w :
  trip_state w = QUERY_WAITING_ROUTE → route_is RS_SET (ctrl w) = false →
  route_timeout_ms (timings_ (ctrl w)) ≤
    to_ms (steady_at (reads w) - state_entered_at_ (ctrl w)) →
  let w' := step (Tick a b) w in
  status_ (ctrl w') = TripStatus_default ∧ pickup_route_ (ctrl w') = None ∧
  trip_route_ (ctrl w') = None ∧ query_cb_ (ctrl w') = None ∧
  match query_cb_ (ctrl w) with
  | Some k => ∃ r, events (outputs (handle (Tick a b)) w) = [Replied k r] ∧ success_ r = false
  | None => events (outputs (handle (Tick a b)) w) = []
  end.
Proof.
  intros Hs Hset Hto. unfold trip_state in Hs. unfold step. cbn zeta.
  to_wp (handle (Mp := Mp) (Tick a b)) w. cbn [handle].
  unfold tick. apply wp_bind, wp_bind. eapply wp_get_s; [exact Hs|]. cbv beta iota.
  unfold tick_query_route. apply wp_bind. eapply wp_get_c; [reflexivity|]. cbv beta.
  rewrite Hset. cbn [negb]. apply wp_bind.
  eapply wp_mono; [apply quiet_republish, quiet_publish_goal|].
  intros o w' out (-> & _ & Hio & Hr & t & Hc). cbv beta iota.
  apply steady_le in Hr.
  assert (Hms := to_ms_le (steady_at (reads w) - state_entered_at_ (ctrl w))
    (steady_at (reads w') - state_entered_at_ (ctrl w))).
  unfold fail_after, elapsed_ms, failQuery.
  assert (He : state_entered_at_ (ctrl w') = state_entered_at_ (ctrl w)) by by rewrite Hc.
  assert (Hq : query_cb_ (ctrl w') = query_cb_ (ctrl w)) by by rewrite Hc.
  apply events_io in Hio.
  wp_ops; rewrite ?He in *; try lia; rewrite <- Hq; rewrite ?Heqo.
  all: split_and!; try done.
  1: eexists; split; [|shelve].
  all: rewrite !events_app, Hio; reflexivity.
  Unshelve. reflexivity.
Qed.

End Theorems.
