(* ===== verification/TripWitnesses.v ===== *)
(** * TripWitnesses: the properties of the trip controller, evaluated

    The theorems of [TripTheorems] and [TripPacing] at concrete runs on the map of [Fixture], with
    the documented message constants and clocks that are read every millisecond, every second or
    every forty seconds. *)

From S2P Require Export TripTheorems TripPacing.
Import TripState.

#[local] Existing Instance fixture_lanelet2.
#[local] Existing Instance documented_msgs.

Definition fast : Clocks := fixture_clock 1000000.
Definition slow : Clocks := fixture_clock 40000000000.

(** ** Runs *)

(** Booted and localised, with the routes ready, and driving. *)
Definition to_idle : list Input := [LocStateMsg 3; Tick true true].
Definition ask : Input := QueryEta (Some depot_tf) pickup_gps goal_gps (Some 7%nat).
Definition to_ready : list Input :=
  to_idle ++ query_inputs true true depot_tf pickup_gps goal_gps 7 (d_of_Z 120) (d_of_Z 30)
                          (d_of_Z 900) (d_of_Z 95).
Definition to_pickup : list Input := to_ready ++ take 7 (drive true true).
Definition to_engaging_trip : list Input := to_ready ++ take 8 (drive true true).
Definition to_arrived : list Input := to_ready ++ take 10 (drive true true).

Definition booted (cl : Clocks) : World LaneletMap :=
  boot (H0 := cl) TripTimings_default fixture_started.
Definition at_ (cl : Clocks) (l : list Input) : World LaneletMap :=
  run (H0 := cl) l (booted cl).

Lemma fixture_rm_inv : rm_inv fixture_started.
Proof. exact fixture_started_wf. Qed.

Lemma at_reachable cl l : reachable (H0 := cl) (at_ cl l).
Proof. exact (reachable_boot (H0 := cl) TripTimings_default fixture_started l fixture_rm_inv). Qed.

Lemma trip_no_exception_witness :
  ∃ b, result (handle (H0 := fast) Move) (at_ fast to_pickup) = Ret b.
Proof. apply trip_no_exception, at_reachable. Defined.

Lemma trip_refines_protocol_witness :
  allowed_run to_arrived (trip_state (booted fast))
    (trip_state (at_ fast to_arrived)).
Proof.
  exact (trip_refines_protocol (H0 := fast) TripTimings_default fixture_started to_arrived
           fixture_rm_inv).
Defined.

Lemma trip_holds_routes_witness :
  trip_state (at_ fast to_ready) = ROUTES_READY ∧ trip_state (at_ fast to_ready) ≠ FAILED.
Proof.
  split; [vm_compute; reflexivity|].
  exact (proj1 (trip_holds_routes (H0 := fast) _ (at_reachable fast to_ready))).
Defined.

Lemma query_answered_once_witness :
  asked 7 to_ready =
  (replies 7 (run_outputs (H0 := fast) to_ready (booted fast)) +
   pending 7 (at_ fast to_ready) +
   dropped (H0 := fast) 7 to_ready (booted fast))%nat.
Proof.
  exact (query_answered_once (H0 := fast) TripTimings_default fixture_started to_ready 7
           fixture_rm_inv).
Defined.

Lemma query_terminates_witness :
  ∃ l1 l2, replicate 12 (Tick true true) = l1 ++ l2 ∧
    is_query (trip_state (run (H0 := slow) l1 (at_ slow (to_idle ++ [ask])))) = false.
Proof.
  apply (query_terminates (H0 := slow) _ _ (at_reachable slow (to_idle ++ [ask]))).
  vm_compute. lia.
Defined.

(** The lanes the map gives for the vehicle, the pickup and the destination. *)
Definition found (r : outcome (option LaneInfo) * LaneletMap) : LaneInfo :=
  match r.1 with Ret (Some l) => l | _ => mkLaneInfo 0 GPS_default (mkLocal d0 d0 d0)
                                            (mkOrientation d0 d0 d0 d0 d0) end.
Definition idle_map : LaneletMap := lanelet_map_ (at_ fast to_idle).
Definition vehicle_lookup := rm_findNearestLane (rm_localToGps idle_map depot_tf) idle_map.
Definition pickup_lookup :=
  rm_findNearestConnectedLane pickup_gps (lane_id (found vehicle_lookup)) true vehicle_lookup.2.
Definition goal_lookup :=
  rm_findNearestConnectedLane goal_gps (lane_id (found pickup_lookup)) true pickup_lookup.2.

Lemma query_reports_measured_etas_witness :
  ∃ w' p r,
    hears (H0 := fast) (query_inputs true true depot_tf pickup_gps goal_gps 7 d1 d1 d1 d1)
      (at_ fast to_idle) w'
      (query_events 7 (query_answer (found vehicle_lookup) (found pickup_lookup)
                                    (found goal_lookup) d1 d1 d1 d1)) ∧
    trip_state w' = ROUTES_READY ∧
    pickup_route_ (ctrl w') = Some p ∧ held_distance_m_ p = d1 ∧ held_eta_seconds_ p = d1 ∧
    trip_route_ (ctrl w') = Some r ∧ held_distance_m_ r = d1 ∧ held_eta_seconds_ r = d1.
Proof.
  apply (query_reports_measured_etas (H0 := fast) true true depot_tf pickup_gps goal_gps 7
    (at_ fast to_idle) (found vehicle_lookup) (found pickup_lookup) (found goal_lookup)
    vehicle_lookup.2 pickup_lookup.2 goal_lookup.2).
  - exact (at_reachable fast to_idle).
  - vm_compute. reflexivity.
  - split; vm_compute; reflexivity.
  - vm_compute. reflexivity.
  - vm_compute. reflexivity.
  - vm_compute. reflexivity.
  - vm_compute. reflexivity.
Defined.

Lemma trip_driven_to_completion_witness :
  ∃ w', hears (H0 := fast) (drive true true) (at_ fast to_ready) w' drive_events ∧
        trip_state w' = COMPLETED.
Proof.
  apply (trip_driven_to_completion (H0 := fast) true true _ (at_reachable fast to_ready)).
  split; [vm_compute; reflexivity|discriminate|reflexivity|vm_compute; reflexivity|].
  split_and!; vm_compute; reflexivity.
Defined.

Lemma startTrip_accepts_witness :
  ∃ p pl, pickup_route_ (ctrl (at_ fast to_ready)) = Some p ∧ lane_id pl = held_goal_lane_id_ p ∧
    result (startTrip (H0 := fast)) (at_ fast to_ready) = Ret true ∧
    trip_state (final (startTrip (H0 := fast)) (at_ fast to_ready)) = WAITING_FOR_PICKUP_START.
Proof.
  destruct (startTrip_accepts (H0 := fast) _ (at_reachable fast to_ready) ltac:(vm_compute; reflexivity))
    as (p & pl & Hp & Hid & Hr & Hs & _).
  exists p, pl. exact (conj Hp (conj Hid (conj Hr Hs))).
Defined.

Lemma move_accepts_witness :
  ∃ r, trip_route_ (ctrl (at_ fast to_pickup)) = Some r ∧
    result (move (H0 := fast)) (at_ fast to_pickup) = Ret true ∧
    trip_state (final (move (H0 := fast)) (at_ fast to_pickup)) = ENGAGING.
Proof.
  destruct (move_accepts (H0 := fast) _ (at_reachable fast to_pickup) ltac:(vm_compute; reflexivity))
    as (r & gl & t & Hr & Hres & Hs & _).
  exists r. exact (conj Hr (conj Hres Hs)).
Defined.

Lemma refusal_changes_nothing_witness :
  step (H0 := fast) Move (at_ fast to_ready) = at_ fast to_ready.
Proof.
  exact (proj1 (refusal_changes_nothing (H0 := fast) Move _ (at_reachable fast to_ready) I
    ltac:(vm_compute; reflexivity))).
Defined.

Lemma refused_start_swaps_leg_witness :
  trip_state (step (H0 := fast) Engaged (step (H0 := fast) StartTrip (at_ fast to_engaging_trip))) =
    DRIVING_TO_PICKUP.
Proof.
  exact (proj2 (proj2 (refused_start_swaps_leg (H0 := fast) _ (at_reachable fast to_engaging_trip)
    ltac:(vm_compute; reflexivity) ltac:(vm_compute; reflexivity)))).
Defined.

Lemma refused_start_loses_arrival_witness :
  trip_state (step (H0 := fast) (Tick true true)
               (step (H0 := fast) StartTrip (at_ fast to_arrived))) = RUNNING.
Proof.
  exact (proj2 (proj2 (refused_start_loses_arrival (H0 := fast) true true _
    (at_reachable fast to_arrived) ltac:(vm_compute; reflexivity) ltac:(vm_compute; reflexivity)))).
Defined.

(** Seconds after the engagement started, the next tick asks for it. *)
Lemma engagement_only_when_engaging_witness :
  Tick true true = Tick true true ∧ trip_state (at_ slow to_engaging_trip) = ENGAGING ∧
  current_mode_state_ (ctrl (at_ slow to_engaging_trip)) ≠ Some false.
Proof.
  apply (engagement_only_when_engaging (H0 := slow) (Tick true true)).
  change (SendModeRequest ∈ [SendModeRequest]). by left.
Defined.

Definition to_route_wait : list Input :=
  to_idle ++ [ask; Tick true true; Tick true true; Tick true true].

Lemma route_timeout_fails_query_witness :
  status_ (ctrl (step (H0 := slow) (Tick true true) (at_ slow to_route_wait))) = TripStatus_default.
Proof.
  exact (proj1 (route_timeout_fails_query (H0 := slow) true true (at_ slow to_route_wait)
    ltac:(vm_compute; reflexivity) ltac:(vm_compute; reflexivity)
    ltac:(vm_compute; discriminate))).
Defined.

(** The goal is asked for again two seconds after the first repetition, not before: with a clock
    that reads a second later each time, the next but one tick. *)
Definition second : Clocks := fixture_clock 1000000000.
Lemma repetitions_spaced_witness :
  let w := at_ second to_route_wait in
  let w1 := step (H0 := second) (Tick true true) w in
  let w2 := run (H0 := second) [EtaMsg d0 d0; Tick true true] w1 in
  Exists is_io (outputs (handle (H0 := second) (Tick true true)) w2) ∧
  ∃ n, (reads w < n < reads w1)%nat ∧
    2000 ≤ to_ms (steady_at (Clocks := second) (reads w2) - steady_at (Clocks := second) n).
Proof.
  intros w w1 w2.
  assert (Hio : Exists is_io (outputs (handle (H0 := second) (Tick true true)) w2)).
  { vm_compute. by left. }
  split; [exact Hio|].
  destruct (repetitions_spaced (H0 := second) true true true true w
    [EtaMsg d0 d0; Tick true true] 2000) as (n & Hn & _ & Hp).
  - vm_compute; reflexivity.
  - vm_compute. by left.
  - intros [|[|k]]; [vm_compute; reflexivity..|].
    change (trip_state (run (H0 := second) (take (S (S k)) [EtaMsg d0 d0; Tick true true]) w1) =
      trip_state w). cbn [take]. rewrite take_nil. vm_compute; reflexivity.
  - exact Hio.
  - vm_compute; reflexivity.
  - exists n. exact (conj Hn Hp).
Defined.

(** A machine that has been up for an hour, read every millisecond. *)
#[refine] Definition hour_up : Clocks := {|
  steady_at n := 3600000000000 + Z.of_nat n * 1000000;
  ros_at n := Z.of_nat n * 1000000
|}.
Proof. intros n. lia. Defined.

(** The time of the last publication does not cover the way into the state: the goal sent by the
    tick that enters [QUERY_WAITING_ROUTE] is sent again by the next one. *)
Lemma goal_sent_again_at_once :
  let w := at_ hour_up (to_idle ++ [ask; Tick true true; Tick true true]) in
  let w' := step (H0 := hour_up) (Tick true true) w in
  ∃ g g', PublishGoal g ∈ outputs (handle (H0 := hour_up) (Tick true true)) w ∧
    outputs (handle (H0 := hour_up) (Tick true true)) w' = [PublishGoal g'] ∧ ps_pose g = ps_pose g'.
Proof.
  eexists _, _. split; [vm_compute; left|]. split; [vm_compute; reflexivity|reflexivity].
Qed.
