(* ===== verification/MapTheorems.v ===== *)
(** * MapTheorems: the properties of the lane map

    What [LaneletMap] promises its callers: which lanelet a search returns (and that a local offset
    misleads it), how long the pointers it hands out live, what its constructor and its path resolution do, and that the trip
    controller can rely on it. *)

From S2P Require Export MapComponents TripWitnesses.

Section Theorems.
Context `{Lanelet2}.
Implicit Types (m : LaneletMap) (layer : list ConstLanelet).

(** ** The searches *)

(** A lanelet for pedestrians is not drivable. *)
Definition drivable (ll : ConstLanelet) : Prop :=
  ∀ st, ll_subtype ll = Some st → st ∉ ["crosswalk"; "walkway"; "stairs"; "pedestrian"].

(** The distance from [target] to the middle point of the centre line of a lanelet, both in the
    frame of the map's origin. *)
Definition mid_distance (target : LocalCoordinate) (ll : ConstLanelet) (d : double) : Prop :=
  ∃ mid, centerline ll !! Nat.div (length (centerline ll)) 2 = Some mid ∧
    let dx := dsub (px mid) (local_x target) in
    let dy := dsub (py mid) (local_y target) in
    d = dsqrt (dadd (dmul dx dx) (dmul dy dy)).

(** Every drivable candidate is at distance [d] or more, NaN distances aside. *)
Definition nobody_nearer target (cands : list ConstLanelet) (d : double) : Prop :=
  ∀ ll' d', ll' ∈ cands → drivable ll' → mid_distance target ll' d' → dltb d' d = false.

(** The result of a search: the nearest drivable candidate, or null when there is none at a
    finite distance. *)
Definition found_nearest target cands (r : option nat) (m' : LaneletMap) : Prop :=
  match r with
  | Some i => ∃ l ll d, cache_ m' !! i = Some l ∧ lane_id l = ll_id ll ∧ ll ∈ cands ∧
      drivable ll ∧ mid_distance target ll d ∧ nobody_nearer target cands d
  | None => nobody_nearer target cands dmax
  end.

(** The map has no local offset (the default of MapProjectorInfo). *)
Definition no_offset m : Prop := offset_x_ m = d0 ∧ offset_y_ m = d0.

Lemma non_drivable_spec ll : non_drivable ll = false ↔ drivable ll.
Proof.
  unfold non_drivable, drivable. destruct (ll_subtype ll) as [st|]; [|by split].
  rewrite bool_decide_eq_false. split; [by intros ? ? [= <-]|by intros Hd; apply Hd].
Qed.

(** Adding the offset 0 changes at most the sign of a zero, which squaring forgets. *)
Lemma square_no_offset x t :
  dmul (dsub (dadd d0 x) t) (dsub (dadd d0 x) t) = dmul (dsub x t) (dsub x t).
Proof. by destruct x as [[]|[]| |[] ? ?], t as [[]|[]| |[] ? ?]. Qed.

Lemma lane_distance_spec m target ll d :
  no_offset m → lane_distance m target ll = Some d ↔ drivable ll ∧ mid_distance target ll d.
Proof.
  intros [Hx Hy]. rewrite <- non_drivable_spec. unfold lane_distance, mid_distance, midpoint.
  destruct (non_drivable ll); [split; [done|by intros [? _]]|].
  destruct (centerline ll !! _) as [mid|]; [|by split; [done|intros (_ & ? & ? & _)]].
  rewrite Hx, Hy, !square_no_offset. split; [intros [= <-]; by split; [|exists mid]|].
  by intros (_ & mid' & [= <-] & ->).
Qed.

Lemma scan_found m target cands r m' :
  no_offset m →
  (∀ ll, ll ∈ cands → ll_id ll ≠ InvalId) →
  let id := nearest_scan m target cands dmax InvalId in
  (id = InvalId → r = None) → (id ≠ InvalId → is_Some r) →
  (∀ i, r = Some i → ∃ l, cache_ m' !! i = Some l ∧ lane_id l = id) →
  found_nearest target cands r m'.
Proof.
  cbv zeta. intros Hoff Hids Hnone Hsome Hr.
  destruct (nearest_scan_spec m target cands dmax InvalId)
    as [[Heq Hno]|(ll & d & Heq & (Hin & Hd & Hlt) & Hmin)]; rewrite Heq in *.
  - rewrite Hnone by done. intros ll' d' Hin Hdr Hd'. apply not_true_is_false. intros Hlt.
    apply (Hno ll' d'). split_and!; [done|by apply lane_distance_spec|done].
  - destruct Hsome as [i ->]; [by apply Hids|]. destruct (Hr i eq_refl) as (l & Hl & Hid).
    apply (lane_distance_spec m) in Hd as [Hdr Hd]; [|done].
    exists l, ll, d. split_and!; [done..|].
    intros ll' d' Hin' Hdr' Hd'. apply not_true_is_false. intros Hlt'.
    assert (dleb d d' = true) as Hle.
    { apply (Hmin ll'). split_and!; [done|by apply lane_distance_spec|]. eapply dltb_leb_trans; [exact Hlt'|].
      by apply dltb_leb. }
    apply dleb_ltb_false in Hle. congruence.
Qed.

Lemma resolve_found m id g r m' :
  resolve id g m = (Ret r, m') → (id = InvalId → r = None) ∧ (id ≠ InvalId → is_Some r).
Proof.
  unfold resolve. destruct (decide (id = InvalId)) as [->|Hne].
  { by intros [= <- _]. }
  destruct (cached_index m id); [by intros [= <- _]|].
  destruct (_ ≫= _); [|done]. by intros [= <- _].
Qed.

(** C26: on a loaded map without local offset [findNearestLane] never throws; it returns the lanelet
    not for pedestrians the middle of whose centre line is nearest to the position (no other's is
    strictly nearer), cached, or null when no such lanelet is at a finite distance.  Distances are
    the planar ones, in doubles.  With a local offset the answer can be wrong:
    [offset_misleads_search]. *)
Theorem findNearestLane_nearest m g :
  map_wf m → no_offset m →
  ∃ r m', findNearestLane g m = (Ret r, m') ∧ map_wf m' ∧
    found_nearest (gpsToLocal m g) (layer_of m) r m'.
Proof.
  intros Hwf Hoff. destruct (findNearestLane_spec m g Hwf) as (r & m' & Hf & Hwf' & _ & Hr).
  exists r, m'. split_and!; [done..|].
  assert (Hres := Hf). unfold findNearestLane in Hres. rewrite map_wf_loaded in Hres by done.
  apply resolve_found in Hres as [Hn Hs]. apply (scan_found m); [done| |done..|].
  - intros ll Hin. destruct Hwf as (layer & ? & Hm & _ & _ & [_ Hok] & _).
    unfold layer_of in Hin. rewrite Hm in Hin. by apply Hok.
  - intros i Hi. destruct (Hr i Hi) as (l & ? & ? & _). by exists l.
Qed.


(** ** Looking up an id *)

Lemma connected_unknown m g ref b :
  map_wf m → ref ∉ (ll_id <$> layer_of m) →
  findNearestConnectedLane g ref b m = (Throw (NoSuchPrimitive ref), m).
Proof.
  intros Hwf Hnin. unfold findNearestConnectedLane. destruct (Hwf) as (? & gr & _ & _ & Hgr & _).
  rewrite map_wf_loaded, Hgr by done. unfold layer_get.
  destruct (layer_find (layer_of m) ref) as [ll|] eqn:Hf; [|done].
  exfalso. apply Hnin. apply layer_find_Some in Hf as [Hin <-]. by apply list_elem_of_fmap_2.
Qed.

Lemma getLaneById_cases m id :
  map_wf m →
  (∃ e, getLaneById id m = (Throw e, m)) ∨
  ∃ r m', getLaneById id m = (Ret r, m') ∧ map_wf m' ∧ map_le m m' ∧
          ∀ i, r = Some i → is_Some (cache_ m' !! i).
Proof.
  intros Hwf. unfold getLaneById. destruct (cached_index m id) as [i|] eqn:Hc.
  { right. exists (Some i), m. split_and!; [done..|]. intros j [= <-].
    destruct (cached_hit m id i Hwf Hc) as (l & -> & _). by eexists. }
  destruct (negb _); [right; by exists None, m|].
  destruct (layer_get (layer_of m) id) as [ll|e] eqn:Hget; cbn [mbind outcome_bind]; [|by left; exists e].
  destruct (midpoint ll) as [mid|]; [|by left; eexists].
  right. unfold layer_get in Hget. destruct (layer_find _ _) as [ll'|] eqn:Hf; [|done].
  injection Hget as ->. apply layer_find_Some in Hf as [Hin Hid].
  apply cached_index_None in Hc. rewrite <- Hid in Hc.
  destruct (emplace_new m ll (localToGps m (mkLocal (px mid) (py mid) (pz mid))) Hwf Hin Hc)
    as (l & m' & -> & -> & ? & ? & Hl & _ & _).
  eexists _, m'. split_and!; [done..|]. intros i [= <-]. by eexists.
Qed.

(** [getLaneById] answers with the lane of that id exactly when the map has it, caching it on
    first use; an id that is not in the map gives null.  A lanelet that was never resolved and has
    no centre line is the one case the code does not guard: it indexes an empty line. *)
Theorem getLaneById_answers m id :
  map_wf m →
  match layer_find (layer_of m) id with
  | None => getLaneById id m = (Ret None, m)
  | Some ll =>
    if decide (cached_index m id = None ∧ centerline ll = [])
    then getLaneById id m = (Throw UndefinedBehaviour, m)
    else ∃ i l m', getLaneById id m = (Ret (Some i), m') ∧ map_wf m' ∧ map_le m m' ∧
           cache_ m' !! i = Some l ∧ lane_id l = id
  end.
Proof.
  intros Hwf. unfold getLaneById. destruct (layer_find (layer_of m) id) as [ll|] eqn:Hf.
  - assert (Hex : layer_exists (layer_of m) id = true)
      by (unfold layer_exists; rewrite Hf; by apply bool_decide_eq_true_2).
    assert (Hget : layer_get (layer_of m) id = Ret ll) by (unfold layer_get; by rewrite Hf).
    apply layer_find_Some in Hf as [Hin Hid].
    destruct (cached_index m id) as [i|] eqn:Hc.
    { rewrite decide_False by by intros [? _]. destruct (cached_hit m id i Hwf Hc) as (l & ? & ? & _).
      by exists i, l, m. }
    rewrite Hex, Hget. cbn [negb mbind outcome_bind].
    destruct (centerline ll) as [|p0 cl] eqn:Hcl.
    { rewrite decide_True by done. unfold midpoint. by rewrite Hcl. }
    rewrite decide_False by by intros [_ ?].
    destruct (midpoint ll) as [mid|] eqn:Hmid.
    + apply cached_index_None in Hc. rewrite <- Hid in Hc.
      destruct (emplace_new m ll (localToGps m (mkLocal (px mid) (py mid) (pz mid))) Hwf Hin Hc)
        as (l & m' & -> & -> & ? & ? & ? & ? & _).
      eexists _, l, m'. split_and!; [done..|congruence].
    + exfalso. unfold midpoint in Hmid. apply lookup_ge_None in Hmid. rewrite Hcl in Hmid.
      pose proof (Nat.div_lt (length (p0 :: cl)) 2). cbn [length] in *. lia.
  - assert (layer_exists (layer_of m) id = false) as ->.
    { unfold layer_exists. rewrite Hf. by apply bool_decide_eq_false_2; intros [? ?]. }
    destruct (cached_index m id) as [i|] eqn:Hc; [|done].
    exfalso. destruct (cached_hit m id i Hwf Hc) as (l & Hl & Hid & _).
    destruct Hwf as (layer & ? & Hm & _ & _ & _ & _ & _ & _ & Hcc).
    apply list_elem_of_lookup_2, Hcc, list_elem_of_fmap in Hl as (ll & Hid' & Hin).
    unfold layer_of in Hf. rewrite Hm in Hf. change (layer_find layer id = None) in Hf.
    apply layer_find_elem in Hin as [? Hin]. congruence.
Qed.

(** ** Pointers *)

(** The operations of the map that resolve lanes. *)
Inductive MapOp : Type :=
  | Nearest (g : GPSCoordinate)
  | ById (id : Z)
  | Connected (g : GPSCoordinate) (ref : Z) (b : bool)
  | SetStart (name : string) (g : GPSCoordinate).

Definition perform (o : MapOp) (m : LaneletMap) : outcome (option nat) * LaneletMap :=
  match o with
  | Nearest g => findNearestLane g m
  | ById id => getLaneById id m
  | Connected g ref b => findNearestConnectedLane g ref b m
  | SetStart name g => match setDefaultStart name g m with
                       | (Ret _, m') => (Ret None, m')
                       | (Throw e, m') => (Throw e, m')
                       end
  end.
Definition perform_all (ops : list MapOp) (m : LaneletMap) : LaneletMap :=
  run_inputs (λ o m, (perform o m).2) ops m.

(** The cache grows at its end and is not reallocated. *)
Definition grown m m' : Prop :=
  map_wf m' ∧ cache_ m `prefix_of` cache_ m' ∧ cache_capacity_ m' = cache_capacity_ m.

Lemma lookup_spec_grown op m want : lookup_spec op m want →
  ∃ r, (op m).1 = Ret r ∧ grown m (op m).2 ∧ ∀ i, r = Some i → is_Some (cache_ (op m).2 !! i).
Proof.
  intros (r & m' & -> & Hwf & (_ & _ & _ & _ & _ & Hcap & _ & Hp) & Hr). exists r.
  split; [done|]. split; [done|]. intros i Hi. destruct (Hr i Hi) as (l & Hl & _). by exists l.
Qed.

Lemma perform_grown o m :
  map_wf m →
  grown m (perform o m).2 ∧
  ∀ i, (perform o m).1 = Ret (Some i) → is_Some (cache_ (perform o m).2 !! i).
Proof.
  intros Hwf. destruct o as [g|id|g ref b|name g]; cbn [perform].
  - destruct (lookup_spec_grown _ _ _ (findNearestLane_spec m g Hwf)) as (r & -> & Hg & Hi).
    split; [done|]. intros i [= ->]. by apply Hi.
  - pose proof (getLaneById_cases m id Hwf) as Hc.
    destruct Hc as [(e & ->)|(r & m' & -> & Hwf' & (_ & _ & _ & _ & _ & Hcap & _ & Hp) & Hr)].
    + split; [|done]. by repeat split.
    + split; [done|]. intros i [= ->]. by apply Hr.
  - pose proof (findNearestConnectedLane_spec m g ref b Hwf) as Hspec.
    destruct (decide (ref ∈ (ll_id <$> layer_of m))) as [Hin|Hnin].
    + destruct (Hspec Hin) as (gr & ll & _ & _ & Hsp).
      destruct (lookup_spec_grown _ _ _ Hsp) as (r & -> & Hg & Hi).
      split; [done|]. intros i [= ->]. by apply Hi.
    + rewrite (connected_unknown m g ref b Hwf Hnin). split; [|done]. by repeat split.
  - destruct (setDefaultStart_wf name g m Hwf) as (m' & Hs & Hwf' & _ & Hp).
    rewrite Hs. cbn. split; [|done]. split; [done|]. split; [done|].
    unfold setDefaultStart in Hs.
    destruct (lookup_spec_grown _ _ _ (findNearestLane_spec m g Hwf)) as (r & Hr1 & (_ & _ & Hcap) & _).
    destruct (findNearestLane g m) as [[r'|e] m1]; [|done]. injection Hs as <-. exact Hcap.
Qed.

(** C28: a pointer the map hands out stays valid for the life of the map.  Whatever lookups follow,
    the element it points to is still there, unchanged, in the same allocation: the cache never
    outgrows the capacity reserved at construction. *)
Theorem lane_pointers_stay_valid o m i ops :
  map_wf m → (perform o m).1 = Ret (Some i) →
  let m1 := (perform o m).2 in
  let m2 := perform_all ops m1 in
  ∃ l, cache_ m1 !! i = Some l ∧ cache_ m2 !! i = Some l ∧
    cache_capacity_ m2 = cache_capacity_ m ∧ (length (cache_ m2) ≤ cache_capacity_ m2)%nat.
Proof.
  intros Hwf Hi m1 m2. destruct (perform_grown o m Hwf) as [(Hwf1 & _ & Hcap1) Hl].
  destruct (Hl i Hi) as [l Hl']. exists l. split; [done|]. fold m1 in Hwf1, Hcap1, Hl'.
  assert (Hall : grown m1 m2).
  { apply (run_inputs_inv (λ o m, (perform o m).2) (grown m1)).
    - intros o' m' (Hwf' & Hp & Hcap). destruct (perform_grown o' m' Hwf') as [(? & ? & ?) _].
      split; [done|]. split; [by etrans|congruence].
    - by repeat split. }
  destruct Hall as (Hwf2 & Hp & Hcap). split; [by eapply prefix_lookup_Some|].
  split; [congruence|]. by apply map_wf_cache_length.
Qed.

(** ** Projection *)

(** [p] is the closest point of some segment of the line, at distance [d]. *)
Definition best_of (tx ty : double) (cl : list BasicPoint3d) (p : BasicPoint3d)
    (d : double) : Prop :=
  ∃ i p0 p1, cl !! i = Some p0 ∧ cl !! S i = Some p1 ∧ project_segment tx ty p0 p1 = (d, p).

Lemma best_of_cons tx ty p0 cl p d :
  best_of tx ty cl p d → best_of tx ty (p0 :: cl) p d.
Proof. intros (i & q0 & q1 & ? & ? & ?). by exists (S i), q0, q1. Qed.

Lemma best_of_inv tx ty p0 p1 cl p d :
  best_of tx ty (p0 :: p1 :: cl) p d →
  project_segment tx ty p0 p1 = (d, p) ∨ best_of tx ty (p1 :: cl) p d.
Proof.
  intros ([|i] & q0 & q1 & Hq0 & Hq1 & Hp); cbn in Hq0, Hq1.
  - left. congruence.
  - right. by exists i, q0, q1.
Qed.

Lemma project_segments_spec tx ty cl bound best :
  let r := project_segments tx ty cl bound best in
  (r = (bound, best) ∧ ∀ p d, best_of tx ty cl p d → dltb d bound = false) ∨
  (best_of tx ty cl r.2 r.1 ∧ dltb r.1 bound = true ∧
   ∀ p d, best_of tx ty cl p d → dltb d r.1 = false).
Proof.
  revert bound best. induction cl as [|p0 [|p1 cl] IH]; intros bound best.
  1,2: left; split; [done|]; intros p d ([|i] & ? & ? & ? & ? & ?); done.
  change (project_segments tx ty (p0 :: p1 :: cl) bound best) with
    (let '(dist, p) := project_segment tx ty p0 p1 in
     if dltb dist bound then project_segments tx ty (p1 :: cl) dist p
     else project_segments tx ty (p1 :: cl) bound best).
  destruct (project_segment tx ty p0 p1) as [dist p] eqn:Hseg.
  assert (Hhd : best_of tx ty (p0 :: p1 :: cl) p dist) by by exists 0%nat, p0, p1.
  destruct (dltb dist bound) eqn:Hlt; cbn zeta.
  - right. destruct (IH dist p) as [[-> Hno]|(Hon & Hd & Hmin)]; cbn zeta in *.
    + split_and!; [done..|]. intros q d' [Hq|Hq]%best_of_inv; [|by eapply Hno].
      rewrite Hseg in Hq. injection Hq as <- <-. apply dltb_irrefl.
    + split_and!; [by apply best_of_cons|eapply dltb_leb_trans; [exact Hd|by apply dltb_leb]|].
      intros q d' [Hq|Hq]%best_of_inv; [|by eapply Hmin].
      rewrite Hseg in Hq. injection Hq as <- <-. apply dleb_ltb_false. by apply dltb_leb.
  - destruct (IH bound best) as [[-> Hno]|(Hon & Hd & Hmin)]; cbn zeta in *.
    + left. split; [done|]. intros q d' [Hq|Hq]%best_of_inv; [|by eapply Hno]. congruence.
    + right. split_and!; [by apply best_of_cons|done|].
      intros q d' [Hq|Hq]%best_of_inv; [|by eapply Hmin].
      rewrite Hseg in Hq. injection Hq as <- <-. apply not_true_is_false. intros Hc.
      assert (dltb dist bound = true); [|congruence].
      eapply dltb_leb_trans; [exact Hc|by apply dltb_leb].
Qed.

(** The projection in doubles.  The position given for a lanelet of the map is the point that the
    routine gives for a segment of its centre line, at the least distance that it computes -- or,
    when the line has no segment at a finite distance, the uninitialised point the loop started
    from.  That the point of a segment is the nearest, but for rounding, is
    [GeometryTheorems.projection_is_nearest_point]. *)
Theorem projection_in_doubles m g id :
  id ∈ (ll_id <$> layer_of m) →
  ∃ ll p, layer_get (layer_of m) id = Ret ll ∧
    projectOntoLaneCenterline m g id = Ret (mkLocal (px p) (py p) (pz p)) ∧
    let cl := centerline ll in
    let tx := local_x (gpsToLocal m g) in
    let ty := local_y (gpsToLocal m g) in
    ((∃ d, best_of tx ty cl p d ∧ dltb d dmax = true ∧
           ∀ q d', best_of tx ty cl q d' → dltb d' d = false) ∨
     (p = uninitialised_point ∧ ∀ q d', best_of tx ty cl q d' → dltb d' dmax = false)).
Proof.
  intros (ll0 & -> & Hin)%list_elem_of_fmap.
  destruct (layer_get_id _ _ _ Hin eq_refl) as (ll & Hget & _).
  unfold projectOntoLaneCenterline. rewrite Hget. cbn [mbind outcome_bind].
  exists ll, (project_segments (local_x (gpsToLocal m g)) (local_y (gpsToLocal m g)) (centerline ll) dmax uninitialised_point).2.
  split_and!; [done..|]. cbv zeta.
  destruct (project_segments_spec (local_x (gpsToLocal m g)) (local_y (gpsToLocal m g)) (centerline ll) dmax uninitialised_point)
    as [[-> Hno]|(Hon & Hd & Hmin)]; cbv zeta in *; [by right|left].
  by eexists.
Qed.

(** A centre line of fewer than two points has no segment: its projection is uninitialised. *)
Theorem projection_of_short_line m g id ll :
  layer_get (layer_of m) id = Ret ll → (length (centerline ll) < 2)%nat →
  projectOntoLaneCenterline m g id =
  Ret (let p := uninitialised_point in mkLocal (px p) (py p) (pz p)).
Proof.
  intros Hget Hlen. unfold projectOntoLaneCenterline. rewrite Hget. cbn [mbind outcome_bind].
  by destruct (centerline ll) as [|p0 [|p1 cl]]; [..|cbn in Hlen; lia].
Qed.

(** The cache forgets who asked.  Once a lanelet has been resolved for one position, any
    position whose nearest lanelet it is gets the very same entry: the foot of the first position,
    not of the one asked about. *)
Theorem cached_lane_keeps_first_position m g1 g2 id i m1 :
  map_wf m → cached_index m id = None → id ≠ InvalId →
  nearest_scan m (gpsToLocal m g1) (layer_of m) dmax InvalId = id →
  nearest_scan m (gpsToLocal m g2) (layer_of m) dmax InvalId = id →
  findNearestLane g1 m = (Ret (Some i), m1) →
  findNearestLane g2 m1 = (Ret (Some i), m1) ∧
  ∃ l, cache_ m1 !! i = Some l ∧ projectOntoLaneCenterline m g1 id = Ret (local l).
Proof.
  intros Hwf Hc Hne H1 H2 Hf.
  assert (Hin : ∃ ll, ll ∈ layer_of m ∧ ll_id ll = id).
  { destruct (nearest_scan_elem m (gpsToLocal m g1) (layer_of m) dmax)
      as [Hi|(ll & Hll & Hi)]; cbv zeta in Hi; rewrite H1 in Hi; [done|by exists ll]. }
  destruct Hin as (ll & Hll & Hid).
  unfold findNearestLane in Hf. rewrite map_wf_loaded, H1 in Hf by done. cbn [negb] in Hf.
  unfold resolve in Hf. rewrite decide_False, Hc in Hf by done.
  destruct (layer_get_id _ _ _ Hll Hid) as (ll' & Hget & Hll' & Hid').
  rewrite Hget in Hf. cbn [mbind outcome_bind] in Hf.
  assert (Hfresh := cached_index_None _ _ Hc). rewrite <- Hid' in Hfresh.
  destruct (emplace_new m ll' g1 Hwf Hll' Hfresh) as (l & m' & Hl & He & Hwf1 & Hle & Hlk & Hlid & _).
  rewrite Hl, He in Hf. injection Hf as <- <-. split.
  - unfold findNearestLane. rewrite map_wf_loaded by done. cbn [negb].
    destruct (Hle) as (Hpr & Hmp & _). unfold gpsToLocal, layer_of in *. rewrite Hpr, Hmp.
    rewrite (nearest_scan_le m m') by done. rewrite H2. unfold resolve.
    rewrite decide_False by done. rewrite <- Hid', <- Hlid.
    by rewrite (cached_index_lookup m' (length (cache_ m)) l (map_wf_nodup _ Hwf1) Hlk).
  - exists l. split; [done|]. rewrite <- Hid'. unfold makeLaneInfo in Hl.
    destruct (projectOntoLaneCenterline m g1 (ll_id ll')) as [pr|e]; cbn in Hl; [|done].
    by injection Hl as <-.
Qed.

(** ** Construction *)

(** The path of the map.  An absolute path that exists is taken as it is; otherwise the first
    of the three directories that has the file wins; if none has it, the name comes back unchanged
    and names no file in any of them. *)
Theorem resolveOsmPath_first_match exists_ dirs filename :
  let r := resolveOsmPath exists_ dirs filename in
  (is_absolute filename = true ∧ exists_ filename = true ∧ r = filename) ∨
  (∃ i base, dirs !! i = Some base ∧ r = path_append base filename ∧ exists_ r = true ∧
     ∀ j base', (j < i)%nat → dirs !! j = Some base' → exists_ (path_append base' filename) = false) ∨
  (r = filename ∧ ∀ base, base ∈ dirs → exists_ (path_append base filename) = false).
Proof.
  cbv zeta. unfold resolveOsmPath.
  destruct (is_absolute filename && exists_ filename) eqn:Ha.
  { left. by apply andb_true_iff in Ha as [? ?]. }
  destruct (list_find _ _) as [[i c]|] eqn:Hf.
  - right; left. apply list_find_Some in Hf as (Hc & He & Hmin).
    rewrite list_lookup_fmap in Hc. apply fmap_Some in Hc as (base & Hb & ->).
    exists i, base. split_and!; [done..|]. intros j base' Hj Hb'. apply not_true_is_false.
    apply (Hmin j); [|done]. by rewrite list_lookup_fmap, Hb'.
  - right; right. split; [done|]. intros base Hb. apply list_find_None in Hf.
    rewrite Forall_forall in Hf. apply not_true_is_false. apply Hf.
    apply list_elem_of_fmap. by exists base.
Qed.
End Theorems.

Section Loading.
Context `{Lanelet2Laws}.

(** Construction either throws std::runtime_error -- exactly when the file is not found or the
    map has no lanelets -- or yields a loaded, well-formed map of at least one lanelet with an
    empty cache and no default start. *)
Theorem construction_yields_loaded_map exists_ dirs path lat lon ox oy :
  let full := resolveOsmPath exists_ dirs path in
  match LaneletMap_new exists_ dirs path lat lon ox oy with
  | Throw e => (exists_ full = false ∨ load full (setMGRSCode (mkGPS lat lon)) = []) ∧
               ∃ what, e = RuntimeError what
  | Ret m => exists_ full = true ∧ map_wf m ∧ isLoaded m = true ∧ (0 < getLaneletCount m)%nat ∧
             cache_ m = [] ∧ getDefaultStart m = None
  end.
Proof.
  cbv zeta. destruct (LaneletMap_new exists_ dirs path lat lon ox oy) as [m|e] eqn:Hn.
  - destruct (map_new_wf _ _ _ _ _ _ _ _ Hn) as [Hwf Hc].
    assert (Hl := map_wf_loaded m Hwf). unfold LaneletMap_new in Hn.
    destruct (exists_ (resolveOsmPath exists_ dirs path)); cbn in Hn; [|done].
    destruct (load _ _) as [|ll layer] eqn:Hlay; [done|]. injection Hn as <-.
    split_and!; try done. cbn. lia.
  - unfold LaneletMap_new in Hn.
    destruct (exists_ (resolveOsmPath exists_ dirs path)); cbn in Hn; [|].
    + destruct (load _ _) as [|ll layer] eqn:Hlay; [|done]. injection Hn as <-.
      split; [by right|by eexists].
    + injection Hn as <-. split; [by left|by eexists].
Qed.

End Loading.

(** ** Witnesses *)

#[local] Existing Instance fixture_lanelet2.
#[local] Existing Instance documented_msgs.

Lemma fixture_no_offset : no_offset fixture_started.
Proof. by split; vm_compute. Qed.

Lemma findNearestLane_nearest_witness :
  ∃ r m', findNearestLane pickup_gps fixture_started = (Ret r, m') ∧ map_wf m' ∧
    found_nearest (gpsToLocal fixture_started pickup_gps)
      (layer_of fixture_started) r m'.
Proof. exact (findNearestLane_nearest fixture_started pickup_gps fixture_started_wf fixture_no_offset). Defined.

(** A map with a local offset: the offset is added to the lanelets and not to the position, so that
    the search for the very middle of the centre line of lanelet 20 returns lanelet 10. *)
Theorem offset_misleads_search :
  let m := fixture_map <| offset_x_ := dlit 2 10 |> in
  let g := mkGPS (dlit 352 10) (dlit 1394 10) in
  mid_distance (gpsToLocal m g) lane20 d0 ∧
  lane_id <$> (i ← default None (match (findNearestLane g m).1 with Ret r => Some r | _ => None end);
               cache_ (findNearestLane g m).2 !! i) = Some 10.
Proof.
  split; [|vm_compute; reflexivity].
  exists (pt 1394 352). split; vm_compute; reflexivity.
Qed.


Lemma getLaneById_answers_witness :
  match layer_find (layer_of fixture_started) 20 with
  | None => getLaneById 20 fixture_started = (Ret None, fixture_started)
  | Some ll =>
    if decide (cached_index fixture_started 20 = None ∧ centerline ll = [])
    then getLaneById 20 fixture_started = (Throw UndefinedBehaviour, fixture_started)
    else ∃ i l m', getLaneById 20 fixture_started = (Ret (Some i), m') ∧ map_wf m' ∧
           map_le fixture_started m' ∧ cache_ m' !! i = Some l ∧ lane_id l = 20
  end.
Proof. exact (getLaneById_answers fixture_started 20 fixture_started_wf). Defined.

(** The entry of the default start's lane survives the lookups of a whole query. *)
Lemma lane_pointers_stay_valid_witness :
  let o := Nearest (mkGPS (dlit 351 10) (dlit 1391 10)) in
  let m1 := (perform o fixture_map).2 in
  let m2 := perform_all [Connected pickup_gps 10 true; ById 20; Nearest goal_gps] m1 in
  ∃ l, cache_ m1 !! 0%nat = Some l ∧ cache_ m2 !! 0%nat = Some l ∧
    cache_capacity_ m2 = cache_capacity_ fixture_map ∧
    (length (cache_ m2) ≤ cache_capacity_ m2)%nat.
Proof.
  apply (lane_pointers_stay_valid (Nearest (mkGPS (dlit 351 10) (dlit 1391 10))) fixture_map 0);
    [exact fixture_map_wf|vm_compute; reflexivity].
Defined.

Lemma projection_in_doubles_witness :
  ∃ ll p, layer_get (layer_of fixture_started) 10 = Ret ll ∧
    projectOntoLaneCenterline fixture_started pickup_gps 10 = Ret (mkLocal (px p) (py p) (pz p)) ∧
    p ≠ uninitialised_point.
Proof.
  destruct (projection_in_doubles fixture_started pickup_gps 10) as (ll & p & Hll & Hp & _).
  { change (10 ∈ [10; 20; 30]). by left. }
  exists ll, p. split; [exact Hll|]. split; [exact Hp|]. intros ->. revert Hp. vm_compute. discriminate.
Defined.

(** The pickup is asked for after the depot, on the same lane: the depot's foot comes back, and it
    is not the pickup's. *)
Lemma cached_lane_keeps_first_position_witness :
  let depot := mkGPS (dlit 351 10) (dlit 1391 10) in
  let m1 := (findNearestLane depot fixture_map).2 in
  findNearestLane pickup_gps m1 = (Ret (Some 0%nat), m1) ∧
  ∃ l, cache_ m1 !! 0%nat = Some l ∧
    projectOntoLaneCenterline fixture_map depot 10 = Ret (local l) ∧
    projectOntoLaneCenterline fixture_map pickup_gps 10 ≠ Ret (local l).
Proof.
  destruct (cached_lane_keeps_first_position fixture_map (mkGPS (dlit 351 10) (dlit 1391 10))
    pickup_gps 10 0 (findNearestLane (mkGPS (dlit 351 10) (dlit 1391 10)) fixture_map).2)
    as (Hf & l & Hl & Hp).
  - exact fixture_map_wf.
  - vm_compute. reflexivity.
  - discriminate.
  - vm_compute. reflexivity.
  - vm_compute. reflexivity.
  - vm_compute. reflexivity.
  - split; [exact Hf|]. exists l. split; [exact Hl|]. split; [exact Hp|].
    rewrite <- Hp. vm_compute. discriminate.
Defined.

Lemma components_partition_roads_witness :
  ∃ cs, debugConnectedComponents fixture_started = Some cs ∧ NoDup (concat cs).
Proof.
  destruct (components_partition_roads fixture_started fixture_layer) as (cs & Hcs & Hnd & _).
  - exact fixture_started_wf.
  - vm_compute. reflexivity.
  - intros ll n _ Hn. unfold neighbours in Hn.
    repeat (apply elem_of_app in Hn as [Hn|Hn]).
    + by apply list_elem_of_filter in Hn as [_ ?].
    + by apply list_elem_of_filter in Hn as [_ ?].
    + by apply elem_of_nil in Hn.
    + by apply elem_of_nil in Hn.
  - exists cs. exact (conj Hcs Hnd).
Defined.

Lemma construction_yields_loaded_map_witness :
  let full := resolveOsmPath (λ _, true) [] "/m.osm" in
  match LaneletMap_new (λ _, true) [] "/m.osm" d0 d0 d0 d0 with
  | Throw e => (true = false ∨ load full (setMGRSCode (mkGPS d0 d0)) = []) ∧
               ∃ what, e = RuntimeError what
  | Ret m => true = true ∧ map_wf m ∧ isLoaded m = true ∧ (0 < getLaneletCount m)%nat ∧
             cache_ m = [] ∧ getDefaultStart m = None
  end.
Proof.
  exact (construction_yields_loaded_map (H0 := fixture_laws) (λ _, true) [] "/m.osm" d0 d0 d0 d0).
Defined.
