(* ===== verification/BridgeWitnesses.v ===== *)
(** * BridgeWitnesses: the bridge theorems at concrete runs *)

From S2P Require Export FrameTheorems.
Import FrameBridge.
#[local] Existing Instance documented_msgs.

(** The bridge starts, a speed, a gear and again a speed arrive, and the timer expires once. *)
Definition cluster_run : list (BridgeAction Z Cluster.Msg) :=
  [StrandRuns 0; MessagePosted (Cluster.VelocityReport (f_of_Z 1));
   MessagePosted (Cluster.GearReport 2); MessagePosted (Cluster.VelocityReport (f_of_Z 10));
   StrandRuns 1; StrandRuns 2; StrandRuns 3; TimerExpires; StrandRuns 4].
(** The same newest messages, the gear last, and a frame in between. *)
Definition cluster_run' : list (BridgeAction Z Cluster.Msg) :=
  [StrandRuns 0; MessagePosted (Cluster.VelocityReport (f_of_Z 10)); StrandRuns 3; TimerExpires;
   StrandRuns 9; MessagePosted (Cluster.GearReport 2); StrandRuns 2; TimerExpires; StrandRuns 4].

#[local] Abbreviation cluster_history l := (history (Ops := Cluster.ClusterBridge_ops) l Cluster.FrameState_default).
Definition split_last {A} (l : list A) : list A := take (length l - 1) l.
Definition shown_frame : vehicle_frame.VehicleFrame :=
  match last (cluster_history cluster_run) with
  | Some (Published _ f) => f
  | _ => Cluster.buildFrame 0 0 Cluster.FrameState_default
  end.
Definition shown_frame' : vehicle_frame.VehicleFrame :=
  match last (cluster_history cluster_run') with
  | Some (Published _ f) => f
  | _ => Cluster.buildFrame 0 0 Cluster.FrameState_default
  end.

Lemma cluster_run_published :
  cluster_history cluster_run = split_last (cluster_history cluster_run) ++ [Published 4 shown_frame].
Proof. vm_compute. reflexivity. Qed.
Lemma cluster_run'_published :
  cluster_history cluster_run' =
  split_last (cluster_history cluster_run') ++ [Published 4 shown_frame'].
Proof. vm_compute. reflexivity. Qed.

Lemma frame_shows_latest_messages_witness :
  Some shown_frame = Some (Cluster.buildFrame 4 0
    (Cluster.handler (Cluster.VelocityReport (f_of_Z 10))
       (Cluster.handler (Cluster.GearReport 2) Cluster.FrameState_default))).
Proof.
  etransitivity;
    [symmetry; exact (frame_shows_latest_messages (topic := Cluster.topic) cluster_run
              Cluster.FrameState_default _ 4 shown_frame [] cluster_run_published)|].
  vm_compute. reflexivity.
Defined.

Lemma frame_determined_by_latest_witness :
  ∃ s, Some (Cluster.buildFrame 4 0 s) = Some shown_frame ∧
       Some (Cluster.buildFrame 4 1 s) = Some shown_frame'.
Proof.
  edestruct (frame_determined_by_latest (topic := Cluster.topic) cluster_run cluster_run'
           Cluster.FrameState_default _ _ 4 shown_frame shown_frame' [] []
           cluster_run_published cluster_run'_published) as (s & Hs & Hs'); [|exists s; split; [exact Hs|exact Hs']].
  intros k. do 15 (destruct k as [|k]; [vm_compute; reflexivity|]). vm_compute. reflexivity.
Defined.

Lemma bridge_keeps_publishing_witness :
  ∃ f, last (outputs (act_all (Ops := Cluster.ClusterBridge_ops)
                        [StrandRuns 5; TimerExpires; StrandRuns 6])
                     (bridge_after [] Cluster.FrameState_default)) = Some (Published 6 f).
Proof.
  refine (bridge_keeps_publishing (Ops := Cluster.ClusterBridge_ops) []
            Cluster.FrameState_default [5] 6 _ _ _).
  - intros n s. by eexists.
  - intros Hin. by apply elem_of_nil in Hin.
  - reflexivity.
Defined.

(** Four messages on the strand when the thread starts to work it off. *)
Definition cluster_arrivals : list (BridgeAction Z Cluster.Msg) :=
  [MessagePosted (Cluster.VelocityReport (f_of_Z 1)); MessagePosted (Cluster.GearReport 2);
   MessagePosted (Cluster.VelocityReport (f_of_Z 10))].
Lemma next_frame_shows_all_arrivals_witness :
  last (cluster_history (cluster_arrivals ++ (StrandRuns <$> [0; 1; 2; 3]) ++
                         [TimerExpires; StrandRuns 4])) =
  Some (Published 4 (Cluster.buildFrame 4 0
    (Cluster.handler (Cluster.VelocityReport (f_of_Z 10))
       (Cluster.handler (Cluster.GearReport 2) Cluster.FrameState_default)))).
Proof.
  refine (eq_trans (proj2 (next_frame_shows_all_arrivals (topic := Cluster.topic) cluster_arrivals
            Cluster.FrameState_default [0; 1; 2; 3] 4 _ _)) _).
  - unfold undisturbed, cluster_arrivals. rewrite !elem_of_cons, elem_of_nil. naive_solver.
  - reflexivity.
  - vm_compute. reflexivity.
Defined.

Definition waiting : list (BridgeAction Z Cluster.Msg) := [StrandRuns 0].
Definition expired : list (BridgeAction Z Cluster.Msg) := [StrandRuns 0; TimerExpires].

Lemma waiting_undisturbed : undisturbed waiting.
Proof. unfold undisturbed, waiting. rewrite list_elem_of_singleton. done. Qed.
Lemma expired_undisturbed : undisturbed expired.
Proof. unfold undisturbed, expired. rewrite !elem_of_cons, elem_of_nil. naive_solver. Qed.

(** Shut down while the timer waits, one turn of the thread ends it; shut down while the tick is on
    the strand, the thread still runs after the tick. *)
Lemma shutdown_joins_iff_timer_waits_witness :
  io_running (final (act_all (Ops := Cluster.ClusterBridge_ops) [ShutdownCalled; StrandRuns 1])
                    (bridge_after waiting Cluster.FrameState_default)) = false ∧
  io_running (final (act_all (Ops := Cluster.ClusterBridge_ops) [ShutdownCalled; StrandRuns 1])
                    (bridge_after expired Cluster.FrameState_default)) = true.
Proof.
  split.
  - refine (proj2 (proj1 (shutdown_joins_iff_timer_waits (Ops := Cluster.ClusterBridge_ops)
             waiting Cluster.FrameState_default waiting_undisturbed) _) [1] _).
    + reflexivity.
    + vm_compute. lia.
  - refine (proj2 (shutdown_joins_iff_timer_waits (Ops := Cluster.ClusterBridge_ops)
             expired Cluster.FrameState_default expired_undisturbed) _ [StrandRuns 1] _).
    + reflexivity.
    + unfold undisturbed. rewrite list_elem_of_singleton. done.
Defined.

(** A trip bridge: a heartbeat at 2 s, and a tick at 2.5 s. *)
Definition trip_now (ms : Z) : TripFrames.Surroundings :=
  TripFrames.mkSurroundings (ms * 1000000) (ms * 1000000) TripStatus_default.
Definition trip_run : list (BridgeAction TripFrames.Surroundings TripFrames.Msg) :=
  [StrandRuns (trip_now 0); MessagePosted TripFrames.Heartbeat; StrandRuns (trip_now 2000);
   TimerExpires; StrandRuns (trip_now 2500)].
#[local] Abbreviation trip_history l :=
  (history (Ops := TripFrames.TripBridge_ops) l (TripFrames.TripBody_new 0)).
Definition trip_frame : vehicle_frame.TripFrame :=
  match last (trip_history trip_run) with
  | Some (Published _ f) => f
  | _ => TripFrames.buildFrame 0 0 TripFrames.TripFrameState_default
  end.
Lemma trip_run_published :
  trip_history trip_run =
  split_last (trip_history trip_run) ++ [Published (trip_now 2500) trip_frame].
Proof. vm_compute. reflexivity. Qed.

Lemma trip_frame_shows_status_witness :
  vehicle_frame.tf_trip_state trip_frame = vehicle_frame.TRIP_IDLE ∧
  vehicle_frame.tf_system_alive trip_frame = true.
Proof.
  pose proof (trip_frame_shows_status trip_run 0 _ (trip_now 2500) trip_frame []
                trip_run_published) as (Hs & _ & _ & _ & _ & _ & _ & Ha).
  rewrite Hs, Ha. split; [reflexivity|]. vm_compute. reflexivity.
Defined.

(** Perception, with a point cloud library that leaves clouds as they are. *)
Definition fixture_pcl : Pcl := {|
  PointCloud2 := list (float32 * float32 * float32);
  fromROSMsg := id;
  voxel_filter _ := id;
  atan2_of _ _ := d0
|}.
#[local] Existing Instance fixture_pcl.
Definition light_groups : list TrafficLightGroup :=
  [mkTrafficLightGroup 7 [mkTrafficLightElement 1 (flit 1 2); mkTrafficLightElement 3 (flit 9 10)];
   mkTrafficLightGroup 8 []].

Lemma perception_frame_shows_strongest_lights_witness :
  Forall2 (λ g tl, vehicle_frame.tl_traffic_id tl = traffic_light_group_id g)
    [mkTrafficLightGroup 7 [mkTrafficLightElement 1 (flit 1 2); mkTrafficLightElement 3 (flit 9 10)]]
    (vehicle_frame.pe_traffic_lights
       (Perception.buildFrame 0 0
          (Perception.handler (Perception.TrafficSignals light_groups)
             Perception.PerceptionFrameState_default))).
Proof.
  eapply Forall2_impl.
  - apply (perception_frame_shows_strongest_lights light_groups
             Perception.PerceptionFrameState_default 0 0).
    intros g e Hg He. unfold light_groups in Hg.
    repeat (apply elem_of_cons in Hg as [->|Hg]; [cbn in He|]); [| |by apply elem_of_nil in Hg].
    + repeat (apply elem_of_cons in He as [->|He]; [vm_compute; reflexivity|]).
      by apply elem_of_nil in He.
    + by apply elem_of_nil in He.
  - by intros g tl [? _].
Defined.
