(* ===== verification/AgentWitnesses.v ===== *)
(** * AgentWitnesses: the properties of the node, the stream and the application, evaluated

    The theorems of [NodeTheorems], [StreamTheorems] and [AppTheorems] at concrete schedules, on
    the map of [Fixture], with the configuration of [MapProjector] and ten ticks a second. *)

From S2P Require Export TripWitnesses AppTheorems AppReports.
Import Controller Stream Location App.

#[local] Existing Instance fixture_lanelet2.
#[local] Existing Instance fixture_laws.
#[local] Existing Instance documented_msgs.
#[local] Existing Instance tree_yaml.

(** ** The node *)

Definition ten_hz : double := d_of_Z 10.
Definition here : Surroundings := mkSurroundings (Some depot_tf) true true.

(** initialize, localise, ask for a trip, and let the I/O thread run. *)
Definition commands : list Action :=
  [CallStartTrip (Some 1%nat); RunNext here; MessageArrives (MLocState 3);
   TimerFires; CallQueryEta pickup_gps goal_gps (Some 0%nat); RunNext here; RunNext here;
   RunNext here; CallMove (Some 2%nat); CallGetTripStatus (Some 3%nat); RunNext here;
   CallCancelTrip; RunNext here].
Definition busy : list Action := CallInitialize :: commands.

(** The trip controller holds the query when the schedule ends; the cancellation on the strand will
    forget it. *)
Lemma commands_answered_in_order_witness :
  let n0 := Node_new fixture_started ten_hz in
  omap answered (Controller.trace (H0 := fast) busy n0) ++
  omap job_cb (strand_ (Controller.after (H0 := fast) busy n0)) = [1; 2; 3]%nat ∧
  (1 = occurs eta_answer 0 (Controller.trace (H0 := fast) busy n0) +
       occurs eta_job 0 (strand_ (Controller.after (H0 := fast) busy n0)) +
       query_held 0 (Controller.after (H0 := fast) busy n0) +
       forgotten (H0 := fast) 0 busy n0)%nat.
Proof.
  destruct (commands_answered_in_order (H0 := fast) fixture_started ten_hz busy fixture_rm_inv)
    as [Hord Hq].
  split; [exact Hord|exact (Hq 0%nat)].
Defined.
Lemma busy_query_fate :
  let busy' := busy ++ [RunNext here; RunNext here] in
  query_held 0 (Controller.after (H0 := fast) busy (Node_new fixture_started ten_hz)) = 1%nat ∧
  forgotten (H0 := fast) 0 busy' (Node_new fixture_started ten_hz) = 1%nat.
Proof. split; vm_compute; reflexivity. Qed.

Definition early : Node LaneletMap :=
  mkNode fixture_started None (Some 100) ten_hz [JStartTrip (Some 1%nat)] true false false 0.

Lemma refused_before_initialize_witness :
  run_next (H0 := fast) here early = (Ret (), early <| strand_ := [] |>, [Answer 1 false]).
Proof.
  by apply (refused_before_initialize (H0 := fast) early here (JStartTrip (Some 1%nat)) []).
Defined.

Lemma node_refines_trip_witness :
  let n := Controller.after (H0 := fast) (CallInitialize :: commands)
             (Node_new fixture_started ten_hz) in
  let tr := Controller.trace (H0 := fast) (CallInitialize :: commands)
              (Node_new fixture_started ten_hz) in
  bool_decide (is_Some (trip_ctrl_ n)) = true ∧
  match trip_ctrl_ n with
  | None => tr = [] ∧ ∃ q, strand_ n = JInitialize :: q ∧
                           omap job_command q = omap action_command commands
  | Some c =>
    ∃ li, world n c = run (H0 := fast) li (boot (H0 := fast) TripTimings_default fixture_started) ∧
          omap seen tr =
          omap visible (outputs (boot_op (H0 := fast))
                          (mkWorld (TripController_init TripTimings_default) fixture_started 0) ++
                        run_outputs (H0 := fast) li
                          (boot (H0 := fast) TripTimings_default fixture_started)) ∧
          omap input_command li ++ omap job_command (strand_ n) = omap action_command commands
  end.
Proof.
  assert (Hnew : CallInitialize ∉ commands)
    by (unfold commands; rewrite !elem_of_cons, elem_of_nil; intros H; by destruct_or! H).
  pose proof (node_refines_trip (H0 := fast) fixture_started ten_hz commands fixture_rm_inv Hnew)
    as Href.
  cbv zeta in Href |- *. split; [vm_compute; reflexivity|exact Href].
Defined.

Lemma map_path_forms_witness :
  map_paths "/maps/town.osm" = ("/maps", "/maps/town.osm") ∧
  map_paths "town.osm" = (".", "town.osm").
Proof.
  destruct (map_path_forms "/maps" "town" eq_refl) as (H1 & H2 & _). by split.
Defined.

Definition fixture_node : Node LaneletMap :=
  match AutowareController_new (λ _, true) [] "/maps" ten_hz with
  | Ret n => n
  | Throw _ => early
  end.

Lemma agent_from_files_witness :
  result (Controller.act (H0 := fast) CallCancelTrip)
         (Controller.after (H0 := fast) busy fixture_node) = Ret () ∧
  state_ (getTripStatusSync (Controller.after (H0 := fast) busy fixture_node)) ≠ TripState.FAILED.
Proof.
  apply (agent_from_files (H1 := tree_yaml) (H2 := fast) (λ _, true) [] "/maps" ten_hz _ 100).
  - vm_compute. reflexivity.
  - vm_compute. reflexivity.
Defined.

(** ** The stream *)

Definition vin : string := "ORIN_NANO_001".
Definition adapter : AutowareControllerTripAdapter := mkTripAdapter TripStatus_default 7.
Definition cluster : ClusterView := mkClusterView f0 d0 d0 7.
Definition open_connection : Connection := mkConnection false false Waiting (Checking 8) true.
Definition broken_connection : Connection :=
  mkConnection true true (Writing (TripCancelAck true "")) (Sleeping 8) true.
Definition live_connection : Connection := mkConnection false true Waiting WatchdogDone true.
Definition writing_connection : Connection :=
  mkConnection false true (Writing (TripCancelAck true "")) WatchdogDone true.

Definition client_with (k : Connection) : Client :=
  mkStreamClient adapter (Some cluster) (Some cluster) vin true 7 false
    [TripInitAck true "accepted"; StatusEvent vin 7 "IN_PROGRESS"] (Some k) AtLoop.

Lemma writer_drains_queue_witness :
  Stream.trace (replicate 4 (WriterStep true)) (client_with open_connection) =
    [Sent (TripInitAck true "accepted"); Sent (StatusEvent vin 7 "IN_PROGRESS")] ∧
  write_queue_ (Stream.after (replicate 4 (WriterStep true)) (client_with open_connection)) = [].
Proof.
  destruct (writer_drains_queue (client_with open_connection) open_connection)
    as (Ht & Hq & _); by repeat split.
Defined.

Lemma broken_stream_reopens_witness :
  connection (Stream.after [ReaderStep None; WriterStep false; WatchdogStep 9; WatchdogStep 9;
                            FinishStream 9; Open 2000000008; Open 2000000010]
                           (client_with broken_connection)) =
    Some (mkConnection false false Waiting (Checking 10000000010) true).
Proof.
  destruct (broken_stream_reopens (client_with broken_connection) broken_connection 8 9
              2000000008 2000000010) as (_ & Hc & _); [done..| |lia|lia|exact Hc].
  rewrite !elem_of_cons. by right; right; left.
Defined.

(** A gateway that ends the first stream at once and fails a write on the second. *)
Definition lossy_schedule : list StreamAction :=
  [Open 0; ReaderStep None; WriterStep true; WatchdogStep 8000000000; WatchdogStep 8000000000;
   FinishStream 8000000000; DoReport RTripInitAck; Open 9000000000; Open 10000000000;
   WriterStep true; WriterStep false].
Lemma stream_loss_bounded_witness :
  let tr := Stream.trace lossy_schedule (StreamClient_new adapter cluster cluster vin 0) in
  length (omap lost tr) = 1%nat ∧ length (omap connected tr) = 2%nat ∧
  Z.of_nat (length (omap connected tr)) ≤ 1 + (10000000000 - 0) / 2000000000.
Proof.
  split; [reflexivity|]. split; [reflexivity|].
  apply (stream_loss_bounded lossy_schedule 0 10000000000). cbn. lia.
Defined.

Lemma foreign_command_ignored_witness :
  Stream.act (ReaderStep (Some (TripMove "OTHER" 9))) (client_with live_connection) =
  (Ret (), client_with live_connection, []).
Proof. by apply (foreign_command_ignored (client_with live_connection) (TripMove "OTHER" 9)). Defined.

Lemma own_command_dispatched_witness :
  current_request_id_ (final (Stream.act (ReaderStep (Some (TripInit
    (mkTripInitRequest vin 9 d0 d0 d1 d1))))) (client_with live_connection)) = 9.
Proof.
  by apply (own_command_dispatched (client_with live_connection) live_connection
              (TripInit (mkTripInitRequest vin 9 d0 d0 d1 d1))).
Defined.

Lemma watchdog_cancels_silent_stream_witness :
  Stream.trace [WatchdogStep 9; WatchdogStep 9] (client_with open_connection) = [TryCancel].
Proof.
  apply (watchdog_cancels_silent_stream (client_with open_connection) open_connection 8 9);
    [done|rewrite elem_of_cons; by left|lia].
Defined.

Lemma established_stream_cancelled_by_failed_write_witness :
  TryCancel ∈ outputs (Stream.act (WriterStep false)) (client_with writing_connection) ∧
  ∃ ev, writer writing_connection = Writing ev.
Proof.
  assert (Hin : TryCancel ∈ outputs (Stream.act (WriterStep false)) (client_with writing_connection))
    by (assert (Ho : outputs (Stream.act (WriterStep false)) (client_with writing_connection) =
                     [WriteFailed (TripCancelAck true ""); TryCancel; WritesDone]) by reflexivity;
        rewrite Ho, !elem_of_cons; by right; left).
  split; [exact Hin|].
  by apply (established_stream_cancelled_by_failed_write (client_with writing_connection)
              writing_connection (WriterStep false)).
Defined.

(** ** The application *)

(** The application around a trip under way, with one handler on the strand. *)
Definition node_of (w : World LaneletMap) (q : list Job) : Node LaneletMap :=
  mkNode (TripController.lanelet_map_ w) (Some (ctrl w)) (Some 100) ten_hz q true true true
    (reads w).
Definition app_of (w : World LaneletMap) (q : list Job) : AppHandles LaneletMap :=
  mkAppHandles (node_of w q) (client_with live_connection) LocationBridge_new.

Definition driving : World LaneletMap := at_ fast (to_ready ++ take 6 (drive true true)).

Lemma node_of_inv cl l q : node_inv (node_of (at_ cl l) q).
Proof.
  pose proof (reachable_inv (H0 := cl) _ (at_reachable cl l)) as Hinv.
  unfold node_inv. cbn [trip_ctrl_ node_of]. unfold world. cbn. by destruct (at_ cl l).
Qed.

Lemma arrival_reported_witness :
  write_queue_ (stream_client_ (final (App.act (H0 := fast) (NodeRun here)) (app_of driving [JTick]))) =
  write_queue_ (client_with live_connection) ++
  told TripState.WAITING_FOR_MOVE vin 7 (rm_localToGps (TripController.lanelet_map_ driving) depot_tf).
Proof.
  refine (proj1 (proj2 (arrival_reported (H0 := fast) (app_of driving [JTick]) here [] (ctrl driving)
    TripState.WAITING_FOR_MOVE _ _ _ _ _ _ _ _))).
  1: apply node_of_inv.
  all: vm_compute; reflexivity.
Defined.

Lemma node_events_reported_witness :
  let h := app_of driving [JTick] in
  let events := node_events (outputs (App.act (H0 := fast) (NodeRun here)) h) in
  let h' := final (App.act (H0 := fast) (NodeRun here)) h in
  flags_posted h' = flags_posted h ++ (events ≫= flags_of) ∧ flags_posted h' = [false].
Proof.
  cbv zeta. split; [|vm_compute; reflexivity].
  destruct (node_events_reported (H0 := fast) (app_of driving [JTick]) (NodeRun here))
    as (now & rest & -> & _ & -> & _ & _ & Hrest).
  - split; [apply node_of_inv|]. eexists. vm_compute. reflexivity.
  - exact I.
  - destruct rest as [|e rest]; [by rewrite app_nil_r|].
    destruct e; try contradiction. destruct Hrest as [Hr _]. vm_compute in Hr. discriminate Hr.
Defined.

Lemma refused_request_renames_trip_witness :
  let h' := App.after (H0 := fast)
    [ClientStep (ReaderStep (Some (TripInit (mkTripInitRequest vin 9 d0 d0 d1 d1)))); NodeRun here]
    (app_of driving []) in
  trip_ctrl_ (controller_ h') = Some (ctrl driving) ∧
  GetActiveTripId (trip_manager_ (stream_client_ h')) = 9.
Proof.
  destruct (refused_request_renames_trip (H0 := fast) (app_of driving []) here live_connection
    (ctrl driving) (mkTripInitRequest vin 9 d0 d0 d1 d1)) as (Hc & _ & Hid & _).
  1-7: reflexivity.
  1: vm_compute; discriminate.
  cbv zeta. split; [exact Hc|exact Hid].
Defined.

Definition fixture_app : AppHandles LaneletMap :=
  match startAutowareApp_body (H1 := fast) (λ _, true) [] "/maps" ten_hz with
  | Ret h => h
  | Throw _ => app_of driving []
  end.

Lemma agent_never_throws_witness :
  result (App.act (H0 := fast) (NodeRun here))
    (App.after (H0 := fast) [NodeTimer; NodeRun here; ClientStep (Open 5)] fixture_app) = Ret () ∧
  state_ (getTripStatusSync (controller_ (App.after (H0 := fast)
    [NodeTimer; NodeRun here; ClientStep (Open 5)] fixture_app))) ≠ TripState.FAILED.
Proof.
  apply (agent_never_throws (H2 := fast) (λ _, true) [] "/maps" ten_hz fixture_app).
  vm_compute. reflexivity.
Defined.
