(* ===== verification/BridgedWitnesses.v ===== *)
(** * BridgedWitnesses: the theorems of the whole agent at concrete executions *)

From S2P Require Export AgentTheorems Adapters AgentWitnesses BridgeWitnesses.
Import FrameBridge Agent.
#[local] Existing Instances documented_msgs fixture_lanelet2 fixture_laws tree_yaml fixture_pcl.

Definition fixture_agent : Handles LaneletMap :=
  match startAgent (H1 := fast) (λ _, true) [] "/maps" ten_hz 0 with
  | Ret h => h
  | Throw _ => Handles_new fixture_app 0
  end.

(** The node initialises, and the trip bridge ticks. *)
Definition copied (now stamp : Z) : AgentAction :=
  TripDoes (StrandRuns (TripFrames.mkSurroundings now stamp
    (status_of_agent (after (H0 := fast) [AppDoes (App.NodeRun here)] fixture_agent)))).
Definition agent_run : list AgentAction :=
  [AppDoes (App.NodeRun here); copied 0 0; ClusterDoes (StrandRuns 0); TripDoes TimerExpires].

(** The gateway asks for a trip, and the query is run to its answer. *)
Definition turn : AgentAction := AppDoes (App.NodeRun here).
Definition tick_now : list AgentAction := [AppDoes App.NodeTimer; turn].
Definition hears (m : Controller.Message) : list AgentAction :=
  [AppDoes (App.NodeMessage m); turn].
Definition one_leg (d t : Z) : list AgentAction :=
  tick_now ++ tick_now ++ tick_now ++ hears (Controller.MRouteState 2) ++ tick_now ++
  hears (Controller.MEta (d_of_Z d) (d_of_Z t)).
Definition asked_run : list AgentAction :=
  [turn] ++ hears (Controller.MLocState 3) ++ tick_now ++
  [AppDoes (App.ClientStep (Stream.Open 0));
   AppDoes (App.ClientStep (Stream.ReaderStep (Some (Stream.TripInit
     (Stream.mkTripInitRequest "ORIN_NANO_001" 7 (longitude pickup_gps) (latitude pickup_gps)
        (longitude goal_gps) (latitude goal_gps))))));
   turn] ++ one_leg 120 30 ++ tick_now ++ one_leg 900 95 ++ [AppDoes App.NodeTimer].

Lemma whole_agent_outcome_witness :
  result (act (H0 := fast) turn) (after (H0 := fast) asked_run fixture_agent) =
  Throw UndefinedBehaviour.
Proof.
  rewrite (whole_agent_outcome (H2 := fast) (λ _, true) [] "/maps" ten_hz 0 fixture_agent asked_run
             turn) by (vm_compute; reflexivity).
  vm_compute. reflexivity.
Defined.

Lemma no_trip_begins_witness :
  state_ (status_of_agent (after (H0 := fast) asked_run fixture_agent)) =
    TripState.QUERY_READING_ETA ∧
  before_trip (state_ (status_of_agent (after (H0 := fast) (asked_run ++ [turn]) fixture_agent))) =
    true ∧
  result (act (H0 := fast) turn) (after (H0 := fast) asked_run fixture_agent) =
    Throw UndefinedBehaviour.
Proof.
  split; [vm_compute; reflexivity|].
  destruct (no_trip_begins (H2 := fast) (λ _, true) [] "/maps" ten_hz 0 fixture_agent asked_run turn)
    as (Hst & _ & Hub).
  - vm_compute. reflexivity.
  - vm_compute. repeat split.
  - split; [exact Hst|]. apply Hub. vm_compute. reflexivity.
Defined.

Definition agent_tick : TripFrames.Surroundings * vehicle_frame.TripFrame :=
  match last (trip_events (outputs (act (H0 := fast) (copied 16 17))
                             (after (H0 := fast) agent_run fixture_agent))) with
  | Some (Published e f) => (e, f)
  | _ => (TripFrames.mkSurroundings 0 0 TripStatus_default,
          TripFrames.buildFrame 0 0 TripFrames.TripFrameState_default)
  end.

Lemma agent_trip_frames_truthful_witness :
  state_ (TripFrames.status agent_tick.1) = TripState.INITIALIZING_IN_MAP ∧
  vehicle_frame.tf_trip_state agent_tick.2 ≠ vehicle_frame.TRIP_FAILED.
Proof.
  split; [vm_compute; reflexivity|].
  destruct (agent_trip_frames_truthful (H2 := fast) (λ _, true) [] "/maps" ten_hz 0
              fixture_agent agent_run (copied 16 17) agent_tick.1 agent_tick.2)
    as (_ & _ & _ & _ & _ & Hnf).
  - vm_compute. reflexivity.
  - assert (Hout : outputs (act (H0 := fast) (copied 16 17))
                     (after (H0 := fast) agent_run fixture_agent) =
                   [TripOut (Published agent_tick.1 agent_tick.2)]) by (vm_compute; reflexivity).
    rewrite Hout. by apply list_elem_of_singleton.
  - apply Hnf. vm_compute. reflexivity.
Defined.

(** stopAutowareApp before the trip bridge, whose timer has just expired. *)
Definition trip_expired : list (BridgeAction TripFrames.Surroundings TripFrames.Msg) :=
  [StrandRuns (trip_now 0); TimerExpires].
Definition stopping_agent : Stopping (Mp := LaneletMap) :=
  mkStopping 4 (fixture_agent <| trip_bridge_ :=
    bridge_after (Ops := TripFrames.TripBridge_ops) trip_expired (TripFrames.TripBody_new 0) |>).

Lemma stop_hangs_on_expired_timer_witness :
  stop_pc (stop_run (H0 := fast)
    [None; Some (copied 16 17); None; Some (copied 18 19); None]
    stopping_agent) = 5%nat.
Proof.
  apply (stop_hangs_on_expired_timer (H0 := fast) trip_expired 0 stopping_agent
    [Some (copied 16 17); None; Some (copied 18 19); None]).
  - reflexivity.
  - unfold undisturbed, trip_expired. rewrite !elem_of_cons, elem_of_nil. naive_solver.
  - reflexivity.
  - reflexivity.
  - rewrite !elem_of_cons, elem_of_nil. naive_solver.
Defined.
