(* ===== verification/MainWitnesses.v ===== *)
(** * MainWitnesses: the process, the keys and the diagnoses at concrete inputs *)

From stdpp Require Import sorting.
From S2P Require Export MainTheorems ZenohTheorems SharedTheorems MapDebugTheorems BridgedWitnesses MapTheorems.
Import FrameBridge Agent Main Zenoh.
#[local] Existing Instances documented_msgs fixture_lanelet2 fixture_laws tree_yaml fixture_pcl.

(** ** The process *)
Definition fixture_process : Process LaneletMap :=
  match main_start (H1 := fast) (λ _, true) "/test" "/maps" "/opt" 0 with
  | Ret p => p
  | Throw _ => mkProcess Polling false true true (mkStopping 0 fixture_agent)
  end.

Definition bridge_turns : list AgentAction :=
  [planning_turn; perception_turn; trip_turn; cluster_turn; location_turn].
(** main stops one part, and its thread ends. *)
Definition part_stop (turn : AgentAction) : list ProcessAction :=
  MainTurn :: replicate 3 (Thread turn) ++ [MainTurn].
(** The bridges initialise; the signal arrives; everything ends in the order of the stop. *)
Definition whole_life : list ProcessAction :=
  (Thread <$> bridge_turns ++ bridge_turns) ++ [SignalArrives; MainTurn] ++
  (bridge_turns ≫= part_stop) ++
  MainTurn :: (Thread <$> client_actions (client_turns (client_of fixture_agent))) ++ [MainTurn; SpinReturns; MainTurn].

Lemma main_returns_stopped_witness :
  let p := process_after (H0 := fast) whole_life fixture_process in
  stage p = Returned ∧ ros_thread_ p = false ∧
  io_running (trip_bridge_ (stopping (app_handles p))) = false.
Proof.
  destruct (main_returns_stopped (H2 := fast) (λ _, true) "/test" "/maps" "/opt" 0 fixture_process
    whole_life) as (_ & Hr & _ & _ & Ht & _).
  - vm_compute. reflexivity.
  - vm_compute. reflexivity.
  - split; [vm_compute; reflexivity|]. exact (conj Hr Ht).
Defined.

Lemma main_can_return_witness :
  let l := (Thread <$> bridge_turns ++ bridge_turns) ++ [MainTurn] in
  ∃ l', stage (process_after (H0 := fast) (l ++ SignalArrives :: l') fixture_process) = Returned.
Proof.
  apply (main_can_return (H2 := fast) (λ _, true) "/test" "/maps" "/opt" 0 fixture_process).
  - vm_compute. reflexivity.
  - vm_compute. reflexivity.
Defined.

(** ** The keys: a frame is written as its number *)
Definition number_serializers : Serializers := {|
  serialize_vehicle f := to_string (vehicle_frame.vf_seq f);
  serialize_planning f := to_string (vehicle_frame.pf_seq f);
  serialize_perception f := to_string (vehicle_frame.pe_seq f);
  serialize_trip f := to_string (vehicle_frame.tf_seq f);
  dump j := to_string (Location.tripId j)
|}.
#[local] Existing Instance number_serializers.

Lemma subscribers_receive_witness :
  let t := trace (H0 := fast) (agent_run ++ [copied 16 17]) fixture_agent in
  let s := session_after t (mkSession [] []) in
  received "autoware/trip" s = ["0"] ∧ received "autoware/cluster" s = [] ∧
  numbered vehicle_frame.tf_seq (frames_published (trip_events t)).
Proof.
  destruct (subscribers_receive (H1 := fast) (λ _, true) [] "/maps" ten_hz 0 fixture_agent (agent_run ++ [copied 16 17])
    (mkSession [] [])) as (Hc & _ & _ & Ht & _ & _ & _ & _ & Hn).
  - vm_compute. reflexivity.
  - cbv zeta. rewrite Hc, Ht. split; [vm_compute; reflexivity|].
    split; [vm_compute; reflexivity|]. exact Hn.
Defined.

(** ** Reads under the lock: a position read while the next one is being written *)
Definition two_positions : list Cluster.Msg :=
  [Cluster.VehicleKinematics d0 d0 d1 d1; Cluster.VelocityReport f0;
   Cluster.VehicleKinematics d0 d0 d0 d1].
Definition two_requests : list Stream.GatewayCommand :=
  [Stream.TripInit (Stream.mkTripInitRequest vin 5 d0 d0 d1 d1);
   Stream.TripInit (Stream.mkTripInitRequest "OTHER" 6 d0 d0 d1 d1)].
Definition two_calls : list (list Shared.Field) :=
  [Shared.GetCurrentLocation_reads; Shared.GetEta_reads].
Definition calls_interleaved : list nat := [0; 0; 2; 0; 0; 2; 0; 2; 0; 2; 2; 3; 1; 3; 3; 3; 0; 0]%nat.
Lemma adapter_reads_snapshot_witness :
  let m := Shared.run calls_interleaved
             (Shared.cluster_machine Cluster.FrameState_default 0 vin two_positions two_requests
                two_calls) in
  Shared.threads m !! 2%nat =
    Some (Shared.mkThread [] [(Shared.Longitude, Shared.Num d1); (Shared.Latitude, Shared.Num d1)]) ∧
  Shared.threads m !! 3%nat =
    Some (Shared.mkThread [] [(Shared.RequestId, Shared.Id 5);
                              (Shared.RemainingTime, Shared.Num d0)]) ∧
  ∃ id, Shared.Id 5 = Shared.Id id ∧ id ∈ 0 :: (two_requests ≫= Shared.request_of vin).
Proof.
  split; [vm_compute; reflexivity|]. split; [vm_compute; reflexivity|].
  destruct (adapter_reads_snapshot Cluster.FrameState_default 0 vin two_positions two_requests
    two_calls calls_interleaved 1 Shared.GetEta_reads
    (Shared.mkThread [] [(Shared.RequestId, Shared.Id 5); (Shared.RemainingTime, Shared.Num d0)]))
    as (_ & k & _ & Hread).
  - reflexivity.
  - vm_compute. reflexivity.
  - reflexivity.
  - apply (Hread Shared.RequestId (Shared.Id 5)); [|reflexivity]. by left.
Defined.

(** ** The diagnoses: std::sort as merge sort *)
Section Sort.
Context {A : Type} (lt : A → A → bool).
(** [a] may stand before [b]. *)
Definition before (a b : A) : Prop := lt b a = false.
#[export] Instance before_dec : RelDecision before.
Proof. intros a b. unfold before. apply _. Defined.
Definition sort_by (l : list A) : list A := merge_sort before l.
End Sort.

#[refine] Definition merge_sorts : StdSort := {| std_sort A lt l := sort_by lt l |}.
Proof.
  - intros A lt l. apply merge_sort_Permutation.
  - intros A key l. unfold sort_by.
    assert (Hle : ∀ a b, before (λ a b, Nat.ltb (key b) (key a)) a b ↔ (key b ≤ key a)%nat)
      by (intros a b; unfold before; rewrite Nat.ltb_ge; done).
    assert (Transitive (before (λ a b, Nat.ltb (key b) (key a))))
      by (intros a b c; rewrite !Hle; lia).
    assert (Total (before (λ a b, Nat.ltb (key b) (key a))))
      by (intros a b; rewrite !Hle; lia).
    induction (StronglySorted_merge_sort (before (λ a b, Nat.ltb (key b) (key a))) l)
      as [|x l' _ IH Hx]; constructor; [done|].
    eapply Forall_impl; [exact Hx|]. intros y. apply Hle.
Defined.
#[local] Existing Instance merge_sorts.

Lemma best_starting_lanes_witness :
  debugFindBestStartingLane fixture_started =
    [TopHeader; Reaches 0 10 3; Reaches 1 20 2; BottomHeader; ReachesOnly 20 2; ReachesOnly 10 3] ∧
  ∃ top rest, reach_counts fixture_layer fixture_layer ≡ₚ top ++ rest ∧ length top = 2%nat.
Proof.
  split; [vm_compute; reflexivity|].
  destruct (best_starting_lanes fixture_started fixture_layer)
    as (top & rest & bottom & rest' & _ & Hp & Hl & _).
  - vm_compute. reflexivity.
  - exists top, rest. exact (conj Hp Hl).
Defined.

Lemma components_reported_witness :
  ∃ cs sorted, debugConnectedComponents_log fixture_started =
    Some (ComponentsTotal (length cs) :: concat (imap component_lines sorted)) ∧ sorted ≡ₚ cs.
Proof.
  destruct (components_reported fixture_started fixture_layer) as (cs & sorted & Hlog & Hp & _).
  - exact fixture_started_wf.
  - vm_compute. reflexivity.
  - intros ll n _ Hn. unfold neighbours in Hn.
    repeat (apply elem_of_app in Hn as [Hn|Hn]).
    + by apply list_elem_of_filter in Hn as [_ ?].
    + by apply list_elem_of_filter in Hn as [_ ?].
    + by apply elem_of_nil in Hn.
    + by apply elem_of_nil in Hn.
  - exists cs, sorted. exact (conj Hlog Hp).
Defined.
